(* ===== verification/_CoqProject ===== *)
-Q . S2P
Prelude.v
FreeQueue.v
Request.v
BlockHash.v
BlockPool.v
CacheSpec.v
SingleType.v
PrefixHit.v
Ownership.v
Coordinator.v
Ledger.v
Admission.v
Stats.v
KVManager.v
EncoderCache.v
EncoderSched.v
Heap.v
RequestQueue.v
SchedUtils.v
KVCache.v
Scheduler.v
SchedInv.v
SchedBooks.v
SchedPlan.v
SchedRunning.v
SchedWaiting.v
SchedStep.v
SchedUpdate.v
SchedCalls.v
Engine.v
EngineSafe.v
FullManager.v
KVStandard.v
EngineLoop.v
Planning.v
PlanMemory.v
PlanSizes.v
PlanGroups.v
PlanFits.v
PlanWorkers.v
StartUp.v
BlockTable.v
SlotMapping.v
TurboQuant.v
