(* ===== verification/Prelude.v ===== *)
(** * Verification of the KV-cache stack of vLLM and of TurboQuant

    The repository holds vLLM 0.20.2 (src/vllm-0.20.2), its Ascend plugin
    (src/vllm-ascend-0.20.2rc1) with TurboQuant quantisation of the KV cache,
    and the design documents of that change (src/openspec).  This library
    models the part that decides which memory a token's keys and values live
    in, and when it is computed: planning the KV cache, the KV-cache block stack of
    vllm/v1/core, the encoder cache, the scheduler, the engine's busy loop around
    them, and the bytes TurboQuant keeps per token.  Python classes become
    records, methods become functions in a state-and-exception monad, and the
    objects that are shared and mutated (blocks linked into the free queue,
    requests) live in a store.  Definitions keep the names of the source.

    ** Parts and files

    - [Prelude] (this file): exceptions, the monad [M S A] with its notation,
      the predicates [succeeds] (returns, with a postcondition), [returns] and
      [leaves] (whatever the outcome), Python integers and slices ([cdiv],
      [py_slice], [py_index], ...), ordered dictionaries, tactics.
    - [FreeQueue]: [KVCacheBlock] and [FreeKVCacheBlockQueue] of
      kv_cache_utils.py, a doubly linked list through a store of blocks, and
      its refinement of a list queue.
    - [Request]: request status, sampling parameters, multi-modal placeholders
      and the [Request] record (vllm/v1/request.py).
    - [BlockHash]: hash keys, extra keys, incremental block hashing
      (kv_cache_utils.py, request.py).
    - [BlockPool]: the cache map and the pool of block_pool.py, the
      representation predicate [pool_rep] (free queue, references, blocks set
      aside) and the pool as a transition system.
    - [CacheSpec]: the specification classes of kv_cache_interface.py.
    - [SingleType]: the per-group managers of single_type_kv_cache_manager.py
      (allocation, recycling, caching, freeing; dispatch on [m_class]).
    - [PrefixHit]: their prefix-cache search and the contract [Finder] the
      coordinator relies on.
    - [Ownership]: who holds which block; the managers' operations when they
      succeed.
    - [Coordinator]: kv_cache_coordinator.py, with the fixed-point search over
      hybrid groups.
    - [Ledger]: every operation of managers and coordinator keeps the reference
      counts, also when it raises half-way.
    - [Admission]: the admission check over all groups is sufficient.
    - [Stats]: prefix-cache statistics (metrics/stats.py).
    - [KVManager]: kv_cache_manager.py, the facade the scheduler uses.
    - [EncoderCache]: encoder_cache_manager.py; the class [EncoderCache] is what
      the scheduler calls, [EncoderCacheLaws] what it relies on, with an instance
      per manager.
    - [EncoderSched]: the encoder inputs in sched/scheduler.py (planning,
      allocation, freeing), proved against that class.
    - [Heap]: Python's heapq and its contract.
    - [RequestQueue]: sched/request_queue.py over [Heap].
    - [SchedUtils]: sched/utils.py, repetition detection and [check_stop].
    - [KVCache]: the interface between the scheduler and the KV cache: the
      calls ([KVCache]) and the promises the scheduler builds on ([KVCacheLaws]).
    - [Scheduler]: sched/scheduler.py and sched/async_scheduler.py over those
      interfaces: the queues, [schedule] with preemption, [update_from_output],
      adding and finishing requests, draft tokens, resets.
    - [SchedInv]: the scheduler's invariant [sinv] and preemption.  [SchedBooks]:
      what a step has decided so far ([booked]); [SchedPlan]: one request;
      [SchedRunning], [SchedWaiting]: the two loops of [schedule]; [SchedStep]: the
      whole step; [SchedUpdate]: [update_from_output] against the model runner's
      contract; [SchedCalls]: adding, finishing, resetting.
    - [Engine]: engine/core.py, [EngineCore] (step, aborts, pause, resets) and
      [EngineCoreProc] (one iteration of [run_busy_loop], client requests,
      shutdown).  [EngineSafe]: an iteration keeps the invariant and never fails.
    - [FullManager], [KVStandard]: [KVCacheManager] for one full-attention group
      satisfies [KVCacheLaws].  [EngineLoop]: the theorems about the engine, over
      the interfaces and over the real managers.
    - [Planning]: the rest of kv_cache_utils.py and [_initialize_kv_caches]: from
      the layers of all workers and their memory to groups, tensors, the number of
      blocks and the length that fits.  [PlanMemory]: memory grows with the length,
      the searches are exact; [PlanSizes]: block sizes and [_approximate_gcd];
      [PlanGroups]: groups partition the layers; [PlanFits], [PlanWorkers]: what is
      planned fits every worker; [StartUp]: from the layers to the running engine.
    - [BlockTable]: worker/block_table.py, the tables the attention kernels read and
      the kernel that maps tokens to slots; the kernels' block size (worker/utils.py)
      and the lengths per rank under context parallelism (attention/backends/utils.py).
      [SlotMapping]: the rows follow the calls, the slots are those of the blocks.
    - [TurboQuant]: quantization/turboquant/config.py, and turboquant_ops.py of
      the Ascend plugin: packing, the store into the paged cache, what the reader
      gathers.

    At start-up [Planning] turns layers and memory into the configuration from which
    [KVManager] and [Scheduler] are built.  Each iteration of [Engine] serves client
    requests, then [schedule] decides what the model computes next, and
    [update_from_output] takes in what it answered.  A request's life crosses the KV
    cache in this order: [Request]/[BlockHash] hash its
    tokens; [KVManager.get_computed_blocks] asks the [Coordinator], whose
    managers search the [BlockPool] ([PrefixHit]); [allocate_slots] recycles,
    checks, takes over the hit blocks and allocates ([SingleType]), taking
    blocks from the [FreeQueue]; [free] gives them back, last block first, so
    that the cached prefix is evicted last.

    ** What the theorems show

    The engine: from any reachable state no iteration of the busy loop raises,
    whatever requests, aborts, pauses and resets arrive and whatever the model
    answers ([iteration_ok]: request ids are fresh, the model runner keeps its
    contract), every known request is in exactly one queue with slots for what it has computed, and over the real
    managers every block is accounted for ([busy_loop_never_fails],
    [engine_blocks_accounted]); the plan of a step is sound ([schedule_plan_sound]);
    a shutdown ends; aborts and resets do what they say.
    Planning: an accepted plan gives every layer its tensor, fits every worker and
    has the blocks of one longest request ([planned_cache_fits]); the length
    estimate is exact ([estimate_largest]); a standard model starts exactly if it
    fits, and the engine built from its plan is the one of the theorems above
    ([standard_model_starts]).
    The worker's side: the slot of a token lies in the block the manager gave for its
    position, no two positions share a slot, padding has none, and the ranks of context
    parallelism split the tokens ([slot_mapping_sound], [dcp_local_seq_lens_count]).
    Refinement: the linked queue behaves as a list; both request queues answer as a
    list in service order.  Invariants: the pool's and
    the whole manager's accounting along every sequence of calls, failing ones
    included; incremental hashing equals hashing from scratch; the
    encoder cache counts its slots right along every sequence of scheduler
    calls, and what the scheduler plans is held in the cache when the model
    runner reads it.  Safety: prefix
    hits cover everything the next token attends to; recycling never drops a
    block in the window; the admission check is sufficient.  Functional
    behaviour on every branch of the main operations.  Termination of the
    hybrid search.  Bounds: admission caps.
    Repetition detection equals its definition; TurboQuant's reader gathers the
    indices and norms that were stored.  Several theorems state what the
    code does where it does not do what it means to: [longest_request_starves],
    [unified_window_loses_scales], [merged_slots_forgotten],
    [interleave_wider_than_kernel_block],
    [hasher_resume_drops_mm_items],
    [chunked_hit_unaligned], [align_allocate_shrinks], [sink_manager_blocks_reset],
    [hybrid_eagle_mamba_overshoots], [hybrid_second_full_not_truncated],
    [hybrid_external_steals_hits], [encdec_slots_drift], [eagle_item_not_planned],
    [preempted_input_not_replanned], [dequant_never_runs], [boundary_skip_layers_spec].

    ** Parameters and bounds

    [BlockPool.HashEnv] is the environment the code imports: the hash function
    with the serialisation of its input, a digest for prompt embeddings and the
    hash of [None].  Theorems that need collision freedom say so.  Loops without
    a structural measure take fuel: [hasher_fuel] (one step per token),
    [align_fuel] (block sizes), [lookup_fuel] (the length limit plus two), the loops of
    [schedule] (the requests they can visit) and the length [search] (the length limit
    plus one); each
    comes with a proof that it never runs out ([append_output_token_ids_hashed],
    [cache_hit_sound], [hybrid_terminates], [busy_loop_never_fails],
    [estimate_largest]).  Integers are unbounded, as in
    Python; group ids are packed to 32 bits and packing fails outside.
    [SetIter] is the iteration order of a Python set, any permutation of it ([StrSetIter]
    for sets of strings); [World] is what the executor and the client threads give to
    an iteration (the model's answer, aborts that arrive meanwhile), [Torch] the size
    of a tensor's elements;
    [ec_has_cache_item] is the answer of the encoder-cache connector.  [TorchOps]
    and [TorchLaws] are what TurboQuant takes from PyTorch (the rotated unit
    vector, the fp16 norm bits, [bucketize]), with an instance over rationals.

    ** Not modelled

    Model runners (but for the block tables), workers, attention kernels, the Ascend
    platform code: they are I/O or tensor programs.  Of the engine: processes, threads, sockets and serialisation,
    the batch queue of pipeline parallelism, data parallelism, elastic scaling, sleep
    levels, LoRA calls and profiling; request checks that raise before the scheduler
    sees the request.
    Of the scheduler: KV connectors, streaming sessions, routed experts, grammar
    bitmasks and what only reports.  Of the modelled files:
    the optional metrics collector, logging, and floating-point results (a
    usage or hit rate is a pair of integers).  The groups of DeepSeek-V4 are modelled
    but [planned_cache_fits] leaves them out; [KVCacheLaws] is proved of the real
    manager for one full-attention group, not for hybrid groups.
    TurboQuant's floating-point results (rotation, rescaling) are not modelled. *)
From stdpp Require Export strings gmap sets prelude list.
From stdpp Require Import options.

#[global] Open Scope Z_scope.

(** ** Python exceptions and the state-and-exception monad

    A method of a mutable object is a function from the state of the object
    to an [outcome]: it returns a value and the new state, or raises, and then
    the state keeps the writes made before the [raise], as in Python. *)
Inductive exn :=
  | AssertionError
  | ValueError
  | RuntimeError
  | IndexError
  | KeyError
  | TypeError
  | OverflowError
  | AttributeError
  | StopIteration
  | NotImplementedError
  | ZeroDivisionError
  | OutOfFuel.  (** no exception of Python: a loop of the model ran out of fuel *)

#[export] Instance exn_eq_dec : EqDecision exn.
Proof. solve_decision. Defined.

Inductive outcome (S A : Type) :=
  | Ret (a : A) (s : S)
  | Raise (e : exn) (s : S).
Arguments Ret {S A} a s.
Arguments Raise {S A} e s.

Definition M (S A : Type) : Type := S -> outcome S A.

Definition ret {S A} (a : A) : M S A := fun s => Ret a s.

Definition raise {S A} (e : exn) : M S A := fun s => Raise e s.

Definition bind {S A B} (m : M S A) (k : A -> M S B) : M S B :=
  fun s => match m s with
           | Ret a s' => k a s'
           | Raise e s' => Raise e s'
           end.

Definition get {S} : M S S := fun s => Ret s s.

Definition put {S} (s' : S) : M S unit := fun _ => Ret tt s'.

Definition gets {S A} (f : S -> A) : M S A := fun s => Ret (f s) s.

Definition modify {S} (f : S -> S) : M S unit := fun s => Ret tt (f s).

(** [assert b]: Python's [assert]. *)
Definition assert {S} (b : bool) : M S unit :=
  if b then ret tt else raise AssertionError.

(** [from_option e o]: the value of an expression that raises [e] when it has none. *)
Definition of_option {S A} (e : exn) (o : option A) : M S A :=
  match o with Some a => ret a | None => raise e end.

(** The value of a call that returns a result or raises. *)
Definition of_result {S A} (r : exn + A) : M S A :=
  match r with inr a => ret a | inl e => raise e end.

Declare Scope py_scope.
Delimit Scope py_scope with py.
Notation "x <- m ;; k" := (bind m (fun x => k))
  (at level 100, m at next level, right associativity) : py_scope.
Notation "m ;;; k" := (bind m (fun _ => k))
  (at level 100, right associativity) : py_scope.
#[global] Open Scope py_scope.

(** [for x in l: f x] *)
Fixpoint mfor {S A} (l : list A) (f : A -> M S unit) : M S unit :=
  match l with
  | [] => ret tt
  | x :: l => f x ;;; mfor l f
  end.

(** [[f x for x in l]], evaluated from left to right. *)
Fixpoint mmapM {S A B} (f : A -> M S B) (l : list A) : M S (list B) :=
  match l with
  | [] => ret []
  | x :: l => y <- f x ;; ys <- mmapM f l ;; ret (y :: ys)
  end.

(** [for x in l: acc = f acc x] *)
Fixpoint mfold {S A B} (f : B -> A -> M S B) (l : list A) (b : B) : M S B :=
  match l with
  | [] => ret b
  | x :: l => b' <- f b x ;; mfold f l b'
  end.

(** Running a method of a sub-object stored in a field of the state. *)
Definition zoom {S T A} (proj : S -> T) (upd : T -> S -> S) (m : M T A) : M S A :=
  fun s => match m (proj s) with
           | Ret a t => Ret a (upd t s)
           | Raise e t => Raise e (upd t s)
           end.

(** ** Total-correctness judgement

    [succeeds m s Q]: from [s] the method [m] returns, and value and final state
    satisfy [Q]; in particular it does not raise. *)
Definition succeeds {S A} (m : M S A) (s : S) (Q : A -> S -> Prop) : Prop :=
  match m s with
  | Ret a s' => Q a s'
  | Raise _ _ => False
  end.

(** [returns m s Q]: whatever [m] does from [s], if it returns, [Q] holds.
    It is used where raising is one of the documented behaviours. *)
Definition returns {S A} (m : M S A) (s : S) (Q : A -> S -> Prop) : Prop :=
  match m s with
  | Ret a s' => Q a s'
  | Raise _ _ => True
  end.

Section monad.
Context {S : Type}.

Lemma succeeds_ret {A} (a : A) (s : S) (Q : A -> S -> Prop) :
  Q a s -> succeeds (ret a) s Q.
Proof. done. Qed.

Lemma succeeds_bind {A B} (m : M S A) (k : A -> M S B) s Q :
  succeeds m s (fun a s' => succeeds (k a) s' Q) -> succeeds (bind m k) s Q.
Proof. unfold succeeds, bind. by destruct (m s). Qed.

Lemma succeeds_mono {A} (m : M S A) s (Q Q' : A -> S -> Prop) :
  succeeds m s Q -> (forall a s', Q a s' -> Q' a s') -> succeeds m s Q'.
Proof. unfold succeeds. destruct (m s); auto. Qed.

Lemma succeeds_eq {A} (m : M S A) s a s' (Q : A -> S -> Prop) :
  m s = Ret a s' -> Q a s' -> succeeds m s Q.
Proof. unfold succeeds. by intros ->. Qed.

Lemma succeeds_inv {A} (m : M S A) s (Q : A -> S -> Prop) :
  succeeds m s Q -> exists a s', m s = Ret a s' /\ Q a s'.
Proof. unfold succeeds. destruct (m s); naive_solver. Qed.

Lemma succeeds_assert (b : bool) s (Q : unit -> S -> Prop) :
  b = true -> Q tt s -> succeeds (assert b) s Q.
Proof. intros ->. done. Qed.

Lemma succeeds_get s (Q : S -> S -> Prop) : Q s s -> succeeds get s Q.
Proof. done. Qed.

Lemma succeeds_gets {A} (f : S -> A) s (Q : A -> S -> Prop) : Q (f s) s -> succeeds (gets f) s Q.
Proof. done. Qed.

Lemma succeeds_put s s' (Q : unit -> S -> Prop) : Q tt s' -> succeeds (put s') s Q.
Proof. done. Qed.

Lemma succeeds_modify (f : S -> S) s (Q : unit -> S -> Prop) : Q tt (f s) -> succeeds (modify f) s Q.
Proof. done. Qed.

Lemma succeeds_of_option {A} e (o : option A) a s (Q : A -> S -> Prop) :
  o = Some a -> Q a s -> succeeds (of_option e o) s Q.
Proof. intros ->. done. Qed.

Lemma succeeds_of_result {A} (o : exn + A) a s (Q : A -> S -> Prop) :
  o = inr a -> Q a s -> succeeds (of_result o) s Q.
Proof. intros ->. done. Qed.

Lemma succeeds_mfor {A} (f : A -> M S unit) (I : list A -> list A -> S -> Prop) l s :
  I [] l s ->
  (forall pre x todo s, l = pre ++ x :: todo -> I pre (x :: todo) s ->
     succeeds (f x) s (fun _ s' => I (pre ++ [x]) todo s')) ->
  succeeds (mfor l f) s (fun _ s' => I l [] s').
Proof.
  intros HI Hstep.
  cut (forall todo pre s, l = pre ++ todo -> I pre todo s ->
         succeeds (mfor todo f) s (fun _ s' => I l [] s')).
  { intros H. by apply (H l []). }
  induction todo as [|x todo IH]; intros pre s0 Hl HI0; simpl.
  - rewrite app_nil_r in Hl. by subst.
  - apply succeeds_bind. eapply succeeds_mono; [by apply Hstep|].
    intros [] s1 HI1. apply (IH (pre ++ [x])); [|done].
    by rewrite <- app_assoc.
Qed.

Lemma succeeds_mfor_one {A} (f : A -> M S unit) x s (Q : unit -> S -> Prop) :
  succeeds (mfor [x] f) s Q -> succeeds (f x) s Q.
Proof. simpl. unfold succeeds, bind. destruct (f x s) as [[]|]; done. Qed.

Lemma returns_bind {A B} (m : M S A) (k : A -> M S B) s Q :
  returns m s (fun a s' => returns (k a) s' Q) -> returns (bind m k) s Q.
Proof. unfold returns, bind. by destruct (m s). Qed.

Lemma returns_mono {A} (m : M S A) s (Q Q' : A -> S -> Prop) :
  returns m s Q -> (forall a s', Q a s' -> Q' a s') -> returns m s Q'.
Proof. unfold returns. destruct (m s); auto. Qed.

Lemma succeeds_returns {A} (m : M S A) s (Q : A -> S -> Prop) :
  succeeds m s Q -> returns m s Q.
Proof. unfold succeeds, returns. by destruct (m s). Qed.

Lemma bind_ret_inv {A B} (m : M S A) (k : A -> M S B) s b s' :
  bind m k s = Ret b s' -> exists a s1, m s = Ret a s1 /\ k a s1 = Ret b s'.
Proof. unfold bind. destruct (m s) eqn:E; naive_solver. Qed.

Lemma bind_Ret {A B} (m : M S A) (k : A -> M S B) s a s1 :
  m s = Ret a s1 -> bind m k s = k a s1.
Proof. unfold bind. by intros ->. Qed.
End monad.

Lemma succeeds_zoom {S T A} (proj : S -> T) upd (m : M T A) s Q :
  succeeds m (proj s) (fun a t => Q a (upd t s)) ->
  succeeds (zoom proj upd m) s Q.
Proof. unfold succeeds, zoom. by destruct (m (proj s)). Qed.

(** [leaves m s P]: whether [m] returns or raises, it leaves a state satisfying [P]. *)
Definition leaves {S A} (m : M S A) (s : S) (P : S -> Prop) : Prop :=
  match m s with Ret _ s' => P s' | Raise _ s' => P s' end.

Section leaves.
Context {S : Type}.

Lemma leaves_bind {A B} (m : M S A) (k : A -> M S B) s P :
  leaves m s P -> (forall a s', P s' -> leaves (k a) s' P) -> leaves (bind m k) s P.
Proof.
  unfold leaves, bind. destruct (m s); intros H1 H2; [exact (H2 _ _ H1)|exact H1].
Qed.

Lemma leaves_mono {A} (m : M S A) s (P Q : S -> Prop) :
  leaves m s P -> (forall s', P s' -> Q s') -> leaves m s Q.
Proof. unfold leaves. destruct (m s); auto. Qed.

Lemma leaves_pure {A} (m : M S A) s (P : S -> Prop) :
  match m s with Ret _ s' => s' = s | Raise _ s' => s' = s end -> P s -> leaves m s P.
Proof. unfold leaves. destruct (m s); by intros ->. Qed.

Lemma leaves_of_option {A} e (o : option A) s (P : S -> Prop) : P s -> leaves (of_option e o) s P.
Proof. by destruct o. Qed.

Lemma leaves_of_result {A} (o : exn + A) s (P : S -> Prop) : P s -> leaves (of_result o) s P.
Proof. by destruct o. Qed.

Lemma leaves_assert b s (P : S -> Prop) : P s -> leaves (assert b) s P.
Proof. by destruct b. Qed.
End leaves.

(** ** Python integers and sequences *)

(** [cdiv] of vllm/utils/math_utils.py; Python's [//] is [Z.div]. *)
Definition cdiv (a b : Z) : Z := - (a / - b).

Definition round_up (x y : Z) : Z := ((x + y - 1) / y) * y.

Definition round_down (x y : Z) : Z := (x / y) * y.

(** [len(l)] *)
Definition len {A} (l : list A) : Z := Z.of_nat (length l).

(** [range(a, b)] *)
Definition py_range (a b : Z) : list Z :=
  (fun i : nat => a + Z.of_nat i) <$> seq 0 (Z.to_nat (b - a)).

(** The index a slice bound [i] denotes in a sequence of [n] elements. *)
Definition slice_bound (n i : Z) : Z :=
  if i <? 0 then Z.max 0 (i + n) else Z.min i n.

(** [l[a:b]] *)
Definition py_slice {A} (l : list A) (a b : Z) : list A :=
  let lo := slice_bound (len l) a in
  let hi := slice_bound (len l) b in
  take (Z.to_nat (hi - lo)) (drop (Z.to_nat lo) l).

(** [l[a:]] *)
Definition py_drop {A} (l : list A) (a : Z) : list A :=
  drop (Z.to_nat (slice_bound (len l) a)) l.

(** [l[:b]] *)
Definition py_take {A} (l : list A) (b : Z) : list A :=
  take (Z.to_nat (slice_bound (len l) b)) l.

(** [l[i]]; [None] where Python raises [IndexError]. *)
Definition py_index {A} (l : list A) (i : Z) : option A :=
  let j := if i <? 0 then i + len l else i in
  if j <? 0 then None else l !! Z.to_nat j.

(** [l[-1]] *)
Definition py_last {A} (l : list A) : option A := py_index l (-1).

(** [[x] * n] *)
Definition py_repeat {A} (x : A) (n : Z) : list A := replicate (Z.to_nat n) x.

Definition is_some {A} (o : option A) : bool :=
  match o with Some _ => true | None => false end.

Definition is_none {A} (o : option A) : bool := negb (is_some o).

Lemma elem_of_concat {A} (x : A) ls : x ∈ concat ls <-> exists l, x ∈ l /\ l ∈ ls.
Proof. induction ls as [|l ls IH]; [set_solver|]. simpl. rewrite elem_of_app, IH. set_solver. Qed.

Lemma list_filter_all {A} (P : A -> Prop) `{!forall x, Decision (P x)} (l : list A) :
  (forall x, x ∈ l -> P x) -> filter P l = l.
Proof.
  induction l as [|x l IH]; intros Hall; [done|].
  rewrite filter_cons_True by (apply Hall; left). f_equal.
  apply IH. intros y Hy. apply Hall. by right.
Qed.

(** ** Python dicts whose insertion order matters: association lists *)
Section dicts.
Context {K V : Type} `{EqDecision K}.

(** [d.get(k)] *)
Fixpoint dict_get (k : K) (d : list (K * V)) : option V :=
  match d with
  | [] => None
  | (k', v) :: d => if decide (k = k') then Some v else dict_get k d
  end.

(** [d[k] = v]: an existing key keeps its position. *)
Fixpoint dict_set (k : K) (v : V) (d : list (K * V)) : list (K * V) :=
  match d with
  | [] => [(k, v)]
  | (k', v') :: d => if decide (k = k') then (k, v) :: d else (k', v') :: dict_set k v d
  end.

(** [d.pop(k, None)] *)
Fixpoint dict_del (k : K) (d : list (K * V)) : list (K * V) :=
  match d with
  | [] => []
  | (k', v') :: d => if decide (k = k') then d else (k', v') :: dict_del k d
  end.

Lemma dict_get_Some k d v : dict_get k d = Some v -> (k, v) ∈ d.
Proof.
  induction d as [|[k' v'] d IH]; simpl; [done|]. case_decide as E; [|set_solver].
  intros [= <-]. rewrite E. left.
Qed.

Lemma dict_get_elem k d : k ∈ d.*1 <-> is_Some (dict_get k d).
Proof.
  induction d as [|[k' v'] d IH]; simpl; [split; [set_solver|by intros []]|].
  rewrite elem_of_cons. case_decide; naive_solver.
Qed.

Lemma dict_set_new k v d : (k ∉ d.*1) -> dict_set k v d = d ++ [(k, v)].
Proof.
  induction d as [|[k' v'] d IH]; simpl; [done|]. rewrite not_elem_of_cons. intros [? ?].
  case_decide; [done|]. by rewrite IH.
Qed.

Lemma dict_get_del_ne k k' d : k <> k' -> dict_get k (dict_del k' d) = dict_get k d.
Proof.
  intros Hne. induction d as [|[k1 v] d IH]; simpl; [done|].
  destruct (decide (k' = k1)) as [->|]; simpl; [by rewrite decide_False|].
  case_decide; [done|]. apply IH.
Qed.

Lemma dict_get_set_eq k v d : dict_get k (dict_set k v d) = Some v.
Proof.
  induction d as [|[k1 v1] d IH]; simpl; [by rewrite decide_True|].
  destruct (decide (k = k1)); simpl; [by rewrite decide_True|]. by rewrite decide_False.
Qed.

Lemma dict_get_set_ne k k' v d : k <> k' -> dict_get k (dict_set k' v d) = dict_get k d.
Proof.
  intros Hne. induction d as [|[k1 v1] d IH]; simpl; [by rewrite decide_False|].
  destruct (decide (k' = k1)) as [->|]; simpl; [by rewrite !decide_False|].
  case_decide; [done|]. apply IH.
Qed.

Lemma dict_set_elem k k' v d : k ∈ (dict_set k' v d).*1 <-> k = k' \/ k ∈ d.*1.
Proof.
  rewrite !dict_get_elem. destruct (decide (k = k')) as [->|Hne].
  - rewrite dict_get_set_eq. naive_solver.
  - rewrite dict_get_set_ne by done. naive_solver.
Qed.

Lemma dict_get_NoDup k v d : NoDup d.*1 -> (k, v) ∈ d -> dict_get k d = Some v.
Proof.
  induction d as [|[k1 v1] d IH]; [set_solver|]. rewrite fmap_cons. cbn [fst dict_get].
  intros [Hk Hd]%NoDup_cons [[= -> ->]|Hin]%elem_of_cons; [by rewrite decide_True|].
  rewrite decide_False; [by apply IH|]. intros ->. apply Hk, list_elem_of_fmap. by exists (k1, v).
Qed.

Lemma dict_del_filter k d : NoDup d.*1 -> dict_del k d = filter (fun x => x.1 <> k) d.
Proof.
  induction d as [|[k' v'] d IH]; simpl; [done|]. intros [Hk Hd]%NoDup_cons.
  rewrite filter_cons. simpl. destruct (decide (k = k')) as [->|].
  - rewrite decide_False by auto. symmetry. apply list_filter_all.
    intros [k2 v2] Hin Heq. simpl in *. subst. apply Hk, list_elem_of_fmap. by exists (k', v2).
  - rewrite decide_True by done. by rewrite IH.
Qed.
End dicts.

(** ** Arithmetic lemmas *)

Lemma cdiv_ceil a b : 0 < b -> cdiv a b = (a + b - 1) / b.
Proof.
  intros Hb. unfold cdiv.
  rewrite <- (Z.opp_involutive a) at 1. rewrite Z.div_opp_opp by lia.
  pose proof (Z.div_mod (- a) b) as H1. pose proof (Z.mod_pos_bound (- a) b) as H2.
  pose proof (Z.div_mod (a + b - 1) b) as H3.
  pose proof (Z.mod_pos_bound (a + b - 1) b) as H4.
  assert (b * (- ((- a) / b) - (a + b - 1) / b) < b) by nia.
  assert (- b < b * (- ((- a) / b) - (a + b - 1) / b)) by nia.
  nia.
Qed.

Lemma cdiv_bounds a b : 0 < b -> a <= b * cdiv a b < a + b.
Proof.
  intros Hb. rewrite cdiv_ceil by done.
  pose proof (Z.div_mod (a + b - 1) b). pose proof (Z.mod_pos_bound (a + b - 1) b). nia.
Qed.

Lemma cdiv_mul k b : 0 < b -> cdiv (k * b) b = k.
Proof. intros Hb. pose proof (cdiv_bounds (k * b) b Hb). nia. Qed.

Lemma cdiv_mono a a' b : 0 < b -> a <= a' -> cdiv a b <= cdiv a' b.
Proof.
  intros Hb H. pose proof (cdiv_bounds a b Hb). pose proof (cdiv_bounds a' b Hb). nia.
Qed.

Lemma cdiv_nonneg a b : 0 < b -> 0 <= a -> 0 <= cdiv a b.
Proof. intros Hb H. pose proof (cdiv_bounds a b Hb). nia. Qed.

Lemma div_le_cdiv a b : 0 < b -> a / b <= cdiv a b.
Proof.
  intros Hb. pose proof (cdiv_bounds a b Hb). pose proof (Z.mul_div_le a b Hb). nia.
Qed.

(** ** List lemmas *)

Section lists.
Context {A : Type}.
Implicit Types l : list A.

Lemma len_nonneg l : 0 <= len l.
Proof. unfold len. lia. Qed.

Lemma len_nil : len (@nil A) = 0.
Proof. done. Qed.

Lemma len_cons (x : A) l : len (x :: l) = len l + 1.
Proof. unfold len. simpl. lia. Qed.

Lemma len_app l1 l2 : len (l1 ++ l2) = len l1 + len l2.
Proof. unfold len. rewrite length_app. lia. Qed.

Lemma len_replicate n (x : A) : len (py_repeat x n) = Z.max 0 n.
Proof. unfold len, py_repeat. rewrite length_replicate. lia. Qed.

Lemma len_take l n : len (take n l) = Z.min (Z.of_nat n) (len l).
Proof. unfold len. rewrite length_take. lia. Qed.

Lemma len_drop l n : len (drop n l) = Z.max 0 (len l - Z.of_nat n).
Proof. unfold len. rewrite length_drop. lia. Qed.

#[export] Instance len_proper : Proper ((≡ₚ) ==> (=)) (@len A).
Proof. intros l1 l2 Hl. unfold len. by rewrite Hl. Qed.

Lemma len_zero_nil l : len l = 0 -> l = [].
Proof. destruct l; [done|]. rewrite len_cons. pose proof (len_nonneg l). lia. Qed.

Lemma py_slice_nonneg l a b :
  0 <= a -> 0 <= b -> py_slice l a b = take (Z.to_nat (b - a)) (drop (Z.to_nat a) l).
Proof.
  intros Ha Hb. unfold py_slice, slice_bound.
  destruct (Z.ltb_spec a 0), (Z.ltb_spec b 0); [lia..|].
  destruct (decide (a <= len l)) as [Hal|Hal].
  - rewrite (Z.min_l a) by done.
    destruct (decide (b <= len l)) as [Hbl|Hbl]; [by rewrite Z.min_l|].
    rewrite Z.min_r by lia. unfold len in *.
    rewrite !take_ge; [done|rewrite length_drop; lia..].
  - unfold len in *. rewrite !drop_ge by lia. by rewrite !take_nil.
Qed.

Lemma py_drop_nonneg l a : 0 <= a -> py_drop l a = drop (Z.to_nat a) l.
Proof.
  intros Ha. unfold py_drop, slice_bound. destruct (Z.ltb_spec a 0); [lia|].
  destruct (decide (a <= len l)); [by rewrite Z.min_l|].
  unfold len in *. rewrite !drop_ge; [done|lia..].
Qed.

Lemma py_take_nonneg l a : 0 <= a -> py_take l a = take (Z.to_nat a) l.
Proof.
  intros Ha. unfold py_take, slice_bound. destruct (Z.ltb_spec a 0); [lia|].
  destruct (decide (a <= len l)); [by rewrite Z.min_l|].
  unfold len in *. rewrite !take_ge; [done|lia..].
Qed.

Lemma py_index_nonneg l i : 0 <= i -> py_index l i = l !! Z.to_nat i.
Proof.
  intros Hi. unfold py_index. destruct (Z.ltb_spec i 0); [lia|].
  destruct (Z.ltb_spec i 0); [lia|done].
Qed.

Lemma py_last_app l (x : A) : py_last (l ++ [x]) = Some x.
Proof.
  unfold py_last, py_index. simpl. rewrite len_app, len_cons, len_nil.
  pose proof (len_nonneg l). destruct (Z.ltb_spec (-1 + (len l + (0 + 1))) 0); [lia|].
  apply list_lookup_middle. unfold len. lia.
Qed.

Lemma py_last_last l : py_last l = last l.
Proof.
  destruct l as [|x l _] using rev_ind; [done|]. by rewrite py_last_app, last_snoc.
Qed.

Lemma py_slice_app l1 l2 a b :
  0 <= a -> 0 <= b <= len l1 -> py_slice (l1 ++ l2) a b = py_slice l1 a b.
Proof.
  intros Ha Hb. rewrite !py_slice_nonneg by lia. unfold len in *.
  destruct (decide (a <= b)).
  - rewrite drop_app_le, take_app_le; [done|rewrite length_drop; lia|lia].
  - replace (Z.to_nat (b - a)) with 0%nat by lia. by rewrite !take_0.
Qed.

Lemma py_last_nil : py_last (@nil A) = None.
Proof. done. Qed.

Lemma NoDup_app_cons_inv l1 l2 (x : A) :
  NoDup (l1 ++ x :: l2) -> (x ∉ l1) /\ (x ∉ l2) /\ NoDup (l1 ++ l2).
Proof.
  intros H. apply NoDup_app in H as (H1 & Hd & H2). apply NoDup_cons in H2 as [Hx H2].
  split_and!; [intros ?; by eapply Hd; [|left]|done|].
  apply NoDup_app. split_and!; [done| |done]. intros y ??. eapply Hd; [done|by right].
Qed.
End lists.

Lemma elem_of_py_range i a b : i ∈ py_range a b <-> a <= i < b.
Proof.
  unfold py_range. rewrite list_elem_of_fmap. split.
  - intros (j & -> & Hj). apply elem_of_seq in Hj. lia.
  - intros H. exists (Z.to_nat (i - a)). split; [lia|]. apply elem_of_seq. lia.
Qed.

Lemma len_py_range a b : len (py_range a b) = Z.max 0 (b - a).
Proof. unfold len, py_range. rewrite length_fmap, length_seq. lia. Qed.

Lemma py_range_nil a b : b <= a -> py_range a b = [].
Proof. intros H. unfold py_range. by replace (Z.to_nat (b - a)) with 0%nat by lia. Qed.

Lemma py_range_cons a b : a < b -> py_range a b = a :: py_range (a + 1) b.
Proof.
  intros H. unfold py_range. replace (Z.to_nat (b - a)) with (S (Z.to_nat (b - (a + 1)))) by lia.
  simpl. f_equal; [lia|]. rewrite <- fmap_S_seq, <- list_fmap_compose.
  apply list_fmap_ext. intros. simpl. lia.
Qed.

Lemma NoDup_py_range a b : NoDup (py_range a b).
Proof. unfold py_range. apply NoDup_fmap_2; [intros ???; lia|]. apply NoDup_seq. Qed.

(** ** Automation *)

Create HintDb pylib discriminated.
Create Rewrite HintDb pylib.
#[export] Hint Resolve len_nonneg cdiv_nonneg NoDup_py_range succeeds_ret : pylib.
#[export] Hint Rewrite @len_nil @len_cons @len_app @len_replicate @len_take @len_drop
  len_py_range : pylib.

(** Simplify lengths, then decide. *)
Ltac len_lia := autorewrite with pylib in *; lia.

(** One step of symbolic execution of a [succeeds] goal. *)
Ltac sstep :=
  lazymatch goal with
  | |- succeeds (bind _ _) _ _ => apply succeeds_bind
  | |- succeeds (ret _) _ _ => apply succeeds_ret
  | |- succeeds (gets _) _ _ => apply succeeds_gets
  | |- succeeds (modify _) _ _ => apply succeeds_modify
  | |- succeeds (put _) _ _ => apply succeeds_put
  | |- succeeds get _ _ => apply succeeds_get
  | |- succeeds (of_option _ _) _ _ => eapply succeeds_of_option; [eassumption|]
  | |- succeeds (of_result _) _ _ => eapply succeeds_of_result; [eassumption|]
  end; cbv beta.

(** Split a boolean hypothesis or goal into its arithmetic content. *)
Ltac bool_to_prop :=
  repeat match goal with
  | H : (_ && _)%bool = true |- _ => apply andb_true_iff in H as [? ?]
  | H : (_ || _)%bool = false |- _ => apply orb_false_iff in H as [? ?]
  | H : negb _ = true |- _ => apply negb_true_iff in H
  | H : negb _ = false |- _ => apply negb_false_iff in H
  | H : (_ <? _) = true |- _ => apply Z.ltb_lt in H
  | H : (_ <? _) = false |- _ => apply Z.ltb_ge in H
  | H : (_ <=? _) = true |- _ => apply Z.leb_le in H
  | H : (_ <=? _) = false |- _ => apply Z.leb_gt in H
  | H : (_ =? _) = true |- _ => apply Z.eqb_eq in H
  | H : (_ =? _) = false |- _ => apply Z.eqb_neq in H
  end.
