(* ===== verification/FreeQueue.v ===== *)
(** * Blocks and the free-block queue

    Models [KVCacheBlock] and [FreeKVCacheBlockQueue] of
    vllm/v1/core/kv_cache_utils.py.  Blocks are mutable Python objects, so they
    live in a store indexed by references ([bref]); the queue is the doubly
    linked list threaded through the [prev_free_block] and [next_free_block]
    fields of that store.  [Module ListSpec] is the abstract queue (a list of
    references); [queue_rep] relates the two and every method is shown to
    implement the list operation. *)

From S2P Require Import Prelude.
From stdpp Require Import options.

(** ** Data *)

(** Bytes are integers of [0, 256). *)
Abbreviation bytes := (list Z).

(** A reference to a [KVCacheBlock]: the block created for index [i] of
    [BlockPool.blocks], or one of the two sentinels of the queue. *)
Inductive bref :=
  | Blk (i : nat)
  | FakeHead
  | FakeTail.

#[export] Instance bref_eq_dec : EqDecision bref.
Proof. solve_decision. Defined.

#[export] Instance bref_countable : Countable bref.
Proof.
  refine (inj_countable'
    (fun r => match r with Blk i => inl i | FakeHead => inr false | FakeTail => inr true end)
    (fun x => match x with inl i => Blk i | inr false => FakeHead | inr true => FakeTail end) _).
  by intros [].
Defined.

#[export] Instance Blk_inj : Inj (=) (=) Blk.
Proof. by intros ?? [= ->]. Qed.

Record KVCacheBlock := {
  block_id : Z;
  ref_cnt : Z;
  block_hash : option bytes;
  prev_free_block : option bref;
  next_free_block : option bref;
  is_null : bool;
}.

(** [KVCacheBlock(block_id)] *)
Definition new_block (i : Z) : KVCacheBlock :=
  {| block_id := i; ref_cnt := 0; block_hash := None;
     prev_free_block := None; next_free_block := None; is_null := false |}.

Definition with_ref_cnt (n : Z) (b : KVCacheBlock) : KVCacheBlock :=
  {| block_id := block_id b; ref_cnt := n; block_hash := block_hash b;
     prev_free_block := prev_free_block b; next_free_block := next_free_block b;
     is_null := is_null b |}.

Definition with_hash (h : option bytes) (b : KVCacheBlock) : KVCacheBlock :=
  {| block_id := block_id b; ref_cnt := ref_cnt b; block_hash := h;
     prev_free_block := prev_free_block b; next_free_block := next_free_block b;
     is_null := is_null b |}.

Definition with_prev (r : option bref) (b : KVCacheBlock) : KVCacheBlock :=
  {| block_id := block_id b; ref_cnt := ref_cnt b; block_hash := block_hash b;
     prev_free_block := r; next_free_block := next_free_block b;
     is_null := is_null b |}.

Definition with_next (r : option bref) (b : KVCacheBlock) : KVCacheBlock :=
  {| block_id := block_id b; ref_cnt := ref_cnt b; block_hash := block_hash b;
     prev_free_block := prev_free_block b; next_free_block := r;
     is_null := is_null b |}.

Definition with_null (v : bool) (b : KVCacheBlock) : KVCacheBlock :=
  {| block_id := block_id b; ref_cnt := ref_cnt b; block_hash := block_hash b;
     prev_free_block := prev_free_block b; next_free_block := next_free_block b;
     is_null := v |}.

(** The [block_hash] setter asserts that the block has no hash yet. *)
Definition set_block_hash (h : bytes) (b : KVCacheBlock) : option KVCacheBlock :=
  match block_hash b with
  | None => Some (with_hash (Some h) b)
  | Some _ => None
  end.

Definition reset_hash (b : KVCacheBlock) : KVCacheBlock := with_hash None b.

(** The store of blocks. *)
Abbreviation store := (gmap bref KVCacheBlock).

Definition nxt (h : store) (r : bref) : option bref := h !! r ≫= next_free_block.
Definition prv (h : store) (r : bref) : option bref := h !! r ≫= prev_free_block.

(** ** [FreeKVCacheBlockQueue] *)
Module FreeKVCacheBlockQueue.

Record t := Mk { heap : store; num_free_blocks : Z }.

(** Assignments to fields of a referenced block. *)
Definition set_next (r : bref) (v : option bref) (q : t) : t :=
  Mk (alter (with_next v) r (heap q)) (num_free_blocks q).
Definition set_prev (r : bref) (v : option bref) (q : t) : t :=
  Mk (alter (with_prev v) r (heap q)) (num_free_blocks q).
Definition set_num (n : Z) (q : t) : t := Mk (heap q) n.

(** [__init__]: the loop that links consecutive blocks; [i] is the loop index
    of the first block of [bs] and [p] the block before it. *)
Fixpoint link_blocks (p : option bref) (bs : list bref) (h : store) : store :=
  match bs with
  | [] => h
  | b :: bs' =>
      let h := match p with Some p => alter (with_prev (Some p)) b h | None => h end in
      let h := match bs' with
               | b' :: _ => alter (with_next (Some b')) b h
               | [] => h
               end in
      link_blocks (Some b) bs' h
  end.

Definition init (blocks : list bref) (h : store) : t :=
  let h := link_blocks None blocks h in
  let h := <[FakeHead := new_block (-1)]> (<[FakeTail := new_block (-1)]> h) in
  let q := Mk h (len blocks) in
  match blocks with
  | b0 :: _ =>
      let bl := default b0 (last blocks) in
      set_next bl (Some FakeTail)
        (set_prev FakeTail (Some bl)
          (set_prev b0 (Some FakeHead)
            (set_next FakeHead (Some b0) q)))
  | [] => set_prev FakeTail (Some FakeHead) (set_next FakeHead (Some FakeTail) q)
  end.

Definition popleft : M t bref :=
  q <- get ;;
  match nxt (heap q) FakeHead with
  | None | Some FakeTail =>
      assert (num_free_blocks q =? 0) ;;; raise ValueError
  | Some first_block =>
      match nxt (heap q) first_block with
      | None => raise RuntimeError
      | Some second =>
          modify (set_next FakeHead (Some second)) ;;;
          modify (set_prev second (Some FakeHead)) ;;;
          modify (fun q => set_prev first_block None (set_next first_block None q)) ;;;
          modify (fun q => set_num (num_free_blocks q - 1) q) ;;;
          ret first_block
      end
  end.

(** The [for _ in range(n)] loop of [popleft_n], returning the popped blocks
    and the final [curr_block]. *)
Fixpoint popleft_loop (n : nat) (curr : option bref) (acc : list bref)
  : M t (list bref * option bref) :=
  match n with
  | O => ret (acc, curr)
  | S n =>
      match curr with
      | None => raise AssertionError
      | Some c =>
          q <- get ;;
          let nx := nxt (heap q) c in
          modify (set_prev c None) ;;;
          modify (set_next c None) ;;;
          popleft_loop n nx (acc ++ [c])
      end
  end.

Definition popleft_n (n : Z) : M t (list bref) :=
  if n =? 0 then ret [] else
  q <- get ;;
  assert (n <=? num_free_blocks q) ;;;
  modify (set_num (num_free_blocks q - n)) ;;;
  r <- popleft_loop (Z.to_nat n) (nxt (heap q) FakeHead) [] ;;
  match r.2 with
  | Some curr =>
      modify (set_next FakeHead (Some curr)) ;;;
      modify (set_prev curr (Some FakeHead)) ;;;
      ret r.1
  | None => ret r.1
  end.

Definition remove (block : bref) : M t unit :=
  q <- get ;;
  match prv (heap q) block, nxt (heap q) block with
  | Some p, Some n =>
      modify (set_next p (Some n)) ;;;
      modify (set_prev n (Some p)) ;;;
      modify (fun q => set_prev block None (set_next block None q)) ;;;
      modify (fun q => set_num (num_free_blocks q - 1) q)
  | _, _ => raise RuntimeError
  end.

Definition append (block : bref) : M t unit :=
  q <- get ;;
  match prv (heap q) FakeTail with
  | None => raise RuntimeError
  | Some last_block =>
      modify (set_next last_block (Some block)) ;;;
      modify (set_prev block (Some last_block)) ;;;
      modify (set_next block (Some FakeTail)) ;;;
      modify (set_prev FakeTail (Some block)) ;;;
      modify (fun q => set_num (num_free_blocks q + 1) q)
  end.

(** The loop of [append_n] that links each block after [last_block]. *)
Fixpoint append_loop (blocks : list bref) (last_block : bref) (q : t) : bref * t :=
  match blocks with
  | [] => (last_block, q)
  | b :: bs =>
      append_loop bs b (set_next last_block (Some b) (set_prev b (Some last_block) q))
  end.

Definition append_n (blocks : list bref) : M t unit :=
  match blocks with
  | [] => ret tt
  | _ :: _ =>
      q <- get ;;
      match prv (heap q) FakeTail with
      | None => raise AssertionError
      | Some last_block =>
          let r := append_loop blocks last_block q in
          put r.2 ;;;
          modify (set_next r.1 (Some FakeTail)) ;;;
          modify (set_prev FakeTail (Some r.1)) ;;;
          modify (fun q => set_num (num_free_blocks q + len blocks) q)
      end
  end.

(** The [while] loop of [get_all_free_blocks]; [fuel] bounds its iterations. *)
Fixpoint walk (fuel : nat) (h : store) (curr : bref) (acc : list bref) : option (list bref) :=
  match nxt h curr with
  | None => Some acc
  | Some n => match fuel with
              | O => None
              | S fuel => walk fuel h n (acc ++ [curr])
              end
  end.

Definition get_all_free_blocks (fuel : nat) : M t (option (list bref)) :=
  q <- get ;;
  match nxt (heap q) FakeHead with
  | None => raise RuntimeError
  | Some c => ret (walk fuel (heap q) c [])
  end.

End FreeKVCacheBlockQueue.

(** ** Pointer lemmas *)

(** The fields of a block other than the two queue pointers. *)
Definition data (b : KVCacheBlock) : KVCacheBlock := with_prev None (with_next None b).

(** The two stores differ in queue pointers only. *)
Definition same_data (h h' : store) : Prop := forall r, data <$> h !! r = data <$> h' !! r.

#[export] Instance same_data_equiv : Equivalence same_data.
Proof.
  split; [done| |].
  - intros h h' H r. by rewrite H.
  - intros h1 h2 h3 H1 H2 r. by rewrite H1, H2.
Qed.

Lemma same_data_is_Some (h h' : store) r : same_data h h' -> is_Some (h !! r) <-> is_Some (h' !! r).
Proof. intros H. specialize (H r). rewrite !is_Some_alt. by destruct (h !! r), (h' !! r). Qed.

Lemma same_data_alter (h : store) (f : KVCacheBlock -> KVCacheBlock) (r : bref) :
  (forall b, data (f b) = data b) -> same_data h (alter f r h).
Proof.
  intros Hf r'. rewrite lookup_alter. case_decide as Heq; [subst|done].
  destruct (h !! r'); simpl; [by rewrite Hf|done].
Qed.

Lemma is_Some_alter (h : store) (f : KVCacheBlock -> KVCacheBlock) (r r' : bref) :
  is_Some (h !! r') -> is_Some (alter f r h !! r').
Proof. intros [b Hb]. rewrite lookup_alter. case_decide; subst; rewrite Hb; by eexists. Qed.

Section pointers.
Variable h : store.
Implicit Types (r : bref) (v : option bref).

Lemma nxt_set_next r v r' :
  is_Some (h !! r) ->
  nxt (alter (with_next v) r h) r' = if decide (r = r') then v else nxt h r'.
Proof.
  intros [b Hb]. unfold nxt. rewrite lookup_alter. case_decide; [subst|done].
  by rewrite Hb.
Qed.

Lemma prv_set_prev r v r' :
  is_Some (h !! r) ->
  prv (alter (with_prev v) r h) r' = if decide (r = r') then v else prv h r'.
Proof.
  intros [b Hb]. unfold prv. rewrite lookup_alter. case_decide; [subst|done].
  by rewrite Hb.
Qed.

Lemma nxt_set_prev r v r' : nxt (alter (with_prev v) r h) r' = nxt h r'.
Proof. unfold nxt. rewrite lookup_alter. case_decide; subst; [|done]. by destruct (h !! r'). Qed.

Lemma prv_set_next r v r' : prv (alter (with_next v) r h) r' = prv h r'.
Proof. unfold prv. rewrite lookup_alter. case_decide; subst; [|done]. by destruct (h !! r'). Qed.

Lemma nxt_is_Some r r' : nxt h r = Some r' -> is_Some (h !! r).
Proof. unfold nxt. by destruct (h !! r). Qed.

Lemma prv_is_Some r r' : prv h r = Some r' -> is_Some (h !! r).
Proof. unfold prv. by destruct (h !! r). Qed.
End pointers.

(** [b] follows [a]. *)
Definition link (h : store) (a b : bref) : Prop := nxt h a = Some b /\ prv h b = Some a.

(** The list [l] is threaded between [a] and [z]. *)
Fixpoint seg (h : store) (a : bref) (l : list bref) (z : bref) : Prop :=
  match l with
  | [] => link h a z
  | b :: l => link h a b /\ seg h b l z
  end.

Lemma seg_app h a l1 b l2 z :
  seg h a (l1 ++ b :: l2) z <-> seg h a l1 b /\ seg h b l2 z.
Proof. revert a. induction l1 as [|c l1 IH]; intros a; simpl; [done|]. rewrite IH. tauto. Qed.

Lemma seg_frame h h' a l z :
  (forall x, x = a \/ x ∈ l -> nxt h' x = nxt h x) ->
  (forall x, x ∈ l \/ x = z -> prv h' x = prv h x) ->
  seg h a l z -> seg h' a l z.
Proof.
  revert a. induction l as [|b l IH]; intros a Hn Hp; simpl; unfold link.
  - rewrite Hn, Hp by auto. done.
  - rewrite Hn, Hp by set_solver. intros [? ?]. split; [done|].
    apply IH; [set_solver..|done].
Qed.

Lemma seg_prev h a l z x : seg h a l z -> x ∈ l -> is_Some (prv h x) /\ is_Some (nxt h x).
Proof.
  intros Hs (l1 & l2 & ->)%list_elem_of_split. apply seg_app in Hs as [H1 H2]. split.
  - destruct l1 as [|c l1] using rev_ind; simpl in H1; [destruct H1; eauto|].
    apply seg_app in H1 as [_ [? ?]]. eauto.
  - destruct l2; simpl in H2; destruct H2 as [H2 ?]; [eauto|destruct H2; eauto].
Qed.

(** The predecessor of the end and the successor of the start of a segment. *)
Lemma seg_ends h a l z :
  seg h a l z ->
  prv h z = Some (default a (last l)) /\ nxt h a = Some (default z (head l)).
Proof.
  intros Hs. split.
  - destruct l as [|c l _] using rev_ind; simpl in *; [apply Hs|].
    rewrite last_snoc. by apply seg_app in Hs as [_ [_ ?]].
  - destruct l; simpl in *; apply Hs.
Qed.

Lemma seg_ends_dom h a l z :
  seg h a l z -> is_Some (h !! default a (last l)) /\ is_Some (h !! default z (head l)).
Proof.
  intros Hs. split.
  - destruct l as [|c l _] using rev_ind; simpl in *; [destruct Hs; by eapply nxt_is_Some|].
    rewrite last_snoc. apply seg_app in Hs as [_ [? _]]. by eapply nxt_is_Some.
  - destruct l; simpl in *; [|destruct Hs as [Hs _]]; destruct Hs; by eapply prv_is_Some.
Qed.

(** [q] is the queue holding exactly the blocks [l], in this order; blocks
    outside the queue have no queue pointers. *)
Record queue_rep (q : FreeKVCacheBlockQueue.t) (l : list bref) : Prop := {
  rep_nodup : NoDup l;
  rep_real : (FakeHead ∉ l) /\ (FakeTail ∉ l);
  rep_seg : seg (FreeKVCacheBlockQueue.heap q) FakeHead l FakeTail;
  rep_num : FreeKVCacheBlockQueue.num_free_blocks q = len l;
  rep_nxt r : r ∉ l -> r <> FakeHead -> nxt (FreeKVCacheBlockQueue.heap q) r = None;
  rep_prv r : r ∉ l -> r <> FakeTail -> prv (FreeKVCacheBlockQueue.heap q) r = None;
}.

Ltac ptr_rewrite :=
  repeat first
    [ rewrite nxt_set_prev
    | rewrite prv_set_next
    | rewrite nxt_set_next by (repeat apply is_Some_alter; eauto using nxt_is_Some, prv_is_Some)
    | rewrite prv_set_prev by (repeat apply is_Some_alter; eauto using nxt_is_Some, prv_is_Some) ].

(** Decide the pointer equalities left by [ptr_rewrite]. *)
Ltac ptr_solve :=
  intros; ptr_rewrite; repeat case_decide; subst; simplify_eq; try done; try set_solver.

(** Turn [NoDup] of explicit concatenations into atomic (dis)equalities and
    non-memberships. *)
Ltac nodup_atoms :=
  repeat match goal with
  | H : NoDup (_ :: _) |- _ => apply NoDup_cons in H as [? H]
  | H : NoDup (_ ++ _ :: _) |- _ => apply NoDup_app_cons_inv in H as (? & ? & H)
  | H : _ ∉ _ ++ _ |- _ => apply not_elem_of_app in H as [? ?]
  | H : _ ∉ _ :: _ |- _ => apply not_elem_of_cons in H as [? ?]
  | H : _ ∉ [] |- _ => clear H
  end.

(** Case analysis on pointer equalities, with those atoms as context. *)
Ltac ptr_cases :=
  repeat match goal with
  | H : _ ∈ _ ++ _ |- _ => rewrite elem_of_app in H
  | H : _ ∈ _ :: _ |- _ => rewrite elem_of_cons in H
  | H : _ ∈ [] |- _ => apply not_elem_of_nil in H as []
  | H : _ \/ _ |- _ => destruct H
  end;
  repeat case_decide; subst; first [ done | congruence | contradiction ].

Ltac same_data_solve :=
  repeat (etransitivity; [|apply same_data_alter; intros []; reflexivity]); reflexivity.

(** Linking the neighbours of [r] around it removes it from a segment. *)
Lemma seg_unlink h h' a l1 r l2 z :
  NoDup (a :: l1 ++ r :: l2) -> NoDup (l1 ++ r :: l2 ++ [z]) ->
  seg h a (l1 ++ r :: l2) z ->
  (forall x, nxt h' x = if decide (x = r) then None
                        else if decide (x = default a (last l1)) then Some (default z (head l2))
                        else nxt h x) ->
  (forall x, prv h' x = if decide (x = r) then None
                        else if decide (x = default z (head l2)) then Some (default a (last l1))
                        else prv h x) ->
  seg h' a (l1 ++ l2) z.
Proof.
  intros Hnd1 Hnd2 Hs Hn Hp. apply seg_app in Hs as [Hs1 Hs2].
  destruct l1 as [|p l1 _] using rev_ind; destruct l2 as [|n l2]; simpl in *;
    rewrite ?last_snoc, ?app_nil_r, <- ?app_assoc in *; simpl in *; nodup_atoms;
    unfold link in *.
  - rewrite Hn, Hp. split; ptr_cases.
  - destruct Hs2 as [_ Hs2]. rewrite Hn, Hp. split; [split; ptr_cases|].
    revert Hs2. apply seg_frame; intros x Hx; rewrite ?Hn, ?Hp; ptr_cases.
  - apply seg_app in Hs1 as [Hs1 _]. apply seg_app. simpl. unfold link. rewrite Hn, Hp.
    split; [|split; ptr_cases].
    revert Hs1. apply seg_frame; intros x Hx; rewrite ?Hn, ?Hp; ptr_cases.
  - apply seg_app in Hs1 as [Hs1 _]. destruct Hs2 as [_ Hs2].
    apply seg_app. simpl. unfold link. rewrite Hn, Hp. split_and!; [|ptr_cases..|].
    + revert Hs1. apply seg_frame; intros x Hx; rewrite ?Hn, ?Hp; ptr_cases.
    + revert Hs2. apply seg_frame; intros x Hx; rewrite ?Hn, ?Hp; ptr_cases.
Qed.

(** Hanging [r] between the last block of a segment and its end adds it. *)
Lemma seg_snoc h h' a l r z :
  NoDup (a :: l ++ [r]) -> NoDup (l ++ [r; z]) ->
  seg h a l z ->
  (forall x, nxt h' x = if decide (x = r) then Some z
                        else if decide (x = default a (last l)) then Some r
                        else nxt h x) ->
  (forall x, prv h' x = if decide (x = z) then Some r
                        else if decide (x = r) then Some (default a (last l))
                        else prv h x) ->
  seg h' a (l ++ [r]) z.
Proof.
  intros Hnd1 Hnd2 Hs Hn Hp. apply seg_app. simpl.
  destruct l as [|p l _] using rev_ind; simpl in *;
    rewrite ?last_snoc, <- ?app_assoc in *; simpl in *; nodup_atoms; unfold link in *.
  - rewrite !Hn, !Hp. split; split; ptr_cases.
  - apply seg_app in Hs as [Hs _]. rewrite seg_app. simpl. unfold link.
    rewrite !Hn, !Hp. split_and!; [|ptr_cases..].
    revert Hs. apply seg_frame; intros x Hx; rewrite ?Hn, ?Hp; ptr_cases.
Qed.

(** ** The methods implement the list operations *)

Module Queue := FreeKVCacheBlockQueue.

Section methods.
Import FreeKVCacheBlockQueue.
Implicit Types (q : t) (r : bref) (l : list bref).

Lemma rep_nodup_all q l : queue_rep q l -> NoDup (FakeHead :: l ++ [FakeTail]).
Proof.
  intros []. apply NoDup_cons. split; [set_solver|].
  apply NoDup_app. split_and!; [done|set_solver|]. apply NoDup_singleton.
Qed.

(** The queue pointers of a block not in the queue are [None]. *)
Lemma rep_outside q l r :
  queue_rep q l -> r ∉ l -> prv (heap q) r = None \/ nxt (heap q) r = None.
Proof.
  intros Hq Hr. destruct (decide (r = FakeHead)) as [->|].
  - left. by eapply rep_prv.
  - right. by eapply rep_nxt.
Qed.

(** Core of every removal: with [r]'s neighbours linked and its pointers
    cleared, the queue has lost [r]. *)
Lemma rep_unlink q q' l1 r l2 :
  queue_rep q (l1 ++ r :: l2) ->
  (forall x, nxt (heap q') x = if decide (x = r) then None
     else if decide (x = default FakeHead (last l1)) then Some (default FakeTail (head l2))
     else nxt (heap q) x) ->
  (forall x, prv (heap q') x = if decide (x = r) then None
     else if decide (x = default FakeTail (head l2)) then Some (default FakeHead (last l1))
     else prv (heap q) x) ->
  num_free_blocks q' = num_free_blocks q - 1 ->
  queue_rep q' (l1 ++ l2).
Proof.
  intros Hq Hn Hp Hnum. pose proof (rep_nodup_all _ _ Hq) as Hnd.
  destruct Hq as [Hnd' [Hh Ht] Hs Hlen Hrn Hrp].
  assert (default FakeHead (last l1) = FakeHead \/ default FakeHead (last l1) ∈ l1) as Hlast.
  { destruct l1 as [|p l1 _] using rev_ind; [by left|right].
    rewrite last_snoc. set_solver. }
  assert (default FakeTail (head l2) = FakeTail \/ default FakeTail (head l2) ∈ l2) as Hhead.
  { destruct l2; [by left|right; set_solver]. }
  constructor.
  - by apply NoDup_app_cons_inv in Hnd' as (_ & _ & ?).
  - set_solver.
  - eapply seg_unlink; [..|done|done|done].
    + apply NoDup_cons in Hnd as [Hn1 Hn2].
      apply NoDup_cons. split; [set_solver|done].
    + apply NoDup_cons in Hnd as [_ Hnd]. by rewrite <- app_assoc in Hnd.
  - rewrite Hnum, Hlen. rewrite !len_app, len_cons. lia.
  - intros x Hx Hx'. rewrite Hn. case_decide; [done|].
    case_decide as Hc; [subst; destruct Hlast as [?|?]; [done|set_solver]|].
    apply Hrn; set_solver.
  - intros x Hx Hx'. rewrite Hp. case_decide; [done|].
    case_decide as Hc; [subst; destruct Hhead as [?|?]; [done|set_solver]|].
    apply Hrp; set_solver.
Qed.

Lemma remove_spec q l1 r l2 :
  queue_rep q (l1 ++ r :: l2) ->
  exists q', remove r q = Ret tt q' /\ queue_rep q' (l1 ++ l2) /\ same_data (heap q) (heap q').
Proof.
  intros Hq. pose proof (rep_seg _ _ Hq) as Hs. apply seg_app in Hs as [Hs1 Hs2].
  destruct (seg_ends_dom _ _ _ _ Hs1) as [Hd1 _].
  destruct (seg_ends_dom _ _ _ _ Hs2) as [_ Hd2].
  apply seg_ends in Hs1 as [Hpr Hnp]. apply seg_ends in Hs2 as [Hpn Hnr].
  unfold remove, bind, get. rewrite Hpr, Hnr. unfold modify. simpl.
  eexists. split; [done|]. simpl. split; [|same_data_solve].
  eapply rep_unlink; [done|..|done]; intros x; simpl; ptr_rewrite;
    repeat case_decide; congruence.
Qed.

(** Removing a block that is not in the queue raises and changes nothing. *)
Lemma remove_error q l r :
  queue_rep q l -> r ∉ l -> remove r q = Raise RuntimeError q.
Proof.
  intros Hq Hr. unfold remove, bind, get.
  destruct (rep_outside _ _ _ Hq Hr) as [-> | ->]; [done|]. by destruct (prv _ _).
Qed.

Lemma popleft_spec q r l :
  queue_rep q (r :: l) ->
  exists q', popleft q = Ret r q' /\ queue_rep q' l /\ same_data (heap q) (heap q').
Proof.
  intros Hq. pose proof (rep_seg _ _ Hq) as [[Hh Hr] Hs2].
  destruct (seg_ends_dom _ _ _ _ Hs2) as [_ Hd2]. apply seg_ends in Hs2 as [Hpn Hnr]. unfold popleft, bind, get. rewrite Hh.
  assert (r <> FakeTail) as Hrt by (destruct (rep_real _ _ Hq); set_solver).
  destruct r as [i| |]; [|by destruct (rep_real _ _ Hq); set_solver|done].
  rewrite Hnr. unfold modify, ret. simpl. eexists. split; [done|].
  split; [|simpl; same_data_solve].
  eapply (rep_unlink _ _ [] _ l); [done|..|done]; intros x; simpl; ptr_rewrite;
    repeat case_decide; congruence.
Qed.

Lemma popleft_error q :
  queue_rep q [] -> popleft q = Raise ValueError q.
Proof.
  intros Hq. pose proof (rep_seg _ _ Hq) as [Hh _]. unfold popleft, bind, get.
  rewrite Hh. by rewrite (rep_num _ _ Hq).
Qed.

(** [queue_rep] depends on the pointers and the counter only. *)
Lemma rep_ext q q' l :
  queue_rep q l ->
  (forall x, nxt (heap q') x = nxt (heap q) x) ->
  (forall x, prv (heap q') x = prv (heap q) x) ->
  num_free_blocks q' = num_free_blocks q ->
  queue_rep q' l.
Proof.
  intros [] Hn Hp Hnum. constructor; [done..| |congruence| |].
  - eapply seg_frame; [..|done]; auto.
  - intros. rewrite Hn. auto.
  - intros. rewrite Hp. auto.
Qed.

(** Core of every insertion at the tail. *)
Lemma rep_snoc q q' l r :
  queue_rep q l -> r ∉ l -> r <> FakeHead -> r <> FakeTail ->
  (forall x, nxt (heap q') x = if decide (x = r) then Some FakeTail
     else if decide (x = default FakeHead (last l)) then Some r else nxt (heap q) x) ->
  (forall x, prv (heap q') x = if decide (x = FakeTail) then Some r
     else if decide (x = r) then Some (default FakeHead (last l)) else prv (heap q) x) ->
  num_free_blocks q' = num_free_blocks q + 1 ->
  queue_rep q' (l ++ [r]).
Proof.
  intros Hq Hr HrH HrT Hn Hp Hnum.
  destruct Hq as [Hnd' [Hh Ht] Hs Hlen Hrn Hrp].
  assert (default FakeHead (last l) = FakeHead \/ default FakeHead (last l) ∈ l) as Hlast.
  { destruct l as [|p l _] using rev_ind; [by left|right]. rewrite last_snoc. set_solver. }
  assert (NoDup (l ++ [r])) as Hndr.
  { apply NoDup_app. split_and!; [done|set_solver|apply NoDup_singleton]. }
  constructor.
  - done.
  - set_solver.
  - eapply seg_snoc; [..|done|done|done].
    + apply NoDup_cons. split; [set_solver|done].
    + apply NoDup_app. split_and!; [done|set_solver|].
      apply NoDup_cons. split; [set_solver|apply NoDup_singleton].
  - rewrite Hnum, Hlen. rewrite len_app, len_cons, len_nil. lia.
  - intros x Hx Hx'. rewrite Hn. case_decide; [set_solver|].
    case_decide; [subst; destruct Hlast; [done|set_solver]|]. apply Hrn; set_solver.
  - intros x Hx Hx'. rewrite Hp. case_decide; [done|].
    case_decide; [set_solver|]. apply Hrp; set_solver.
Qed.

Lemma append_spec q l r :
  queue_rep q l -> r ∉ l -> r <> FakeHead -> r <> FakeTail -> is_Some (heap q !! r) ->
  exists q', append r q = Ret tt q' /\ queue_rep q' (l ++ [r]) /\ same_data (heap q) (heap q').
Proof.
  intros Hq Hr HrH HrT Hdom. pose proof (rep_seg _ _ Hq) as Hs.
  destruct (seg_ends_dom _ _ _ _ Hs) as [Hd1 Hd2]. apply seg_ends in Hs as [Hpt Hnh].
  unfold append, bind, get. rewrite Hpt. unfold modify. simpl.
  eexists. split; [done|]. split; [|simpl; same_data_solve].
  assert (r <> default FakeHead (last l)) as Hrl.
  { destruct l as [|p l _] using rev_ind; [done|]. rewrite last_snoc. set_solver. }
  eapply rep_snoc; [done..| | |done]; intros x; simpl; ptr_rewrite;
    repeat case_decide; congruence.
Qed.

(** The queue with its open end [last_block] closed by the fake tail. *)
Definition close_tail (last_block : bref) (n : Z) (q : t) : t :=
  set_num n (set_prev FakeTail (Some last_block) (set_next last_block (Some FakeTail) q)).

Lemma append_loop_spec bs q l :
  queue_rep (close_tail (default FakeHead (last l)) (len l) q) l ->
  is_Some (heap q !! FakeTail) -> is_Some (heap q !! default FakeHead (last l)) ->
  NoDup bs -> (forall b, b ∈ bs -> (b ∉ l) /\ b <> FakeHead /\ b <> FakeTail /\ is_Some (heap q !! b)) ->
  let r := append_loop bs (default FakeHead (last l)) q in
  r.1 = default FakeHead (last (l ++ bs)) /\
  queue_rep (close_tail r.1 (len (l ++ bs)) r.2) (l ++ bs) /\
  same_data (heap q) (heap r.2) /\ num_free_blocks r.2 = num_free_blocks q.
Proof.
  revert q l. induction bs as [|b bs IH]; intros q l Hq HT Hl Hnd Hbs; simpl.
  { rewrite app_nil_r. done. }
  apply NoDup_cons in Hnd as [Hb Hnd].
  destruct (Hbs b) as (Hbl & HbH & HbT & Hbd); [left|].
  assert (b <> default FakeHead (last l)) as Hblast.
  { destruct l as [|p l' _] using rev_ind; [done|]. rewrite last_snoc. set_solver. }
  set (q1 := set_next _ _ _).
  replace (l ++ b :: bs) with ((l ++ [b]) ++ bs) by by rewrite <- app_assoc.
  assert (default FakeHead (last (l ++ [b])) = b) as Hlast by by rewrite last_snoc.
  specialize (IH q1 (l ++ [b])). rewrite Hlast in IH.
  destruct IH as (H1 & H2 & H3 & H4); [| | |done| |].
  - eapply rep_snoc; [done..| | |]; [intros x; simpl; ptr_rewrite; repeat case_decide; congruence..|].
    simpl. rewrite len_app, len_cons, len_nil. lia.
  - by repeat apply is_Some_alter.
  - by repeat apply is_Some_alter.
  - intros c Hc. destruct (Hbs c) as (? & ? & ? & ?); [by right|].
    split_and!; [set_solver|done..|]. by repeat apply is_Some_alter.
  - split_and!; [done..| |done]. rewrite <- H3. simpl. same_data_solve.
Qed.

Lemma append_n_spec q l bs :
  queue_rep q l -> NoDup bs ->
  (forall b, b ∈ bs -> (b ∉ l) /\ b <> FakeHead /\ b <> FakeTail /\ is_Some (heap q !! b)) ->
  exists q', append_n bs q = Ret tt q' /\ queue_rep q' (l ++ bs) /\ same_data (heap q) (heap q').
Proof.
  intros Hq Hnd Hbs. destruct bs as [|b bs].
  { exists q. by rewrite app_nil_r. }
  pose proof (rep_seg _ _ Hq) as Hs.
  destruct (seg_ends_dom _ _ _ _ Hs) as [Hd1 Hd2]. pose proof (seg_ends _ _ _ _ Hs) as [Hpt _].
  unfold append_n, bind at 1, get. rewrite Hpt.
  assert (is_Some (heap q !! FakeTail)) as HT by by eapply prv_is_Some.
  destruct (append_loop_spec (b :: bs) q l) as (H1 & H2 & H3 & H4); [|done..|].
  { eapply rep_ext; [done|..]; [| |simpl; symmetry; by apply rep_num];
      intros x; simpl; ptr_rewrite; repeat case_decide; subst; try congruence.
    destruct l as [|p l' _] using rev_ind; [by destruct Hs as [Hs _]|].
    rewrite last_snoc. simpl. by apply seg_app in Hs as [_ [-> _]]. }
  set (r := append_loop (b :: bs) (default FakeHead (last l)) q) in *.
  eexists. split; [done|]. split.
  - eapply rep_ext; [exact H2|..]; [by intros x..|].
    change (num_free_blocks r.2 + len (b :: bs) = len (l ++ b :: bs)).
    rewrite H4, (rep_num _ _ Hq), len_app. done.
  - simpl. rewrite H3. same_data_solve.
Qed.

(** The queue whose first block is [curr], linked back to the fake head. *)
Definition close_head (curr : bref) (n : Z) (q : t) : t :=
  set_num n (set_prev curr (Some FakeHead) (set_next FakeHead (Some curr) q)).

Lemma popleft_loop_spec n q l acc :
  queue_rep (close_head (default FakeTail (head l)) (len l) q) l ->
  is_Some (heap q !! FakeHead) -> (forall b, b ∈ FakeTail :: l -> is_Some (heap q !! b)) ->
  (n <= length l)%nat ->
  exists q', popleft_loop n (Some (default FakeTail (head l))) acc q
    = Ret (acc ++ take n l, Some (default FakeTail (head (drop n l)))) q' /\
  queue_rep (close_head (default FakeTail (head (drop n l))) (len (drop n l)) q') (drop n l) /\
  same_data (heap q) (heap q') /\ num_free_blocks q' = num_free_blocks q.
Proof.
  revert q l acc. induction n as [|n IH]; intros q l acc Hq HH Hl Hn.
  { exists q. by rewrite take_0, app_nil_r, drop_0. }
  destruct l as [|c l]; simpl in Hn; [lia|]. simpl. unfold bind at 1, get, modify.
  assert (is_Some (heap q !! c)) as Hc by (apply Hl; set_solver).
  assert (is_Some (heap q !! default FakeTail (head l))) as Hnx.
  { apply Hl. destruct l; set_solver. }
  assert (c <> FakeHead /\ c <> FakeTail) as [HcH HcT] by (destruct (rep_real _ _ Hq); set_solver).
  pose proof (rep_seg _ _ Hq) as [_ Hs]. apply seg_ends in Hs as [_ Hnc]. simpl in Hnc.
  rewrite nxt_set_prev, nxt_set_next in Hnc by done. case_decide; [congruence|].
  rewrite Hnc. unfold bind. simpl.
  destruct (IH (set_next c None (set_prev c None q)) l (acc ++ [c])) as (q' & H1 & H2 & H3 & H4);
    [| | |lia|].
  - eapply (rep_unlink _ _ [] c l); [done|..].
    + intros x. simpl. ptr_rewrite. repeat case_decide; congruence.
    + intros x. simpl. ptr_rewrite. repeat case_decide; try congruence.
      destruct l as [|n' l']; simpl in *; [congruence|].
      pose proof (rep_nodup _ _ Hq) as Hnd. apply NoDup_cons in Hnd as [? _]. set_solver.
    + simpl. rewrite len_cons. lia.
  - by repeat apply is_Some_alter.
  - intros b Hb. repeat apply is_Some_alter. apply Hl. set_solver.
  - exists q'. rewrite H1, <- app_assoc. split_and!; [done..| |done].
    rewrite <- H3. simpl. same_data_solve.
Qed.

Lemma popleft_n_spec q l n :
  queue_rep q l -> 0 <= n <= len l ->
  exists q', popleft_n n q = Ret (take (Z.to_nat n) l) q' /\
    queue_rep q' (drop (Z.to_nat n) l) /\ same_data (heap q) (heap q').
Proof.
  intros Hq Hn. unfold popleft_n. destruct (Z.eqb_spec n 0) as [->|Hn0].
  { exists q. by rewrite drop_0. }
  unfold bind at 1, get. pose proof (rep_seg _ _ Hq) as Hs.
  destruct (seg_ends_dom _ _ _ _ Hs) as [_ Hd2].
  pose proof (seg_ends _ _ _ _ Hs) as [Hpt Hnh].
  rewrite (rep_num _ _ Hq). unfold bind, assert.
  destruct (Z.leb_spec n (len l)) as [_|]; [|lia]. unfold ret at 1, modify at 1.
  cbv beta iota. rewrite Hnh.
  edestruct (popleft_loop_spec (Z.to_nat n) (set_num (len l - n) q) l []) as (q' & H1 & H2 & H3 & H4).
  - eapply rep_ext; [done|..]; [| |simpl; symmetry; by apply rep_num];
      intros x; simpl; ptr_rewrite; repeat case_decide; subst; try congruence.
    by destruct l as [|b l]; destruct Hs as [Hs1 Hs2]; [|destruct Hs1].
  - by eapply nxt_is_Some.
  - intros b Hb. simpl. apply elem_of_cons in Hb as [->|Hb]; [by eapply prv_is_Some|].
    destruct (seg_prev _ _ _ _ b Hs Hb) as [[? ?] _]. by eapply prv_is_Some.
  - unfold len in Hn. lia.
  - simpl. rewrite H1. simpl. unfold modify, ret. simpl. eexists. split; [done|].
    split; [|simpl; rewrite H3; same_data_solve].
    eapply rep_ext; [exact H2|..]; [by intros x..|]. simpl. rewrite H4. simpl.
    rewrite len_drop. lia.
Qed.

Lemma popleft_n_error q l n :
  queue_rep q l -> len l < n -> popleft_n n q = Raise AssertionError q.
Proof.
  intros Hq Hn. pose proof (len_nonneg l). unfold popleft_n.
  destruct (Z.eqb_spec n 0); [lia|]. unfold bind, get. rewrite (rep_num _ _ Hq).
  destruct (Z.leb_spec n (len l)); [lia|done].
Qed.
End methods.

(** ** Construction and traversal *)

(** Consecutive blocks of [l], starting after [a], are linked. *)
Fixpoint path (h : store) (a : bref) (l : list bref) : Prop :=
  match l with
  | [] => True
  | b :: l => link h a b /\ path h b l
  end.

Lemma seg_path h a l z : seg h a l z <-> path h a (l ++ [z]).
Proof. revert a. induction l as [|b l IH]; intros a; simpl; [tauto|]. by rewrite IH. Qed.

Lemma path_frame h h' a l :
  (forall x, x ∈ a :: l -> last (a :: l) <> Some x -> nxt h' x = nxt h x) ->
  (forall x, x ∈ l -> prv h' x = prv h x) ->
  NoDup (a :: l) -> path h a l -> path h' a l.
Proof.
  revert a. induction l as [|b l IH]; intros a Hn Hp Hnd; simpl; [done|]. unfold link.
  apply NoDup_cons in Hnd as [Ha Hnd]. rewrite Hn, Hp; [|set_solver|set_solver|].
  2: { rewrite last_cons_cons. intros H%last_Some_elem_of. done. }
  intros [? ?]. split; [done|]. apply IH; [|set_solver|done|done].
  intros x Hx Hl. apply Hn; [set_solver|]. by rewrite last_cons_cons.
Qed.

Section construction.
Import FreeKVCacheBlockQueue.

Lemma link_blocks_data p bs h : same_data h (link_blocks p bs h).
Proof.
  revert p h. induction bs as [|b bs IH]; intros p h; simpl; [done|].
  rewrite <- IH. destruct p, bs; simpl; same_data_solve.
Qed.

Lemma link_blocks_spec p bs h :
  NoDup (p :: bs) -> (forall b, b ∈ p :: bs -> is_Some (h !! b)) ->
  nxt h p = head bs -> (forall b, b ∈ bs -> nxt h b = None) ->
  let h' := link_blocks (Some p) bs h in
  path h' p bs /\
  (forall x, (x ∉ bs) -> nxt h' x = nxt h x /\ prv h' x = prv h x) /\
  nxt h' (default p (last bs)) = None.
Proof.
  revert p h. induction bs as [|b bs IH]; intros p h Hnd Hdom Hp Hb; simpl; [done|].
  apply NoDup_cons in Hnd as [Hpb Hnd]. pose proof Hnd as [Hbb _]%NoDup_cons.
  assert (is_Some (h !! b)) as Hbd by (apply Hdom; set_solver).
  set (h1 := match bs with [] => _ | _ :: _ => _ end).
  assert (forall x, nxt h1 x = if decide (x = b) then head bs else nxt h x) as Hn1.
  { intros x. subst h1. destruct bs as [|b' bs]; ptr_rewrite; repeat case_decide; simpl; try congruence.
    subst. simpl. rewrite Hb; [done|left]. }
  assert (forall x, prv h1 x = if decide (x = b) then Some p else prv h x) as Hp1.
  { intros x. subst h1. destruct bs as [|b' bs]; ptr_rewrite; repeat case_decide; congruence. }
  destruct (IH b h1) as (H1 & H2 & H3).
  - done.
  - intros c Hc. subst h1. destruct bs; repeat apply is_Some_alter; apply Hdom; set_solver.
  - rewrite Hn1. by case_decide.
  - intros c Hc. rewrite Hn1. case_decide; [set_solver|]. apply Hb. set_solver.
  - split; [split; [|exact H1]|split].
    + destruct (H2 b) as [? Hpb']; [done|]. destruct (H2 p) as [Hnp ?]; [set_solver|].
      unfold link. rewrite Hpb', Hnp, Hn1, Hp1.
      repeat case_decide; set_solver.
    + intros x Hx. destruct (H2 x) as [-> ->]; [set_solver|]. rewrite Hn1, Hp1.
      case_decide; [set_solver|done].
    + rewrite last_cons. by destruct (last bs).
Qed.

(** Connecting the sentinels to the ends of a chain of linked blocks. *)
Lemma rep_connect b0 l bl h n :
  NoDup (b0 :: l) -> (FakeHead ∉ b0 :: l) -> (FakeTail ∉ b0 :: l) ->
  bl = default b0 (last l) ->
  (forall b, b ∈ FakeHead :: FakeTail :: b0 :: l -> is_Some (h !! b)) ->
  path h b0 l ->
  (forall r, (r ∉ b0 :: l) \/ r = bl -> nxt h r = None) ->
  (forall r, (r ∉ l) -> prv h r = None) ->
  n = len (b0 :: l) ->
  queue_rep (set_next bl (Some FakeTail) (set_prev FakeTail (Some bl)
    (set_prev b0 (Some FakeHead) (set_next FakeHead (Some b0) (Mk h n))))) (b0 :: l).
Proof.
  intros Hnd HH HT Hbl Hdom Hpath Hn Hp ->.
  assert (bl ∈ b0 :: l) as Hblin.
  { subst. destruct (last l) eqn:E; simpl; [|left]. right. by apply last_Some_elem_of. }
  assert (is_Some (h !! FakeHead) /\ is_Some (h !! FakeTail) /\ is_Some (h !! b0)) as (?&?&?)
    by (split_and!; apply Hdom; set_solver).
  assert (is_Some (h !! bl)) by (apply Hdom; set_solver).
  assert (bl <> FakeHead /\ bl <> FakeTail) as [HbH HbT] by (split; congruence).
  assert (b0 <> FakeHead /\ b0 <> FakeTail) as [H0H H0T] by set_solver.
  constructor; simpl; [done|done| |done|..].
  - split; [unfold link; ptr_rewrite; repeat case_decide; split; congruence|].
    destruct l as [|bl' l _] using rev_ind; simpl in *.
    { unfold link. ptr_rewrite. repeat case_decide; split; congruence. }
    rewrite last_snoc in Hbl. simpl in Hbl. subst bl'.
    apply seg_app. simpl. split; [|unfold link; ptr_rewrite; repeat case_decide; split; congruence].
    apply seg_path. eapply path_frame; [| |done|exact Hpath]; clear Hn Hp Hdom Hpath.
    + intros x Hx Hl. rewrite last_cons, last_snoc in Hl. ptr_rewrite.
      nodup_atoms. ptr_cases.
    + intros x Hx. ptr_rewrite. nodup_atoms. ptr_cases.
  - intros r Hr Hr'. ptr_rewrite. repeat case_decide; subst; [done..|]. by apply Hn; left.
  - intros r Hr Hr'. apply not_elem_of_cons in Hr as [? ?].
    ptr_rewrite. repeat case_decide; subst; [done..|]. by apply Hp.
Qed.

Lemma link_blocks_first b0 l h :
  NoDup (b0 :: l) -> (forall b, b ∈ b0 :: l -> is_Some (h !! b)) ->
  (forall r, nxt h r = None /\ prv h r = None) ->
  let h' := link_blocks None (b0 :: l) h in
  path h' b0 l /\ nxt h' (default b0 (last l)) = None /\
  (forall r, (r ∉ b0 :: l) -> nxt h' r = None) /\
  (forall r, (r ∉ l) -> prv h' r = None).
Proof.
  intros Hnd Hdom Hptr h'. pose proof Hnd as [Hb0 _]%NoDup_cons.
  assert (is_Some (h !! b0)) as Hd0 by (apply Hdom; left).
  set (h0 := match l with b' :: _ => alter (with_next (Some b')) b0 h | [] => h end).
  assert (h' = link_blocks (Some b0) l h0) as -> by by destruct l.
  assert (forall x, nxt h0 x = if decide (x = b0) then head l else None) as Hn0.
  { intros x. subst h0. destruct l; [by case_decide; destruct (Hptr x)|].
    ptr_rewrite. repeat case_decide; simpl; try congruence. apply Hptr. }
  assert (forall x, prv h0 x = None) as Hp0.
  { intros x. subst h0. destruct l; ptr_rewrite; apply Hptr. }
  destruct (link_blocks_spec b0 l h0) as (Hpath & Hout & Hlast); [done|..].
  { intros b Hb. subst h0. destruct l; [|apply is_Some_alter]; by apply Hdom. }
  { rewrite Hn0. by case_decide. }
  { intros b Hb. rewrite Hn0. case_decide; [by subst|done]. }
  split_and!; [done..| |].
  - intros r Hr. apply not_elem_of_cons in Hr as [? ?].
    destruct (Hout r) as [-> _]; [done|]. rewrite Hn0. by case_decide.
  - intros r Hr. destruct (Hout r) as [_ ->]; [done|]. apply Hp0.
Qed.

Lemma init_spec l h :
  NoDup l -> (FakeHead ∉ l) -> (FakeTail ∉ l) ->
  (forall b, b ∈ l -> is_Some (h !! b)) ->
  (forall r, nxt h r = None /\ prv h r = None) ->
  queue_rep (init l h) l.
Proof.
  intros Hnd HH HT Hdom Hptr. unfold init. set (h1 := link_blocks None l h).
  set (h2 := <[FakeHead := _]> _).
  assert (forall x, nxt h2 x = if decide (x = FakeHead \/ x = FakeTail) then None else nxt h1 x) as Hn2.
  { intros x. unfold nxt, h2. case_decide as E;
      [destruct E as [-> | ->]; by rewrite ?lookup_insert_ne, lookup_insert_eq by done|].
    by rewrite !lookup_insert_ne by naive_solver. }
  assert (forall x, prv h2 x = if decide (x = FakeHead \/ x = FakeTail) then None else prv h1 x) as Hp2.
  { intros x. unfold prv, h2. case_decide as E;
      [destruct E as [-> | ->]; by rewrite ?lookup_insert_ne, lookup_insert_eq by done|].
    by rewrite !lookup_insert_ne by naive_solver. }
  assert (forall b, b ∈ FakeHead :: FakeTail :: l -> is_Some (h2 !! b)) as Hd2.
  { intros b Hb. unfold h2. apply lookup_insert_is_Some'. destruct (decide (FakeHead = b)); [by left|right].
    apply lookup_insert_is_Some'. destruct (decide (FakeTail = b)); [by left|right].
    apply (same_data_is_Some h); [apply link_blocks_data|]. apply Hdom. set_solver. }
  destruct l as [|b0 l].
  - assert (is_Some (h2 !! FakeHead) /\ is_Some (h2 !! FakeTail)) as [? ?]
      by (split; apply Hd2; set_solver).
    constructor; simpl; [constructor|set_solver| |done|..].
    + unfold link. ptr_rewrite. by repeat case_decide.
    + intros r _ Hr. ptr_rewrite. case_decide; [done|]. rewrite Hn2. case_decide; [done|apply Hptr].
    + intros r _ Hr. ptr_rewrite. case_decide; [done|]. rewrite Hp2. case_decide; [done|apply Hptr].
  - destruct (link_blocks_first b0 l h) as (Hpath & Hl & Hn & Hp); [done..|]. cbv zeta in *.
    fold h1 in Hpath, Hl, Hn, Hp.
    assert (default b0 (last (b0 :: l)) = default b0 (last l)) as ->.
    { rewrite last_cons. by destruct (last l). }
    apply rep_connect; [done..| | | |done].
    + eapply path_frame; [| |done|exact Hpath].
      * intros x Hx _. rewrite Hn2. case_decide as E; [|done]. by destruct E; subst.
      * intros x Hx. apply (list_elem_of_further _ b0) in Hx.
        rewrite Hp2. case_decide as E; [|done]. by destruct E; subst.
    + intros r Hr. rewrite Hn2. case_decide; [done|]. destruct Hr as [Hr| ->]; auto.
    + intros r Hr. rewrite Hp2. case_decide; auto.
Qed.

(** Building the queue leaves the data of the blocks alone. *)
Lemma init_data l h r :
  data <$> heap (init l h) !! r =
  match r with Blk _ => data <$> h !! r | _ => Some (data (new_block (-1))) end.
Proof.
  set (h2 := <[FakeHead := new_block (-1)]> (<[FakeTail := new_block (-1)]> (link_blocks None l h))).
  assert (same_data h2 (heap (init l h))) as Hs.
  { unfold init. fold h2. destruct l; simpl; same_data_solve. }
  rewrite <- (Hs r). unfold h2. destruct r as [i| |].
  - rewrite !lookup_insert_ne by done. symmetry. apply link_blocks_data.
  - by rewrite lookup_insert_eq.
  - by rewrite lookup_insert_ne, lookup_insert_eq by done.
Qed.

Lemma walk_spec h a l z acc fuel :
  seg h a l z -> nxt h z = None -> (length l <= fuel)%nat ->
  walk fuel h (default z (head l)) acc = Some (acc ++ l).
Proof.
  revert a acc fuel. induction l as [|b l IH]; intros a acc fuel Hs Hz Hf; simpl.
  - rewrite app_nil_r. destruct fuel; simpl; by rewrite Hz.
  - destruct Hs as [_ Hs]. pose proof (seg_ends _ _ _ _ Hs) as [_ Hn].
    destruct fuel as [|fuel]; simpl in *; [lia|]. rewrite Hn.
    rewrite (IH b); [by rewrite <- app_assoc|done|done|lia].
Qed.

Lemma get_all_free_blocks_spec q l fuel :
  queue_rep q l -> (length l <= fuel)%nat ->
  get_all_free_blocks fuel q = Ret (Some l) q.
Proof.
  intros Hq Hf. unfold get_all_free_blocks, bind, get.
  pose proof (rep_seg _ _ Hq) as Hs. pose proof (seg_ends _ _ _ _ Hs) as [_ ->].
  unfold ret. erewrite walk_spec; [done|exact Hs| |done].
  destruct (rep_real _ _ Hq). by apply (rep_nxt _ _ Hq).
Qed.
End construction.

(** ** The abstract queue and the refinement *)

(** The queue as its clients think of it: a list of block references. *)
Module ListSpec.
Definition popleft : M (list bref) bref :=
  l <- get ;;
  match l with
  | [] => raise ValueError
  | r :: l => put l ;;; ret r
  end.

Definition popleft_n (n : Z) : M (list bref) (list bref) :=
  l <- get ;;
  if n <=? len l then put (drop (Z.to_nat n) l) ;;; ret (take (Z.to_nat n) l)
  else raise AssertionError.

Definition remove (r : bref) : M (list bref) unit :=
  l <- get ;;
  if bool_decide (r ∈ l) then put (filter (fun x => x <> r) l) else raise RuntimeError.

Definition append (r : bref) : M (list bref) unit := modify (fun l => l ++ [r]).

Definition append_n (bs : list bref) : M (list bref) unit := modify (fun l => l ++ bs).
End ListSpec.

(** The calls a client can make on the queue, and what they return. *)
Inductive qop :=
  | OpPopleft
  | OpPopleftN (n : Z)
  | OpRemove (r : bref)
  | OpAppend (r : bref)
  | OpAppendN (bs : list bref).

Definition run_qop (o : qop) : M Queue.t (list bref) :=
  match o with
  | OpPopleft => r <- Queue.popleft ;; ret [r]
  | OpPopleftN n => Queue.popleft_n n
  | OpRemove r => Queue.remove r ;;; ret []
  | OpAppend r => Queue.append r ;;; ret []
  | OpAppendN bs => Queue.append_n bs ;;; ret []
  end.

Definition spec_qop (o : qop) : M (list bref) (list bref) :=
  match o with
  | OpPopleft => r <- ListSpec.popleft ;; ret [r]
  | OpPopleftN n => ListSpec.popleft_n n
  | OpRemove r => ListSpec.remove r ;;; ret []
  | OpAppend r => ListSpec.append r ;;; ret []
  | OpAppendN bs => ListSpec.append_n bs ;;; ret []
  end.

(** What the callers guarantee: counts are not negative, and only existing
    blocks that are not in the queue are appended. *)
Definition qop_ok (h : store) (l : list bref) (o : qop) : Prop :=
  match o with
  | OpPopleft | OpRemove _ => True
  | OpPopleftN n => 0 <= n
  | OpAppend r => (r ∉ l) /\ r <> FakeHead /\ r <> FakeTail /\ is_Some (h !! r)
  | OpAppendN bs => NoDup bs /\
      Forall (fun r => (r ∉ l) /\ r <> FakeHead /\ r <> FakeTail /\ is_Some (h !! r)) bs
  end.

#[export] Instance qop_ok_dec h l o : Decision (qop_ok h l o).
Proof. destruct o; simpl; apply _. Defined.

(** Same value or same exception, related final states, data untouched. *)
Definition qsim (q : Queue.t) (o1 : outcome Queue.t (list bref))
    (o2 : outcome (list bref) (list bref)) : Prop :=
  match o1, o2 with
  | Ret a q', Ret b l' =>
      a = b /\ queue_rep q' l' /\ same_data (Queue.heap q) (Queue.heap q')
  | Raise e q', Raise e' l' =>
      e = e' /\ queue_rep q' l' /\ same_data (Queue.heap q) (Queue.heap q')
  | _, _ => False
  end.

Lemma filter_ne_middle (l1 l2 : list bref) r :
  NoDup (l1 ++ r :: l2) -> filter (fun x => x <> r) (l1 ++ r :: l2) = l1 ++ l2.
Proof.
  intros (H1 & H2 & _)%NoDup_app_cons_inv.
  rewrite filter_app, filter_cons_False by (intros H; by apply H).
  rewrite !list_filter_all; [done|intros x Hx ->..]; done.
Qed.

Lemma run_qop_sim q l o :
  queue_rep q l -> qop_ok (Queue.heap q) l o -> qsim q (run_qop o q) (spec_qop o l).
Proof.
  intros Hq Hok. destruct o as [|n|r|r|bs]; simpl; unfold bind.
  - destruct l as [|r l].
    + rewrite popleft_error by done. done.
    + destruct (popleft_spec q r l) as (q' & -> & ? & ?); done.
  - simpl in Hok. unfold ListSpec.popleft_n, bind, get. destruct (Z.leb_spec n (len l)).
    + destruct (popleft_n_spec q l n) as (q' & -> & ? & ?); [done|lia|done].
    + rewrite (popleft_n_error q l n) by done. done.
  - unfold ListSpec.remove, bind, get. case_bool_decide as Hr.
    + pose proof Hr as (l1 & l2 & ->)%list_elem_of_split.
      destruct (remove_spec q l1 r l2) as (q' & -> & ? & ?); [done|].
      unfold put, ret. simpl. rewrite filter_ne_middle by by apply (rep_nodup _ _ Hq). done.
    + rewrite (remove_error q l r) by done. done.
  - destruct Hok as (? & ? & ? & ?).
    destruct (append_spec q l r) as (q' & -> & ? & ?); done.
  - destruct Hok as [? Hok]. rewrite Forall_forall in Hok.
    destruct (append_n_spec q l bs) as (q' & -> & ? & ?); done.
Qed.

(** A client is a sequence of calls; it stops at the first exception. *)
Fixpoint run_qops (os : list qop) : M Queue.t (list (list bref)) :=
  match os with
  | [] => ret []
  | o :: os => a <- run_qop o ;; r <- run_qops os ;; ret (a :: r)
  end.

Fixpoint spec_qops (os : list qop) : M (list bref) (list (list bref)) :=
  match os with
  | [] => ret []
  | o :: os => a <- spec_qop o ;; r <- spec_qops os ;; ret (a :: r)
  end.

(** Every call of the sequence meets its precondition in the abstract run. *)
Fixpoint qops_ok (h : store) (l : list bref) (os : list qop) : Prop :=
  match os with
  | [] => True
  | o :: os => qop_ok h l o /\
      match spec_qop o l with Ret _ l' => qops_ok h l' os | Raise _ _ => True end
  end.

#[export] Instance qops_ok_dec h l os : Decision (qops_ok h l os).
Proof.
  revert l. induction os as [|o os IH]; intros l; simpl; [apply _|].
  destruct (spec_qop o l); apply _.
Defined.

Lemma qops_ok_same_data h h' l os : same_data h h' -> qops_ok h l os -> qops_ok h' l os.
Proof.
  intros Hd. revert l. induction os as [|o os IH]; intros l; simpl; [done|].
  intros [Ho Hos]. split; [|destruct (spec_qop o l); auto].
  destruct o; simpl in *; try done.
  - destruct Ho as (?&?&?&?). split_and!; [done..|]. by apply (same_data_is_Some h h').
  - destruct Ho as [? Ho]. split; [done|]. eapply Forall_impl; [exact Ho|].
    intros r (?&?&?&?). split_and!; [done..|]. by apply (same_data_is_Some h h').
Qed.

(** C11. The linked-list queue refines the list queue: from related states, any
    sequence of calls that meets its preconditions returns the same blocks in
    the same order (or raises the same exception at the same call), and never
    touches a block's reference count, hash or id. *)
Theorem free_queue_refines_list (os : list qop) (q : Queue.t) (l : list bref)
    (Hq : queue_rep q l) (Hok : qops_ok (Queue.heap q) l os) :
  match run_qops os q, spec_qops os l with
  | Ret rs q', Ret rs' l' =>
      rs = rs' /\ queue_rep q' l' /\ same_data (Queue.heap q) (Queue.heap q')
  | Raise e q', Raise e' l' =>
      e = e' /\ queue_rep q' l' /\ same_data (Queue.heap q) (Queue.heap q')
  | _, _ => False
  end.
Proof.
  revert q l Hq Hok. induction os as [|o os IH]; intros q l Hq Hok; simpl; [done|].
  destruct Hok as [Ho Hos]. pose proof (run_qop_sim q l o Hq Ho) as Hsim.
  unfold bind. destruct (run_qop o q) as [a q'|e q'], (spec_qop o l) as [b l'|e' l'];
    simpl in Hsim; try done. destruct Hsim as (-> & Hq' & Hd).
  specialize (IH q' l' Hq' (qops_ok_same_data _ _ _ _ Hd Hos)).
  destruct (run_qops os q'), (spec_qops os l'); try done; simpl;
    destruct IH as (-> & ? & ?); (split; [done|split; [done|by etransitivity]]).
Qed.

(** A store with the blocks [0 .. n-1] of a pool. *)
Definition fresh_store (n : nat) : store :=
  list_to_map ((fun i => (Blk i, new_block (Z.of_nat i))) <$> seq 0 n).

Lemma fresh_store_lookup n i :
  fresh_store n !! Blk i = if decide (i < n)%nat then Some (new_block (Z.of_nat i)) else None.
Proof.
  unfold fresh_store. case_decide.
  - apply elem_of_list_to_map_1; [|apply list_elem_of_fmap; exists i; rewrite elem_of_seq; split; [done|lia]].
    rewrite <- list_fmap_compose. apply (NoDup_fmap_2 _), NoDup_seq. 
  - apply not_elem_of_list_to_map_1. rewrite <- list_fmap_compose, list_elem_of_fmap.
    intros (j & Hj & Hin). apply elem_of_seq in Hin. simplify_eq/=. lia.
Qed.

Lemma fresh_store_fake n : fresh_store n !! FakeHead = None /\ fresh_store n !! FakeTail = None.
Proof.
  unfold fresh_store. split; apply not_elem_of_list_to_map_1;
    rewrite <- list_fmap_compose, list_elem_of_fmap; by intros (j & Hj & _).
Qed.

Lemma fresh_store_ptrs n r : nxt (fresh_store n) r = None /\ prv (fresh_store n) r = None.
Proof.
  unfold nxt, prv. destruct (fresh_store_fake n) as [Hh Ht].
  destruct r as [i| |]; [|by rewrite ?Hh, ?Ht..].
  rewrite fresh_store_lookup. by case_decide.
Qed.

(** The queue [FreeKVCacheBlockQueue(blocks)] over fresh blocks holds them in
    the order of their ids. *)
Lemma init_fresh n :
  queue_rep (Queue.init (Blk <$> seq 0 n) (fresh_store n)) (Blk <$> seq 0 n).
Proof.
  apply init_spec.
  - apply (NoDup_fmap_2 _), NoDup_seq.
  - rewrite list_elem_of_fmap. by intros (? & ? & _).
  - rewrite list_elem_of_fmap. by intros (? & ? & _).
  - intros b (i & -> & Hi)%list_elem_of_fmap. apply elem_of_seq in Hi.
    rewrite fresh_store_lookup. case_decide; [by eexists|lia].
  - apply fresh_store_ptrs.
Qed.

Lemma free_queue_refines_list_witness :
  let q := Queue.init (Blk <$> seq 0 4) (fresh_store 4) in
  let os := [OpPopleftN 2; OpRemove (Blk 3); OpAppendN [Blk 1; Blk 0]; OpPopleft; OpPopleftN 9] in
  queue_rep q (Blk <$> seq 0 4) /\
  match run_qops os q with
  | Ret _ _ => False
  | Raise e q' => e = AssertionError /\ queue_rep q' [Blk 1; Blk 0]
  end.
Proof.
  pose proof (init_fresh 4) as Hq.
  pose proof (free_queue_refines_list
    [OpPopleftN 2; OpRemove (Blk 3); OpAppendN [Blk 1; Blk 0]; OpPopleft; OpPopleftN 9]
    _ _ Hq) as H.
  split; [exact Hq|]. cbv zeta.
  assert (qops_ok (Queue.heap (Queue.init (Blk <$> seq 0 4) (fresh_store 4))) (Blk <$> seq 0 4)
    [OpPopleftN 2; OpRemove (Blk 3); OpAppendN [Blk 1; Blk 0]; OpPopleft; OpPopleftN 9]) as Hok.
  { apply (bool_decide_unpack _). vm_compute. done. }
  specialize (H Hok). destruct (run_qops _ _) as [? ?|e q']; [exact H|].
  destruct H as (-> & ? & _). done.
Defined.
