(* ===== verification/Request.v ===== *)
(** * Requests

    Models [Request] and [RequestStatus] of vllm/v1/request.py, with the parts
    of [SamplingParams], [PoolingParams], [LoRARequest], [MultiModalFeatureSpec]
    and [PlaceholderRange] that the scheduler side reads.  Fields that only
    carry data to other processes (events, trace headers, prefill statistics,
    KV-transfer parameters, streaming queue) are left out.  [arrival_time] is
    only compared, so it is an integer here. *)

From S2P Require Import Prelude FreeQueue.
From stdpp Require Import options.

(** ** Parameters of a request *)

Record RepetitionDetectionParams := {
  max_pattern_size : Z;
  min_pattern_size : Z;
  min_count : Z;
}.

(** [__post_init__] of [RepetitionDetectionParams]: [true] when it raises. *)
Definition RepetitionDetectionParams_rejected (p : RepetitionDetectionParams) : bool :=
  ((max_pattern_size p <? 0) || (min_pattern_size p <? 0)
   || (max_pattern_size p <? min_pattern_size p)
   || ((0 <? max_pattern_size p) && (min_count p <? 2)))%bool.

Record SamplingParams := {
  sp_max_tokens : option Z;
  min_tokens : Z;
  eos_token_id : option Z;
  stop_token_ids : option (list Z);
  repetition_detection : option RepetitionDetectionParams;
  sp_skip_reading_prefix_cache : option bool;
}.

Record PoolingParams := { pp_skip_reading_prefix_cache : option bool }.

Record LoRARequest := { lora_name : string; lora_int_id : Z }.

(** [PlaceholderRange]; [is_embed] is the boolean mask, when there is one. *)
Record PlaceholderRange := {
  offset : Z;
  length_ : Z;
  is_embed : option (list bool);
}.

(** [cumsum] of a mask, starting from [acc]. *)
Fixpoint cumsum (acc : Z) (l : list bool) : list Z :=
  match l with
  | [] => []
  | b :: l => let acc := acc + (if b then 1 else 0) in acc :: cumsum acc l
  end.

Definition embeds_cumsum (p : PlaceholderRange) : option (list Z) := cumsum 0 <$> is_embed p.

Definition get_num_embeds (p : PlaceholderRange) : Z :=
  match embeds_cumsum p with
  | None => length_ p
  | Some c => default 0 (py_last c)
  end.

(** [None] where Python raises [IndexError]. *)
Definition get_embeds_indices_in_range (p : PlaceholderRange) (start_idx end_idx : Z)
  : option (Z * Z) :=
  match embeds_cumsum p with
  | None => Some (start_idx, end_idx)
  | Some c =>
      s ← (if 0 <? start_idx then py_index c (start_idx - 1) else Some 0);
      e ← (if 0 <? end_idx then py_index c (end_idx - 1) else Some 0);
      Some (s, e)
  end.

Record MultiModalFeature := {
  identifier : option string;
  mm_position : PlaceholderRange;
}.

(** ** [RequestStatus] *)

Inductive RequestStatus :=
  | WAITING
  | WAITING_FOR_STRUCTURED_OUTPUT_GRAMMAR
  | WAITING_FOR_REMOTE_KVS
  | WAITING_FOR_STREAMING_REQ
  | RUNNING
  | PREEMPTED
  | FINISHED_STOPPED
  | FINISHED_LENGTH_CAPPED
  | FINISHED_ABORTED
  | FINISHED_IGNORED
  | FINISHED_ERROR
  | FINISHED_REPETITION.

#[export] Instance RequestStatus_eq_dec : EqDecision RequestStatus.
Proof. solve_decision. Defined.

(** The value [enum.auto()] gives each status. *)
Definition status_value (s : RequestStatus) : Z :=
  match s with
  | WAITING => 1
  | WAITING_FOR_STRUCTURED_OUTPUT_GRAMMAR => 2
  | WAITING_FOR_REMOTE_KVS => 3
  | WAITING_FOR_STREAMING_REQ => 4
  | RUNNING => 5
  | PREEMPTED => 6
  | FINISHED_STOPPED => 7
  | FINISHED_LENGTH_CAPPED => 8
  | FINISHED_ABORTED => 9
  | FINISHED_IGNORED => 10
  | FINISHED_ERROR => 11
  | FINISHED_REPETITION => 12
  end.

Definition is_finished (s : RequestStatus) : bool := status_value PREEMPTED <? status_value s.

Inductive FinishReason := STOP | LENGTH | ABORT | ERROR | REPETITION.

(** [_FINISHED_REASON_MAP.get(status)] *)
Definition get_finished_reason (s : RequestStatus) : option FinishReason :=
  match s with
  | FINISHED_STOPPED => Some STOP
  | FINISHED_LENGTH_CAPPED => Some LENGTH
  | FINISHED_ABORTED => Some ABORT
  | FINISHED_IGNORED => Some LENGTH
  | FINISHED_ERROR => Some ERROR
  | WAITING_FOR_STREAMING_REQ => Some STOP
  | FINISHED_REPETITION => Some REPETITION
  | _ => None
  end.

(** [stop_reason: int | str | None] *)
Inductive StopReason := StopToken (t : Z) | StopText (s : string).

(** ** [Request] *)

Record Request := {
  request_id : string;
  obj_id : Z;  (** [id(self)] *)
  priority : Z;
  arrival_time : Z;
  sampling_params : option SamplingParams;
  pooling_params : option PoolingParams;
  lora_request : option LoRARequest;
  use_structured_output : bool;
  status : RequestStatus;
  stop_reason : option StopReason;
  max_tokens : Z;
  prompt_token_ids : option (list Z);
  prompt_embeds : option (list bytes);  (** one row of bytes per token *)
  prompt_embeds_per_block_hashes : gmap (Z * Z) bytes;
  num_prompt_tokens : Z;
  output_token_ids : list Z;
  all_token_ids : list Z;
  spec_token_ids : list Z;
  num_computed_tokens : Z;
  num_preemptions : Z;
  cache_salt : option string;
  mm_features : list MultiModalFeature;
  block_hashes : list bytes;
  skip_reading_prefix_cache : bool;
  num_output_placeholders : Z;  (** asynchronous scheduling: tokens not yet reported *)
  is_prefill_chunk : bool;
  discard_latest_async_tokens : bool;
}.

Definition with_tokens (out all : list Z) (r : Request) : Request :=
  {| request_id := request_id r; obj_id := obj_id r; priority := priority r;
     arrival_time := arrival_time r; sampling_params := sampling_params r;
     pooling_params := pooling_params r; lora_request := lora_request r;
     use_structured_output := use_structured_output r; status := status r;
     stop_reason := stop_reason r; max_tokens := max_tokens r;
     prompt_token_ids := prompt_token_ids r; prompt_embeds := prompt_embeds r;
     prompt_embeds_per_block_hashes := prompt_embeds_per_block_hashes r;
     num_prompt_tokens := num_prompt_tokens r;
     output_token_ids := out; all_token_ids := all; spec_token_ids := spec_token_ids r;
     num_computed_tokens := num_computed_tokens r; num_preemptions := num_preemptions r;
     cache_salt := cache_salt r; mm_features := mm_features r;
     block_hashes := block_hashes r;
     skip_reading_prefix_cache := skip_reading_prefix_cache r;
     num_output_placeholders := num_output_placeholders r;
     is_prefill_chunk := is_prefill_chunk r;
     discard_latest_async_tokens := discard_latest_async_tokens r |}.

Definition with_hashes (memo : gmap (Z * Z) bytes) (hs : list bytes) (r : Request) : Request :=
  {| request_id := request_id r; obj_id := obj_id r; priority := priority r;
     arrival_time := arrival_time r; sampling_params := sampling_params r;
     pooling_params := pooling_params r; lora_request := lora_request r;
     use_structured_output := use_structured_output r; status := status r;
     stop_reason := stop_reason r; max_tokens := max_tokens r;
     prompt_token_ids := prompt_token_ids r; prompt_embeds := prompt_embeds r;
     prompt_embeds_per_block_hashes := memo; num_prompt_tokens := num_prompt_tokens r;
     output_token_ids := output_token_ids r; all_token_ids := all_token_ids r;
     spec_token_ids := spec_token_ids r; num_computed_tokens := num_computed_tokens r;
     num_preemptions := num_preemptions r; cache_salt := cache_salt r;
     mm_features := mm_features r; block_hashes := hs;
     skip_reading_prefix_cache := skip_reading_prefix_cache r;
     num_output_placeholders := num_output_placeholders r;
     is_prefill_chunk := is_prefill_chunk r;
     discard_latest_async_tokens := discard_latest_async_tokens r |}.

Definition with_status (st : RequestStatus) (why : option StopReason) (r : Request) : Request :=
  {| request_id := request_id r; obj_id := obj_id r; priority := priority r;
     arrival_time := arrival_time r; sampling_params := sampling_params r;
     pooling_params := pooling_params r; lora_request := lora_request r;
     use_structured_output := use_structured_output r; status := st;
     stop_reason := why; max_tokens := max_tokens r;
     prompt_token_ids := prompt_token_ids r; prompt_embeds := prompt_embeds r;
     prompt_embeds_per_block_hashes := prompt_embeds_per_block_hashes r;
     num_prompt_tokens := num_prompt_tokens r; output_token_ids := output_token_ids r;
     all_token_ids := all_token_ids r; spec_token_ids := spec_token_ids r;
     num_computed_tokens := num_computed_tokens r; num_preemptions := num_preemptions r;
     cache_salt := cache_salt r; mm_features := mm_features r;
     block_hashes := block_hashes r;
     skip_reading_prefix_cache := skip_reading_prefix_cache r;
     num_output_placeholders := num_output_placeholders r;
     is_prefill_chunk := is_prefill_chunk r;
     discard_latest_async_tokens := discard_latest_async_tokens r |}.

Definition set_status (st : RequestStatus) (r : Request) : Request :=
  with_status st (stop_reason r) r.

(** The fields the scheduler assigns. *)
Definition with_progress (st : RequestStatus) (spec : list Z) (computed preemptions placeholders : Z)
    (chunk discard : bool) (r : Request) : Request :=
  {| request_id := request_id r; obj_id := obj_id r; priority := priority r;
     arrival_time := arrival_time r; sampling_params := sampling_params r;
     pooling_params := pooling_params r; lora_request := lora_request r;
     use_structured_output := use_structured_output r; status := st;
     stop_reason := stop_reason r; max_tokens := max_tokens r;
     prompt_token_ids := prompt_token_ids r; prompt_embeds := prompt_embeds r;
     prompt_embeds_per_block_hashes := prompt_embeds_per_block_hashes r;
     num_prompt_tokens := num_prompt_tokens r; output_token_ids := output_token_ids r;
     all_token_ids := all_token_ids r; spec_token_ids := spec;
     num_computed_tokens := computed; num_preemptions := preemptions;
     cache_salt := cache_salt r; mm_features := mm_features r;
     block_hashes := block_hashes r;
     skip_reading_prefix_cache := skip_reading_prefix_cache r;
     num_output_placeholders := placeholders; is_prefill_chunk := chunk;
     discard_latest_async_tokens := discard |}.

Definition set_num_computed_tokens (n : Z) (r : Request) : Request :=
  with_progress (status r) (spec_token_ids r) n (num_preemptions r) (num_output_placeholders r)
    (is_prefill_chunk r) (discard_latest_async_tokens r) r.

Definition set_spec_token_ids (spec : list Z) (r : Request) : Request :=
  with_progress (status r) spec (num_computed_tokens r) (num_preemptions r)
    (num_output_placeholders r) (is_prefill_chunk r) (discard_latest_async_tokens r) r.

Definition set_num_output_placeholders (n : Z) (r : Request) : Request :=
  with_progress (status r) (spec_token_ids r) (num_computed_tokens r) (num_preemptions r) n
    (is_prefill_chunk r) (discard_latest_async_tokens r) r.

Definition set_is_prefill_chunk (b : bool) (r : Request) : Request :=
  with_progress (status r) (spec_token_ids r) (num_computed_tokens r) (num_preemptions r)
    (num_output_placeholders r) b (discard_latest_async_tokens r) r.

Definition set_discard_latest (b : bool) (r : Request) : Request :=
  with_progress (status r) (spec_token_ids r) (num_computed_tokens r) (num_preemptions r)
    (num_output_placeholders r) (is_prefill_chunk r) b r.

Definition num_tokens (r : Request) : Z := len (all_token_ids r).
Definition num_tokens_with_spec (r : Request) : Z :=
  len (all_token_ids r) + len (spec_token_ids r).
Definition num_output_tokens (r : Request) : Z := len (output_token_ids r).
Definition num_encoder_inputs (r : Request) : Z := len (mm_features r).
Definition has_encoder_inputs (r : Request) : bool := 0 <? num_encoder_inputs r.

(** [get_num_encoder_embeds]: the assertion and the indexing of [mm_features]. *)
Definition get_num_encoder_embeds (r : Request) (input_id : Z) : exn + Z :=
  if input_id <? len (mm_features r) then
    match py_index (mm_features r) input_id with
    | Some f => inr (get_num_embeds (mm_position f))
    | None => inl IndexError
    end
  else inl AssertionError.

Definition get_skip_reading_prefix_cache (sp : option SamplingParams) (pp : option PoolingParams)
  : bool :=
  match sp ≫= sp_skip_reading_prefix_cache with
  | Some b => b
  | None => default false (pp ≫= pp_skip_reading_prefix_cache)
  end.

(** [length_from_prompt_token_ids_or_embeds] of vllm/utils/__init__.py *)
Definition length_from_prompt_token_ids_or_embeds
    (ids : option (list Z)) (embeds : option (list bytes)) : exn + Z :=
  match ids, embeds with
  | None, None => inl ValueError
  | None, Some e => inr (len e)
  | Some i, None => inr (len i)
  | Some i, Some e => if len e =? len i then inr (len i) else inl ValueError
  end.

(** The part of [__init__] before the first [update_block_hashes()]. *)
Definition Request_new (request_id : string) (obj_id priority arrival_time : Z)
    (sampling_params : option SamplingParams) (pooling_params : option PoolingParams)
    (lora_request : option LoRARequest) (use_structured_output : bool)
    (prompt_token_ids : option (list Z)) (prompt_embeds : option (list bytes))
    (cache_salt : option string) (mm_features : list MultiModalFeature) : exn + Request :=
  let limits : exn + (Z * RequestStatus) :=
    match pooling_params, sampling_params with
    | Some _, _ => inr (1, WAITING)
    | None, Some sp =>
        match sp_max_tokens sp with
        | None => inl AssertionError
        | Some n =>
            inr (n, if use_structured_output
                    then WAITING_FOR_STRUCTURED_OUTPUT_GRAMMAR else WAITING)
        end
    | None, None => inl ValueError
    end in
  match limits with
  | inl e => inl e
  | inr (max_tokens, status) =>
      match length_from_prompt_token_ids_or_embeds prompt_token_ids prompt_embeds with
      | inl e => inl e
      | inr num_prompt_tokens =>
          inr {| request_id := request_id; obj_id := obj_id; priority := priority;
                 arrival_time := arrival_time; sampling_params := sampling_params;
                 pooling_params := pooling_params; lora_request := lora_request;
                 use_structured_output := use_structured_output; status := status;
                 stop_reason := None; max_tokens := max_tokens;
                 prompt_token_ids := prompt_token_ids; prompt_embeds := prompt_embeds;
                 prompt_embeds_per_block_hashes := ∅;
                 num_prompt_tokens := num_prompt_tokens; output_token_ids := [];
                 all_token_ids :=
                   match prompt_token_ids with
                   | Some ids => ids
                   | None => py_repeat 0 num_prompt_tokens
                   end;
                 spec_token_ids := []; num_computed_tokens := 0; num_preemptions := 0;
                 cache_salt := cache_salt; mm_features := mm_features; block_hashes := [];
                 skip_reading_prefix_cache :=
                   get_skip_reading_prefix_cache sampling_params pooling_params;
                 num_output_placeholders := 0; is_prefill_chunk := false;
                 discard_latest_async_tokens := false |}
      end
  end.

(** Lexicographic order on strings, as Python compares [str]. *)
Fixpoint string_ltb (s t : string) : bool :=
  match s, t with
  | _, EmptyString => false
  | EmptyString, String _ _ => true
  | String a s, String b t =>
      let x := Z.of_N (Ascii.N_of_ascii a) in
      let y := Z.of_N (Ascii.N_of_ascii b) in
      if x =? y then string_ltb s t else x <? y
  end.

(** [Request.__lt__] *)
Definition Request_lt (a b : Request) : bool :=
  if negb (priority a =? priority b) then priority a <? priority b
  else if negb (arrival_time a =? arrival_time b) then arrival_time a <? arrival_time b
  else if negb (bool_decide (request_id a = request_id b))
       then string_ltb (request_id a) (request_id b)
  else obj_id a <? obj_id b.

(** ** Properties *)

(** The number of embeddings of an item is the number of [True]s of its mask. *)
Lemma cumsum_last acc l :
  default acc (py_last (cumsum acc l)) = acc + len (filter (fun b : bool => b = true) l).
Proof.
  assert (forall acc l x, py_last (x :: cumsum acc l) = Some (default x (py_last (cumsum acc l)))) as Hl.
  { intros a k x. destruct (cumsum a k) as [|y k' _] using rev_ind; [done|].
    change (x :: k' ++ [y]) with ((x :: k') ++ [y]). by rewrite !py_last_app. }
  revert acc. induction l as [|b l IH]; intros acc; simpl; [unfold len; simpl; lia|].
  rewrite Hl. simpl. rewrite IH. rewrite filter_cons. destruct b; case_decide; try done.
  - rewrite len_cons. lia.
  - lia.
Qed.

Lemma get_num_embeds_mask p m :
  is_embed p = Some m -> get_num_embeds p = len (filter (fun b : bool => b = true) m).
Proof.
  intros H. unfold get_num_embeds, embeds_cumsum. rewrite H. simpl.
  by rewrite cumsum_last.
Qed.

Lemma string_ltb_irrefl s : string_ltb s s = false.
Proof. induction s as [|a s IH]; simpl; [done|]. by rewrite Z.eqb_refl. Qed.

Lemma ascii_code_inj a b :
  Z.of_N (Ascii.N_of_ascii a) = Z.of_N (Ascii.N_of_ascii b) -> a = b.
Proof.
  intros H. apply N2Z.inj in H. rewrite <- (Ascii.ascii_N_embedding a), H.
  apply Ascii.ascii_N_embedding.
Qed.

Lemma string_ltb_trans s t u :
  string_ltb s t = true -> string_ltb t u = true -> string_ltb s u = true.
Proof.
  revert t u. induction s as [|a s IH]; intros [|b t] [|c u]; simpl; try done.
  generalize (Z.of_N (Ascii.N_of_ascii a)) (Z.of_N (Ascii.N_of_ascii b))
    (Z.of_N (Ascii.N_of_ascii c)); intros x y z.
  destruct (Z.eqb_spec x y), (Z.eqb_spec y z), (Z.eqb_spec x z);
    rewrite ?Z.ltb_lt; eauto; lia.
Qed.

Lemma string_ltb_total s t : s <> t -> string_ltb s t = true \/ string_ltb t s = true.
Proof.
  revert t. induction s as [|a s IH]; intros [|b t] Hne; simpl; [done|by left|by right|].
  destruct (Z.eqb_spec (Z.of_N (Ascii.N_of_ascii a)) (Z.of_N (Ascii.N_of_ascii b))) as [E|E].
  - rewrite E, Z.eqb_refl. apply IH. apply ascii_code_inj in E. congruence.
  - rewrite (proj2 (Z.eqb_neq _ (Z.of_N (Ascii.N_of_ascii a)))) by done.
    rewrite !Z.ltb_lt. lia.
Qed.
