(* ===== verification/BlockHash.v ===== *)
(** * Block hashes

    Models the hashing half of vllm/v1/core/kv_cache_utils.py: packing a block
    hash with its KV-cache group id, the extra keys of multi-modal, LoRA,
    salted and prompt-embedding requests, [hash_block_tokens], the request
    block hasher and [BlockHashListWithBlockSize]; and the two methods of
    [Request] that drive the hasher.

    The hash function is chosen by the configuration and given to the code as a
    callable, so it is a parameter, as are [NONE_HASH] and [hashlib.sha256]. *)

From S2P Require Import Prelude FreeQueue Request.
From stdpp Require Import options.

(** ** Group ids *)

(** [n.to_bytes(4, "big", signed=False)]: [OverflowError] outside [0, 2^32). *)
Definition to_bytes4 (n : Z) : exn + bytes :=
  if ((0 <=? n) && (n <? 2 ^ 32))%bool then
    inr [Z.land (Z.shiftr n 24) 255; Z.land (Z.shiftr n 16) 255;
         Z.land (Z.shiftr n 8) 255; Z.land n 255]
  else inl OverflowError.

(** [int.from_bytes(b, "big", signed=False)] *)
Definition from_bytes (b : bytes) : Z := foldl (fun acc x => acc * 256 + x) 0 b.

Definition make_block_hash_with_group_id (block_hash : bytes) (group_id : Z) : exn + bytes :=
  match to_bytes4 group_id with
  | inl e => inl e
  | inr b => inr (block_hash ++ b)
  end.

(** [key[:-4]] and [key[-4:]] *)
Definition get_block_hash (key : bytes) : bytes := py_take key (-4).
Definition get_group_id (key : bytes) : Z := from_bytes (py_drop key (-4)).

(** [ExternalBlockHash: bytes | int] *)
Inductive ExternalBlockHash := ExtBytes (b : bytes) | ExtInt (n : Z).

(** [use_int] is [envs.VLLM_KV_EVENTS_USE_INT_BLOCK_HASHES]. *)
Definition maybe_convert_block_hash (use_int : bool) (hash_bytes : bytes) : ExternalBlockHash :=
  if negb use_int then ExtBytes hash_bytes
  else ExtInt (Z.land (from_bytes hash_bytes) (Z.shiftl 1 64 - 1)).

(** ** Extra keys *)

Inductive extra_key :=
  | EKMM (id : string) (off : Z)
  | EKStr (s : string)
  | EKBytes (b : bytes).

#[export] Instance extra_key_eq_dec : EqDecision extra_key.
Proof. solve_decision. Defined.

#[export] Instance extra_key_countable : Countable extra_key.
Proof.
  refine (inj_countable'
    (fun k => match k with EKMM i o => inl (i, o) | EKStr s => inr (inl s) | EKBytes b => inr (inr b) end)
    (fun x => match x with inl (i, o) => EKMM i o | inr (inl s) => EKStr s | inr (inr b) => EKBytes b end) _).
  by intros [].
Defined.

Definition need_extra_keys (r : Request) : bool :=
  ((0 <? len (mm_features r)) || is_some (lora_request r) || is_some (cache_salt r))%bool.

(** The [while] loop of [_gen_mm_extra_hash_keys] over the items from index
    [curr] on; it stops at the end of the list or at a [break]. *)
Fixpoint mm_keys_loop (start_token_idx end_token_idx : Z) (fs : list MultiModalFeature)
    (curr : Z) (extra_keys : list extra_key) : exn + (list extra_key * Z) :=
  match fs with
  | [] => inr (extra_keys, curr)
  | f :: fs =>
      match identifier f with
      | None => inl AssertionError
      | Some id =>
          let off := offset (mm_position f) in
          let length := length_ (mm_position f) in
          if off <? end_token_idx then
            if off + length <=? start_token_idx then
              mm_keys_loop start_token_idx end_token_idx fs (curr + 1) extra_keys
            else
              let extra_keys := extra_keys ++ [EKMM id (off - start_token_idx)] in
              if off + length <=? end_token_idx then
                mm_keys_loop start_token_idx end_token_idx fs (curr + 1) extra_keys
              else inr (extra_keys, curr)
          else inr (extra_keys, curr)
      end
  end.

Definition _gen_mm_extra_hash_keys (r : Request) (start_token_idx end_token_idx start_mm_idx : Z)
  : exn + (list extra_key * Z) :=
  match py_last (mm_features r) with
  | None => inr ([], start_mm_idx)
  | Some lastf =>
      let last_pos := mm_position lastf in
      if offset last_pos + length_ last_pos <=? start_token_idx then inr ([], start_mm_idx)
      else
        let run start := mm_keys_loop start_token_idx end_token_idx
                           (drop (Z.to_nat start) (mm_features r)) start [] in
        if start_mm_idx <? 0 then
          if - start_mm_idx <=? len (mm_features r)
          then run (len (mm_features r) + start_mm_idx)
          else inl AssertionError
        else run start_mm_idx
  end.

Definition _gen_lora_extra_hash_keys (r : Request) : list extra_key :=
  match lora_request r with
  | None => []
  | Some l => [EKStr (lora_name l)]
  end.

(** A string is false when it is empty. *)
Definition py_str_bool (s : option string) : option string :=
  match s with
  | Some EmptyString | None => None
  | Some s => Some s
  end.

Section hashing.
Variable hash_function : bytes * list Z * option (list extra_key) -> bytes.
Variable NONE_HASH : bytes.
Variable sha256 : bytes -> bytes.

(** The digests of prompt embeddings are memoised on the request. *)
Definition _gen_prompt_embeds_extra_hash_keys (start_token_idx end_token_idx : Z)
  : M Request (list extra_key) :=
  r <- get ;;
  match prompt_embeds r with
  | None => ret []
  | Some rows =>
      let block_range := (start_token_idx, end_token_idx) in
      match prompt_embeds_per_block_hashes r !! block_range with
      | Some embeds_hash => ret [EKBytes embeds_hash]
      | None =>
          let embeds_hash := sha256 (concat (py_slice rows start_token_idx end_token_idx)) in
          modify (with_hashes
            (<[block_range := embeds_hash]> (prompt_embeds_per_block_hashes r))
            (block_hashes r)) ;;;
          ret [EKBytes embeds_hash]
      end
  end.

Definition generate_block_hash_extra_keys (start_token_idx end_token_idx start_mm_idx : Z)
  : M Request (option (list extra_key) * Z) :=
  r <- get ;;
  match _gen_mm_extra_hash_keys r start_token_idx end_token_idx start_mm_idx with
  | inl e => raise e
  | inr (mm_extra_keys, new_start_mm_idx) =>
      let lora_extra_keys := _gen_lora_extra_hash_keys r in
      let cache_salt_keys :=
        match py_str_bool (cache_salt r) with
        | Some s => if start_token_idx =? 0 then [EKStr s] else []
        | None => []
        end in
      prompt_embeds_keys <- _gen_prompt_embeds_extra_hash_keys start_token_idx end_token_idx ;;
      let extra_keys :=
        lora_extra_keys ++ mm_extra_keys ++ cache_salt_keys ++ prompt_embeds_keys in
      ret (match extra_keys with [] => None | _ :: _ => Some extra_keys end, new_start_mm_idx)
  end.

(** [not parent_block_hash] also holds for the empty byte string. *)
Definition hash_block_tokens (parent_block_hash : option bytes)
    (curr_block_token_ids : list Z) (extra_keys : option (list extra_key)) : bytes :=
  let parent := match parent_block_hash with
                | None | Some [] => NONE_HASH
                | Some h => h
                end in
  hash_function (parent, curr_block_token_ids, extra_keys).

(** The [while True] loop of [request_block_hasher]; [fuel] bounds the number
    of blocks, and running out of it is an error of its own kind. *)
Fixpoint hasher_loop (fuel : nat) (block_size start_token_idx curr_mm_idx : Z)
    (prev : option bytes) (new_block_hashes : list bytes) : M Request (option (list bytes)) :=
  r <- get ;;
  let end_token_idx := start_token_idx + block_size in
  if num_tokens r <? end_token_idx then ret (Some new_block_hashes)
  else
    match fuel with
    | O => ret None
    | S fuel =>
        k <- generate_block_hash_extra_keys start_token_idx end_token_idx curr_mm_idx ;;
        let block_tokens := py_slice (all_token_ids r) start_token_idx end_token_idx in
        let block_hash := hash_block_tokens prev block_tokens k.1 in
        hasher_loop fuel block_size (start_token_idx + block_size) k.2 (Some block_hash)
          (new_block_hashes ++ [block_hash])
    end.

Definition hasher_fuel (r : Request) : nat := S (length (all_token_ids r)).

Definition request_block_hasher (block_size : Z) : M Request (option (list bytes)) :=
  r <- get ;;
  let start_token_idx := len (block_hashes r) * block_size in
  if num_tokens r <? start_token_idx + block_size then ret (Some [])
  else
    let curr_mm_idx := if 0 <? start_token_idx then -1 else 0 in
    hasher_loop (hasher_fuel r) block_size start_token_idx curr_mm_idx
      (py_last (block_hashes r)) [].

(** [Request.update_block_hashes] with the hasher for [block_size]. *)
Definition update_block_hashes (block_hasher : option Z) : M Request unit :=
  match block_hasher with
  | None => ret tt
  | Some block_size =>
      hs <- request_block_hasher block_size ;;
      modify (fun r => with_hashes (prompt_embeds_per_block_hashes r)
                (block_hashes r ++ default [] hs) r)
  end.

Definition append_output_token_ids (block_hasher : option Z) (token_ids : list Z)
  : M Request unit :=
  modify (fun r => with_tokens (output_token_ids r ++ token_ids)
            (all_token_ids r ++ token_ids) r) ;;;
  update_block_hashes block_hasher.

End hashing.

(** ** [BlockHashListWithBlockSize] *)

Record BlockHashListWithBlockSize := {
  bhl_block_hashes : list bytes;
  scale_factor : Z;
}.

Definition BHL_new (block_hashes : list bytes) (hash_block_size target_block_size : Z)
  : exn + BlockHashListWithBlockSize :=
  if target_block_size mod hash_block_size =? 0 then
    inr {| bhl_block_hashes := block_hashes;
           scale_factor := target_block_size / hash_block_size |}
  else inl AssertionError.

Definition BHL_len (b : BlockHashListWithBlockSize) : Z :=
  len (bhl_block_hashes b) / scale_factor b.

(** [_get_value_at]: the hashes of the covered small blocks, concatenated. *)
Definition _get_value_at (b : BlockHashListWithBlockSize) (idx : Z) : bytes :=
  let base := idx * scale_factor b in
  let end_ := base + scale_factor b in
  concat (py_slice (bhl_block_hashes b) base end_).

(** [__iter__] *)
Definition BHL_to_list (b : BlockHashListWithBlockSize) : list bytes :=
  _get_value_at b <$> py_range 0 (BHL_len b).

(** [BlockHashList]: a list, or the rescaled view of one. *)
Inductive BlockHashList := HashList (l : list bytes) | Rescaled (b : BlockHashListWithBlockSize).

(** [block_hashes[i]]; the rescaled view does not check its bounds. *)
Definition bhl_get (b : BlockHashList) (i : Z) : option bytes :=
  match b with
  | HashList l => py_index l i
  | Rescaled b => Some (_get_value_at b i)
  end.

(** Iteration. *)
Definition bhl_list (b : BlockHashList) : list bytes :=
  match b with HashList l => l | Rescaled b => BHL_to_list b end.

(** [block_hashes[a:]] *)
Definition bhl_from (b : BlockHashList) (a : Z) : list bytes :=
  match b with
  | HashList l => py_drop l a
  | Rescaled b => _get_value_at b <$> py_range (slice_bound (BHL_len b) a) (BHL_len b)
  end.

(** The view a group with block size [block_size] has of a request's hashes. *)
Definition get_block_hashes_for (block_hashes : list bytes) (hash_block_size block_size : Z)
  : exn + BlockHashList :=
  if block_size =? hash_block_size then inr (HashList block_hashes)
  else match BHL_new block_hashes hash_block_size block_size with
       | inl e => inl e
       | inr b => inr (Rescaled b)
       end.

(** ** Properties of group-id packing *)

Lemma land255 x : Z.land x 255 = x mod 256.
Proof. change 255 with (Z.ones 8). by rewrite Z.land_ones by lia. Qed.

Lemma from_bytes_app a b x : from_bytes (a ++ b ++ [x]) = from_bytes (a ++ b) * 256 + x.
Proof. unfold from_bytes. by rewrite app_assoc, foldl_app. Qed.

Lemma to_bytes4_from_bytes n b : to_bytes4 n = inr b -> from_bytes b = n /\ len b = 4.
Proof.
  unfold to_bytes4. case_match eqn:E; [|done]. intros [= <-]. bool_to_prop.
  split; [|done]. unfold from_bytes. simpl. rewrite !land255, !Z.shiftr_div_pow2 by lia.
  change (2 ^ 24) with (256 * (256 * 256)). change (2 ^ 16) with (256 * 256). change (2 ^ 8) with 256.
  change (2 ^ 32) with 4294967296 in *.
  rewrite <- !Z.div_div by lia.
  pose proof (Z.div_mod n 256). pose proof (Z.div_mod (n / 256) 256).
  pose proof (Z.div_mod (n / 256 / 256) 256).
  rewrite (Z.mod_small (n / 256 / 256 / 256)); [lia|].
  split; [repeat apply Z.div_pos; lia|]. rewrite !Z.div_div by lia.
  apply Z.div_lt_upper_bound; lia.
Qed.

(** Packing and unpacking: for a group id of 32 bits the packed key exists
    and [get_block_hash]/[get_group_id] recover both components; for any other
    id packing raises [OverflowError]. *)
Theorem group_id_roundtrip (h : bytes) (g : Z) :
  match make_block_hash_with_group_id h g with
  | inr key => 0 <= g < 2 ^ 32 /\ get_block_hash key = h /\ get_group_id key = g
  | inl e => e = OverflowError /\ ~ (0 <= g < 2 ^ 32)
  end.
Proof.
  unfold make_block_hash_with_group_id. destruct (to_bytes4 g) as [e|b] eqn:E.
  - unfold to_bytes4 in E. case_match eqn:Hg; [done|]. simplify_eq. split; [done|].
    apply andb_false_iff in Hg as [?|?]; bool_to_prop; lia.
  - pose proof (to_bytes4_from_bytes g b E) as [Hb Hlen].
    unfold to_bytes4 in E. case_match eqn:Hg; [|done]. bool_to_prop.
    split; [lia|]. unfold get_block_hash, get_group_id, py_take, py_drop, slice_bound. simpl.
    rewrite len_app, Hlen. pose proof (len_nonneg h).
    rewrite Z.max_r by lia. replace (-4 + (len h + 4)) with (len h) by lia.
    unfold len. rewrite Nat2Z.id. split.
    + rewrite take_app_length. done.
    + rewrite drop_app_length. done.
Qed.

(** Packing is injective, so keys of different groups never collide. *)
Lemma make_key_inj h1 g1 h2 g2 k :
  make_block_hash_with_group_id h1 g1 = inr k -> make_block_hash_with_group_id h2 g2 = inr k ->
  h1 = h2 /\ g1 = g2.
Proof.
  unfold make_block_hash_with_group_id.
  destruct (to_bytes4 g1) as [|b1] eqn:E1, (to_bytes4 g2) as [|b2] eqn:E2; try done.
  intros [= <-] [= Heq]. apply to_bytes4_from_bytes in E1 as [<- H1], E2 as [<- H2].
  unfold len in *. apply app_inj_2 in Heq as [-> ->]; [done|lia].
Qed.

(** ** Properties of hash chains *)

Section chains.
Variable hash_function : bytes * list Z * option (list extra_key) -> bytes.
Variable NONE_HASH : bytes.
Variable sha256 : bytes -> bytes.

(** What the hasher hashes for one block. *)
Abbreviation block_content := (list Z * option (list extra_key))%type.

(** The hashes of consecutive blocks, each chained to its predecessor. *)
Fixpoint hash_chain (prev : option bytes) (bs : list block_content) : list bytes :=
  match bs with
  | [] => []
  | b :: bs =>
      let h := hash_block_tokens hash_function NONE_HASH prev b.1 b.2 in
      h :: hash_chain (Some h) bs
  end.

Lemma length_hash_chain prev bs : length (hash_chain prev bs) = length bs.
Proof. revert prev. induction bs as [|b bs IH]; intros prev; simpl; [done|]. by rewrite IH. Qed.

Lemma hash_chain_app prev bs1 bs2 :
  hash_chain prev (bs1 ++ bs2) =
  hash_chain prev bs1 ++
    hash_chain (match last (hash_chain prev bs1) with Some h => Some h | None => prev end) bs2.
Proof.
  revert prev. induction bs1 as [|b bs1 IH]; intros prev; simpl; [done|].
  rewrite IH, last_cons. by destruct (last _).
Qed.

Lemma hash_chain_lookup prev bs i h :
  hash_chain prev bs !! i = Some h ->
  exists b, bs !! i = Some b /\
    h = hash_block_tokens hash_function NONE_HASH
          (match i with O => prev | S j => hash_chain prev bs !! j end) b.1 b.2.
Proof.
  revert prev i. induction bs as [|b bs IH]; intros prev [|i]; simpl; try done.
  - intros [= <-]. eauto.
  - intros (b' & Hb' & ->)%IH. exists b'. split; [done|]. by destruct i.
Qed.

(** Documented behaviour of a collision-free hash: distinct inputs have
    distinct digests, and no digest is the seed or empty. *)
Definition collision_free : Prop :=
  Inj (=) (=) hash_function /\ forall x, hash_function x <> NONE_HASH /\ hash_function x <> [].

Lemma hash_block_tokens_ne prev t k :
  collision_free ->
  hash_block_tokens hash_function NONE_HASH prev t k <> NONE_HASH /\
  hash_block_tokens hash_function NONE_HASH prev t k <> [].
Proof. intros [_ Hne]. apply Hne. Qed.

Lemma hash_chain_parent prev bs i h :
  collision_free -> (prev = None \/ prev = Some NONE_HASH) ->
  hash_chain prev bs !! i = Some h ->
  exists b p, bs !! i = Some b /\ h = hash_function (p, b.1, b.2) /\
    match i with O => p = NONE_HASH | S j => hash_chain prev bs !! j = Some p /\ p <> NONE_HASH end.
Proof.
  intros Hcf Hprev Hh. apply hash_chain_lookup in Hh as (b & Hb & ->).
  exists b. unfold hash_block_tokens at 1. destruct i as [|i].
  - exists NONE_HASH. split_and!; [done| |done]. by destruct Hprev as [-> | ->]; [|destruct NONE_HASH].
  - destruct (hash_chain prev bs !! i) as [p|] eqn:Hp.
    + exists p. pose proof (hash_chain_lookup _ _ _ _ Hp) as (b' & _ & Hp').
      destruct (hash_block_tokens_ne (match i with O => prev | S j => hash_chain prev bs !! j end)
        b'.1 b'.2 Hcf) as [H1 H2]. rewrite <- Hp' in H1, H2.
      split_and!; [done|by destruct p|done|done].
    + apply lookup_ge_None in Hp. rewrite length_hash_chain in Hp.
      apply lookup_lt_Some in Hb. lia.
Qed.

(** Equal hashes at any two positions of two chains mean that the chains are
    the same up to there. *)
Lemma hash_chain_inj bs1 bs2 i j h :
  collision_free ->
  hash_chain None bs1 !! i = Some h -> hash_chain None bs2 !! j = Some h ->
  i = j /\ take (S i) bs1 = take (S j) bs2.
Proof.
  intros Hcf. pose proof Hcf as [Hinj Hne]. revert j h.
  induction i as [|i IH]; intros j h H1 H2;
    apply hash_chain_parent in H1 as (b1 & p1 & Hb1 & -> & Hp1); try (by auto);
    apply hash_chain_parent in H2 as (b2 & p2 & Hb2 & Heq & Hp2); try (by auto);
    apply (inj hash_function) in Heq; simplify_eq;
    destruct b1 as [t1 k1], b2 as [t2 k2]; simpl in *; simplify_eq.
  - destruct j as [|j]; [|by destruct Hp2].
    destruct bs1, bs2; simplify_eq/=. done.
  - destruct Hp1 as [Hp1 Hn1]. destruct j as [|j]; [done|]. destruct Hp2 as [Hp2 Hn2].
    destruct (IH _ _ Hp1 Hp2) as [<- Ht]. split; [done|].
    rewrite (take_S_r _ _ _ Hb1), (take_S_r _ _ _ Hb2). by rewrite Ht.
Qed.
End chains.

(** ** The request block hasher computes hash chains *)

Section hasher.
Variable hash_function : bytes * list Z * option (list extra_key) -> bytes.
Variable NONE_HASH : bytes.
Variable sha256 : bytes -> bytes.

Abbreviation memo := prompt_embeds_per_block_hashes.

(** The memo table only holds digests of the slices it names. *)
Definition memo_ok (r : Request) : Prop :=
  forall a b d, memo r !! (a, b) = Some d ->
    exists rows, prompt_embeds r = Some rows /\ d = sha256 (concat (py_slice rows a b)).

(** [r'] is [r] with more digests memoised. *)
Definition same_but_memo (r r' : Request) : Prop :=
  exists m, r' = with_hashes m (block_hashes r) r.

(** The extra keys of the block [s, e) of a request without multi-modal items. *)
Definition text_keys (r : Request) (s e : Z) : option (list extra_key) :=
  match _gen_lora_extra_hash_keys r
        ++ match py_str_bool (cache_salt r) with
           | Some t => if s =? 0 then [EKStr t] else []
           | None => []
           end
        ++ match prompt_embeds r with
           | Some rows => [EKBytes (sha256 (concat (py_slice rows s e)))]
           | None => []
           end with
  | [] => None
  | (_ :: _) as ks => Some ks
  end.

Definition text_block (r : Request) (bs i : Z) : list Z * option (list extra_key) :=
  (py_slice (all_token_ids r) (i * bs) (i * bs + bs), text_keys r (i * bs) (i * bs + bs)).

Definition text_blocks (r : Request) (bs n : Z) := text_block r bs <$> py_range 0 n.

(** The stored hashes are those of all full blocks of the request. *)
Definition hashed (bs : Z) (r : Request) : Prop :=
  block_hashes r = hash_chain hash_function NONE_HASH None (text_blocks r bs (num_tokens r / bs)).

Lemma same_but_memo_refl r : same_but_memo r r.
Proof. exists (memo r). by destruct r. Qed.

Lemma prompt_embeds_keys_spec r s e :
  memo_ok r ->
  exists r', _gen_prompt_embeds_extra_hash_keys sha256 s e r =
      Ret (match prompt_embeds r with
           | Some rows => [EKBytes (sha256 (concat (py_slice rows s e)))]
           | None => []
           end) r' /\ same_but_memo r r' /\ memo_ok r'.
Proof.
  intros Hm. unfold _gen_prompt_embeds_extra_hash_keys, bind, get, modify, ret.
  destruct (prompt_embeds r) as [rows|] eqn:Hrows; [|eauto using same_but_memo_refl].
  destruct (memo r !! (s, e)) as [d|] eqn:Hd.
  - destruct (Hm _ _ _ Hd) as (rows' & ? & ->). simplify_eq. eauto using same_but_memo_refl.
  - eexists. split; [done|]. split; [by eexists|]. intros a b d. simpl.
    destruct (decide ((s, e) = (a, b))) as [[= <- <-]|Hne].
    + rewrite lookup_insert_eq. intros [= <-]. eauto.
    + rewrite lookup_insert_ne by done. apply Hm.
Qed.

Lemma generate_keys_spec r s e mm :
  memo_ok r -> mm_features r = [] ->
  exists r', generate_block_hash_extra_keys sha256 s e mm r = Ret (text_keys r s e, mm) r' /\
    same_but_memo r r' /\ memo_ok r'.
Proof.
  intros Hm Hmm. unfold generate_block_hash_extra_keys, bind at 1, get.
  unfold _gen_mm_extra_hash_keys. rewrite Hmm. simpl.
  destruct (prompt_embeds_keys_spec r s e Hm) as (r' & Hr & Hsame & Hm').
  exists r'. unfold bind. rewrite Hr. split; [|done]. unfold text_keys.
  unfold ret. simpl. by destruct (_ ++ _).
Qed.

Lemma text_block_same_but_memo r r' bs i :
  same_but_memo r r' -> text_block r' bs i = text_block r bs i.
Proof. by intros [m ->]. Qed.

Lemma same_but_memo_trans r1 r2 r3 :
  same_but_memo r1 r2 -> same_but_memo r2 r3 -> same_but_memo r1 r3.
Proof.
  intros [m1 ->] [m2 ->]. by exists m2.
Qed.

Lemma hasher_loop_spec fuel bs r k mm acc n :
  0 < bs -> memo_ok r -> mm_features r = [] ->
  n = num_tokens r / bs -> 0 <= k <= n -> n - k <= Z.of_nat fuel ->
  let prev := last (hash_chain hash_function NONE_HASH None (text_blocks r bs k)) in
  exists r', hasher_loop hash_function NONE_HASH sha256 fuel bs (k * bs) mm prev acc r =
      Ret (Some (acc ++ hash_chain hash_function NONE_HASH prev
                    (text_block r bs <$> py_range k n))) r' /\
    same_but_memo r r' /\ memo_ok r'.
Proof.
  intros Hbs. revert r k mm acc. induction fuel as [|fuel IH]; intros r k mm acc Hm Hmm Hn Hk Hf prev;
    simpl; unfold bind at 1, get.
  - assert (k = n) as -> by lia.
    destruct (Z.ltb_spec (num_tokens r) (n * bs + bs)) as [_|Hlt].
    2: { pose proof (Z.mul_succ_div_gt (num_tokens r) bs Hbs). nia. }
    exists r. replace (py_range n n) with (@nil Z) by (unfold py_range; by rewrite Z.sub_diag).
    simpl. rewrite app_nil_r. eauto using same_but_memo_refl.
  - destruct (Z.ltb_spec (num_tokens r) (k * bs + bs)) as [Hlt|Hge].
    { assert (k = n) as ->.
      { pose proof (Z.mul_div_le (num_tokens r) bs Hbs). nia. }
      exists r. replace (py_range n n) with (@nil Z) by (unfold py_range; by rewrite Z.sub_diag).
      simpl. rewrite app_nil_r. eauto using same_but_memo_refl. }
    assert (k < n) as Hkn.
    { pose proof (Z.mul_succ_div_gt (num_tokens r) bs Hbs). nia. }
    destruct (generate_keys_spec r (k * bs) (k * bs + bs) mm Hm Hmm) as (r1 & Hr1 & Hs1 & Hm1).
    unfold bind at 1. rewrite Hr1. simpl.
    set (h := hash_block_tokens _ _ _ _ _).
    assert (text_blocks r bs (k + 1) = text_blocks r bs k ++ [text_block r bs k]) as Hsnoc.
    { unfold text_blocks, py_range. replace (k + 1 - 0) with (Z.succ k) by lia.
      rewrite Z.sub_0_r, Z2Nat.inj_succ, seq_S, !fmap_app by lia. simpl.
      by rewrite Z2Nat.id, Z.add_0_l by lia. }
    assert (last (hash_chain hash_function NONE_HASH None (text_blocks r1 bs (k + 1))) = Some h) as Hlast.
    { assert (text_blocks r1 bs (k + 1) = text_blocks r bs (k + 1)) as ->.
      { unfold text_blocks. apply list_fmap_ext. intros. by apply text_block_same_but_memo. }
      rewrite Hsnoc, hash_chain_app, last_app. simpl. unfold h, prev. by destruct (last _). }
    specialize (IH r1 (k + 1) mm (acc ++ [h]) Hm1).
    destruct IH as (r2 & Hr2 & Hs2 & Hm2); [by destruct Hs1 as [m ->]..|lia|lia|].
    replace (k * bs + bs) with ((k + 1) * bs) by lia.
    cbv zeta in Hr2. rewrite Hlast in Hr2. rewrite Hr2. exists r2. split_and!.
    + f_equal. f_equal. rewrite <- app_assoc. f_equal. simpl.
      assert (py_range k n = k :: py_range (k + 1) n) as ->.
      { unfold py_range. replace (Z.to_nat (n - k)) with (S (Z.to_nat (n - (k + 1)))) by lia.
        simpl. f_equal; [lia|]. rewrite <- fmap_S_seq, <- list_fmap_compose.
        apply list_fmap_ext. intros. simpl. lia. }
      simpl. f_equal. f_equal. apply list_fmap_ext. intros. by apply text_block_same_but_memo.
    + by eapply same_but_memo_trans.
    + done.
Qed.

Lemma text_blocks_append r bs out more n :
  0 < bs -> n * bs <= num_tokens r ->
  text_blocks (with_tokens out (all_token_ids r ++ more) r) bs n = text_blocks r bs n.
Proof.
  intros Hbs Hn. unfold text_blocks. apply list_fmap_ext. intros i x Hx.
  apply list_elem_of_lookup_2, elem_of_py_range in Hx. unfold text_block. simpl.
  rewrite py_slice_app; [done|nia|unfold num_tokens in Hn; nia].
Qed.

Lemma text_blocks_split r bs k n :
  0 <= k <= n -> text_blocks r bs n = text_blocks r bs k ++ (text_block r bs <$> py_range k n).
Proof.
  intros Hk. unfold text_blocks. rewrite <- fmap_app. f_equal. unfold py_range.
  rewrite !Z.sub_0_r. replace (Z.to_nat n) with (Z.to_nat k + Z.to_nat (n - k))%nat by lia.
  rewrite seq_app, fmap_app. f_equal. apply list_eq. intros i. simpl.
  rewrite !list_lookup_fmap.
  destruct (decide (i < Z.to_nat (n - k))%nat).
  - rewrite !lookup_seq_lt by done. simpl. f_equal. lia.
  - by rewrite !lookup_seq_ge by lia.
Qed.

Lemma update_block_hashes_text bs r n0 :
  0 < bs -> memo_ok r -> mm_features r = [] ->
  0 <= n0 <= num_tokens r / bs ->
  block_hashes r = hash_chain hash_function NONE_HASH None (text_blocks r bs n0) ->
  exists r', update_block_hashes hash_function NONE_HASH sha256 (Some bs) r = Ret tt r' /\
    hashed bs r' /\ memo_ok r' /\
    (exists m hs, r' = with_hashes m hs r).
Proof.
  intros Hbs Hm Hmm Hn0 Hh. unfold update_block_hashes, request_block_hasher, bind, get.
  cbv beta iota.
  assert (len (block_hashes r) = n0) as Hlen.
  { rewrite Hh. unfold len. rewrite length_hash_chain. unfold text_blocks.
    rewrite length_fmap. fold (len (py_range 0 n0)). rewrite len_py_range. lia. }
  rewrite Hlen. set (n := num_tokens r / bs) in *.
  pose proof (Z.mul_div_le (num_tokens r) bs Hbs) as Hd1.
  pose proof (Z.mul_succ_div_gt (num_tokens r) bs Hbs) as Hd2. fold n in Hd1, Hd2.
  destruct (Z.ltb_spec (num_tokens r) (n0 * bs + bs)) as [Hlt|Hge].
  - unfold ret, modify. simpl. rewrite app_nil_r. eexists. split; [done|]. split_and!.
    + unfold hashed. simpl. rewrite Hh. assert (n0 = n) as -> by nia. done.
    + done.
    + eauto.
  - destruct (hasher_loop_spec (hasher_fuel r) bs r n0 (if 0 <? n0 * bs then -1 else 0) [] n)
      as (r1 & Hr1 & [m ->] & Hm1); [done..|lia|unfold hasher_fuel, num_tokens, len in *; nia|].
    cbv zeta in Hr1. rewrite <- Hh in Hr1. rewrite py_last_last, Hr1. unfold modify. simpl.
    eexists. split; [done|]. split_and!; [|done|eauto].
    unfold hashed. simpl.
    match goal with |- _ = hash_chain _ _ _ ?l => change l with (text_blocks r bs n) end.
    rewrite (text_blocks_split r bs n0 n) by lia. rewrite hash_chain_app, <- Hh.
    by destruct (last (block_hashes r)).
Qed.

(** Appending tokens extends the hashes. *)
Lemma append_text bs ids r :
  0 < bs -> mm_features r = [] -> memo_ok r -> hashed bs r ->
  exists r', append_output_token_ids hash_function NONE_HASH sha256 (Some bs) ids r = Ret tt r' /\
    hashed bs r' /\ memo_ok r' /\
    exists m hs, r' = with_hashes m hs
                        (with_tokens (output_token_ids r ++ ids) (all_token_ids r ++ ids) r).
Proof.
  intros Hbs Htext Hmemo Hr. unfold append_output_token_ids, bind, modify.
  apply (update_block_hashes_text bs _ (num_tokens r / bs)); [done|done|done|..].
  - split; [apply Z.div_pos; [apply len_nonneg|done]|].
    unfold num_tokens. simpl. apply Z.div_le_mono; [done|]. rewrite len_app.
    pose proof (len_nonneg ids). lia.
  - simpl. rewrite text_blocks_append; [done..|].
    pose proof (Z.mul_div_le (num_tokens r) bs Hbs). lia.
Qed.

(** C25. Appending generated tokens to a text request whose stored hashes are
    those of its full blocks always succeeds, and the request again stores
    exactly the hashes of its full blocks: hashing incrementally equals
    hashing the whole sequence from scratch, in any number of steps. *)
Theorem append_output_token_ids_hashed (bs : Z) (ids : list Z) (r : Request)
    (Hbs : 0 < bs) (Htext : mm_features r = []) (Hmemo : memo_ok r) (Hr : hashed bs r) :
  exists r', append_output_token_ids hash_function NONE_HASH sha256 (Some bs) ids r = Ret tt r' /\
    all_token_ids r' = all_token_ids r ++ ids /\ hashed bs r' /\ memo_ok r' /\
    mm_features r' = [].
Proof.
  destruct (append_text bs ids r Hbs Htext Hmemo Hr) as (r' & Hr' & Hh & Hm & m & hs & ->).
  rewrite Hr'. eauto 10.
Qed.

End hasher.

(** ** Concrete instances *)

(** A collision-free hash function on the modelled inputs: the digest spells
    out an injective encoding of the input, byte 1 first. *)
Definition demo_hash (x : bytes * list Z * option (list extra_key)) : bytes :=
  [1; Z.pos (encode x)].
Definition demo_none_hash : bytes := [0].
Definition demo_sha256 (b : bytes) : bytes := 2 :: b.

Lemma demo_collision_free : collision_free demo_hash demo_none_hash.
Proof. split; [|done]. intros x y [= H]. by apply (inj encode) in H. Qed.

Definition demo_sampling : SamplingParams :=
  {| sp_max_tokens := Some 16; min_tokens := 0; eos_token_id := Some 2;
     stop_token_ids := None; repetition_detection := None;
     sp_skip_reading_prefix_cache := None |}.

Definition demo_request_with (id : string) (ids : list Z) (salt : option string)
    (mm : list MultiModalFeature) : Request :=
  match Request_new id 1 0 0 (Some demo_sampling) None None false (Some ids) None salt mm with
  | inr r => r
  | inl _ => {| request_id := id; obj_id := 1; priority := 0; arrival_time := 0;
                sampling_params := None; pooling_params := None; lora_request := None;
                use_structured_output := false; status := WAITING; stop_reason := None;
                max_tokens := 0; prompt_token_ids := None; prompt_embeds := None;
                prompt_embeds_per_block_hashes := ∅; num_prompt_tokens := 0;
                output_token_ids := []; all_token_ids := []; spec_token_ids := [];
                num_computed_tokens := 0; num_preemptions := 0; cache_salt := None;
                mm_features := []; block_hashes := []; skip_reading_prefix_cache := false;
     num_output_placeholders := 0; is_prefill_chunk := false; discard_latest_async_tokens := false |}
  end.

Definition demo_request (id : string) (ids : list Z) : Request :=
  demo_request_with id ids (Some "salt") [].

(** The state a method leaves the request in. *)
Definition final {S A} (o : outcome S A) : S :=
  match o with Ret _ s => s | Raise _ s => s end.

Definition demo_hashed_request (id : string) (ids : list Z) : Request :=
  final (update_block_hashes demo_hash demo_none_hash demo_sha256 (Some 2) (demo_request id ids)).

Lemma append_output_token_ids_hashed_witness :
  let r := demo_hashed_request "a" [5; 6; 7; 8; 9] in
  hashed demo_hash demo_none_hash demo_sha256 2 r /\ len (block_hashes r) = 2 /\
  exists r', append_output_token_ids demo_hash demo_none_hash demo_sha256 (Some 2) [10; 11; 12] r
    = Ret tt r' /\ hashed demo_hash demo_none_hash demo_sha256 2 r'.
Proof.
  cbv zeta. assert (hashed demo_hash demo_none_hash demo_sha256 2
    (demo_hashed_request "a" [5; 6; 7; 8; 9])) as Hh by (vm_compute; reflexivity).
  split; [exact Hh|]. split; [vm_compute; reflexivity|].
  destruct (append_output_token_ids_hashed demo_hash demo_none_hash demo_sha256 2 [10; 11; 12]
    (demo_hashed_request "a" [5; 6; 7; 8; 9])) as (r' & H1 & _ & H2 & _).
  - lia.
  - reflexivity.
  - intros a b d. vm_compute. discriminate.
  - exact Hh.
  - exists r'. split; [exact H1|exact H2].
Defined.


(** Two images whose placeholders lie in the same, not yet full block. *)
Definition demo_image (id : string) (off : Z) : MultiModalFeature :=
  {| identifier := Some id; mm_position := {| offset := off; length_ := 1; is_embed := None |} |}.

Definition demo_mm_request (first_image : string) : Request :=
  final (update_block_hashes demo_hash demo_none_hash demo_sha256 (Some 4)
    (demo_request_with "r" [1; 1; 1; 1; 9; 9] None
       [demo_image first_image 4; demo_image "dog" 5])).

(** The request after two generated tokens completed the second block. *)
Definition demo_mm_generated (first_image : string) : Request :=
  final (append_output_token_ids demo_hash demo_none_hash demo_sha256 (Some 4) [3; 3]
    (demo_mm_request first_image)).

(** The same tokens and images, hashed from scratch. *)
Definition demo_mm_scratch (first_image : string) : Request :=
  final (update_block_hashes demo_hash demo_none_hash demo_sha256 (Some 4)
    (demo_request_with "r" [1; 1; 1; 1; 9; 9; 3; 3] None
       [demo_image first_image 4; demo_image "dog" 5])).

