(* ===== verification/BlockPool.v ===== *)
(** * The block pool

    Models vllm/v1/core/block_pool.py: [BlockHashToBlockMap], the cache from
    keys (hash and group id) to blocks, and [BlockPool], which hands out,
    caches, shares, frees and evicts blocks.

    The blocks live in the store of the free queue, so [free_block_queue]
    carries the store that all references of the pool point into; [blocks] is
    the list [self.blocks] of references.  The optional metrics collector only
    observes the calls; the model is of a pool without one (the default). *)

From S2P Require Import Prelude FreeQueue Request BlockHash.
From stdpp Require Import options.

(** What the environment provides: the digest of prompt embeddings and the
    switch [VLLM_KV_EVENTS_USE_INT_BLOCK_HASHES]. *)
Class HashEnv := {
  env_sha256 : bytes -> bytes;
  env_use_int_block_hashes : bool;
}.

(** ** [BlockHashToBlockMap] *)

(** The value of a key: a block, or a dict from block ids to blocks. *)
Inductive CacheEntry := One (b : bref) | Many (d : list (Z * bref)).

Module BlockHashToBlockMap.
Abbreviation t := (gmap bytes CacheEntry).

(** [block.block_id] *)
Definition id_of (h : store) (r : bref) : Z :=
  match h !! r with Some b => block_id b | None => -1 end.

(** [next(iter(d.values()))] raises [StopIteration] on an empty dict. *)
Definition get_one_block (c : t) (key : bytes) : exn + option bref :=
  match c !! key with
  | None => inr None
  | Some (One b) => inr (Some b)
  | Some (Many ((_, b) :: _)) => inr (Some b)
  | Some (Many []) => inl StopIteration
  end.

Definition insert (h : store) (key : bytes) (block : bref) (c : t) : t :=
  match c !! key with
  | None => <[key := One block]> c
  | Some (One b) =>
      <[key := Many (dict_set (id_of h block) block [(id_of h b, b)])]> c
  | Some (Many d) => <[key := Many (dict_set (id_of h block) block d)]> c
  end.

Definition pop (h : store) (key : bytes) (block_id : Z) (c : t) : option bref * t :=
  match c !! key with
  | None => (None, c)
  | Some (One b) =>
      if id_of h b =? block_id then (Some b, delete key c)
      else (None, <[key := One b]> (delete key c))
  | Some (Many d) =>
      let block := dict_get block_id d in
      let d := dict_del block_id d in
      (block, if 0 <? len d then <[key := Many d]> (delete key c) else delete key c)
  end.
End BlockHashToBlockMap.

(** ** Events *)

Inductive KVCacheEvent :=
  | BlockStored (block_hashes : list ExternalBlockHash)
      (parent_block_hash : option ExternalBlockHash) (token_ids : list Z) (block_size : Z)
      (lora_id : option Z) (lora_name : option string)
      (extra_keys : option (list (option (list extra_key)))) (group_idx : Z)
  | BlockRemoved (block_hashes : list ExternalBlockHash) (group_idx : Z)
  | AllBlocksCleared.

(** ** [BlockPool] *)
Module BlockPool.

Record t := Mk {
  num_gpu_blocks : Z;
  enable_caching : bool;
  hash_block_size : Z;
  blocks : list bref;
  free_block_queue : Queue.t;
  cached_block_hash_to_block : BlockHashToBlockMap.t;
  null_block : bref;
  enable_kv_cache_events : bool;
  kv_event_queue : list KVCacheEvent;
}.

Definition heap (p : t) : store := Queue.heap (free_block_queue p).

Definition set_queue (q : Queue.t) (p : t) : t :=
  Mk (num_gpu_blocks p) (enable_caching p) (hash_block_size p) (blocks p) q
    (cached_block_hash_to_block p) (null_block p) (enable_kv_cache_events p) (kv_event_queue p).

Definition set_cached (c : BlockHashToBlockMap.t) (p : t) : t :=
  Mk (num_gpu_blocks p) (enable_caching p) (hash_block_size p) (blocks p) (free_block_queue p)
    c (null_block p) (enable_kv_cache_events p) (kv_event_queue p).

Definition set_events (es : list KVCacheEvent) (p : t) : t :=
  Mk (num_gpu_blocks p) (enable_caching p) (hash_block_size p) (blocks p) (free_block_queue p)
    (cached_block_hash_to_block p) (null_block p) (enable_kv_cache_events p) es.

(** Assignment to a field of a block. *)
Definition set_block (f : KVCacheBlock -> KVCacheBlock) (r : bref) (p : t) : t :=
  set_queue (Queue.Mk (alter f r (heap p)) (Queue.num_free_blocks (free_block_queue p))) p.

(** Reading a field of a block; a dangling reference has no attributes. *)
Definition deref (r : bref) : M t KVCacheBlock :=
  p <- get ;; of_option AttributeError (heap p !! r).

Definition on_queue {A} (m : M Queue.t A) : M t A := zoom free_block_queue set_queue m.

(** [blk.block_hash = h] *)
Definition assign_hash (r : bref) (h : bytes) : M t unit :=
  b <- deref r ;;
  match set_block_hash h b with
  | Some b' => modify (set_block (fun _ => b') r)
  | None => raise AssertionError
  end.

(** [BlockPool(num_gpu_blocks, enable_caching, hash_block_size, events)] *)
Definition init (num_gpu_blocks : Z) (enable_caching : bool) (hash_block_size : Z)
    (enable_kv_cache_events : bool) : exn + t :=
  if num_gpu_blocks <=? 0 then inl AssertionError else
  let blocks := Blk <$> seq 0 (Z.to_nat num_gpu_blocks) in
  let q := Queue.init blocks (fresh_store (Z.to_nat num_gpu_blocks)) in
  match Queue.popleft q with
  | Raise e _ => inl e
  | Ret null_block q =>
      inr (set_block (with_null true) null_block
        (Mk num_gpu_blocks enable_caching hash_block_size blocks q ∅ null_block
           enable_kv_cache_events []))
  end.

(** [cached_blocks] accumulates over the groups. *)
Fixpoint get_cached_block_loop (p : t) (block_hash : bytes) (kv_cache_group_ids : list Z)
    (cached_blocks : list bref) : exn + option (list bref) :=
  match kv_cache_group_ids with
  | [] => inr (Some cached_blocks)
  | group_id :: gs =>
      match make_block_hash_with_group_id block_hash group_id with
      | inl e => inl e
      | inr key =>
          match BlockHashToBlockMap.get_one_block (cached_block_hash_to_block p) key with
          | inl e => inl e
          | inr None => inr None
          | inr (Some block) => get_cached_block_loop p block_hash gs (cached_blocks ++ [block])
          end
      end
  end.

Definition get_cached_block (p : t) (block_hash : bytes) (kv_cache_group_ids : list Z)
  : exn + option (list bref) :=
  get_cached_block_loop p block_hash kv_cache_group_ids [].

Definition get_num_free_blocks (p : t) : Z := Queue.num_free_blocks (free_block_queue p).

Section with_env.
Context `{HashEnv}.

(** The first loop of [cache_full_blocks]; [i] is the index of the head. *)
Fixpoint cache_loop (kv_cache_group_id : Z) (new_block_hashes : list bytes) (i : Z)
    (new_full_blocks : list bref) (new_hashes : option (list ExternalBlockHash))
  : M t (option (list ExternalBlockHash)) :=
  match new_full_blocks with
  | [] => ret new_hashes
  | blk :: blks =>
      b <- deref blk ;;
      if is_null b then cache_loop kv_cache_group_id new_block_hashes (i + 1) blks new_hashes
      else
        assert (is_none (block_hash b)) ;;;
        block_hash <- of_option IndexError (py_index new_block_hashes i) ;;
        block_hash_with_group_id <-
          of_result (make_block_hash_with_group_id block_hash kv_cache_group_id) ;;
        assign_hash blk block_hash_with_group_id ;;;
        modify (fun p => set_cached (BlockHashToBlockMap.insert (heap p) block_hash_with_group_id
                           blk (cached_block_hash_to_block p)) p) ;;;
        cache_loop kv_cache_group_id new_block_hashes (i + 1) blks
          (match new_hashes with
           | Some hs => Some (hs ++ [maybe_convert_block_hash env_use_int_block_hashes block_hash])
           | None => None
           end)
  end.

(** The extra keys of the blocks at the indices [is_]; the request is threaded
    for the digests it memoises. *)
Fixpoint event_keys_loop (blocks : list bref) (block_size : Z) (is_ : list Z) (curr_mm_idx : Z)
    (request : Request) (extra_keys_list : list (option (list extra_key)))
  : M t (list (option (list extra_key)) * Request) :=
  match is_ with
  | [] => ret (extra_keys_list, request)
  | i :: is_ =>
      blk <- of_option IndexError (py_index blocks i) ;;
      b <- deref blk ;;
      if is_null b then event_keys_loop blocks block_size is_ curr_mm_idx request extra_keys_list
      else
        let block_start := i * block_size in
        let block_end := block_start + block_size in
        match generate_block_hash_extra_keys env_sha256 block_start block_end curr_mm_idx request with
        | Raise e _ => raise e
        | Ret (extra_keys, curr_mm_idx) request =>
            event_keys_loop blocks block_size is_ curr_mm_idx request
              (extra_keys_list ++ [extra_keys])
        end
  end.

(** Returns the request, whose memo table the event may have extended. *)
Definition cache_full_blocks (request : Request) (blocks : list bref)
    (num_cached_blocks num_full_blocks block_size kv_cache_group_id : Z) : M t Request :=
  if num_full_blocks <=? num_cached_blocks then ret request else
  p <- get ;;
  let new_full_blocks := py_slice blocks num_cached_blocks num_full_blocks in
  assert (num_full_blocks <=? len (block_hashes request)) ;;;
  block_hashes <-
    of_result (get_block_hashes_for (block_hashes request) (hash_block_size p) block_size) ;;
  let new_block_hashes := bhl_from block_hashes num_cached_blocks in
  new_hashes <- cache_loop kv_cache_group_id new_block_hashes 0 new_full_blocks
                  (if enable_kv_cache_events p then Some [] else None) ;;
  if enable_kv_cache_events p then
    parent_block_hash <-
      (if num_cached_blocks =? 0 then ret None
       else h <- of_option IndexError (bhl_get block_hashes (num_cached_blocks - 1)) ;;
            ret (Some (maybe_convert_block_hash env_use_int_block_hashes h))) ;;
    let start_token_idx := num_cached_blocks * block_size in
    let end_token_idx := num_full_blocks * block_size in
    ks <- event_keys_loop blocks block_size (py_range num_cached_blocks num_full_blocks) 0
            request [] ;;
    modify (fun p => set_events (kv_event_queue p ++
      [BlockStored (default [] new_hashes) parent_block_hash
         (py_slice (all_token_ids request) start_token_idx end_token_idx) block_size
         (lora_int_id <$> lora_request request) (lora_name <$> lora_request request)
         (match ks.1 with [] => None | _ :: _ => Some ks.1 end) kv_cache_group_id]) p) ;;;
    ret ks.2
  else ret request.

Definition _maybe_evict_cached_block (block : bref) : M t bool :=
  b <- deref block ;;
  match block_hash b with
  | None => ret false
  | Some block_hash =>
      p <- get ;;
      let r := BlockHashToBlockMap.pop (heap p) block_hash (block_id b)
                 (cached_block_hash_to_block p) in
      put (set_cached r.2 p) ;;;
      match r.1 with
      | None => ret false
      | Some _ =>
          modify (set_block reset_hash block) ;;;
          p <- get ;;
          (if enable_kv_cache_events p
           then put (set_events (kv_event_queue p ++
                  [BlockRemoved
                     [maybe_convert_block_hash env_use_int_block_hashes (get_block_hash block_hash)]
                     (get_group_id block_hash)]) p)
           else ret tt) ;;;
          ret true
      end
  end.

(** [assert block.ref_cnt == 0; block.ref_cnt += 1] *)
Definition acquire (block : bref) : M t unit :=
  b <- deref block ;;
  assert (ref_cnt b =? 0) ;;;
  modify (set_block (with_ref_cnt (ref_cnt b + 1)) block).

Definition get_new_blocks (num_blocks : Z) : M t (list bref) :=
  p <- get ;;
  if get_num_free_blocks p <? num_blocks then raise ValueError
  else
    blks <- on_queue (Queue.popleft_n num_blocks) ;;
    (if enable_caching p
     then mfor blks (fun block => _maybe_evict_cached_block block ;;; acquire block)
     else mfor blks acquire) ;;;
    ret blks.

(** The body of the loop of [touch]. *)
Definition touch_block (block : bref) : M t unit :=
  b <- deref block ;;
  (if ((ref_cnt b =? 0) && negb (is_null b))%bool then on_queue (Queue.remove block)
   else ret tt) ;;;
  modify (set_block (fun b => with_ref_cnt (ref_cnt b + 1) b) block).

Definition touch (blocks : list bref) : M t unit := mfor blocks touch_block.

(** Whether the list comprehension of [free_blocks] keeps a block. *)
Definition to_free (h : store) (r : bref) : bool :=
  match h !! r with
  | Some b => ((ref_cnt b =? 0) && negb (is_null b))%bool
  | None => false
  end.

Definition free_blocks (ordered_blocks : list bref) : M t unit :=
  mfor ordered_blocks (fun block =>
    b <- deref block ;;
    modify (set_block (with_ref_cnt (ref_cnt b - 1)) block)) ;;;
  p <- get ;;
  on_queue (Queue.append_n (filter (fun r => to_free (heap p) r = true) ordered_blocks)).

(** [block_ids] is the set of ids in its iteration order. *)
Definition evict_blocks (block_ids : list Z) : M t unit :=
  mfor block_ids (fun block_id =>
    p <- get ;;
    assert (block_id <? len (blocks p)) ;;;
    block <- of_option IndexError (py_index (blocks p) block_id) ;;
    _maybe_evict_cached_block block ;;; ret tt).

Definition reset_prefix_cache : M t bool :=
  p <- get ;;
  let num_used_blocks := num_gpu_blocks p - get_num_free_blocks p in
  if negb (num_used_blocks =? 1) then ret false
  else
    modify (set_cached ∅) ;;;
    mfor (blocks p) (fun block => modify (set_block reset_hash block)) ;;;
    (if enable_kv_cache_events p
     then modify (fun p => set_events (kv_event_queue p ++ [AllBlocksCleared]) p)
     else ret tt) ;;;
    ret true.

(** The usage is the fraction of its two components (0 when there is no usable
    block); the floating-point quotient is not modelled. *)
Definition get_usage (p : t) : option (Z * Z) :=
  let total_gpu_blocks := num_gpu_blocks p - 1 in
  if total_gpu_blocks =? 0 then None
  else Some (total_gpu_blocks - get_num_free_blocks p, total_gpu_blocks).

Definition take_events : M t (list KVCacheEvent) :=
  p <- get ;;
  if negb (enable_kv_cache_events p) then ret []
  else modify (set_events []) ;;; ret (kv_event_queue p).

End with_env.
End BlockPool.

(** ** The fields of blocks *)

Definition refc (h : store) (r : bref) : option Z := ref_cnt <$> h !! r.
Definition hashof (h : store) (r : bref) : option bytes := h !! r ≫= block_hash.
Definition nullp (h : store) (r : bref) : option bool := is_null <$> h !! r.
Definition idof (h : store) (r : bref) : option Z := block_id <$> h !! r.

Section fields.
Variable h : store.
Implicit Types (r : bref) (f : KVCacheBlock -> KVCacheBlock).

Lemma same_data_fields h' r :
  same_data h h' ->
  refc h' r = refc h r /\ hashof h' r = hashof h r /\ nullp h' r = nullp h r /\
  idof h' r = idof h r.
Proof.
  intros Hd. specialize (Hd r). unfold refc, hashof, nullp, idof.
  destruct (h !! r) as [[]|], (h' !! r) as [[]|]; simpl in *; try done.
  unfold data in Hd. simpl in Hd. by simplify_eq.
Qed.

Lemma alter_fields f r r' :
  (forall b, block_id (f b) = block_id b /\ is_null (f b) = is_null b) ->
  nullp (alter f r h) r' = nullp h r' /\ idof (alter f r h) r' = idof h r'.
Proof.
  intros Hf. unfold nullp, idof. rewrite lookup_alter. case_decide; [subst|done].
  destruct (h !! r') as [b|]; [|done]. simpl. by destruct (Hf b) as [-> ->].
Qed.

Lemma refc_alter f r r' :
  refc (alter f r h) r' = if decide (r = r') then (fun b => ref_cnt (f b)) <$> h !! r else refc h r'.
Proof. unfold refc. rewrite lookup_alter. case_decide; [subst|done]. by destruct (h !! r'). Qed.

Lemma hashof_alter f r r' :
  hashof (alter f r h) r' = if decide (r = r') then h !! r ≫= (fun b => block_hash (f b)) else hashof h r'.
Proof. unfold hashof. rewrite lookup_alter. case_decide; [subst|done]. by destruct (h !! r'). Qed.
End fields.

(** An update that keeps the queue pointers keeps the queue. *)
Definition keeps_links (f : KVCacheBlock -> KVCacheBlock) : Prop :=
  forall b, prev_free_block (f b) = prev_free_block b /\ next_free_block (f b) = next_free_block b.

Lemma rep_set_data q l f r :
  queue_rep q l -> keeps_links f ->
  queue_rep (Queue.Mk (alter f r (Queue.heap q)) (Queue.num_free_blocks q)) l.
Proof.
  intros Hq Hf. eapply rep_ext; [exact Hq|..|done]; intros x; simpl.
  all: unfold nxt, prv; rewrite lookup_alter; case_decide; [subst|done].
  all: destruct (Queue.heap q !! x) as [b|]; [|done]; simpl; apply Hf.
Qed.

(** ** The cache map as a map from keys to lists of blocks *)

Definition entry_blocks (e : CacheEntry) : list bref :=
  match e with One b => [b] | Many d => d.*2 end.

Definition cached_at (c : BlockHashToBlockMap.t) (k : bytes) : list bref :=
  from_option entry_blocks [] (c !! k).

(** Blocks carry their index as id. *)
Definition ids_ok (h : store) : Prop := forall i b, h !! Blk i = Some b -> block_id b = Z.of_nat i.

Definition item_ok (x : Z * bref) : Prop := exists i, x = (Z.of_nat i, Blk i).

(** Dicts are not empty and are keyed by the ids of their blocks. *)
Definition entry_wf (e : CacheEntry) : Prop :=
  match e with
  | One b => exists i, b = Blk i
  | Many d => d <> [] /\ NoDup d.*1 /\ Forall item_ok d
  end.

Definition cache_wf (c : BlockHashToBlockMap.t) : Prop := map_Forall (fun _ => entry_wf) c.

Section cache_map.
Import BlockHashToBlockMap.
Implicit Types c : t.

Lemma id_of_blk h i : ids_ok h -> is_Some (h !! Blk i) -> id_of h (Blk i) = Z.of_nat i.
Proof. intros Hids [b Hb]. unfold id_of. rewrite Hb. by apply Hids. Qed.

Lemma item_ok_key d i : Forall item_ok d -> Z.of_nat i ∈ d.*1 <-> Blk i ∈ d.*2.
Proof.
  intros Hd. rewrite Forall_forall in Hd. rewrite !list_elem_of_fmap. split.
  - intros ([z r] & Hz & Hin). destruct (Hd _ Hin) as [j Hj]. simpl in *. simplify_eq.
    by exists (Z.of_nat j, Blk j).
  - intros ([z r] & Hz & Hin). destruct (Hd _ Hin) as [j Hj]. simpl in *. simplify_eq.
    by exists (Z.of_nat j, Blk j).
Qed.

Lemma get_one_block_spec c k :
  cache_wf c ->
  get_one_block c k = inr (head (cached_at c k)).
Proof.
  intros Hwf. unfold get_one_block, cached_at. destruct (c !! k) as [[b|[|[i b] d]]|] eqn:E; try done.
  by destruct (Hwf _ _ E).
Qed.

Lemma insert_spec h c k i :
  ids_ok h -> is_Some (h !! Blk i) -> cache_wf c -> (Blk i ∉ cached_at c k) ->
  (forall r, r ∈ cached_at c k -> is_Some (h !! r)) ->
  cache_wf (insert h k (Blk i) c) /\
  (forall k', cached_at (insert h k (Blk i) c) k' =
     if decide (k = k') then cached_at c k ++ [Blk i] else cached_at c k').
Proof.
  intros Hids Hi Hwf Hnew Hex. unfold insert, cached_at in *.
  assert (forall e, entry_wf e -> entry_blocks e = from_option entry_blocks [] (c !! k) ++ [Blk i] ->
    cache_wf (<[k:=e]> c) /\
    (forall k', from_option entry_blocks [] (<[k:=e]> c !! k') =
      if decide (k = k') then from_option entry_blocks [] (c !! k) ++ [Blk i]
      else from_option entry_blocks [] (c !! k'))) as Hins.
  { intros e He Hblk. split; [by apply map_Forall_insert_2|]. intros k'.
    rewrite lookup_insert. by case_decide; subst. }
  destruct (c !! k) as [[b|d]|] eqn:E; simpl in *; apply Hins; rewrite ?id_of_blk by done.
  - destruct (Hwf _ _ E) as [j ->]. rewrite id_of_blk by (try apply Hex; set_solver).
    simpl. assert (j <> i) by (intros ->; set_solver). rewrite decide_False by lia. simpl.
    split; [done|]. split; [|repeat constructor; by eexists].
    simpl. rewrite NoDup_cons. split; [|apply NoDup_singleton]. rewrite list_elem_of_singleton. lia.
  - destruct (Hwf _ _ E) as [j ->]. rewrite id_of_blk by (try apply Hex; set_solver).
    simpl. assert (j <> i) by (intros ->; set_solver). by rewrite decide_False by lia.
  - destruct (Hwf _ _ E) as (Hne & Hnd & Hok).
    rewrite <- (item_ok_key d i Hok) in Hnew. rewrite dict_set_new by done. split; [by destruct d|].
    rewrite fmap_app. split.
    + apply NoDup_app. split_and!; [done| |apply NoDup_singleton]. set_solver.
    + apply Forall_app. split; [done|]. repeat constructor. by eexists.
  - destruct (Hwf _ _ E) as (Hne & Hnd & Hok).
    rewrite <- (item_ok_key d i Hok) in Hnew. rewrite dict_set_new by done. simpl. by rewrite fmap_app.
  - by exists i.
  - done.
Qed.

(** Removing a block that is cached under the key. *)
Lemma pop_spec h c k i :
  ids_ok h -> cache_wf c -> Blk i ∈ cached_at c k -> is_Some (h !! Blk i) ->
  (pop h k (Z.of_nat i) c).1 = Some (Blk i) /\
  cache_wf (pop h k (Z.of_nat i) c).2 /\
  (forall k', cached_at (pop h k (Z.of_nat i) c).2 k' =
     if decide (k = k') then filter (fun r => r <> Blk i) (cached_at c k) else cached_at c k').
Proof.
  intros Hids Hwf Hin Hi. unfold pop, cached_at in *.
  destruct (c !! k) as [[b|d]|] eqn:E; simpl in *; [| |set_solver].
  - apply list_elem_of_singleton in Hin as <-. rewrite id_of_blk, Z.eqb_refl by done. simpl.
    split; [done|]. split; [by apply map_Forall_delete|]. intros k'.
    rewrite lookup_delete. case_decide; [|done]. simpl.
    by rewrite filter_cons_False by (intros Hx; by apply Hx).
  - destruct (Hwf _ _ E) as (Hne & Hnd & Hok).
    pose proof Hin as Hkey. rewrite <- (item_ok_key d i Hok) in Hkey.
    rewrite dict_del_filter by done. set (d' := filter _ d).
    assert (d'.*2 = filter (fun r => r <> Blk i) d.*2) as Hd'.
    { subst d'. clear -Hok. induction d as [|[z r] d IH]; [done|].
      apply Forall_cons in Hok as [[j [= -> ->]] Hok]. rewrite fmap_cons, !filter_cons. simpl.
      destruct (decide (j = i)) as [->|].
      - rewrite !decide_False by (intros H; by apply H). by apply IH.
      - rewrite !decide_True by (intros ?; simplify_eq; lia). rewrite fmap_cons. simpl. f_equal. by apply IH. }
    split; [|split].
    + apply dict_get_elem in Hkey as [r Hr]. rewrite Hr. f_equal.
      apply dict_get_Some in Hr. rewrite Forall_forall in Hok. destruct (Hok _ Hr) as [j Hj].
      by simplify_eq.
    + destruct (Z.ltb_spec 0 (len d')); simpl; [|by apply map_Forall_delete].
      apply map_Forall_insert_2; [|by apply map_Forall_delete]. split_and!.
      * intros Hd0. rewrite Hd0 in *. unfold len in *. simpl in *. lia.
      * subst d'. eapply sublist_NoDup; [exact Hnd|]. apply fmap_sublist, sublist_filter.
      * subst d'. rewrite Forall_forall in *. intros x Hx. apply list_elem_of_filter in Hx as [_ Hx]. auto.
    + intros k'. destruct (Z.ltb_spec 0 (len d')) as [|Hlen]; simpl.
      * rewrite lookup_insert. case_decide; simpl; [done|]. rewrite lookup_delete_ne by done. done.
      * rewrite lookup_delete. case_decide; [|done]. simpl. rewrite <- Hd'.
        assert (d' = []) as -> by (apply len_zero_nil; pose proof (len_nonneg d'); lia). done.
Qed.
End cache_map.

(** ** The pool and who holds its blocks *)

(** The blocks a client can hold: all but the null block. *)
Definition usable (n : nat) : list bref := Blk <$> seq 1 (n - 1).

(** How often [r] occurs in [l]. *)
Definition occ (r : bref) (l : list bref) : Z := len (filter (eq r) l).

(** What holds of the pool whatever the reference counts: [n] blocks with their
    ids, block 0 null, the queue holding [free], and a cache that maps a key to
    exactly the blocks that carry it. *)
Record pool_core (n : nat) (p : BlockPool.t) (free : list bref) : Prop := {
  pc_pos : (0 < n)%nat;
  pc_n : BlockPool.num_gpu_blocks p = Z.of_nat n;
  pc_blocks : BlockPool.blocks p = Blk <$> seq 0 n;
  pc_null_block : BlockPool.null_block p = Blk 0;
  pc_queue : queue_rep (BlockPool.free_block_queue p) free;
  pc_store i : is_Some (BlockPool.heap p !! Blk i) <-> (i < n)%nat;
  pc_ids : ids_ok (BlockPool.heap p);
  pc_null i : (i < n)%nat -> nullp (BlockPool.heap p) (Blk i) = Some (bool_decide (i = 0%nat));
  pc_wf : cache_wf (BlockPool.cached_block_hash_to_block p);
  pc_cache k r : r ∈ cached_at (BlockPool.cached_block_hash_to_block p) k
                 <-> hashof (BlockPool.heap p) r = Some k;
}.

(** [held] lists every reference clients hold, with multiplicity. *)
Definition refs_ok (p : BlockPool.t) (held : list bref) : Prop :=
  forall r, r <> Blk 0 -> (exists i, r = Blk i) -> is_Some (BlockPool.heap p !! r) ->
    refc (BlockPool.heap p) r = Some (occ r held).

(** The pool with free queue [free], references [held] and blocks [reserved]
    that were taken out of the queue for good. *)
Record pool_rep (n : nat) (p : BlockPool.t) (free held reserved : list bref) : Prop := {
  pr_core : pool_core n p free;
  pr_refs : refs_ok p held;
  pr_free r : r ∈ free <-> r ∈ usable n /\ (r ∉ held) /\ (r ∉ reserved);
  pr_held r : r ∈ held -> r ∈ usable n /\ (r ∉ reserved);
  pr_reserved r : r ∈ reserved -> r ∈ usable n;
  pr_nodup : NoDup reserved;
}.

Lemma elem_of_usable n r : r ∈ usable n <-> exists i, r = Blk i /\ i <> 0%nat /\ (i < n)%nat.
Proof.
  unfold usable. rewrite list_elem_of_fmap. setoid_rewrite elem_of_seq.
  split; intros (i & ? & ?); exists i; repeat split; try done; lia.
Qed.

Section occurrences.
Implicit Types (r : bref) (l : list bref).

Lemma occ_nil r : occ r [] = 0.
Proof. done. Qed.

Lemma occ_cons r x l : occ r (x :: l) = (if decide (r = x) then 1 else 0) + occ r l.
Proof.
  unfold occ. rewrite filter_cons. case_decide; [rewrite len_cons|]; lia.
Qed.

Lemma occ_app r l1 l2 : occ r (l1 ++ l2) = occ r l1 + occ r l2.
Proof. unfold occ. by rewrite filter_app, len_app. Qed.

Lemma occ_nonneg r l : 0 <= occ r l.
Proof. apply len_nonneg. Qed.

Lemma occ_zero r l : occ r l = 0 <-> (r ∉ l).
Proof.
  induction l as [|x l IH]; [rewrite occ_nil; set_solver|].
  rewrite occ_cons, not_elem_of_cons, <- IH. pose proof (occ_nonneg r l). case_decide; naive_solver lia.
Qed.

Lemma occ_perm r l1 l2 : l1 ≡ₚ l2 -> occ r l1 = occ r l2.
Proof. intros H. unfold occ, len. by rewrite H. Qed.
End occurrences.

#[export] Hint Rewrite occ_nil occ_cons occ_app : pylib.

(** ** Steps that keep the core *)
Section core.
Import BlockPool.
Variable n : nat.
Implicit Types (p : t) (l : list bref) (r : bref).

Lemma core_deref p l i : pool_core n p l -> (i < n)%nat ->
  exists b, heap p !! Blk i = Some b /\ block_id b = Z.of_nat i /\
    is_null b = bool_decide (i = 0%nat).
Proof.
  intros Hc Hi. pose proof (pc_store _ _ _ Hc i) as Hs. pose proof (pc_null _ _ _ Hc i Hi) as Hn.
  destruct (proj2 Hs Hi) as [b Hb]. exists b. split; [done|].
  split; [by apply (pc_ids _ _ _ Hc)|]. unfold nullp in Hn. rewrite Hb in Hn. by injection Hn.
Qed.

(** Updates of a block that leave its identity, links and hash alone. *)
Lemma core_set_block p l f r :
  pool_core n p l -> keeps_links f ->
  (forall b, block_id (f b) = block_id b /\ is_null (f b) = is_null b) ->
  (forall b, block_hash (f b) = block_hash b) ->
  pool_core n (set_block f r p) l.
Proof.
  intros Hc Hl Hf Hh. destruct Hc. constructor; simpl; try done.
  - by apply rep_set_data.
  - intros i. unfold heap. simpl. rewrite <- pc_store0.
    rewrite lookup_alter. case_decide; [subst|done]. by rewrite fmap_is_Some.
  - intros i b. unfold heap. simpl. rewrite lookup_alter.
    case_decide; [subst|apply pc_ids0]. intros (b' & Hb' & ->)%fmap_Some.
    destruct (Hf b') as [-> _]. by apply pc_ids0.
  - intros i Hi. unfold heap. simpl. destruct (alter_fields (heap p) f r (Blk i) Hf) as [-> _]. auto.
  - intros k r'. rewrite pc_cache0. unfold heap. simpl. rewrite hashof_alter. case_decide; [subst|done].
    unfold hashof, heap. destruct (_ !! r'); simpl; [by rewrite Hh|done].
Qed.

Lemma core_same_data p l q' l' :
  pool_core n p l -> queue_rep q' l' -> same_data (heap p) (Queue.heap q') ->
  pool_core n (set_queue q' p) l'.
Proof.
  intros Hc Hq Hd. destruct Hc. constructor; simpl; try done.
  - intros i. rewrite <- pc_store0. symmetry. by apply same_data_is_Some.
  - intros i b Hb. specialize (Hd (Blk i)). unfold heap in *. simpl in Hb. rewrite Hb in Hd.
    destruct (Queue.heap (free_block_queue p) !! Blk i) as [b'|] eqn:Hb'; [|done].
    specialize (pc_ids0 _ _ Hb'). destruct b, b'; simpl in *. unfold data in Hd. by simplify_eq/=.
  - intros i Hi. unfold heap. simpl. destruct (same_data_fields _ _ (Blk i) Hd) as (_ & _ & -> & _). auto.
  - intros k r. rewrite pc_cache0. unfold heap at 2. simpl.
    by destruct (same_data_fields _ _ r Hd) as (_ & -> & _ & _).
Qed.

Lemma core_key_real p l k r : pool_core n p l -> hashof (heap p) r = Some k ->
  exists i, r = Blk i /\ (i < n)%nat.
Proof.
  intros Hc Hr. assert (is_Some (heap p !! r)) as Hs.
  { unfold hashof in Hr. by destruct (heap p !! r). }
  apply (pc_cache _ _ _ Hc) in Hr. unfold cached_at in Hr.
  destruct (cached_block_hash_to_block p !! k) as [e|] eqn:He; simpl in Hr; [|set_solver].
  assert (exists i, r = Blk i) as [i ->].
  { pose proof (pc_wf _ _ _ Hc _ _ He) as Hwf. destruct e as [b|d]; simpl in *.
    - apply list_elem_of_singleton in Hr as ->. done.
    - destruct Hwf as (_ & _ & Hok). apply list_elem_of_fmap in Hr as ([z r'] & -> & Hin).
      rewrite Forall_forall in Hok. destruct (Hok _ Hin) as [i [= _ ->]]. by exists i. }
  exists i. split; [done|]. by apply (pc_store _ _ _ Hc).
Qed.

Context `{HashEnv}.

Lemma core_set_events p l es : pool_core n p l -> pool_core n (set_events es p) l.
Proof. intros []. by constructor. Qed.

(** Changing the hash of a block together with the cache. *)
Lemma core_set_hash p l i v c :
  pool_core n p l ->
  cache_wf c ->
  (forall k r, r ∈ cached_at c k <->
     (if decide (Blk i = r) then heap p !! r ≫= (fun _ => v) = Some k else hashof (heap p) r = Some k)) ->
  pool_core n (set_block (with_hash v) (Blk i) (set_cached c p)) l.
Proof.
  intros Hc Hwf Hk. destruct Hc. constructor; simpl; try done.
  - by apply rep_set_data; [|intros []].
  - intros j. rewrite <- pc_store0. unfold heap. simpl.
    rewrite lookup_alter. case_decide; [simplify_eq|done]. by rewrite fmap_is_Some.
  - intros j b. unfold heap. simpl. rewrite lookup_alter.
    case_decide; [simplify_eq|apply pc_ids0]. intros (b' & Hb' & ->)%fmap_Some. exact (pc_ids0 _ _ Hb').
  - intros j Hj. etransitivity; [apply alter_fields; by intros []|]. auto.
  - intros k r. rewrite Hk. change (heap (set_block (with_hash v) (Blk i) (set_cached c p)))
      with (alter (with_hash v) (Blk i) (heap p)).
    rewrite hashof_alter. case_decide as Heq; [by rewrite Heq|done].
Qed.

(** Popping a block from the cache and resetting its hash. *)
Lemma core_pop p l i k :
  pool_core n p l -> hashof (heap p) (Blk i) = Some k ->
  let r := BlockHashToBlockMap.pop (heap p) k (Z.of_nat i) (cached_block_hash_to_block p) in
  r.1 = Some (Blk i) /\ pool_core n (set_block reset_hash (Blk i) (set_cached r.2 p)) l.
Proof.
  intros Hc Hhash. assert (is_Some (heap p !! Blk i)) as [b Hb].
  { unfold hashof in Hhash. by destruct (heap p !! Blk i). }
  pose proof (proj2 (pc_cache _ _ _ Hc k (Blk i)) Hhash) as Hin.
  destruct (pop_spec (heap p) _ k i (pc_ids _ _ _ Hc) (pc_wf _ _ _ Hc) Hin) as (Hpop & Hwf & Hat);
    [by eexists|].
  split; [done|]. apply core_set_hash; [done..|]. intros k' r. rewrite Hat.
  destruct (decide (k = k')) as [<-|Hne].
  - rewrite list_elem_of_filter, (pc_cache _ _ _ Hc). case_decide; subst.
    + rewrite Hb. simpl. naive_solver.
    + naive_solver.
  - rewrite (pc_cache _ _ _ Hc). case_decide; subst; [|done]. rewrite Hb. simpl. naive_solver.
Qed.

Lemma maybe_evict_spec p l i :
  pool_core n p l -> (i < n)%nat ->
  succeeds (_maybe_evict_cached_block (Blk i)) p (fun _ p' =>
    pool_core n p' l /\
    (forall r, hashof (heap p') r = if decide (r = Blk i) then None else hashof (heap p) r) /\
    (forall r, refc (heap p') r = refc (heap p) r)).
Proof.
  intros Hc Hi. destruct (core_deref _ _ _ Hc Hi) as (b & Hb & Hid & _).
  unfold _maybe_evict_cached_block, deref. repeat sstep. destruct (block_hash b) as [k|] eqn:Hk.
  2: { sstep. split_and!; [done| |done]. intros r. destruct (decide (r = Blk i)) as [->|]; [|done].
       unfold hashof. by rewrite Hb. }
  assert (hashof (heap p) (Blk i) = Some k) as Hhash by (unfold hashof; by rewrite Hb).
  repeat sstep. rewrite Hid.
  destruct (core_pop _ _ _ _ Hc Hhash) as [Hpop Hc'].
  set (c := (BlockHashToBlockMap.pop _ _ _ _).2) in *. rewrite Hpop.
  assert (forall es, pool_core n (set_events es (set_block reset_hash (Blk i) (set_cached c p))) l /\
    (forall r, hashof (heap (set_events es (set_block reset_hash (Blk i) (set_cached c p)))) r =
       if decide (r = Blk i) then None else hashof (heap p) r) /\
    (forall r, refc (heap (set_events es (set_block reset_hash (Blk i) (set_cached c p)))) r
       = refc (heap p) r)) as Hend.
  { intros es. split; [by apply core_set_events|].
    change (heap (set_events es (set_block reset_hash (Blk i) (set_cached c p))))
      with (alter reset_hash (Blk i) (heap p)). split; intros r.
    - rewrite hashof_alter. destruct (decide (Blk i = r)) as [<-|].
      + rewrite decide_True by done. by rewrite Hb.
      + by rewrite decide_False by done.
    - rewrite refc_alter. case_decide; [subst|done]. unfold refc. by rewrite Hb. }
  repeat sstep. destruct (enable_kv_cache_events _); repeat sstep; apply Hend.
Qed.

End core.

(** ** Total correctness of the methods *)
Section methods.
Import BlockPool.
Context `{HashEnv}.
Variable n : nat.
Implicit Types (p : t) (l free held reserved : list bref) (r : bref).

Lemma succeeds_deref p r b (Q : KVCacheBlock -> t -> Prop) :
  heap p !! r = Some b -> Q b p -> succeeds (deref r) p Q.
Proof. intros Hb HQ. unfold deref. repeat sstep. done. Qed.

Lemma succeeds_on_queue {A} (m : M Queue.t A) p a q' (Q : A -> t -> Prop) :
  m (free_block_queue p) = Ret a q' -> Q a (set_queue q' p) -> succeeds (on_queue m) p Q.
Proof. intros Hm HQ. unfold on_queue, zoom, succeeds. by rewrite Hm. Qed.

Lemma refs_same p p' held :
  (forall r, refc (heap p') r = refc (heap p) r) -> refs_ok p held -> refs_ok p' held.
Proof.
  intros Hs Hr r Hr0 Hblk Hd. rewrite Hs. apply Hr; [done..|].
  specialize (Hs r). unfold refc in Hs. destruct Hd as [b Hb]. rewrite Hb in Hs.
  by destruct (heap p !! r).
Qed.

Lemma refs_perm p held held' : held ≡ₚ held' -> refs_ok p held -> refs_ok p held'.
Proof. intros Hp Hr r ???. by rewrite (occ_perm _ _ _ (symmetry Hp)), Hr. Qed.

Lemma refs_lookup p held i b :
  refs_ok p held -> i <> 0%nat -> heap p !! Blk i = Some b -> ref_cnt b = occ (Blk i) held.
Proof.
  intros Hr Hi Hb. specialize (Hr (Blk i)). unfold refc in Hr. rewrite Hb in Hr.
  assert (Some (ref_cnt b) = Some (occ (Blk i) held)) as [= ->]; [|done].
  apply Hr; [naive_solver|eauto|done].
Qed.

(** Setting the count of [Blk i] to what [held'] says. *)
Lemma refs_update p held held' i f :
  refs_ok p held ->
  (forall b, i <> 0%nat -> heap p !! Blk i = Some b -> ref_cnt (f b) = occ (Blk i) held') ->
  (forall r, r <> Blk i -> r <> Blk 0 -> occ r held' = occ r held) ->
  refs_ok (set_block f (Blk i) p) held'.
Proof.
  intros Hr Hf Hocc r Hr0 Hblk Hd.
  change (heap (set_block f (Blk i) p)) with (alter f (Blk i) (heap p)) in *.
  rewrite refc_alter. destruct (decide (Blk i = r)) as [<-|Hne].
  - rewrite lookup_alter_eq in Hd. apply fmap_is_Some in Hd as [b Hb]. rewrite Hb. simpl.
    f_equal. apply Hf; [congruence|done].
  - rewrite lookup_alter_ne in Hd by done. rewrite Hocc by auto. by apply Hr.
Qed.

Lemma acquire_spec p l held i :
  pool_core n p l -> refs_ok p held -> (i < n)%nat -> i <> 0%nat -> (Blk i ∉ held) ->
  succeeds (acquire (Blk i)) p (fun _ p' =>
    pool_core n p' l /\ refs_ok p' (Blk i :: held) /\
    (forall r, hashof (heap p') r = hashof (heap p) r)).
Proof.
  intros Hc Hr Hi Hi0 Hheld. destruct (core_deref _ _ _ _ Hc Hi) as (b & Hb & _ & _).
  assert (ref_cnt b = 0) as Hcnt by (erewrite refs_lookup by done; by apply occ_zero).
  unfold acquire. sstep. eapply succeeds_deref; [done|]. sstep. rewrite Hcnt.
  apply succeeds_assert; [done|]. sstep. split; [|split].
  - by apply core_set_block; [done|intros []..].
  - eapply refs_update; [done|..].
    + intros b' _ _. simpl. rewrite occ_cons, decide_True by done.
      rewrite (proj2 (occ_zero _ _) Hheld). done.
    + intros r Hne _. rewrite occ_cons, decide_False by done. done.
  - intros r. change (heap (set_block (with_ref_cnt (0 + 1)) (Blk i) p))
      with (alter (with_ref_cnt (0 + 1)) (Blk i) (heap p)).
    rewrite hashof_alter. case_decide as E; [subst|done].
    unfold hashof. by destruct (heap p !! Blk i).
Qed.

(** The loop body of [get_new_blocks], with and without prefix caching. *)
Definition take_block (caching : bool) (r : bref) : M t unit :=
  if caching then _maybe_evict_cached_block r ;;; acquire r else acquire r.

Lemma take_block_spec caching p l held i :
  pool_core n p l -> refs_ok p held -> (i < n)%nat -> i <> 0%nat -> (Blk i ∉ held) ->
  succeeds (take_block caching (Blk i)) p (fun _ p' =>
    pool_core n p' l /\ refs_ok p' (Blk i :: held) /\
    (forall r, hashof (heap p') r =
       if decide (caching = true /\ r = Blk i) then None else hashof (heap p) r)).
Proof.
  intros Hc Hr Hi Hi0 Hheld. unfold take_block. destruct caching.
  - sstep. eapply succeeds_mono; [by apply (maybe_evict_spec n _ l)|].
    intros _ p1 (Hc1 & Hh1 & Hr1).
    eapply succeeds_mono; [apply (acquire_spec _ l held); [done|by eapply refs_same|done..]|].
    intros _ p2 (Hc2 & Hr2 & Hh2). split_and!; [done..|].
    intros r. rewrite Hh2, Hh1. apply decide_ext. naive_solver.
  - eapply succeeds_mono; [by apply (acquire_spec _ l held)|].
    intros _ p2 (Hc2 & Hr2 & Hh2). split_and!; [done..|].
    intros r. rewrite Hh2, decide_False by naive_solver. done.
Qed.

Lemma take_blocks_spec caching bs p l held :
  pool_core n p l -> refs_ok p held -> NoDup bs ->
  (forall r, r ∈ bs -> r ∈ usable n /\ (r ∉ held)) ->
  succeeds (mfor bs (take_block caching)) p (fun _ p' =>
    pool_core n p' l /\ refs_ok p' (bs ++ held) /\
    (forall r, hashof (heap p') r =
       if decide (caching = true /\ r ∈ bs) then None else hashof (heap p) r)).
Proof.
  revert p held. induction bs as [|x bs IH]; intros p held Hc Hr Hnd Hbs; simpl.
  { sstep. split_and!; [done..|]. intros r. rewrite decide_False by set_solver. done. }
  destruct (Hbs x) as [(i & -> & Hi0 & Hi)%elem_of_usable Hx]; [left|].
  apply NoDup_cons in Hnd as [Hxbs Hnd].
  sstep. eapply succeeds_mono; [by apply (take_block_spec _ _ l held)|].
  intros _ p1 (Hc1 & Hr1 & Hh1).
  eapply succeeds_mono; [apply (IH _ (Blk i :: held)); [done..|]|].
  { intros r Hin. destruct (Hbs r) as [? ?]; [by right|]. set_solver. }
  intros _ p2 (Hc2 & Hr2 & Hh2). split_and!; [done| |].
  - eapply refs_perm; [|exact Hr2]. symmetry. apply Permutation_middle.
  - intros r. rewrite Hh2, Hh1. repeat case_decide; set_solver.
Qed.

(** [get_new_blocks] hands out the blocks at the front of the queue, once, and
    when caching is on with no hash left. *)
Lemma get_new_blocks_spec p free held reserved k :
  pool_rep n p free held reserved -> 0 <= k <= len free ->
  succeeds (get_new_blocks k) p (fun bs p' =>
    bs = take (Z.to_nat k) free /\
    pool_rep n p' (drop (Z.to_nat k) free) (bs ++ held) reserved /\
    (forall r, hashof (heap p') r =
       if decide (enable_caching p = true /\ r ∈ bs) then None else hashof (heap p) r)).
Proof.
  intros [Hc Hr Hfree Hheld Hres Hnd] Hk. unfold get_new_blocks. repeat sstep.
  unfold get_num_free_blocks. rewrite (rep_num _ _ (pc_queue _ _ _ Hc)).
  destruct (Z.ltb_spec (len free) k); [lia|].
  destruct (popleft_n_spec _ _ k (pc_queue _ _ _ Hc) Hk) as (q' & Hpop & Hq' & Hd).
  sstep. eapply succeeds_on_queue; [done|].
  pose proof (core_same_data _ _ _ _ _ Hc Hq' Hd) as Hc1.
  pose proof (rep_nodup _ _ (pc_queue _ _ _ Hc)) as Hndf.
  pose proof (take_drop (Z.to_nat k) free) as Hsplit.
  revert Hsplit Hc1. generalize (take (Z.to_nat k) free) (drop (Z.to_nat k) free).
  intros bs rest <- Hc1. apply NoDup_app in Hndf as (Hnbs & Hdisj & _).
  sstep. replace (if enable_caching p then _ else _) with (mfor bs (take_block (enable_caching p)))
    by by destruct (enable_caching p).
  eapply succeeds_mono; [apply (take_blocks_spec _ _ _ rest held); [done| |done|]|].
  - eapply refs_same; [|exact Hr]. intros r. apply (same_data_fields _ _ r Hd).
  - intros r Hin. destruct (proj1 (Hfree r)) as (? & ? & _); [set_solver|done].
  - intros _ p' (Hc' & Hr' & Hh'). sstep. split; [done|]. split.
    + constructor; try done.
      * intros r. specialize (Hfree r). specialize (Hdisj r).
        rewrite elem_of_app in *. tauto.
      * intros r [Hin|Hin]%elem_of_app; [|by apply Hheld].
        destruct (proj1 (Hfree r)) as (? & ? & ?); [set_solver|done].
    + intros r. rewrite Hh'. change (heap (set_queue q' p)) with (Queue.heap q').
      destruct (same_data_fields _ _ r Hd) as (_ & -> & _). done.
Qed.

Lemma pool_rep_perm p free held held' reserved :
  held ≡ₚ held' -> pool_rep n p free held reserved -> pool_rep n p free held' reserved.
Proof.
  intros Hp [Hc Hr Hfree Hheld Hres Hnd]. constructor; try done.
  - by eapply refs_perm.
  - intros r. by rewrite Hfree, Hp.
  - intros r. rewrite <- Hp. apply Hheld.
Qed.

Lemma usable_null : Blk 0 ∉ usable n.
Proof. intros (i & [= <-] & ? & _)%elem_of_usable. done. Qed.

(** The reference a client holds after touching [r]. *)
Definition hold (r : bref) (held : list bref) : list bref :=
  if decide (r = Blk 0) then held else r :: held.

(** Touching is allowed on the null block and on blocks not set aside. *)
Definition touchable reserved r : Prop :=
  exists i, r = Blk i /\ (i < n)%nat /\ (i <> 0%nat -> r ∉ reserved).

Abbreviation inc_ref := (fun b => with_ref_cnt (ref_cnt b + 1) b).

Lemma add_ref p l held i :
  pool_core n p l -> refs_ok p held ->
  let p' := set_block inc_ref (Blk i) p in
  pool_core n p' l /\ refs_ok p' (hold (Blk i) held) /\
  (forall r, hashof (heap p') r = hashof (heap p) r).
Proof.
  intros Hc Hr p'. split_and!.
  - by apply core_set_block; [done|intros []..].
  - eapply refs_update; [done|..].
    + intros b Hi0 Hb. simpl. rewrite (refs_lookup _ _ _ _ Hr Hi0 Hb). unfold hold.
      rewrite decide_False by (by intros [= ->]). rewrite occ_cons, decide_True by done. lia.
    + intros r Hne _. unfold hold. destruct (decide (Blk i = Blk 0)); [done|].
      by rewrite occ_cons, decide_False.
  - intros r. change (heap p') with (alter inc_ref (Blk i) (heap p)).
    rewrite hashof_alter. destruct (decide (Blk i = r)) as [<-|]; [|done].
    unfold hashof. by destruct (heap p !! Blk i).
Qed.

Lemma touch_lists free held reserved i :
  (forall r, r ∈ free <-> r ∈ usable n /\ (r ∉ held) /\ (r ∉ reserved)) ->
  (forall r, r ∈ held -> r ∈ usable n /\ (r ∉ reserved)) ->
  touchable reserved (Blk i) ->
  (forall r, r ∈ filter (fun r => r <> Blk i) free
     <-> r ∈ usable n /\ (r ∉ hold (Blk i) held) /\ (r ∉ reserved)) /\
  (forall r, r ∈ hold (Blk i) held -> r ∈ usable n /\ (r ∉ reserved)).
Proof.
  intros Hfree Hheld (j & [= <-] & Hi & Hres). unfold hold. destruct (decide (Blk i = Blk 0)) as [E|E].
  - split; [|done]. intros r. rewrite list_elem_of_filter, Hfree, E.
    split; [tauto|]. intros (Hu & ? & ?). split; [|done]. intros ->. by apply usable_null.
  - split.
    + intros r. rewrite list_elem_of_filter, Hfree, not_elem_of_cons. tauto.
    + intros r [->|Hin]%elem_of_cons; [|by apply Hheld].
      split; [apply elem_of_usable; exists i|]; naive_solver.
Qed.

Lemma touch_one p free held reserved r :
  pool_rep n p free held reserved -> touchable reserved r ->
  succeeds (touch [r]) p (fun _ p' =>
    pool_rep n p' (filter (fun x => x <> r) free) (hold r held) reserved /\
    (forall x, hashof (heap p') x = hashof (heap p) x)).
Proof.
  intros [Hc Hr Hfree Hheld Hrsv Hnd] Ht. pose proof Ht as (i & -> & Hi & _).
  destruct (touch_lists _ _ _ _ Hfree Hheld Ht) as [Hfree' Hheld'].
  destruct (core_deref _ _ _ _ Hc Hi) as (b & Hb & _ & Hnull).
  assert (forall q' l, pool_core n (set_queue q' p) l -> same_data (heap p) (Queue.heap q') ->
    l = filter (fun x => x <> Blk i) free ->
    let p' := set_block inc_ref (Blk i) (set_queue q' p) in
    pool_rep n p' (filter (fun x => x <> Blk i) free) (hold (Blk i) held) reserved /\
    (forall x, hashof (heap p') x = hashof (heap p) x)) as Hend.
  { intros q' l Hc' Hd ->. destruct (add_ref _ _ held i Hc') as (H1 & H2 & H3).
    - eapply refs_same; [|exact Hr]. intros x. apply (same_data_fields _ _ x Hd).
    - split; [by constructor|]. intros x. rewrite H3. apply (same_data_fields _ _ x Hd). }
  unfold touch, mfor, touch_block. repeat sstep. eapply succeeds_deref; [done|]. rewrite Hnull. sstep.
  assert (i <> 0%nat -> ref_cnt b = 0 <-> Blk i ∈ free) as Hcnt.
  { intros Hi0. rewrite (refs_lookup _ _ _ _ Hr Hi0 Hb), occ_zero, Hfree.
    destruct Ht as (j & [= <-] & _ & Hj). split; [|tauto]. intros ?. split_and!; [|done|auto].
    apply elem_of_usable. eauto. }
  destruct ((ref_cnt b =? 0) && negb (bool_decide (i = 0%nat)))%bool eqn:Hb0.
  - apply andb_true_iff in Hb0 as [Hz Hi0%negb_true_iff%bool_decide_eq_false].
    apply Z.eqb_eq, (Hcnt Hi0) in Hz. pose proof Hz as (l1 & l2 & Hl)%list_elem_of_split.
    destruct (remove_spec (free_block_queue p) l1 (Blk i) l2) as (q' & Hrem & Hq' & Hd);
      [rewrite <- Hl; apply Hc|].
    eapply succeeds_on_queue; [done|]. repeat sstep. eapply Hend; [by eapply core_same_data|done|].
    rewrite Hl, filter_ne_middle; [done|]. rewrite <- Hl. apply (rep_nodup _ _ (pc_queue _ _ _ Hc)).
  - repeat sstep. apply (Hend (free_block_queue p) free); [|done|].
    + eapply core_same_data; [done|apply Hc|done].
    + symmetry. apply list_filter_all. intros x Hx ->. pose proof Hx as (Hu & _)%Hfree.
      apply elem_of_usable in Hu as (j & [= <-] & Hi0 & _). apply (Hcnt Hi0) in Hx.
      rewrite Hx, bool_decide_eq_false_2 in Hb0 by done. done.
Qed.

(** Touched blocks leave the free queue and gain a reference each. *)
Lemma touch_spec p free held reserved bs :
  pool_rep n p free held reserved -> Forall (touchable reserved) bs ->
  succeeds (touch bs) p (fun _ p' =>
    pool_rep n p' (filter (fun r => r ∉ bs) free) (filter (fun r => r <> Blk 0) bs ++ held) reserved /\
    (forall r, hashof (heap p') r = hashof (heap p) r)).
Proof.
  intros Hp Hbs. revert p free held Hp. induction Hbs as [|r bs Hr Hbs IH]; intros p free held Hp.
  - unfold touch. simpl. sstep. rewrite list_filter_all; [done|set_solver].
  - change (touch (r :: bs)) with (bind (touch_block r) (fun _ => touch bs)).
    sstep. eapply succeeds_mono; [apply succeeds_mfor_one; by eapply touch_one|].
    intros _ p1 [Hp1 Hh1]. eapply succeeds_mono; [by apply IH|]. intros _ p2 [Hp2 Hh2].
    split; [|intros x; by rewrite Hh2, Hh1]. rewrite list_filter_filter in Hp2.
    rewrite (list_filter_iff _ (fun x => (x ∉ bs) /\ x <> r)) by (intros x; set_solver).
    eapply pool_rep_perm; [|exact Hp2]. unfold hold. rewrite filter_cons.
    destruct (decide (r = Blk 0)) as [->|].
    + by rewrite decide_False by (intros Hx; by apply Hx).
    + rewrite decide_True by done. simpl. symmetry. apply Permutation_middle.
Qed.

(** *** Freeing *)

Lemma drop_ref_spec p l held held' i b :
  pool_core n p l -> refs_ok p held -> heap p !! Blk i = Some b -> held ≡ₚ hold (Blk i) held' ->
  let p' := set_block (with_ref_cnt (ref_cnt b - 1)) (Blk i) p in
  pool_core n p' l /\ refs_ok p' held' /\ (forall r, hashof (heap p') r = hashof (heap p) r).
Proof.
  intros Hc Hr Hb Hperm p'. split_and!.
  - by apply core_set_block; [done|intros []..].
  - eapply refs_update; [done|..].
    + intros b' Hi0 _. simpl. rewrite (refs_lookup _ _ _ _ Hr Hi0 Hb), (occ_perm _ _ _ Hperm).
      unfold hold. rewrite decide_False by (by intros [= ->]). rewrite occ_cons, decide_True by done. lia.
    + intros r Hne _. rewrite (occ_perm _ _ _ Hperm). unfold hold.
      destruct (decide (Blk i = Blk 0)); [done|]. by rewrite occ_cons, decide_False.
  - intros r. change (heap p') with (alter (with_ref_cnt (ref_cnt b - 1)) (Blk i) (heap p)).
    rewrite hashof_alter. destruct (decide (Blk i = r)) as [<-|]; [|done].
    unfold hashof. by rewrite Hb.
Qed.

Lemma drop_refs_spec p l held held' bs :
  pool_core n p l -> refs_ok p held -> held ≡ₚ filter (fun r => r <> Blk 0) bs ++ held' ->
  (forall r, r ∈ bs -> exists i, r = Blk i /\ (i < n)%nat) ->
  succeeds (mfor bs (fun block => b <- deref block ;;
      modify (set_block (with_ref_cnt (ref_cnt b - 1)) block))) p (fun _ p' =>
    pool_core n p' l /\ refs_ok p' held' /\ (forall r, hashof (heap p') r = hashof (heap p) r)).
Proof.
  revert p held. induction bs as [|r bs IH]; intros p held Hc Hr Hperm Hbs; simpl.
  { sstep. split_and!; [done| |done]. by eapply refs_perm. }
  destruct (Hbs r) as (i & -> & Hi); [left|].
  destruct (core_deref _ _ _ _ Hc Hi) as (b & Hb & _ & _).
  repeat sstep. eapply succeeds_deref; [done|]. sstep.
  destruct (drop_ref_spec p l held (filter (fun r => r <> Blk 0) bs ++ held') i b)
    as (Hc1 & Hr1 & Hh1); [done..| |].
  { rewrite Hperm, filter_cons. unfold hold. case_decide as E; case_decide as E'; done. }
  eapply succeeds_mono; [apply (IH _ _ Hc1 Hr1); [done|]|].
  { intros x Hx. apply Hbs. by right. }
  intros _ p2 (Hc2 & Hr2 & Hh2). split_and!; [done..|]. intros x. by rewrite Hh2, Hh1.
Qed.

(** The blocks a call of [free_blocks] puts back in the queue. *)
Definition freed (held' bs : list bref) : list bref :=
  filter (fun r => r <> Blk 0 /\ (r ∉ held')) bs.

Lemma to_free_spec p l held' bs :
  pool_core n p l -> refs_ok p held' ->
  (forall r, r ∈ bs -> exists i, r = Blk i /\ (i < n)%nat) ->
  filter (fun r => to_free (heap p) r = true) bs = freed held' bs.
Proof.
  intros Hc Hr Hbs. unfold freed. induction bs as [|r bs IH]; [done|].
  rewrite !filter_cons. rewrite IH by (intros x Hx; apply Hbs; by right).
  destruct (Hbs r) as (i & -> & Hi); [left|].
  destruct (core_deref _ _ _ _ Hc Hi) as (b & Hb & _ & Hnull).
  assert (to_free (heap p) (Blk i) = true <-> Blk i <> Blk 0 /\ (Blk i ∉ held')) as Hiff.
  { unfold to_free. rewrite Hb, Hnull. destruct (decide (i = 0%nat)) as [->|Hi0].
    - rewrite bool_decide_eq_true_2, andb_false_r by done. naive_solver.
    - rewrite bool_decide_eq_false_2, andb_true_r, Z.eqb_eq by done.
      rewrite (refs_lookup _ _ _ _ Hr Hi0 Hb), occ_zero. naive_solver. }
  destruct (decide (to_free (heap p) (Blk i) = true)) as [Ht|Ht].
  - by rewrite decide_True by by apply Hiff.
  - by rewrite decide_False by by rewrite <- Hiff.
Qed.

(** Freeing gives references back; blocks without references go to the end of
    the queue, in the order of the argument. *)
Lemma free_blocks_spec p free held held' reserved bs :
  pool_rep n p free held reserved -> held ≡ₚ filter (fun r => r <> Blk 0) bs ++ held' ->
  (forall r, r ∈ bs -> exists i, r = Blk i /\ (i < n)%nat) ->
  NoDup (filter (fun r => r <> Blk 0) bs) ->
  succeeds (free_blocks bs) p (fun _ p' =>
    pool_rep n p' (free ++ freed held' bs) held' reserved /\
    (forall r, hashof (heap p') r = hashof (heap p) r)).
Proof.
  intros [Hc Hr Hfree Hheld Hrsv Hnd] Hperm Hbs Hndbs. unfold free_blocks. sstep.
  eapply succeeds_mono; [by apply (drop_refs_spec _ free held held')|].
  intros _ p1 (Hc1 & Hr1 & Hh1). repeat sstep. rewrite (to_free_spec _ free held') by done.
  assert (forall r, r ∈ freed held' bs <-> (r ∈ bs /\ r <> Blk 0 /\ (r ∉ held'))) as Hfreed.
  { intros r. unfold freed. rewrite list_elem_of_filter. tauto. }
  assert (forall r, r ∈ held <-> (r ∈ bs /\ r <> Blk 0) \/ r ∈ held') as Hin.
  { intros r. rewrite Hperm, elem_of_app, list_elem_of_filter. tauto. }
  destruct (append_n_spec (free_block_queue p1) free (freed held' bs)) as (q' & Happ & Hq' & Hd).
  - apply Hc1.
  - unfold freed. rewrite (list_filter_iff _ (fun r => (r ∉ held') /\ r <> Blk 0)) by (intros; tauto).
    rewrite <- list_filter_filter. by apply NoDup_filter.
  - intros r (Hrb & Hr0 & Hrh)%Hfreed. destruct (Hbs _ Hrb) as (i & -> & Hi).
    split; [|split_and!; [done..|by apply (pc_store _ _ _ Hc1)]].
    rewrite Hfree, Hin. naive_solver.
  - eapply succeeds_on_queue; [done|]. split.
    + constructor; [by eapply core_same_data| | | |done|done].
      * eapply refs_same; [|exact Hr1]. intros x. apply (same_data_fields _ _ x Hd).
      * intros r. specialize (Hfree r). specialize (Hheld r). specialize (Hin r).
        rewrite elem_of_app, Hfreed. destruct (decide (r ∈ held')); [naive_solver|].
        destruct (decide (r ∈ bs)), (decide (r = Blk 0)) as [->|]; try naive_solver.
        all: pose proof usable_null; naive_solver.
      * intros r Hr'. apply Hheld, Hin. by right.
    + intros r. rewrite <- Hh1. apply (same_data_fields _ _ r Hd).
Qed.

(** *** Eviction and reset *)

Lemma evict_blocks_spec p free held reserved ids :
  pool_rep n p free held reserved -> Forall (fun i => 0 <= i < Z.of_nat n) ids ->
  succeeds (evict_blocks ids) p (fun _ p' =>
    pool_rep n p' free held reserved /\
    (forall r, hashof (heap p') r =
       if decide (r ∈ (fun i => Blk (Z.to_nat i)) <$> ids) then None else hashof (heap p) r)).
Proof.
  intros Hp Hids. revert p Hp. induction Hids as [|i ids Hi Hids IH]; intros p Hp.
  { unfold evict_blocks, mfor. sstep. split; [done|]. intros r. by rewrite decide_False by set_solver. }
  destruct Hp as [Hc Hr ????]. unfold evict_blocks. cbn [mfor]. repeat sstep.
  assert (len (blocks p) = Z.of_nat n) as Hlen.
  { rewrite (pc_blocks _ _ _ Hc). unfold len. by rewrite length_fmap, length_seq. }
  apply succeeds_assert; [rewrite Hlen; lia|]. sstep.
  assert (py_index (blocks p) i = Some (Blk (Z.to_nat i))) as Hidx.
  { rewrite py_index_nonneg, (pc_blocks _ _ _ Hc), list_lookup_fmap, lookup_seq_lt by lia. done. }
  repeat sstep. eapply succeeds_mono; [apply (maybe_evict_spec n _ free); [done|lia]|].
  intros _ p1 (Hc1 & Hh1 & Hr1). sstep.
  eapply succeeds_mono; [apply IH|].
  - constructor; try done. by eapply refs_same.
  - intros _ p2 [Hp2 Hh2]. split; [done|]. intros r. rewrite Hh2, Hh1, fmap_cons.
    repeat case_decide; set_solver.
Qed.

Lemma len_usable : (0 < n)%nat -> len (usable n) = Z.of_nat n - 1.
Proof. intros. unfold len, usable. rewrite length_fmap, length_seq. lia. Qed.

(** The free queue never holds more than the usable blocks, and holds them all
    exactly when no block is held or set aside. *)
Lemma free_length p free held reserved :
  pool_rep n p free held reserved ->
  len free <= Z.of_nat n - 1 /\ (len free = Z.of_nat n - 1 <-> held = [] /\ reserved = []).
Proof.
  intros [Hc Hr Hfree Hheld Hrsv Hnd]. rewrite <- len_usable by apply Hc.
  pose proof (rep_nodup _ _ (pc_queue _ _ _ Hc)) as Hndf.
  assert (NoDup (usable n)) as Hndu by (apply (NoDup_fmap_2 _), NoDup_seq).
  assert (free ⊆+ usable n) as Hsub.
  { apply NoDup_submseteq; [done|]. intros r Hin. by apply Hfree. }
  split; [unfold len; apply submseteq_length in Hsub; lia|]. split.
  - intros Hlen. assert (free ≡ₚ usable n) as Hp.
    { apply submseteq_length_Permutation; [done|]. unfold len in Hlen. lia. }
    assert (forall r, r ∈ usable n -> (r ∉ held) /\ (r ∉ reserved)) as Hall.
    { intros r Hu. rewrite <- Hp in Hu. by apply Hfree. }
    split; apply elem_of_nil_inv; intros r Hin.
    + destruct (Hheld _ Hin) as [Hu _]. by destruct (Hall r Hu).
    + by destruct (Hall r (Hrsv _ Hin)).
  - intros [-> ->]. unfold len. f_equal. apply Permutation_length, NoDup_Permutation; [done..|].
    intros r. rewrite Hfree. set_solver.
Qed.

Lemma core_reset_one p l i c :
  pool_core n (set_cached c p) l -> (i < n)%nat ->
  exists c', pool_core n (set_cached c' (set_block reset_hash (Blk i) p)) l.
Proof.
  intros Hc Hi. destruct (hashof (heap p) (Blk i)) as [k|] eqn:Hk.
  - destruct (core_pop _ _ _ _ _ Hc Hk) as [_ Hc']. eexists. exact Hc'.
  - exists c. refine (core_set_hash _ _ _ i None c Hc (pc_wf _ _ _ Hc) _).
    intros k r. rewrite (pc_cache _ _ _ Hc k r). change (heap (set_cached c p)) with (heap p).
    destruct (decide (Blk i = r)) as [<-|]; [|done]. rewrite Hk. by destruct (heap p !! Blk i).
Qed.

Lemma reset_hashes_spec p l c bs :
  pool_core n (set_cached c p) l -> (forall r, r ∈ bs -> exists i, r = Blk i /\ (i < n)%nat) ->
  succeeds (mfor bs (fun block => modify (set_block reset_hash block))) p (fun _ p' =>
    (exists c', pool_core n (set_cached c' p') l) /\
    cached_block_hash_to_block p' = cached_block_hash_to_block p /\
    (forall r, refc (heap p') r = refc (heap p) r) /\
    (forall r, hashof (heap p') r = if decide (r ∈ bs) then None else hashof (heap p) r)).
Proof.
  revert p c. induction bs as [|r bs IH]; intros p c Hc Hbs; cbn [mfor]; repeat sstep.
  { split_and!; [eauto|done|done|]. intros r. by rewrite decide_False by set_solver. }
  destruct (Hbs r) as (i & -> & Hi); [left|].
  destruct (core_reset_one _ _ _ _ Hc Hi) as [c' Hc'].
  eapply succeeds_mono; [apply (IH _ _ Hc')|].
  { intros x Hx. apply Hbs. by right. }
  change (heap (set_block reset_hash (Blk i) p)) with (alter reset_hash (Blk i) (heap p)).
  intros _ p2 (Hc2 & Hcc & Hr2 & Hh2). split_and!; [done|by rewrite Hcc| |].
  - intros r. rewrite Hr2, refc_alter. case_decide as E; [subst|done].
    unfold refc. by destruct (heap p !! Blk i).
  - intros r. rewrite Hh2, hashof_alter.
    destruct (decide (Blk i = r)) as [<-|].
    + rewrite (decide_True (P := Blk i ∈ Blk i :: bs)) by left.
      case_decide; [done|]. by destruct (heap p !! Blk i).
    + repeat case_decide; set_solver.
Qed.

(** [reset_prefix_cache] succeeds exactly when no block is in use or set aside,
    and then nothing is cached any more. *)
Lemma reset_prefix_cache_spec p free held reserved :
  pool_rep n p free held reserved ->
  succeeds reset_prefix_cache p (fun b p' =>
    pool_rep n p' free held reserved /\
    (b = true <-> held = [] /\ reserved = []) /\
    (b = false -> p' = p) /\
    (b = true -> forall k, cached_block_hash_to_block p' !! k = None)).
Proof.
  intros Hp. destruct (free_length _ _ _ _ Hp) as [_ Hlen]. pose proof Hp as [Hc Hr Hfree Hheld Hrsv Hnd].
  unfold reset_prefix_cache. repeat sstep. unfold get_num_free_blocks.
  rewrite (rep_num _ _ (pc_queue _ _ _ Hc)), (pc_n _ _ _ Hc).
  destruct (Z.eqb_spec (Z.of_nat n - len free) 1) as [Hone|Hone]; simpl.
  2: { sstep. split_and!; [done| |done|done]. split; [done|]. intros Hnil. apply Hlen in Hnil. lia. }
  repeat sstep. eapply succeeds_mono; [apply (reset_hashes_spec _ free (cached_block_hash_to_block p))|].
  - by destruct p.
  - simpl. rewrite (pc_blocks _ _ _ Hc). intros r (i & -> & Hi)%list_elem_of_fmap.
    apply elem_of_seq in Hi. eexists. split; [done|lia].
  - intros _ p1 ([c Hc1] & Hcached & Hr1 & Hh1). simpl in Hcached.
    assert (forall r, hashof (heap p1) r = None) as Hnone.
    { intros r. destruct (hashof (heap p1) r) as [k|] eqn:Hk; [|done]. exfalso.
      destruct (core_key_real _ _ _ _ _ Hc1 Hk) as (i & -> & Hi).
      rewrite Hh1, decide_True in Hk; [done|]. simpl. rewrite (pc_blocks _ _ _ Hc).
      apply list_elem_of_fmap. exists i. rewrite elem_of_seq. split; [done|lia]. }
    assert (pool_core n p1 free) as Hc2.
    { destruct Hc1 as [? ? ? ? ? ? ? ? _ _]. constructor; try done.
      - rewrite Hcached. by apply map_Forall_empty.
      - intros k r. rewrite Hcached, Hnone. unfold cached_at. rewrite lookup_empty. set_solver. }
    assert (forall es, pool_rep n (set_events es p1) free held reserved) as Hend.
    { intros es. constructor; try done; [by apply core_set_events|]. by eapply refs_same. }
    assert (true = true <-> held = [] /\ reserved = []) as Hiff.
    { split; [intros _; apply Hlen; lia|done]. }
    repeat sstep. destruct (enable_kv_cache_events p); repeat sstep.
    + split; [apply Hend|]. split; [done|]. split; [done|]. intros _ k. simpl. by rewrite Hcached.
    + split; [pose proof (Hend (kv_event_queue p1)); by destruct p1|]. split; [done|]. split; [done|].
      intros _ k. by rewrite Hcached.
Qed.

(** *** Caching *)

Definition real r : Prop := exists i, r = Blk i /\ (i < n)%nat.

Lemma set_block_const p r (f : KVCacheBlock -> KVCacheBlock) b :
  heap p !! r = Some b -> set_block (fun _ => f b) r p = set_block f r p.
Proof.
  intros Hb. unfold set_block. do 2 f_equal. apply map_eq. intros x.
  rewrite !lookup_alter. case_decide; [subst; by rewrite Hb|done].
Qed.

(** Giving an unhashed block a key and entering it in the cache. *)
Lemma cache_block p l i k :
  pool_core n p l -> (i < n)%nat -> hashof (heap p) (Blk i) = None ->
  let p1 := set_block (with_hash (Some k)) (Blk i) p in
  let p' := set_cached (BlockHashToBlockMap.insert (heap p1) k (Blk i)
              (cached_block_hash_to_block p1)) p1 in
  pool_core n p' l /\
  (forall r, refc (heap p') r = refc (heap p) r) /\
  (forall r, hashof (heap p') r = if decide (r = Blk i) then Some k else hashof (heap p) r).
Proof.
  intros Hc Hi Hnone p1 p'.
  destruct (core_deref _ _ _ _ Hc Hi) as (b & Hb & _ & _).
  assert (forall r, is_Some (heap p1 !! r) <-> is_Some (heap p !! r)) as Hdom.
  { intros r. change (heap p1) with (alter (with_hash (Some k)) (Blk i) (heap p)).
    rewrite lookup_alter. case_decide; [subst; by rewrite fmap_is_Some|done]. }
  assert (ids_ok (heap p1)) as Hids.
  { intros j bj. change (heap p1) with (alter (with_hash (Some k)) (Blk i) (heap p)).
    rewrite lookup_alter. case_decide as E; [|apply (pc_ids _ _ _ Hc)].
    rewrite E. intros (b' & Hb' & ->)%fmap_Some. exact (pc_ids _ _ _ Hc _ _ Hb'). }
  destruct (insert_spec (heap p1) (cached_block_hash_to_block p) k i) as [Hwf Hat].
  - done.
  - apply Hdom. by eexists.
  - apply Hc.
  - rewrite (pc_cache _ _ _ Hc). by rewrite Hnone.
  - intros r Hr. apply Hdom. apply (pc_cache _ _ _ Hc) in Hr. unfold hashof in Hr.
    by destruct (heap p !! r).
  - split_and!.
    + apply (core_set_hash n p l i (Some k) _ Hc Hwf). intros k' r. rewrite Hat.
      destruct (decide (k = k')) as [<-|Hne].
      * rewrite elem_of_app, list_elem_of_singleton, (pc_cache _ _ _ Hc).
        destruct (decide (Blk i = r)) as [<-|]; [rewrite Hb; simpl; naive_solver|naive_solver].
      * rewrite (pc_cache _ _ _ Hc). destruct (decide (Blk i = r)) as [<-|]; [|done].
        rewrite Hnone, Hb. simpl. naive_solver.
    + intros r. change (heap p') with (alter (with_hash (Some k)) (Blk i) (heap p)).
      rewrite refc_alter. case_decide as E; [subst|done]. unfold refc. by rewrite Hb.
    + intros r. change (heap p') with (alter (with_hash (Some k)) (Blk i) (heap p)).
      rewrite hashof_alter. destruct (decide (Blk i = r)) as [<-|].
      * by rewrite decide_True, Hb.
      * by rewrite decide_False.
Qed.

(** What a run of the caching loop keeps, even when it raises half-way. *)
Definition cached_more l (p p' : t) : Prop :=
  pool_core n p' l /\ (forall r, refc (heap p') r = refc (heap p) r).

Lemma cached_more_trans l p1 p2 p3 :
  cached_more l p1 p2 -> cached_more l p2 p3 -> cached_more l p1 p3.
Proof. intros [_ H1] [H2 H3]. split; [done|]. intros r. by rewrite H3, H1. Qed.

Lemma deref_leaves p r (P : t -> Prop) : P p -> leaves (deref r) p P.
Proof. intros HP. apply leaves_bind; [done|]. intros ? ? ?. by apply leaves_of_option. Qed.

Lemma deref_eq p r b : heap p !! r = Some b -> deref r p = Ret b p.
Proof. unfold deref, bind, get, of_option. by intros ->. Qed.

(** The state after a block was given a key and entered in the cache. *)
Definition with_key (k : bytes) r p : t :=
  let p1 := set_block (with_hash (Some k)) r p in
  set_cached (BlockHashToBlockMap.insert (heap p1) k r (cached_block_hash_to_block p1)) p1.

Lemma cache_loop_cons g hs i r blks nh p b :
  heap p !! r = Some b ->
  cache_loop g hs i (r :: blks) nh p =
  if is_null b then cache_loop g hs (i + 1) blks nh p
  else match block_hash b, py_index hs i with
       | Some _, _ => Raise AssertionError p
       | None, None => Raise IndexError p
       | None, Some h =>
           match make_block_hash_with_group_id h g with
           | inl e => Raise e p
           | inr k =>
               cache_loop g hs (i + 1) blks
                 (match nh with
                  | Some hs => Some (hs ++ [maybe_convert_block_hash env_use_int_block_hashes h])
                  | None => None
                  end) (with_key k r p)
           end
       end.
Proof.
  intros Hb. cbn [cache_loop]. rewrite (bind_Ret _ _ _ _ _ (deref_eq _ _ _ Hb)).
  destruct (is_null b); [done|]. destruct (block_hash b) eqn:Hh; [done|].
  destruct (py_index hs i) as [h|]; [|done]. unfold bind at 1, assert, is_none, ret at 1. simpl.
  unfold bind at 1, ret at 1. destruct (make_block_hash_with_group_id h g) as [e|k]; [done|].
  unfold bind at 1, of_result, ret at 1, assign_hash. unfold bind at 1.
  rewrite (bind_Ret _ _ _ _ _ (deref_eq _ _ _ Hb)). unfold set_block_hash. rewrite Hh.
  unfold modify at 1. rewrite set_block_const by done. done.
Qed.

Lemma cache_loop_leaves g hs i blks nh p l :
  pool_core n p l -> Forall real blks ->
  leaves (cache_loop g hs i blks nh) p (cached_more l p).
Proof.
  intros Hc Hbs. revert i nh p Hc.
  induction Hbs as [|r blks (j & -> & Hj) Hbs IH]; intros i nh p Hc.
  { by apply leaves_pure. }
  destruct (core_deref _ _ _ _ Hc Hj) as (b & Hb & _ & _).
  unfold leaves. rewrite (cache_loop_cons _ _ _ _ _ _ _ _ Hb).
  destruct (is_null b); [by apply IH|].
  destruct (block_hash b) as [h0|] eqn:Hh0; [done|].
  destruct (py_index hs i) as [h|]; [|done].
  destruct (make_block_hash_with_group_id h g) as [e|k]; [done|].
  assert (hashof (heap p) (Blk j) = None) as Hnone by (unfold hashof; rewrite Hb; done).
  destruct (cache_block _ _ _ k Hc Hj Hnone) as (Hc1 & Hr1 & _).
  eapply leaves_mono; [exact (IH (i + 1) _ _ Hc1)|]. intros p2 Hp2.
  eapply cached_more_trans; [|exact Hp2]. done.
Qed.

Lemma event_keys_loop_pure bs size is_ mm req acc p :
  match event_keys_loop bs size is_ mm req acc p with Ret _ p' => p' = p | Raise _ p' => p' = p end.
Proof.
  revert mm req acc. induction is_ as [|i is_ IH]; intros mm req acc; simpl; [done|].
  unfold bind at 1, of_option, ret, raise. destruct (py_index bs i) as [r|]; simpl; [|done].
  unfold bind, deref, get, of_option, ret, raise. unfold bind. destruct (heap p !! r) as [b|]; simpl; [|done].
  destruct (is_null b); [apply IH|].
  destruct (generate_block_hash_extra_keys _ _ _ _ _) as [[? ?] ?|]; [apply IH|done].
Qed.

(** Whatever the arguments, and even when it raises, [cache_full_blocks] leaves
    a pool whose cache and reference counts are consistent. *)
Lemma cache_full_blocks_leaves request bs a b size g p free held reserved :
  pool_rep n p free held reserved -> Forall real bs ->
  leaves (cache_full_blocks request bs a b size g) p (fun p' => pool_rep n p' free held reserved).
Proof.
  intros Hp Hbs. pose proof Hp as [Hc Hr Hfree Hheld Hrsv Hnd].
  unfold cache_full_blocks. destruct (b <=? a); [done|].
  apply leaves_bind; [done|]. intros p0 p1 Hp1. pose proof (pr_core _ _ _ _ _ Hp1) as Hc1.
  apply leaves_bind; [by apply leaves_assert|]. intros [] p2 Hp2.
  apply leaves_bind; [by apply leaves_of_result|]. intros bl p3 Hp3.
  apply leaves_bind.
  - pose proof (cache_loop_leaves g (bhl_from bl a) 0 (py_slice bs a b)
      (if enable_kv_cache_events p0 then Some [] else None) p3 free (pr_core _ _ _ _ _ Hp3)) as Hl.
    assert (Forall real (py_slice bs a b)) as Hsl by (unfold py_slice; by apply Forall_take, Forall_drop).
    specialize (Hl Hsl). unfold leaves in *.
    assert (forall p4, cached_more free p3 p4 -> pool_rep n p4 free held reserved) as Hend.
    { intros p4 [Hc4 Hr4]. constructor; try done. eapply refs_same; [exact Hr4|apply Hp3]. }
    destruct (cache_loop _ _ _ _ _ _); by apply Hend.
  - intros nh p4 Hp4. destruct (enable_kv_cache_events p0); [|done].
    apply leaves_bind; [|intros ph p5 Hp5].
    { destruct (a =? 0); [done|]. apply leaves_bind; [by apply leaves_of_option|done]. }
    apply leaves_bind; [|intros ks p6 Hp6].
    { apply leaves_pure; [apply event_keys_loop_pure|done]. }
    destruct Hp6. constructor; try done. by apply core_set_events.
Qed.

(** On blocks that are null or have no hash yet, with hashes enough and a
    group id of 32 bits, every block gets the key of its position. *)
Lemma cache_loop_spec g hs i blks nh p l :
  pool_core n p l -> Forall real blks -> 0 <= i -> 0 <= g < 2 ^ 32 -> i + len blks <= len hs ->
  NoDup (filter (fun r => r <> Blk 0) blks) ->
  (forall r, r ∈ blks -> r <> Blk 0 -> hashof (heap p) r = None) ->
  succeeds (cache_loop g hs i blks nh) p (fun _ p' =>
    cached_more l p p' /\
    (forall r, (r ∉ blks) \/ r = Blk 0 -> hashof (heap p') r = hashof (heap p) r) /\
    (forall j r h, blks !! j = Some r -> r <> Blk 0 -> hs !! (Z.to_nat i + j)%nat = Some h ->
       exists k, make_block_hash_with_group_id h g = inr k /\ hashof (heap p') r = Some k)).
Proof.
  intros Hc Hbs Hi Hg. revert i nh p Hi Hc.
  induction Hbs as [|r blks (m & -> & Hm) Hbs IH]; intros i nh p Hi Hc Hlen Hnd Hh.
  { cbn [cache_loop]. sstep. split; [done|]. split; [done|]. intros j r h Hj. done. }
  destruct (core_deref _ _ _ _ Hc Hm) as (b & Hb & _ & Hnull).
  rewrite len_cons in Hlen. unfold succeeds. rewrite (cache_loop_cons _ _ _ _ _ _ _ _ Hb), Hnull.
  destruct (decide (m = 0%nat)) as [->|Hm0].
  - rewrite bool_decide_eq_true_2 by done.
    rewrite filter_cons_False in Hnd by (intros Hx; by apply Hx).
    eapply succeeds_mono; [apply (IH (i + 1) _ _ ltac:(lia) Hc)|];
      [lia|done|intros r Hr; apply Hh; by right|].
    intros _ p' (Hm1 & Hs1 & Hk1). split; [done|]. split.
    + intros r [Hr| ->]; apply Hs1; [left; set_solver|by right].
    + intros [|j] r h Hj Hr0 Hhs; [simplify_eq/=; done|].
      apply (Hk1 j r h); [done..|]. by replace (Z.to_nat (i + 1) + j)%nat with (Z.to_nat i + S j)%nat by lia.
  - rewrite bool_decide_eq_false_2 by done.
    assert (Blk m <> Blk 0) as Hne by (by intros [= ->]).
    rewrite filter_cons_True in Hnd by done. apply NoDup_cons in Hnd as [Hni Hnd].
    assert (hashof (heap p) (Blk m) = None) as Hnone by (apply Hh; [left|done]).
    assert (block_hash b = None) as -> by (unfold hashof in Hnone; by rewrite Hb in Hnone).
    rewrite py_index_nonneg by done.
    destruct (hs !! Z.to_nat i) as [h|] eqn:Hhi.
    2: { apply lookup_ge_None in Hhi. pose proof (len_nonneg blks). unfold len in *. lia. }
    pose proof (group_id_roundtrip h g) as Hk.
    destruct (make_block_hash_with_group_id h g) as [e|k] eqn:Ek; [by destruct Hk as [_ []]|].
    destruct (cache_block _ _ _ k Hc Hm Hnone) as (Hc1 & Hr1 & Hh1).
    fold (with_key k (Blk m) p) in *.
    assert (Blk m ∉ blks) as Hmb by (rewrite list_elem_of_filter in Hni; tauto).
    eapply succeeds_mono; [apply (IH (i + 1) _ _ ltac:(lia) Hc1)|]; [lia|done| |].
    { intros r Hr Hr0. rewrite Hh1, decide_False by (by intros ->). apply Hh; [by right|done]. }
    intros _ p' (Hm1 & Hs1 & Hk1). split; [|split].
    + eapply cached_more_trans; [|exact Hm1]. done.
    + intros r Hr. rewrite Hs1, Hh1, decide_False; [done|..]; destruct Hr as [Hr| ->]; auto; set_solver.
    + intros [|j] r h' Hj Hr0 Hhs.
      * rewrite Nat.add_0_r in Hhs. simplify_eq/=. exists k. split; [done|].
        rewrite Hs1, Hh1, decide_True by auto. done.
      * apply (Hk1 j r h'); [done..|].
        by replace (Z.to_nat (i + 1) + j)%nat with (Z.to_nat i + S j)%nat by lia.
Qed.
End methods.

(** ** Construction *)

(** The fields of the blocks after the null block was popped and marked. *)
Lemma fresh_pool_fields m q :
  same_data (Queue.heap (Queue.init (Blk <$> seq 0 (S m)) (fresh_store (S m)))) (Queue.heap q) ->
  let h := alter (with_null true) (Blk 0) (Queue.heap q) in
  (forall i, is_Some (h !! Blk i) <-> (i < S m)%nat) /\
  (forall r, hashof h r = None) /\
  (forall i, (i < S m)%nat -> refc h (Blk i) = Some 0 /\ idof h (Blk i) = Some (Z.of_nat i) /\
     nullp h (Blk i) = Some (bool_decide (i = 0%nat))).
Proof.
  intros Hd h.
  assert (forall r, data <$> Queue.heap q !! r = match r with
    | Blk i => if decide (i < S m)%nat then Some (data (new_block (Z.of_nat i))) else None
    | _ => Some (data (new_block (-1))) end) as Hq.
  { intros r. rewrite <- (Hd r), init_data. destruct r as [i| |]; [|done..].
    rewrite fresh_store_lookup. by case_decide. }
  assert (forall r, h !! r = (if decide (Blk 0 = r) then with_null true else id) <$> Queue.heap q !! r) as Hh.
  { intros r. unfold h. rewrite lookup_alter. case_decide; [by subst|by rewrite option_fmap_id]. }
  split_and!.
  - intros i. rewrite Hh, fmap_is_Some, <- (fmap_is_Some data), Hq. case_decide; split; try done.
  - intros r. unfold hashof. rewrite Hh. specialize (Hq r).
    destruct (Queue.heap q !! r) as [b|]; [|done]. simpl in *.
    assert (block_hash (data b) = None) as Hb.
    { destruct r; [case_decide; [|done]|..]; by apply (inj Some) in Hq as ->. }
    destruct b; by case_decide.
  - intros i Hi. specialize (Hq (Blk i)). cbv beta iota in Hq. rewrite decide_True in Hq by done.
    unfold refc, idof, nullp. rewrite Hh. destruct (Queue.heap q !! Blk i) as [b|]; [|done].
    simpl in Hq. apply (inj Some) in Hq. unfold data in Hq. destruct b; simpl in *. simplify_eq/=.
    destruct (decide (i = 0%nat)) as [->|Hi0].
    + rewrite decide_True, bool_decide_eq_true_2 by done. done.
    + rewrite decide_False, bool_decide_eq_false_2 by naive_solver. done.
Qed.

(** A new pool: all blocks but the null block are free, in the order of their ids. *)
Lemma pool_init_spec (n : Z) ec hs ev :
  0 < n ->
  exists p, BlockPool.init n ec hs ev = inr p /\ BlockPool.enable_caching p = ec /\
    BlockPool.hash_block_size p = hs /\ BlockPool.enable_kv_cache_events p = ev /\
    pool_rep (Z.to_nat n) p (usable (Z.to_nat n)) [] [].
Proof.
  intros Hn. unfold BlockPool.init. destruct (Z.leb_spec n 0); [lia|].
  destruct (Z.to_nat n) as [|m] eqn:Hm; [lia|].
  pose proof (init_fresh (S m)) as Hq.
  assert (Blk <$> seq 0 (S m) = Blk 0 :: (Blk <$> seq 1 m)) as Hseq by done.
  rewrite Hseq in Hq at 2. destruct (popleft_spec _ _ _ Hq) as (q & Hpop & Hq' & Hd). rewrite Hpop.
  set (p := BlockPool.Mk _ _ _ _ _ _ _ _ _). eexists. split; [done|]. split_and!; [done..|].
  destruct (fresh_pool_fields m q Hd) as (Hdom & Hhash & Hf).
  assert (Blk <$> seq 1 m = usable (S m)) as Hu by (unfold usable; do 2 f_equal; lia).
  rewrite Hu in Hq'.
  constructor.
  - constructor; try done; simpl.
    + lia.
    + lia.
    + by apply rep_set_data; [|intros []].
    + intros i b Hb. assert (i < S m)%nat as Hi by (apply Hdom; by eexists).
      destruct (Hf i Hi) as (_ & Hid & _). unfold idof in Hid.
      change (alter (with_null true) (Blk 0) (Queue.heap q) !! Blk i = Some b) in Hb.
      rewrite Hb in Hid. simpl in Hid. congruence.
    + intros i Hi. apply (Hf i Hi).
    + intros k r.
      assert (hashof (BlockPool.heap (BlockPool.set_block (with_null true) (Blk 0) p)) r = None)
        as -> by exact (Hhash r). unfold cached_at. rewrite lookup_empty. set_solver.
  - intros r _ (i & ->) Hs. assert (i < S m)%nat as Hi by by apply Hdom.
    apply (Hf i Hi).
  - set_solver.
  - set_solver.
  - set_solver.
  - constructor.
Qed.

(** ** The pool as a transition system *)
Section trace.
Import BlockPool.
Context `{HashEnv}.
Variable n : nat.

(** A pool together with the references its clients hold and the blocks set
    aside for good. *)
Record pool_state := PS { ps_pool : t; ps_held : list bref; ps_reserved : list bref }.

(** Every call a client can make; calls that may raise on legal arguments have
    a step for that outcome too. *)
Inductive pool_step : pool_state -> pool_state -> Prop :=
  | StepNew p held reserved k bs p' :
      0 <= k -> get_new_blocks k p = Ret bs p' ->
      pool_step (PS p held reserved) (PS p' (bs ++ held) reserved)
  | StepNewFail p held reserved k e p' :
      0 <= k -> get_new_blocks k p = Raise e p' ->
      pool_step (PS p held reserved) (PS p' held reserved)
  | StepTouch p held reserved bs p' :
      Forall (touchable n reserved) bs -> touch bs p = Ret tt p' ->
      pool_step (PS p held reserved) (PS p' (filter (fun r => r <> Blk 0) bs ++ held) reserved)
  | StepFree p held held' reserved bs p' :
      held ≡ₚ filter (fun r => r <> Blk 0) bs ++ held' -> Forall (real n) bs ->
      NoDup (filter (fun r => r <> Blk 0) bs) -> free_blocks bs p = Ret tt p' ->
      pool_step (PS p held reserved) (PS p' held' reserved)
  | StepCache p held reserved request bs a b size g p' :
      Forall (real n) bs ->
      match cache_full_blocks request bs a b size g p with
      | Ret _ q | Raise _ q => q = p'
      end ->
      pool_step (PS p held reserved) (PS p' held reserved)
  | StepEvict p held reserved ids p' :
      Forall (fun i => 0 <= i < Z.of_nat n) ids -> evict_blocks ids p = Ret tt p' ->
      pool_step (PS p held reserved) (PS p' held reserved)
  | StepReset p held reserved b p' :
      reset_prefix_cache p = Ret b p' ->
      pool_step (PS p held reserved) (PS p' held reserved)
  | StepReserve p held reserved k bs p' :
      0 <= k -> on_queue (Queue.popleft_n k) p = Ret bs p' ->
      pool_step (PS p held reserved) (PS p' held (bs ++ reserved)).

Definition pool_ok (s : pool_state) : Prop :=
  exists free, pool_rep n (ps_pool s) free (ps_held s) (ps_reserved s).

Lemma get_new_blocks_error p free held reserved k :
  pool_rep n p free held reserved -> len free < k -> get_new_blocks k p = Raise ValueError p.
Proof.
  intros [Hc _ _ _ _ _] Hk. unfold get_new_blocks, bind, get, get_num_free_blocks.
  rewrite (rep_num _ _ (pc_queue _ _ _ Hc)). destruct (Z.ltb_spec (len free) k); [done|lia].
Qed.

Lemma reserve_spec p free held reserved k :
  pool_rep n p free held reserved -> 0 <= k ->
  match on_queue (Queue.popleft_n k) p with
  | Ret bs p' => bs = take (Z.to_nat k) free /\
      pool_rep n p' (drop (Z.to_nat k) free) held (bs ++ reserved)
  | Raise e p' => e = AssertionError /\ p' = p
  end.
Proof.
  intros [Hc Hr Hfree Hheld Hres Hnd] Hk. unfold on_queue, zoom.
  destruct (decide (k <= len free)) as [Hle|Hgt].
  2: { rewrite (popleft_n_error _ free) by (apply Hc || lia). split; [done|by destruct p]. }
  destruct (popleft_n_spec _ _ k (pc_queue _ _ _ Hc) (conj Hk Hle)) as (q' & -> & Hq' & Hd).
  split; [done|]. pose proof (core_same_data _ _ _ _ _ Hc Hq' Hd) as Hc'.
  pose proof (rep_nodup _ _ (pc_queue _ _ _ Hc)) as Hndf.
  pose proof (take_drop (Z.to_nat k) free) as Hsplit.
  revert Hsplit Hc'. generalize (take (Z.to_nat k) free) (drop (Z.to_nat k) free).
  intros bs rest <- Hc'. apply NoDup_app in Hndf as (Hnbs & Hdisj & _).
  constructor; try done.
  - eapply refs_same; [|exact Hr]. intros r. apply (same_data_fields _ _ r Hd).
  - intros r. specialize (Hfree r). specialize (Hdisj r). rewrite elem_of_app in *. tauto.
  - intros r Hin. destruct (Hheld r Hin) as [? ?]. split; [done|].
    rewrite not_elem_of_app. split; [|done]. intros Hb.
    destruct (proj1 (Hfree r)) as (_ & Hn & _); [set_solver|done].
  - intros r [Hin|Hin]%elem_of_app; [|by apply Hres]. apply Hfree. set_solver.
  - apply NoDup_app. split_and!; [done| |done]. intros r Hin Hin'.
    destruct (proj1 (Hfree r)) as (_ & _ & Hn); [set_solver|done].
Qed.

Lemma pool_step_ok s s' : pool_ok s -> pool_step s s' -> pool_ok s'.
Proof.
  intros [free Hp] Hstep. destruct Hstep; simpl in *.
  - destruct (decide (k <= len free)).
    + pose proof (get_new_blocks_spec n _ _ _ _ k Hp (conj H0 l)) as Hs. unfold succeeds in Hs.
      rewrite H1 in Hs. destruct Hs as (_ & Hp' & _). by eexists.
    + erewrite get_new_blocks_error in H1 by (done || lia). done.
  - destruct (decide (k <= len free)).
    + pose proof (get_new_blocks_spec n _ _ _ _ k Hp (conj H0 l)) as Hs. unfold succeeds in Hs.
      by rewrite H1 in Hs.
    + erewrite get_new_blocks_error in H1 by (done || lia). simplify_eq. by eexists.
  - pose proof (touch_spec n _ _ _ _ _ Hp H0) as Hs. unfold succeeds in Hs. rewrite H1 in Hs.
    destruct Hs as [Hp' _]. by eexists.
  - rewrite Forall_forall in H1.
    pose proof (free_blocks_spec n _ _ _ _ _ _ Hp H0 H1 H2) as Hs. unfold succeeds in Hs.
    rewrite H3 in Hs. destruct Hs as [Hp' _]. by eexists.
  - pose proof (cache_full_blocks_leaves n request bs a b size g _ _ _ _ Hp H0) as Hs.
    unfold leaves in Hs. destruct (cache_full_blocks _ _ _ _ _ _ _); subst; by eexists.
  - pose proof (evict_blocks_spec n _ _ _ _ _ Hp H0) as Hs. unfold succeeds in Hs. rewrite H1 in Hs.
    destruct Hs as [Hp' _]. by eexists.
  - pose proof (reset_prefix_cache_spec n _ _ _ _ Hp) as Hs. unfold succeeds in Hs. rewrite H0 in Hs.
    destruct Hs as [Hp' _]. by eexists.
  - pose proof (reserve_spec _ _ _ _ k Hp H0) as Hs. rewrite H1 in Hs.
    destruct Hs as [_ Hp']. by eexists.
Qed.

Lemma pool_reachable_ok s s' : pool_ok s -> rtc pool_step s s' -> pool_ok s'.
Proof. intros Hs Hr. induction Hr; [done|]. eauto using pool_step_ok. Qed.

(** Free, held and reserved blocks partition the usable blocks. *)
Lemma pool_partition p free held reserved :
  pool_rep n p free held reserved ->
  free ++ remove_dups held ++ reserved ≡ₚ usable n.
Proof.
  intros [Hc Hr Hfree Hheld Hres Hnd]. apply NoDup_Permutation.
  - apply NoDup_app. split_and!; [apply (rep_nodup _ _ (pc_queue _ _ _ Hc))| |].
    + intros r Hin. rewrite elem_of_app, elem_of_remove_dups. apply Hfree in Hin. tauto.
    + apply NoDup_app. split_and!; [apply NoDup_remove_dups| |done].
      intros r Hin. rewrite elem_of_remove_dups in Hin. by apply Hheld.
  - apply (NoDup_fmap_2 _), NoDup_seq.
  - intros r. rewrite !elem_of_app, elem_of_remove_dups, Hfree.
    specialize (Hheld r). specialize (Hres r).
    destruct (decide (r ∈ held)), (decide (r ∈ reserved)); tauto.
Qed.
End trace.

(** ** Main theorems *)
Section theorems.
Import BlockPool.
Context `{HashEnv}.

(** C14. Block conservation, in every state any sequence of calls reaches from a
    new pool: each block but the null block is exactly one of free, held or set
    aside; its reference count is the number of references clients hold; the
    cache returns a block for a key only if the block carries that key, and
    returns one whenever some block does; the null block is never handed out. *)
Theorem pool_trace_invariant (num : Z) ec hs ev p0 s
    (Hnum : 0 < num) (Hinit : init num ec hs ev = inr p0)
    (Hreach : rtc (pool_step (Z.to_nat num)) (PS p0 [] []) s) :
  get_num_free_blocks (ps_pool s) + len (remove_dups (ps_held s)) + len (ps_reserved s) + 1 = num /\
  (forall i b, i <> 0%nat -> heap (ps_pool s) !! Blk i = Some b ->
     ref_cnt b = occ (Blk i) (ps_held s)) /\
  (forall k r, BlockHashToBlockMap.get_one_block (cached_block_hash_to_block (ps_pool s)) k
     = inr (Some r) -> hashof (heap (ps_pool s)) r = Some k) /\
  (forall k r, hashof (heap (ps_pool s)) r = Some k -> exists r',
     BlockHashToBlockMap.get_one_block (cached_block_hash_to_block (ps_pool s)) k = inr (Some r')) /\
  Blk 0 ∉ ps_held s.
Proof.
  destruct (pool_init_spec num ec hs ev Hnum) as (p & Hp & _ & _ & _ & Hrep).
  rewrite Hinit in Hp. injection Hp as <-.
  assert (pool_ok (Z.to_nat num) (PS p0 [] [])) as H0 by (eexists; exact Hrep).
  destruct (pool_reachable_ok (Z.to_nat num) _ s H0 Hreach) as [free Hok]. clear H0.
  pose proof (pool_partition _ _ _ _ _ Hok) as Hpart. destruct Hok as [Hc Hr Hfree Hheld Hres Hnd].
  split_and!.
  - apply Permutation_length in Hpart. unfold get_num_free_blocks.
    rewrite (rep_num _ _ (pc_queue _ _ _ Hc)). rewrite !length_app in Hpart.
    unfold usable in Hpart. rewrite length_fmap, length_seq in Hpart. unfold len. lia.
  - intros i b Hi Hb. by eapply refs_lookup.
  - intros k r. rewrite get_one_block_spec by apply Hc. intros [= Hh].
    apply (pc_cache _ _ _ Hc). destruct (cached_at _ k) as [|r0 rs]; simplify_eq/=. by left.
  - intros k r Hh. rewrite get_one_block_spec by apply Hc.
    apply (pc_cache _ _ _ Hc) in Hh. destruct (cached_at _ k); [set_solver|]. by eexists.
  - intros H0. by apply (usable_null (Z.to_nat num)), Hheld.
Qed.

(** C31. Allocation: [get_new_blocks] returns the blocks at the front of the
    eviction order, each with one reference and, under prefix caching, without
    a hash; when there are not enough free blocks it raises [ValueError] and
    changes nothing. *)
Theorem get_new_blocks_correct (n : nat) p free held reserved k
    (Hp : pool_rep n p free held reserved) (Hk : 0 <= k) :
  match get_new_blocks k p with
  | Ret bs p' => k <= len free /\ bs = take (Z.to_nat k) free /\
      pool_rep n p' (drop (Z.to_nat k) free) (bs ++ held) reserved /\
      (forall r, r ∈ bs -> refc (heap p') r = Some 1 /\
         (enable_caching p = true -> hashof (heap p') r = None)) /\
      (forall r, (r ∉ bs) -> hashof (heap p') r = hashof (heap p) r)
  | Raise e p' => e = ValueError /\ p' = p /\ len free < k
  end.
Proof.
  destruct (decide (k <= len free)) as [Hle|].
  2: { erewrite get_new_blocks_error by (done || lia). split_and!; [done..|lia]. }
  pose proof (get_new_blocks_spec n _ _ _ _ k Hp (conj Hk Hle)) as Hs. unfold succeeds in Hs.
  destruct (get_new_blocks k p) as [bs p'|]; [|done]. destruct Hs as (Hbs & Hp' & Hh).
  split_and!; [done..| |].
  - intros r Hin. split; [|intros Hec; by rewrite Hh, decide_True].
    assert (r ∈ free) as Hf.
    { rewrite <- (take_drop (Z.to_nat k) free), elem_of_app. left. by rewrite <- Hbs. }
    destruct (proj1 (pr_free _ _ _ _ _ Hp r) Hf) as (Hu & Hnh & _).
    apply elem_of_usable in Hu as (i & -> & Hi0 & Hi).
    rewrite (pr_refs _ _ _ _ _ Hp'); [|naive_solver|eauto|by apply (pc_store _ _ _ (pr_core _ _ _ _ _ Hp'))].
    rewrite occ_app, (proj2 (occ_zero _ held) Hnh). f_equal.
    assert (NoDup bs) as Hndb.
    { rewrite Hbs. eapply sublist_NoDup; [|apply sublist_take].
      apply (rep_nodup _ _ (pc_queue _ _ _ (pr_core _ _ _ _ _ Hp))). }
    apply list_elem_of_split in Hin as (l1 & l2 & ->).
    apply NoDup_app_cons_inv in Hndb as (H1 & H2 & _).
    rewrite occ_app, occ_cons, decide_True by done.
    rewrite (proj2 (occ_zero _ l1) H1), (proj2 (occ_zero _ l2) H2). done.
  - intros r Hr. rewrite Hh, decide_False by naive_solver. done.
Qed.

(** A cached full block is found again: after [cache_full_blocks] on blocks
    that are null or carry no hash, looking up the hash of any of the cached
    positions hits, with a block that carries exactly this hash and group. *)
Theorem cache_full_blocks_hit (n : nat) p free held reserved request bs a b size g bl
    (Hp : pool_rep n p free held reserved) (Hbs : Forall (real n) bs)
    (Hev : enable_kv_cache_events p = false) (Hab : 0 <= a < b) (Hg : 0 <= g < 2 ^ 32)
    (Hlen : b <= len (block_hashes request))
    (Hbl : get_block_hashes_for (block_hashes request) (hash_block_size p) size = inr bl)
    (Hhs : len (py_slice bs a b) <= len (bhl_from bl a))
    (Hnd : NoDup (filter (fun r => r <> Blk 0) (py_slice bs a b)))
    (Hnew : forall r, r ∈ py_slice bs a b -> r <> Blk 0 -> hashof (heap p) r = None) :
  succeeds (cache_full_blocks request bs a b size g) p (fun request' p' =>
    request' = request /\ pool_rep n p' free held reserved /\
    forall j r h, py_slice bs a b !! j = Some r -> r <> Blk 0 -> bhl_from bl a !! j = Some h ->
      exists r' k, get_cached_block p' h [g] = inr (Some [r']) /\
        make_block_hash_with_group_id h g = inr k /\
        hashof (heap p') r' = Some k /\ hashof (heap p') r = Some k).
Proof.
  unfold cache_full_blocks. destruct (Z.leb_spec b a); [lia|]. repeat sstep. rewrite Hev.
  apply succeeds_assert; [lia|]. repeat sstep.
  pose proof Hp as [Hc Hr Hfree Hheld Hres Hndr].
  eapply succeeds_mono; [apply (cache_loop_spec n g (bhl_from bl a) 0 _ _ _ free Hc)|];
    [unfold py_slice; by apply Forall_take, Forall_drop|done|done|lia|done|done|].
  intros _ p' ([Hc' Hr'] & Hs' & Hk'). sstep. split; [done|]. split.
  - constructor; try done. by eapply refs_same.
  - intros j r h Hj Hr0 Hh. destruct (Hk' j r h Hj Hr0 Hh) as (k & Hk & Hrk).
    pose proof Hrk as Hin. apply (pc_cache _ _ _ Hc') in Hin.
    unfold get_cached_block. simpl. rewrite Hk, get_one_block_spec by apply Hc'.
    destruct (cached_at (cached_block_hash_to_block p') k) as [|r' rs] eqn:E; [set_solver|].
    exists r', k. split_and!; [done..| |done]. apply (pc_cache _ _ _ Hc'). rewrite E. left.
Qed.

(** Sharing a cached prefix: [touch] takes the blocks out of the eviction
    order and adds a reference, keeping their hashes; the later [free_blocks]
    gives the references back and puts the blocks nobody else holds at the end
    of the eviction order, still cached, in the order given. *)
Theorem touch_then_free (n : nat) p free held reserved bs
    (Hp : pool_rep n p free held reserved) (Hbs : Forall (touchable n reserved) bs)
    (Hnd : NoDup (filter (fun r => r <> Blk 0) bs)) :
  succeeds (touch bs ;;; free_blocks bs) p (fun _ p' =>
    pool_rep n p' (filter (fun r => r ∉ bs) free ++ freed held bs) held reserved /\
    (forall r, hashof (heap p') r = hashof (heap p) r)).
Proof.
  sstep. eapply succeeds_mono; [by apply (touch_spec n)|]. intros _ p1 [Hp1 Hh1].
  eapply succeeds_mono; [apply (free_blocks_spec n _ _ _ held _ bs Hp1); [done| |done]|].
  - rewrite Forall_forall in Hbs. intros r Hr. destruct (Hbs r Hr) as (i & -> & Hi & _). eauto.
  - intros _ p2 [Hp2 Hh2]. split; [done|]. intros r. by rewrite Hh2, Hh1.
Qed.

(** Resetting the prefix cache succeeds exactly when no block is held or
    set aside; then no lookup hits any more, and otherwise nothing changes. *)
Theorem reset_prefix_cache_correct (n : nat) p free held reserved
    (Hp : pool_rep n p free held reserved) :
  succeeds reset_prefix_cache p (fun b p' =>
    pool_rep n p' free held reserved /\
    (b = true <-> held = [] /\ reserved = []) /\
    (b = false -> p' = p) /\
    (b = true -> forall h g, 0 <= g < 2 ^ 32 -> get_cached_block p' h [g] = inr None)).
Proof.
  eapply succeeds_mono; [by apply (reset_prefix_cache_spec n)|].
  intros b p' (Hp' & Hiff & Hf & Ht). split; [done|]. split; [done|]. split; [done|].
  intros Hb h g Hg. unfold get_cached_block. simpl.
  pose proof (group_id_roundtrip h g) as Hk.
  destruct (make_block_hash_with_group_id h g); [by destruct Hk as [_ []]|].
  unfold BlockHashToBlockMap.get_one_block. by rewrite Ht.
Qed.
End theorems.

(** ** Witnesses *)

Definition demo_env : HashEnv :=
  {| env_sha256 := demo_sha256; env_use_int_block_hashes := false |}.
#[local] Existing Instance demo_env.

(** A pool of four blocks with prefix caching. *)
Definition demo_pool : BlockPool.t :=
  match BlockPool.init 4 true 2 false with
  | inr p => p
  | inl _ => BlockPool.Mk 0 true 2 [] (Queue.Mk ∅ 0) ∅ FakeHead false []
  end.

Lemma demo_pool_rep : pool_rep 4 demo_pool (usable 4) [] [].
Proof.
  destruct (pool_init_spec 4 true 2 false ltac:(lia)) as (p & Hp & _ & _ & _ & Hrep).
  assert (demo_pool = p) as -> by (unfold demo_pool; by rewrite Hp). exact Hrep.
Qed.

Lemma pool_trace_invariant_witness :
  exists s, rtc (pool_step (Z.to_nat 4)) (PS demo_pool [] []) s /\ ps_held s = [Blk 1; Blk 2] /\
    BlockPool.get_num_free_blocks (ps_pool s) + 2 + 0 + 1 = 4.
Proof.
  destruct (BlockPool.get_new_blocks 2 demo_pool) as [bs p'|e p'] eqn:E; [|vm_compute in E; discriminate].
  assert (bs = [Blk 1; Blk 2]) as ->.
  { apply (f_equal (fun o => match o with Ret bs _ => bs | _ => [] end)) in E.
    vm_compute in E. symmetry. exact E. }
  assert (rtc (pool_step (Z.to_nat 4)) (PS demo_pool [] []) (PS p' ([Blk 1; Blk 2] ++ []) [])) as Hr.
  { apply rtc_once. eapply (StepNew _ _ _ _ 2); [lia|exact E]. }
  assert (BlockPool.init 4 true 2 false = inr demo_pool) as Hi by reflexivity.
  exists (PS p' ([Blk 1; Blk 2] ++ []) []). split; [exact Hr|]. split; [reflexivity|].
  exact (proj1 (pool_trace_invariant 4 true 2 false _ _ ltac:(lia) Hi Hr)).
Defined.

Lemma get_new_blocks_correct_witness :
  pool_rep 4 demo_pool (usable 4) [] [] /\
  match BlockPool.get_new_blocks 2 demo_pool with
  | Ret bs _ => bs = [Blk 1; Blk 2]
  | Raise _ _ => False
  end /\
  match BlockPool.get_new_blocks 9 demo_pool with
  | Ret _ _ => False
  | Raise e p' => e = ValueError /\ p' = demo_pool
  end.
Proof.
  split; [exact demo_pool_rep|]. split.
  - pose proof (get_new_blocks_correct 4 _ _ _ _ 2 demo_pool_rep ltac:(lia)) as Hc.
    destruct (BlockPool.get_new_blocks 2 demo_pool) as [bs p'|e p'].
    + exact (proj1 (proj2 Hc)).
    + destruct Hc as (_ & _ & Hlt). vm_compute in Hlt. discriminate.
  - pose proof (get_new_blocks_correct 4 _ _ _ _ 9 demo_pool_rep ltac:(lia)) as Hc.
    destruct (BlockPool.get_new_blocks 9 demo_pool) as [bs p'|e p'].
    + destruct Hc as (Hle & _). vm_compute in Hle. by apply Hle.
    + split; [exact (proj1 Hc)|exact (proj1 (proj2 Hc))].
Defined.

(** A request with two full blocks of two tokens, cached in group 0. *)
Definition demo_pool2 : BlockPool.t := final (BlockPool.get_new_blocks 2 demo_pool).

Lemma demo_pool2_rep : pool_rep 4 demo_pool2 [Blk 3] [Blk 1; Blk 2] [].
Proof.
  pose proof (get_new_blocks_correct 4 _ _ _ _ 2 demo_pool_rep ltac:(lia)) as Hc.
  unfold demo_pool2. destruct (BlockPool.get_new_blocks 2 demo_pool) as [bs p'|e p'].
  - destruct Hc as (_ & -> & Hp & _). exact Hp.
  - destruct Hc as (_ & _ & Hlt). vm_compute in Hlt. discriminate.
Qed.

Lemma cache_full_blocks_hit_witness :
  exists h p', BlockPool.cache_full_blocks (demo_hashed_request "a" [5; 6; 7; 8; 9])
      [Blk 1; Blk 2] 0 2 2 0 demo_pool2 = Ret (demo_hashed_request "a" [5; 6; 7; 8; 9]) p' /\
    exists r', BlockPool.get_cached_block p' h [0] = inr (Some [r']).
Proof.
  destruct (block_hashes (demo_hashed_request "a" [5; 6; 7; 8; 9]) !! 1%nat) as [h|] eqn:Hh;
    [|vm_compute in Hh; discriminate].
  assert (forall r, r ∈ [Blk 1; Blk 2] -> r <> Blk 0 -> hashof (BlockPool.heap demo_pool2) r = None) as Hnew.
  { intros r [->|[->|[]%not_elem_of_nil]%elem_of_cons]%elem_of_cons _; vm_compute; reflexivity. }
  assert (succeeds (BlockPool.cache_full_blocks (demo_hashed_request "a" [5; 6; 7; 8; 9])
    [Blk 1; Blk 2] 0 2 2 0) demo_pool2 (fun request' p' =>
      request' = demo_hashed_request "a" [5; 6; 7; 8; 9] /\
      pool_rep 4 p' [Blk 3] [Blk 1; Blk 2] [] /\ forall j r h,
      py_slice [Blk 1; Blk 2] 0 2 !! j = Some r -> r <> Blk 0 ->
      bhl_from (HashList (block_hashes (demo_hashed_request "a" [5; 6; 7; 8; 9]))) 0 !! j = Some h ->
      exists r' k, BlockPool.get_cached_block p' h [0] = inr (Some [r']) /\
        make_block_hash_with_group_id h 0 = inr k /\
        hashof (BlockPool.heap p') r' = Some k /\ hashof (BlockPool.heap p') r = Some k)) as Hc.
  { apply (cache_full_blocks_hit 4 demo_pool2 _ _ _ (demo_hashed_request "a" [5; 6; 7; 8; 9])
      [Blk 1; Blk 2] 0 2 2 0 (HashList (block_hashes (demo_hashed_request "a" [5; 6; 7; 8; 9])))
      demo_pool2_rep).
    - repeat constructor; eexists; (split; [reflexivity|lia]).
    - vm_compute. reflexivity.
    - lia.
    - lia.
    - vm_compute. discriminate.
    - vm_compute. reflexivity.
    - vm_compute. discriminate.
    - apply (bool_decide_unpack _). vm_compute. exact I.
    - exact Hnew. }
  unfold succeeds in Hc.
  destruct (BlockPool.cache_full_blocks (demo_hashed_request "a" [5; 6; 7; 8; 9])
    [Blk 1; Blk 2] 0 2 2 0 demo_pool2) as [req p'|e p']; [|destruct Hc].
  destruct Hc as (-> & _ & Hhit). exists h, p'. split; [reflexivity|].
  destruct (Hhit 1%nat (Blk 2) h) as (r' & k & Hr' & _); [reflexivity|discriminate|exact Hh|].
  exists r'. exact Hr'.
Defined.

Lemma touch_then_free_witness :
  exists p', bind (BlockPool.touch [Blk 3; Blk 0; Blk 1])
      (fun _ => BlockPool.free_blocks [Blk 3; Blk 0; Blk 1]) demo_pool2 = Ret tt p' /\
    pool_rep 4 p' [Blk 3] [Blk 1; Blk 2] [].
Proof.
  assert (Forall (touchable 4 []) [Blk 3; Blk 0; Blk 1]) as Ht.
  { repeat (apply Forall_cons; split); [..|apply Forall_nil; exact I];
      eexists; (split; [reflexivity|]); (split; [lia|]); intros _ []%not_elem_of_nil. }
  assert (NoDup (filter (fun r => r <> Blk 0) [Blk 3; Blk 0; Blk 1])) as Hnd.
  { apply (bool_decide_unpack _). vm_compute. exact I. }
  pose proof (touch_then_free 4 demo_pool2 _ _ _ [Blk 3; Blk 0; Blk 1] demo_pool2_rep Ht Hnd) as Hc.
  unfold succeeds in Hc.
  destruct (bind _ _ demo_pool2) as [[] p'|e p'].
  - exists p'. split; [reflexivity|]. exact (proj1 Hc).
  - destruct Hc.
Defined.

Lemma reset_prefix_cache_correct_witness :
  pool_rep 4 demo_pool2 [Blk 3] [Blk 1; Blk 2] [] /\
  match BlockPool.reset_prefix_cache demo_pool2 with
  | Ret b p' => b = false /\ p' = demo_pool2
  | Raise _ _ => False
  end.
Proof.
  split; [exact demo_pool2_rep|].
  pose proof (reset_prefix_cache_correct 4 _ _ _ _ demo_pool2_rep) as Hc. unfold succeeds in Hc.
  destruct (BlockPool.reset_prefix_cache demo_pool2) as [[] p'|e p'].
  - destruct Hc as (_ & [Hnil _] & _). destruct (Hnil eq_refl) as [? _]. discriminate.
  - split; [reflexivity|]. exact (proj1 (proj2 (proj2 Hc)) eq_refl).
  - exact Hc.
Defined.
