(* ===== verification/CacheSpec.v ===== *)
(** * KV-cache specifications

    Models vllm/v1/kv_cache_interface.py: the quantisation modes, the spec
    classes of the attention types with their page sizes, memory bounds and
    [merge] methods, and [UniformTypeKVCacheSpecs].

    A [torch.dtype] is its name; its element size comes from torch, so it is a
    parameter.  The subclasses of [FullAttentionSpec] and [SlidingWindowSpec]
    are constructors of their own that share the records of their parents'
    fields; [isinstance] is a boolean function that is true of the subclasses. *)

From S2P Require Import Prelude.
From stdpp Require Import options.

(** torch's [dtype.itemsize]. *)
Class Torch := { element_size : string -> Z }.

(** ** Quantisation modes *)

Inductive KVQuantMode :=
  | NONE
  | FP8_PER_TENSOR
  | INT8_PER_TOKEN_HEAD
  | FP8_PER_TOKEN_HEAD
  | NVFP4.

#[export] Instance KVQuantMode_eq_dec : EqDecision KVQuantMode.
Proof. solve_decision. Defined.

Definition is_per_token_head (m : KVQuantMode) : bool :=
  match m with INT8_PER_TOKEN_HEAD | FP8_PER_TOKEN_HEAD => true | _ => false end.

Definition is_nvfp4 (m : KVQuantMode) : bool :=
  match m with NVFP4 => true | _ => false end.

Definition get_kv_quant_mode (kv_cache_dtype : string) : KVQuantMode :=
  if String.eqb kv_cache_dtype "int8_per_token_head" then INT8_PER_TOKEN_HEAD
  else if String.eqb kv_cache_dtype "fp8_per_token_head" then FP8_PER_TOKEN_HEAD
  else if String.eqb kv_cache_dtype "nvfp4" then NVFP4
  else if String.prefix "fp8" kv_cache_dtype then FP8_PER_TENSOR
  else NONE.

Definition is_quantized_kv_cache (kv_cache_dtype : string) : bool :=
  negb (bool_decide (get_kv_quant_mode kv_cache_dtype = NONE)).

Definition kv_cache_uses_per_token_head_scales (kv_cache_dtype : string) : bool :=
  is_per_token_head (get_kv_quant_mode kv_cache_dtype).

(** [nvfp4_kv_cache_full_dim] of vllm/utils/torch_utils.py *)
Definition nvfp4_kv_cache_full_dim (head_size : Z) : Z := head_size / 2 + head_size / 16.

(** ** The specs *)

(** The fields of [AttentionSpec] (the block size included). *)
Record AttentionSpec := {
  a_block_size : Z;
  num_kv_heads : Z;
  head_size : Z;
  dtype : string;
  kv_quant_mode : KVQuantMode;
  a_page_size_padded : option Z;
}.

#[export] Instance AttentionSpec_eq_dec : EqDecision AttentionSpec.
Proof. solve_decision. Defined.

(** The fields [FullAttentionSpec] adds. *)
Record FullFields := {
  f_head_size_v : Z;
  f_sliding_window : option Z;
  f_attention_chunk_size : option Z;
}.

#[export] Instance FullFields_eq_dec : EqDecision FullFields.
Proof. solve_decision. Defined.

(** The fields the MLA specs add. *)
Record MLAFields := {
  cache_dtype_str : option string;
  alignment : option Z;
  compress_ratio : Z;
  model_version : option string;
}.

#[export] Instance MLAFields_eq_dec : EqDecision MLAFields.
Proof. solve_decision. Defined.

Record MambaFields := {
  m_block_size : Z;
  shapes : list (list Z);
  dtypes : list string;
  m_page_size_padded : option Z;
  mamba_type : string;
  mamba_cache_mode : string;
  num_speculative_blocks : Z;
}.

#[export] Instance MambaFields_eq_dec : EqDecision MambaFields.
Proof. solve_decision. Defined.

Inductive KVCacheSpec :=
  | FullAttentionSpec (a : AttentionSpec) (f : FullFields)
  | TQFullAttentionSpec (a : AttentionSpec) (f : FullFields) (tq_slot_size : Z)
  | MLAAttentionSpec (a : AttentionSpec) (f : FullFields) (m : MLAFields)
  | SinkFullAttentionSpec (a : AttentionSpec) (f : FullFields) (sink_len : option Z)
  | ChunkedLocalAttentionSpec (a : AttentionSpec) (attention_chunk_size : Z)
  | SlidingWindowSpec (a : AttentionSpec) (sliding_window : Z) (head_size_v : Z)
  | SlidingWindowMLASpec (a : AttentionSpec) (sliding_window : Z) (m : MLAFields)
  | MambaSpec (m : MambaFields)
  | EncoderOnlyAttentionSpec (a : AttentionSpec)
  | CrossAttentionSpec (a : AttentionSpec).

#[export] Instance KVCacheSpec_eq_dec : EqDecision KVCacheSpec.
Proof. solve_decision. Defined.

(** [isinstance(spec, AttentionSpec)], with the fields. *)
Definition attention_of (s : KVCacheSpec) : option AttentionSpec :=
  match s with
  | FullAttentionSpec a _ | TQFullAttentionSpec a _ _ | MLAAttentionSpec a _ _
  | SinkFullAttentionSpec a _ _ | ChunkedLocalAttentionSpec a _ | SlidingWindowSpec a _ _
  | SlidingWindowMLASpec a _ _ | EncoderOnlyAttentionSpec a | CrossAttentionSpec a => Some a
  | MambaSpec _ => None
  end.

Definition block_size (s : KVCacheSpec) : Z :=
  match s with
  | MambaSpec m => m_block_size m
  | _ => from_option a_block_size 0 (attention_of s)
  end.

Definition full_fields (s : KVCacheSpec) : option FullFields :=
  match s with
  | FullAttentionSpec _ f | TQFullAttentionSpec _ f _ | MLAAttentionSpec _ f _
  | SinkFullAttentionSpec _ f _ => Some f
  | _ => None
  end.

Definition is_full (s : KVCacheSpec) : bool := is_some (full_fields s).

Definition is_mla (s : KVCacheSpec) : bool :=
  match s with MLAAttentionSpec _ _ _ => true | _ => false end.

(** The window of a [SlidingWindowSpec] or a subclass. *)
Definition sliding_window_of (s : KVCacheSpec) : option Z :=
  match s with
  | SlidingWindowSpec _ w _ | SlidingWindowMLASpec _ w _ => Some w
  | _ => None
  end.

Definition is_mamba (s : KVCacheSpec) : bool :=
  match s with MambaSpec _ => true | _ => false end.

Definition with_block_size (b : Z) (a : AttentionSpec) : AttentionSpec :=
  {| a_block_size := b; num_kv_heads := num_kv_heads a; head_size := head_size a;
     dtype := dtype a; kv_quant_mode := kv_quant_mode a;
     a_page_size_padded := a_page_size_padded a |}.

Definition with_page_size_padded (p : option Z) (a : AttentionSpec) : AttentionSpec :=
  {| a_block_size := a_block_size a; num_kv_heads := num_kv_heads a; head_size := head_size a;
     dtype := dtype a; kv_quant_mode := kv_quant_mode a; a_page_size_padded := p |}.

Definition storage_block_size (s : KVCacheSpec) : Z :=
  match s with
  | MLAAttentionSpec a _ m | SlidingWindowMLASpec a _ m => a_block_size a / compress_ratio m
  | _ => block_size s
  end.

Record VllmConfig := {
  max_model_len : Z;
  decode_context_parallel_size : Z;
  prefill_context_parallel_size : Z;
  max_num_batched_tokens : Z;
  max_num_encoder_input_tokens : Z;
  cfg_mamba_cache_mode : string;
}.

Section with_torch.
Context `{Torch}.

(** ** Page sizes *)

(** [AttentionSpec.real_page_size_bytes] *)
Definition attn_real_page_size_bytes (a : AttentionSpec) : Z :=
  2 * a_block_size a * num_kv_heads a * head_size a * element_size (dtype a).

(** [FullAttentionSpec.real_page_size_bytes] *)
Definition full_real_page_size_bytes (a : AttentionSpec) (f : FullFields) : Z :=
  if is_nvfp4 (kv_quant_mode a) then
    let last_dim := nvfp4_kv_cache_full_dim (head_size a)
                    + nvfp4_kv_cache_full_dim (f_head_size_v f) in
    a_block_size a * num_kv_heads a * last_dim * element_size (dtype a)
  else
    a_block_size a * num_kv_heads a * (head_size a + f_head_size_v f) * element_size (dtype a).

(** [MLAAttentionSpec.real_page_size_bytes] *)
Definition mla_real_page_size_bytes (a : AttentionSpec) (m : MLAFields) : Z :=
  let storage := a_block_size a / compress_ratio m in
  if bool_decide (cache_dtype_str m = Some "fp8_ds_mla"%string) then
    if bool_decide (model_version m = Some "deepseek_v4"%string) then storage * 584
    else a_block_size a * 656
  else storage * num_kv_heads a * head_size a * element_size (dtype a).

(** [SlidingWindowMLASpec.real_page_size_bytes] *)
Definition swa_mla_real_page_size_bytes (a : AttentionSpec) (m : MLAFields) : exn + Z :=
  let storage := a_block_size a / compress_ratio m in
  match model_version m with
  | Some v =>
      if String.eqb v "deepseek_v4" then inr (storage * 584) else inl AssertionError
  | None => inr (storage * num_kv_heads a * head_size a * element_size (dtype a))
  end.

(** [real_page_size_bytes] of the attention specs. *)
Definition real_page_size_bytes (s : KVCacheSpec) : exn + Z :=
  match s with
  | FullAttentionSpec a f | SinkFullAttentionSpec a f _ => inr (full_real_page_size_bytes a f)
  | TQFullAttentionSpec a f slot =>
      inr (if 0 <? slot then a_block_size a * num_kv_heads a * slot
           else full_real_page_size_bytes a f)
  | MLAAttentionSpec a _ m => inr (mla_real_page_size_bytes a m)
  | SlidingWindowSpec a _ v =>
      inr (a_block_size a * num_kv_heads a * (head_size a + v) * element_size (dtype a))
  | SlidingWindowMLASpec a _ m => swa_mla_real_page_size_bytes a m
  | ChunkedLocalAttentionSpec a _ | EncoderOnlyAttentionSpec a | CrossAttentionSpec a =>
      inr (attn_real_page_size_bytes a)
  | MambaSpec _ => inl AttributeError
  end.

(** The end of both [page_size_bytes]: a padded size must be large enough. *)
Definition pad_page (padded : option Z) (size : Z) : exn + Z :=
  match padded with
  | Some p => if size <=? p then inr p else inl AssertionError
  | None => inr size
  end.

Definition page_size_bytes (s : KVCacheSpec) : exn + Z :=
  match s with
  | MambaSpec m =>
      pad_page (m_page_size_padded m)
        (foldr Z.add 0 (zip_with (fun shape d => foldr Z.mul 1 shape * element_size d)
                          (shapes m) (dtypes m)))
  | _ =>
      match attention_of s, real_page_size_bytes s with
      | Some a, inr real =>
          pad_page (a_page_size_padded a)
            (if is_per_token_head (kv_quant_mode a)
             then real + 2 * a_block_size a * num_kv_heads a * element_size "float32"
             else real)
      | _, inl e => inl e
      | None, _ => inl AttributeError
      end
  end.

(** [_apply_alignment_padding], run by [__post_init__] of the MLA specs. *)
Definition _apply_alignment_padding (s : KVCacheSpec) : exn + KVCacheSpec :=
  let pad (a : AttentionSpec) (m : MLAFields) (mk : AttentionSpec -> KVCacheSpec) :=
    match alignment m with
    | None => inr s
    | Some al =>
        match real_page_size_bytes s with
        | inl e => inl e
        | inr actual =>
            let padded := round_up actual al in
            if negb (padded =? actual) then inr (mk (with_page_size_padded (Some padded) a))
            else inr s
        end
    end in
  match s with
  | MLAAttentionSpec a f m => pad a m (fun a => MLAAttentionSpec a f m)
  | SlidingWindowMLASpec a w m => pad a m (fun a => SlidingWindowMLASpec a w m)
  | _ => inr s
  end.

(** [copy_with_new_block_size]: [replace] runs [__post_init__] again. *)
Definition copy_with_new_block_size (b : Z) (s : KVCacheSpec) : exn + KVCacheSpec :=
  match s with
  | FullAttentionSpec a f => inr (FullAttentionSpec (with_block_size b a) f)
  | TQFullAttentionSpec a f slot => inr (TQFullAttentionSpec (with_block_size b a) f slot)
  | MLAAttentionSpec a f m => _apply_alignment_padding (MLAAttentionSpec (with_block_size b a) f m)
  | SinkFullAttentionSpec a f l => inr (SinkFullAttentionSpec (with_block_size b a) f l)
  | ChunkedLocalAttentionSpec a c => inr (ChunkedLocalAttentionSpec (with_block_size b a) c)
  | SlidingWindowSpec a w v => inr (SlidingWindowSpec (with_block_size b a) w v)
  | SlidingWindowMLASpec a w m =>
      _apply_alignment_padding (SlidingWindowMLASpec (with_block_size b a) w m)
  | MambaSpec m =>
      inr (MambaSpec {| m_block_size := b; shapes := shapes m; dtypes := dtypes m;
             m_page_size_padded := m_page_size_padded m; mamba_type := mamba_type m;
             mamba_cache_mode := mamba_cache_mode m;
             num_speculative_blocks := num_speculative_blocks m |})
  | EncoderOnlyAttentionSpec a => inr (EncoderOnlyAttentionSpec (with_block_size b a))
  | CrossAttentionSpec a => inr (CrossAttentionSpec (with_block_size b a))
  end.

(** ** Memory bounds *)

(** [max_admission_blocks_per_request]; [None] for the specs without it. *)
Definition max_admission_blocks_per_request (s : KVCacheSpec)
    (max_num_batched_tokens max_model_len : Z) : option Z :=
  match s with
  | ChunkedLocalAttentionSpec a chunk =>
      let num_tokens := Z.min (chunk + max_num_batched_tokens) max_model_len in
      Some (cdiv num_tokens (a_block_size a))
  | SlidingWindowSpec a w _ | SlidingWindowMLASpec a w _ =>
      let num_tokens := Z.min (w - 1 + max_num_batched_tokens) max_model_len in
      Some (cdiv num_tokens (a_block_size a) + 1)
  | _ => None
  end.

Definition max_memory_usage_bytes (s : KVCacheSpec) (c : VllmConfig) : exn + Z :=
  match page_size_bytes s with
  | inl e => match s with EncoderOnlyAttentionSpec _ => inr 0 | _ => inl e end
  | inr page =>
      match s with
      | FullAttentionSpec a _ | TQFullAttentionSpec a _ _ | MLAAttentionSpec a _ _
      | SinkFullAttentionSpec a _ _ =>
          let world := decode_context_parallel_size c * prefill_context_parallel_size c in
          let n := if 1 <? world then cdiv (max_model_len c) world else max_model_len c in
          inr (cdiv n (a_block_size a) * page)
      | ChunkedLocalAttentionSpec _ _ =>
          inr (default 0 (max_admission_blocks_per_request s
                 (max_num_batched_tokens c) (max_model_len c)) * page)
      | SlidingWindowSpec _ _ _ | SlidingWindowMLASpec _ _ _ =>
          if decode_context_parallel_size c =? 1 then
            inr (default 0 (max_admission_blocks_per_request s
                   (max_num_batched_tokens c) (max_model_len c)) * page)
          else inl AssertionError
      | MambaSpec m =>
          if String.eqb (cfg_mamba_cache_mode c) "all" then
            inr (cdiv (max_model_len c) (m_block_size m) * page)
          else if String.eqb (cfg_mamba_cache_mode c) "align" then
            inr (page * (2 + num_speculative_blocks m))
          else inr (page * (1 + num_speculative_blocks m))
      | EncoderOnlyAttentionSpec _ => inr 0
      | CrossAttentionSpec a => inr (cdiv (max_num_encoder_input_tokens c) (a_block_size a) * page)
      end
  end.
End with_torch.

(** ** [merge] *)

(** A Python set built from a generator; only its size and, for singletons,
    its element are used. *)
Definition py_set {A} `{EqDecision A} (l : list A) : list A := remove_dups l.

Definition merge_window_sizes (window_sizes : list Z) : exn + option Z :=
  match window_sizes with
  | [] => inr None
  | [w] => inr (Some w)
  | _ :: _ :: _ => inl ValueError
  end.

(** The body [FullAttentionSpec.merge] and [SinkFullAttentionSpec.merge] share:
    the fields of the merged spec. *)
Definition merge_full_fields (specs : list KVCacheSpec) : exn + (AttentionSpec * FullFields) :=
  if negb (forallb is_full specs) then inl AssertionError else
  let sliding_window := py_set (omap (fun s => full_fields s ≫= f_sliding_window) specs) in
  let attention_chunk_size := py_set (omap (fun s => full_fields s ≫= f_attention_chunk_size) specs) in
  if existsb is_mla specs then inl AssertionError else
  match specs ≫= (fun s => match attention_of s, full_fields s with
                           | Some a, Some f => [(a, f)] | _, _ => [] end) with
  | [] => inl IndexError
  | (a, f) :: _ =>
      match merge_window_sizes sliding_window, merge_window_sizes attention_chunk_size with
      | inl e, _ | inr _, inl e => inl e
      | inr w, inr c =>
          if negb (forallb (fun s => bool_decide (attention_of s = Some a)) specs)
          then inl AssertionError
          else if is_some w && is_some c then inl AssertionError
          else inr (a, {| f_head_size_v := f_head_size_v f; f_sliding_window := w;
                          f_attention_chunk_size := c |})
      end
  end.

Definition tq_slot_size_of (s : KVCacheSpec) : option Z :=
  match s with TQFullAttentionSpec _ _ slot => Some slot | _ => None end.

(** [TQFullAttentionSpec.merge] *)
Definition merge_tq (specs : list KVCacheSpec) : exn + KVCacheSpec :=
  match merge_full_fields specs with
  | inl e => inl e
  | inr (a, f) =>
      match mapM tq_slot_size_of specs with
      | None => inl AttributeError
      | Some slots =>
          match slots with
          | [] => inl IndexError
          | slot :: _ =>
              if forallb (fun x => x =? slot) slots then inr (TQFullAttentionSpec a f slot)
              else inl AssertionError
          end
      end
  end.

Definition mla_fields (s : KVCacheSpec) : option MLAFields :=
  match s with MLAAttentionSpec _ _ m | SlidingWindowMLASpec _ _ m => Some m | _ => None end.

(** [MLAAttentionSpec.merge] *)
Definition merge_mla (specs : list KVCacheSpec) : exn + KVCacheSpec :=
  if negb (forallb is_mla specs) then inl AssertionError else
  let ms := omap mla_fields specs in
  let cache_dtype_str_set := py_set (cache_dtype_str <$> ms) in
  let compress_ratio_set := py_set (compress_ratio <$> ms) in
  let model_version_set := py_set (model_version <$> ms) in
  match cache_dtype_str_set, compress_ratio_set, model_version_set, omap attention_of specs with
  | [d], [r], [v], a :: _ =>
      inr (MLAAttentionSpec a
             {| f_head_size_v := head_size a; f_sliding_window := None;
                f_attention_chunk_size := None |}
             {| cache_dtype_str := d; alignment := None; compress_ratio := r;
                model_version := v |})
  | _, _, _, _ => inl AssertionError
  end.

Definition is_swa_mla (s : KVCacheSpec) : bool :=
  match s with SlidingWindowMLASpec _ _ _ => true | _ => false end.

(** [SlidingWindowMLASpec.merge]; the quantisation mode is reset to its default. *)
Definition merge_swa_mla (specs : list KVCacheSpec) : exn + KVCacheSpec :=
  if negb (forallb is_swa_mla specs) then inl AssertionError else
  let ms := omap mla_fields specs in
  match py_set (cache_dtype_str <$> ms), py_set (compress_ratio <$> ms),
        py_set (model_version <$> ms), py_set (omap sliding_window_of specs),
        omap attention_of specs with
  | [d], [r], [v], [w], a :: _ =>
      inr (SlidingWindowMLASpec
             {| a_block_size := a_block_size a; num_kv_heads := num_kv_heads a;
                head_size := head_size a; dtype := dtype a; kv_quant_mode := NONE;
                a_page_size_padded := a_page_size_padded a |} w
             {| cache_dtype_str := d; alignment := None; compress_ratio := r;
                model_version := v |})
  | _, _, _, _, _ => inl AssertionError
  end.

(** [KVCacheSpec.merge]: all specs equal. *)
Definition merge_equal (specs : list KVCacheSpec) : exn + KVCacheSpec :=
  match specs with
  | [] => inl IndexError
  | s :: rest => if forallb (fun s' => bool_decide (s' = s)) rest then inr s else inl AssertionError
  end.

(** [specs[0].merge(specs)]: the class of the first spec decides. *)
Definition merge (specs : list KVCacheSpec) : exn + KVCacheSpec :=
  match specs with
  | [] => inl IndexError
  | FullAttentionSpec _ _ :: _ =>
      match merge_full_fields specs with
      | inl e => inl e
      | inr (a, f) => inr (FullAttentionSpec a f)
      end
  | SinkFullAttentionSpec _ _ sink :: _ =>
      match merge_full_fields specs with
      | inl e => inl e
      | inr (a, f) => inr (SinkFullAttentionSpec a f sink)
      end
  | TQFullAttentionSpec _ _ _ :: _ => merge_tq specs
  | MLAAttentionSpec _ _ _ :: _ => merge_mla specs
  | SlidingWindowMLASpec _ _ _ :: _ => merge_swa_mla specs
  | _ :: _ => merge_equal specs
  end.

(** ** [UniformTypeKVCacheSpecs] *)

(** [is_uniform_type] of the values of the dict, in their order. *)
Definition is_uniform_type (specs : list KVCacheSpec) : exn + bool :=
  if 1 <? len (py_set (block_size <$> specs)) then inr false else
  match specs with
  | [] => inl StopIteration
  | one_spec :: _ =>
      match one_spec with
      | SlidingWindowMLASpec _ w _ =>
          inr (forallb (fun s => match s with
                                 | SlidingWindowMLASpec _ w' _ => w' =? w | _ => false end) specs)
      | FullAttentionSpec _ _ | TQFullAttentionSpec _ _ _ | MLAAttentionSpec _ _ _
      | SinkFullAttentionSpec _ _ _ => inr (forallb is_full specs)
      | CrossAttentionSpec _ =>
          inr (forallb (fun s => match s with CrossAttentionSpec _ => true | _ => false end) specs)
      | SlidingWindowSpec _ w _ =>
          inr (forallb (fun s => bool_decide (sliding_window_of s = Some w)) specs)
      | ChunkedLocalAttentionSpec _ c =>
          inr (forallb (fun s => match s with
                                 | ChunkedLocalAttentionSpec _ c' => c' =? c | _ => false end) specs)
      | MambaSpec m =>
          inr (forallb (fun s => match s with
                                 | MambaSpec m' => num_speculative_blocks m' =? num_speculative_blocks m
                                 | _ => false end) specs)
      | EncoderOnlyAttentionSpec _ => inl NotImplementedError
      end
  end.

Record UniformTypeKVCacheSpecs := {
  u_block_size : Z;
  u_kv_cache_specs : list (string * KVCacheSpec);
}.

Definition from_specs (kv_cache_specs : list (string * KVCacheSpec))
  : exn + option UniformTypeKVCacheSpecs :=
  match is_uniform_type kv_cache_specs.*2 with
  | inl e => inl e
  | inr false => inr None
  | inr true =>
      match kv_cache_specs with
      | [] => inl StopIteration
      | (_, s) :: _ => inr (Some {| u_block_size := block_size s; u_kv_cache_specs := kv_cache_specs |})
      end
  end.

(** Evaluating a list of calls until the first raises. *)
Fixpoint all_results {A} (l : list (exn + A)) : exn + list A :=
  match l with
  | [] => inr []
  | inl e :: _ => inl e
  | inr a :: l => match all_results l with inl e => inl e | inr r => inr (a :: r) end
  end.

Definition py_max (l : list Z) : exn + Z :=
  match l with [] => inl ValueError | x :: l => inr (foldl Z.max x l) end.

Section uniform.
Context `{Torch}.

Definition u_page_size_bytes (u : UniformTypeKVCacheSpecs) : exn + Z :=
  match all_results (page_size_bytes <$> (u_kv_cache_specs u).*2) with
  | inl e => inl e
  | inr l => inr (foldr Z.add 0 l)
  end.

Definition max_memory_usage_pages (u : UniformTypeKVCacheSpecs) (c : VllmConfig) : exn + Z :=
  match all_results ((fun s => match max_memory_usage_bytes s c, page_size_bytes s with
                               | inl e, _ | inr _, inl e => inl e
                               | inr m, inr p => inr (cdiv m p) end)
                       <$> (u_kv_cache_specs u).*2) with
  | inl e => inl e
  | inr l => py_max l
  end.

Definition u_max_memory_usage_bytes (u : UniformTypeKVCacheSpecs) (c : VllmConfig) : exn + Z :=
  match max_memory_usage_pages u c, u_page_size_bytes u with
  | inl e, _ | inr _, inl e => inl e
  | inr n, inr p => inr (n * p)
  end.
End uniform.

(** ** Configuration of the groups *)

Record KVCacheTensor := { size : Z; shared_by : list string }.

Record KVCacheGroupSpec := {
  layer_names : list string;
  kv_cache_spec : KVCacheSpec;
  is_eagle_group : bool;
}.

Record KVCacheConfig := {
  num_blocks : Z;
  kv_cache_tensors : list KVCacheTensor;
  kv_cache_groups : list KVCacheGroupSpec;
}.

Definition has_mamba_layers (c : KVCacheConfig) : bool :=
  existsb (fun g => is_mamba (kv_cache_spec g)) (kv_cache_groups c).

Definition needs_kv_cache_zeroing (c : KVCacheConfig) : bool := has_mamba_layers c.

(** ** Properties *)

(** ** What a layer attends to *)

(** Whether the layer needs the keys and values (or the state) of the token at
    position [t] to compute the token at position [q]. *)
Definition attends (s : KVCacheSpec) (q t : Z) : Prop :=
  match s with
  | SlidingWindowSpec _ w _ | SlidingWindowMLASpec _ w _ => q - w < t
  | ChunkedLocalAttentionSpec _ chunk => t / chunk = q / chunk
  | MambaSpec _ => q - 1 <= t
  | _ => True
  end.

(** Specifications with sensible parameters. *)
Definition spec_params_ok (s : KVCacheSpec) : Prop :=
  0 < block_size s /\
  match s with
  | SlidingWindowSpec _ w _ | SlidingWindowMLASpec _ w _ => 1 <= w
  | ChunkedLocalAttentionSpec _ chunk => 0 < chunk
  | MambaSpec f => 0 <= num_speculative_blocks f
  | _ => True
  end.


Lemma cdiv_le_add a b s : 0 < b -> 0 <= s -> cdiv (a + s) b - s / b <= cdiv a b + 1.
Proof.
  intros Hb Hs. pose proof (cdiv_bounds (a + s) b Hb). pose proof (cdiv_bounds a b Hb).
  pose proof (Z.div_mod s b). pose proof (Z.mod_pos_bound s b Hb). nia.
Qed.

Lemma cdiv_add_mul a b k : 0 < b -> cdiv (a + k * b) b = cdiv a b + k.
Proof.
  intros Hb. pose proof (cdiv_bounds (a + k * b) b Hb). pose proof (cdiv_bounds a b Hb). nia.
Qed.

Lemma forallb_elem {A} (f : A -> bool) l : forallb f l = true <-> forall x, x ∈ l -> f x = true.
Proof. rewrite forallb_forall. setoid_rewrite list_elem_of_In. done. Qed.

Lemma py_set_single {A} `{EqDecision A} (l : list A) (a x : A) : py_set l = [a] -> x ∈ l -> x = a.
Proof.
  intros Hl Hx. apply elem_of_remove_dups in Hx. unfold py_set in Hl. rewrite Hl in Hx.
  by apply list_elem_of_singleton in Hx.
Qed.


(** The same for chunked local attention, provided the chunk size is a
    multiple of the block size, which the cap of this class relies on. *)
Theorem chunked_local_admission_cap (a : AttentionSpec) (chunk batch max_len computed new : Z)
    (Hbs : 0 < a_block_size a) (Hc : 0 < chunk) (Hdiv : chunk mod a_block_size a = 0)
    (Hcomp : 0 <= computed) (Hnew : 0 <= new <= batch) (Hlen : computed + new <= max_len) :
  exists cap, max_admission_blocks_per_request (ChunkedLocalAttentionSpec a chunk) batch max_len
      = Some cap /\
    cdiv (computed + new) (a_block_size a) - (computed / chunk * chunk) / a_block_size a <= cap.
Proof.
  eexists. split; [done|].
  pose proof (Z.div_mod computed chunk ltac:(lia)) as Hd.
  pose proof (Z.mod_pos_bound computed chunk Hc) as Hm.
  apply Z.mod_divide in Hdiv as [m ->]; [|lia].
  set (q := computed / (m * a_block_size a)) in *.
  replace (q * (m * a_block_size a)) with ((q * m) * a_block_size a) by lia.
  rewrite Z.div_mul by lia.
  replace (computed + new) with (computed + new - (q * m) * a_block_size a + (q * m) * a_block_size a) by lia.
  rewrite cdiv_add_mul by done.
  assert (0 <= q) by (apply Z.div_pos; lia).
  assert (0 < m) by nia.
  enough (cdiv (computed + new - q * m * a_block_size a) (a_block_size a)
    <= cdiv (Z.min (m * a_block_size a + batch) max_len) (a_block_size a)) by lia.
  apply cdiv_mono; [done|]. assert (0 <= q * m * a_block_size a) by nia. lia.
Qed.

Lemma merge_window_elem l w x : merge_window_sizes (py_set l) = inr w -> x ∈ l -> w = Some x.
Proof.
  unfold merge_window_sizes. destruct (py_set l) as [|y [|]] eqn:E; try done; intros [= <-] Hx.
  - apply elem_of_remove_dups in Hx. unfold py_set in E. rewrite E in Hx. set_solver.
  - by rewrite (py_set_single _ _ _ E Hx).
Qed.

Lemma merge_full_fields_spec specs a f s' :
  merge_full_fields specs = inr (a, f) -> s' ∈ specs ->
  attention_of s' = Some a /\
  exists f', full_fields s' = Some f' /\
    (f_sliding_window f' = None \/ f_sliding_window f' = f_sliding_window f) /\
    (f_attention_chunk_size f' = None \/ f_attention_chunk_size f' = f_attention_chunk_size f) /\
    (f_sliding_window f = None \/ f_attention_chunk_size f = None).
Proof.
  unfold merge_full_fields. intros Hm Hin. destruct (forallb is_full specs) eqn:Hall; [|done].
  simpl in Hm. destruct (existsb is_mla specs); [done|].
  destruct (specs ≫= _) as [|[a0 f0] rest] eqn:Hhead; [done|].
  destruct (merge_window_sizes (py_set (omap (fun s => full_fields s ≫= f_sliding_window) specs)))
    as [e|w] eqn:Hw; [done|].
  destruct (merge_window_sizes (py_set (omap (fun s => full_fields s ≫= f_attention_chunk_size) specs)))
    as [e|c] eqn:Hc; [done|].
  destruct (forallb (fun s => bool_decide (attention_of s = Some a0)) specs) eqn:Hattn; [|done].
  simpl in Hm. destruct (is_some w && is_some c)%bool eqn:Hboth; [done|]. injection Hm as <- <-.
  rewrite forallb_elem in Hall, Hattn. specialize (Hall _ Hin). specialize (Hattn _ Hin).
  apply bool_decide_eq_true in Hattn. split; [done|].
  unfold is_full in Hall. destruct (full_fields s') as [f'|] eqn:Hf'; [|done].
  exists f'. split; [done|]. simpl. split_and!.
  - destruct (f_sliding_window f') as [x|] eqn:Hx; [right|by left]. symmetry.
    eapply merge_window_elem; [exact Hw|]. apply list_elem_of_omap. exists s'. by rewrite Hf'.
  - destruct (f_attention_chunk_size f') as [x|] eqn:Hx; [right|by left]. symmetry.
    eapply merge_window_elem; [exact Hc|]. apply list_elem_of_omap. exists s'. by rewrite Hf'.
  - destruct w, c; simpl in Hboth; auto. done.
Qed.

Lemma merge_equal_head specs s : merge_equal specs = inr s -> head specs = Some s.
Proof. destruct specs; simpl; [done|]. by destruct (forallb _ _); intros [= ->]. Qed.

(** Merging full-attention specs (also with TurboQuant or sinks) succeeds
    only on specs with the same attention fields, and every window or chunk
    size of a merged layer is the one of the result, which has at most one of
    the two. *)
Theorem merge_full_sound (specs : list KVCacheSpec) (s : KVCacheSpec) (a : AttentionSpec)
    (f : FullFields)
    (Hm : merge specs = inr s) (Hf : full_fields s = Some f) (Ha : attention_of s = Some a)
    (Hmla : is_mla s = false) :
  forall s', s' ∈ specs ->
    attention_of s' = Some a /\
    exists f', full_fields s' = Some f' /\
      (f_sliding_window f' = None \/ f_sliding_window f' = f_sliding_window f) /\
      (f_attention_chunk_size f' = None \/ f_attention_chunk_size f' = f_attention_chunk_size f) /\
      (f_sliding_window f = None \/ f_attention_chunk_size f = None).
Proof.
  intros s' Hin. destruct specs as [|s0 rest]; [by apply not_elem_of_nil in Hin|].
  assert (merge_full_fields (s0 :: rest) = inr (a, f)) as Hmf.
  { unfold merge in Hm. destruct s0; try (apply merge_equal_head in Hm; simplify_eq/=; done).
    - destruct (merge_full_fields _) as [e|[a1 f1]]; simplify_eq/=. done.
    - unfold merge_tq in Hm. destruct (merge_full_fields _) as [e|[a1 f1]]; [done|].
      destruct (mapM _ _) as [[|slot slots]|]; try done.
      destruct (forallb _ _); simplify_eq/=. done.
    - unfold merge_mla in Hm. repeat case_match; simplify_eq/=; done.
    - destruct (merge_full_fields _) as [e|[a1 f1]]; simplify_eq/=. done.
    - unfold merge_swa_mla in Hm. repeat case_match; simplify_eq/=; done. }
  by eapply merge_full_fields_spec.
Qed.

(** ** Witnesses *)

Definition demo_attention : AttentionSpec :=
  {| a_block_size := 16; num_kv_heads := 8; head_size := 128; dtype := "uint8";
     kv_quant_mode := NONE; a_page_size_padded := None |}.

Definition demo_full (w : option Z) : FullFields :=
  {| f_head_size_v := 128; f_sliding_window := w; f_attention_chunk_size := None |}.

(** Small attention and Mamba groups. *)
Definition demo_block (b : Z) : AttentionSpec :=
  {| a_block_size := b; num_kv_heads := 8; head_size := 128; dtype := "bfloat16";
     kv_quant_mode := NONE; a_page_size_padded := None |}.

Definition demo_mamba (b spec : Z) : MambaFields :=
  {| m_block_size := b; shapes := [[4; 4]]; dtypes := ["float32"]; m_page_size_padded := None;
     mamba_type := "mamba2"; mamba_cache_mode := "align"; num_speculative_blocks := spec |}.


Lemma chunked_local_admission_cap_witness :
  exists cap, max_admission_blocks_per_request (ChunkedLocalAttentionSpec demo_attention 8192) 2048
      40960 = Some cap /\ cdiv (10000 + 2048) 16 - (10000 / 8192 * 8192) / 16 <= cap.
Proof.
  apply (chunked_local_admission_cap demo_attention 8192 2048 40960 10000 2048);
    simpl; first [lia | reflexivity].
Defined.

Lemma merge_full_sound_witness :
  let specs := [TQFullAttentionSpec demo_attention (demo_full None) 68;
                TQFullAttentionSpec demo_attention (demo_full (Some 4096)) 68] in
  merge specs = inr (TQFullAttentionSpec demo_attention (demo_full (Some 4096)) 68) /\
  attention_of (TQFullAttentionSpec demo_attention (demo_full None) 68) = Some demo_attention.
Proof.
  split; [vm_compute; reflexivity|].
  refine (proj1 (merge_full_sound
    [TQFullAttentionSpec demo_attention (demo_full None) 68;
     TQFullAttentionSpec demo_attention (demo_full (Some 4096)) 68]
    (TQFullAttentionSpec demo_attention (demo_full (Some 4096)) 68) demo_attention
    (demo_full (Some 4096)) _ eq_refl eq_refl eq_refl _ _)); [vm_compute; reflexivity|left].
Defined.

(** The cap of chunked local attention does not hold when the chunk size is not
    a multiple of the block size: three blocks are needed, two are reserved. *)
Example chunked_cap_needs_alignment :
  max_admission_blocks_per_request (ChunkedLocalAttentionSpec demo_attention 24) 8 40960 = Some 2 /\
  cdiv (47 + 8) 16 - (47 / 24 * 24) / 16 = 3.
Proof. done. Qed.

