(* ===== verification/SingleType.v ===== *)
(** * Managers of a single KV-cache type

    Models vllm/v1/core/single_type_kv_cache_manager.py: the base class
    [SingleTypeKVCacheManager] and its subclasses for full attention, sliding
    windows, chunked local attention, Mamba states, cross attention and
    attention sinks.

    A manager shares the block pool with the other managers, so its methods run
    on a pair of the manager and the pool.  One record holds the fields of all
    classes, [m_class] is the class, and the functions named after a method
    dispatch on it.  [req_to_blocks] is a [defaultdict]: reading a missing key
    inserts the empty list, and the model does too. *)

From S2P Require Import Prelude FreeQueue Request BlockHash BlockPool CacheSpec.
From stdpp Require Import options.

Inductive ManagerClass :=
  | FullAttentionManager
  | SlidingWindowManager
  | ChunkedLocalAttentionManager
  | MambaManager
  | CrossAttentionManager
  | SinkFullAttentionManager.

#[export] Instance ManagerClass_eq_dec : EqDecision ManagerClass.
Proof. solve_decision. Defined.

Module Manager.

Record t := Mk {
  m_class : ManagerClass;
  m_spec : KVCacheSpec;
  m_block_size : Z;
  m_enable_caching : bool;
  _max_admission_blocks_per_request : option Z;
  kv_cache_group_id : Z;
  _null_block : bref;
  new_block_ids : list Z;
  req_to_blocks : gmap string (list bref);
  num_cached_block : gmap string Z;
  cached_blocks_this_step : gset bytes;
  last_state_block_idx : gmap string Z;
  _allocated_block_reqs : gset string;
  sink_blocks : list bref;
}.

(** The manager and the pool it shares. *)
Definition state : Type := t * BlockPool.t.

Definition set_new_block_ids (l : list Z) (m : t) : t :=
  Mk (m_class m) (m_spec m) (m_block_size m) (m_enable_caching m)
    (_max_admission_blocks_per_request m) (kv_cache_group_id m) (_null_block m) l
    (req_to_blocks m) (num_cached_block m) (cached_blocks_this_step m)
    (last_state_block_idx m) (_allocated_block_reqs m) (sink_blocks m).

Definition set_req_to_blocks (r : gmap string (list bref)) (m : t) : t :=
  Mk (m_class m) (m_spec m) (m_block_size m) (m_enable_caching m)
    (_max_admission_blocks_per_request m) (kv_cache_group_id m) (_null_block m) (new_block_ids m)
    r (num_cached_block m) (cached_blocks_this_step m)
    (last_state_block_idx m) (_allocated_block_reqs m) (sink_blocks m).

Definition set_num_cached_block (c : gmap string Z) (m : t) : t :=
  Mk (m_class m) (m_spec m) (m_block_size m) (m_enable_caching m)
    (_max_admission_blocks_per_request m) (kv_cache_group_id m) (_null_block m) (new_block_ids m)
    (req_to_blocks m) c (cached_blocks_this_step m)
    (last_state_block_idx m) (_allocated_block_reqs m) (sink_blocks m).

Definition set_cached_blocks_this_step (s : gset bytes) (m : t) : t :=
  Mk (m_class m) (m_spec m) (m_block_size m) (m_enable_caching m)
    (_max_admission_blocks_per_request m) (kv_cache_group_id m) (_null_block m) (new_block_ids m)
    (req_to_blocks m) (num_cached_block m) s
    (last_state_block_idx m) (_allocated_block_reqs m) (sink_blocks m).

Definition set_align_state (idx : gmap string Z) (reqs : gset string) (m : t) : t :=
  Mk (m_class m) (m_spec m) (m_block_size m) (m_enable_caching m)
    (_max_admission_blocks_per_request m) (kv_cache_group_id m) (_null_block m) (new_block_ids m)
    (req_to_blocks m) (num_cached_block m) (cached_blocks_this_step m) idx reqs (sink_blocks m).

Definition set_sink_blocks (l : list bref) (m : t) : t :=
  Mk (m_class m) (m_spec m) (m_block_size m) (m_enable_caching m)
    (_max_admission_blocks_per_request m) (kv_cache_group_id m) (_null_block m) (new_block_ids m)
    (req_to_blocks m) (num_cached_block m) (cached_blocks_this_step m)
    (last_state_block_idx m) (_allocated_block_reqs m) l.

Definition self : M state t := fun s => Ret s.1 s.
Definition block_pool : M state BlockPool.t := fun s => Ret s.2 s.
Definition update (f : t -> t) : M state unit := modify (fun s => (f s.1, s.2)).
Definition on_pool {A} (m : M BlockPool.t A) : M state A := zoom snd (fun p s => (s.1, p)) m.

(** [self.req_to_blocks[request_id]], and assignment through it. *)
Definition req_blocks (request_id : string) : M state (list bref) :=
  m <- self ;;
  match req_to_blocks m !! request_id with
  | Some l => ret l
  | None => update (set_req_to_blocks (<[request_id := []]> (req_to_blocks m))) ;;; ret []
  end.

Definition set_req_blocks (request_id : string) (l : list bref) : M state unit :=
  m <- self ;; update (set_req_to_blocks (<[request_id := l]> (req_to_blocks m))).

(** ** Classes and construction *)

(** [spec_manager_map[type(spec)]]: [KeyError] for other types. *)
Definition spec_manager_map (s : KVCacheSpec) : option ManagerClass :=
  match s with
  | FullAttentionSpec _ _ | TQFullAttentionSpec _ _ _ | MLAAttentionSpec _ _ _ =>
      Some FullAttentionManager
  | SlidingWindowSpec _ _ _ | SlidingWindowMLASpec _ _ _ => Some SlidingWindowManager
  | ChunkedLocalAttentionSpec _ _ => Some ChunkedLocalAttentionManager
  | MambaSpec _ => Some MambaManager
  | CrossAttentionSpec _ => Some CrossAttentionManager
  | SinkFullAttentionSpec _ _ _ => Some SinkFullAttentionManager
  | EncoderOnlyAttentionSpec _ => None
  end.

(** [SingleTypeKVCacheManager.__init__] *)
Definition base_init (cls : ManagerClass) (spec : KVCacheSpec) (pool : BlockPool.t)
    (enable_caching : bool) (group_id dcp_world_size pcp_world_size : Z) (cap : option Z) : t :=
  let bs := block_size spec in
  let bs := if 1 <? dcp_world_size * pcp_world_size
            then bs * (dcp_world_size * pcp_world_size) else bs in
  Mk cls spec bs enable_caching cap group_id (BlockPool.null_block pool) [] ∅ ∅ ∅ ∅ ∅ [].

(** [get_manager_for_kv_cache_spec], with the subclasses' [__init__]. *)
Definition get_manager_for_kv_cache_spec (spec : KVCacheSpec)
    (max_num_batched_tokens max_model_len : Z) (enable_caching : bool)
    (group_id dcp_world_size pcp_world_size : Z) : M BlockPool.t t :=
  cls <- of_option KeyError (spec_manager_map spec) ;;
  pool <- get ;;
  let cap := max_admission_blocks_per_request spec max_num_batched_tokens max_model_len in
  let m := base_init cls spec pool enable_caching group_id dcp_world_size pcp_world_size cap in
  match spec with
  | SinkFullAttentionSpec _ _ sink_len =>
      sink <- of_option AssertionError sink_len ;;
      assert ((0 <? sink) && (sink mod m_block_size m =? 0)) ;;;
      let num_sink_block := sink / m_block_size m in
      blocks <- BlockPool.on_queue (Queue.popleft_n num_sink_block) ;;
      ret (set_sink_blocks blocks m)
  | _ => ret m
  end.

(** ** Counting *)

Definition _get_num_evictable_blocks (h : store) (blocks : list bref) : Z :=
  len (filter (fun r => BlockPool.to_free h r = true) blocks).

Definition get_num_skipped_tokens (m : t) (num_computed_tokens : Z) : Z :=
  match m_class m with
  | SlidingWindowManager =>
      Z.max 0 (num_computed_tokens - default 0 (sliding_window_of (m_spec m)) + 1)
  | ChunkedLocalAttentionManager =>
      match m_spec m with
      | ChunkedLocalAttentionSpec _ chunk => (num_computed_tokens / chunk) * chunk
      | _ => 0
      end
  | MambaManager => num_computed_tokens - 1
  | FullAttentionManager | CrossAttentionManager | SinkFullAttentionManager => 0
  end.

(** [SingleTypeKVCacheManager.get_num_blocks_to_allocate] *)
Definition base_get_num_blocks_to_allocate (request_id : string) (num_tokens : Z)
    (new_computed_blocks : list bref) (total_computed_tokens : Z) (apply_admission_cap : bool)
  : M state Z :=
  m <- self ;;
  pool <- block_pool ;;
  let num_required_blocks := cdiv num_tokens (m_block_size m) in
  let num_required_blocks :=
    match _max_admission_blocks_per_request m with
    | Some cap => if apply_admission_cap then Z.min num_required_blocks cap
                  else num_required_blocks
    | None => num_required_blocks
    end in
  let num_req_blocks := len (default [] (req_to_blocks m !! request_id)) in
  match num_cached_block m !! request_id with
  | Some _ =>
      assert (len new_computed_blocks =? 0) ;;;
      ret (Z.max (num_required_blocks - num_req_blocks) 0)
  | None =>
      let num_skipped_tokens := get_num_skipped_tokens m total_computed_tokens in
      let num_local_computed_blocks := len new_computed_blocks + num_req_blocks in
      let num_skipped_blocks := num_skipped_tokens / m_block_size m in
      let num_new_blocks :=
        Z.max (num_required_blocks - Z.max num_skipped_blocks num_local_computed_blocks) 0 in
      let num_skipped_new_computed_blocks := Z.max 0 (num_skipped_blocks - num_req_blocks) in
      let num_evictable_blocks :=
        _get_num_evictable_blocks (BlockPool.heap pool)
          (py_drop new_computed_blocks num_skipped_new_computed_blocks) in
      ret (num_new_blocks + num_evictable_blocks)
  end.

Definition mamba_fields (m : t) : option MambaFields :=
  match m_spec m with MambaSpec f => Some f | _ => None end.

Definition mamba_mode (m : t) : string := from_option mamba_cache_mode ""%string (mamba_fields m).
Definition num_spec_blocks (m : t) : Z := from_option num_speculative_blocks 0 (mamba_fields m).
Definition is_align (m : t) : bool := String.eqb (mamba_mode m) "align".

(** [new_computed_blocks[-1].block_hash in self.cached_blocks_this_step]; a
    block without a hash is not in the set. *)
Definition last_cached_this_step (m : t) (h : store) (blocks : list bref) : bool :=
  match py_last blocks with
  | None => false
  | Some r => match hashof h r with
              | Some k => bool_decide (k ∈ cached_blocks_this_step m)
              | None => false
              end
  end.

(** [MambaManager.get_num_blocks_to_allocate] *)
Definition mamba_get_num_blocks_to_allocate (request_id : string) (num_tokens : Z)
    (new_computed_blocks : list bref) (total_computed_tokens num_tokens_main_model : Z)
    (apply_admission_cap : bool) : M state Z :=
  m <- self ;;
  pool <- block_pool ;;
  if ((0 <? len new_computed_blocks)
      && last_cached_this_step m (BlockPool.heap pool) new_computed_blocks)%bool
  then ret (BlockPool.num_gpu_blocks pool + 1)
  else if negb (is_align m) then
    let num_tokens :=
      if 0 <? num_spec_blocks m then num_tokens + block_size (m_spec m) * num_spec_blocks m
      else num_tokens in
    base_get_num_blocks_to_allocate request_id num_tokens new_computed_blocks
      total_computed_tokens apply_admission_cap
  else
    let num_tokens := num_tokens_main_model in
    let num_required_blocks := cdiv num_tokens (m_block_size m) + num_spec_blocks m in
    blocks <- req_blocks request_id ;;
    let num_new_blocks := num_required_blocks - len new_computed_blocks - len blocks in
    let num_new_blocks :=
      if 0 <? num_new_blocks then
        if bool_decide (request_id ∈ _allocated_block_reqs m) then 1 else 1 + num_spec_blocks m
      else num_new_blocks in
    ret (num_new_blocks
         + _get_num_evictable_blocks (BlockPool.heap pool) new_computed_blocks).

Definition get_num_blocks_to_allocate (request_id : string) (num_tokens : Z)
    (new_computed_blocks : list bref) (total_computed_tokens num_tokens_main_model : Z)
    (apply_admission_cap : bool) : M state Z :=
  m <- self ;;
  match m_class m with
  | MambaManager =>
      mamba_get_num_blocks_to_allocate request_id num_tokens new_computed_blocks
        total_computed_tokens num_tokens_main_model apply_admission_cap
  | _ => base_get_num_blocks_to_allocate request_id num_tokens new_computed_blocks
           total_computed_tokens apply_admission_cap
  end.

(** ** Allocation *)

(** [type(self.kv_cache_spec) in (FullAttentionSpec, TQFullAttentionSpec)] *)
Definition records_new_blocks (m : t) : bool :=
  match m_spec m with FullAttentionSpec _ _ | TQFullAttentionSpec _ _ _ => true | _ => false end.

Definition id_of (h : store) (r : bref) : Z := BlockHashToBlockMap.id_of h r.

Section with_env.
Context `{HashEnv}.

(** The end both allocating methods share: extend the request's list with new
    blocks from the pool and record their ids. *)
Definition extend_with_new (request_id : string) (num_blocks : Z) : M state (list bref) :=
  new_blocks <- on_pool (BlockPool.get_new_blocks num_blocks) ;;
  blocks <- req_blocks request_id ;;
  set_req_blocks request_id (blocks ++ new_blocks) ;;;
  m <- self ;;
  pool <- block_pool ;;
  (if records_new_blocks m
   then update (set_new_block_ids
                  (new_block_ids m ++ (id_of (BlockPool.heap pool) <$> new_blocks)))
   else ret tt) ;;;
  ret new_blocks.

Definition base_allocate_new_computed_blocks (request_id : string)
    (new_computed_blocks : list bref) (num_local_computed_tokens num_external_computed_tokens : Z)
  : M state unit :=
  m <- self ;;
  match num_cached_block m !! request_id with
  | Some _ => assert (len new_computed_blocks =? 0)
  | None =>
      blocks <- req_blocks request_id ;;
      assert (len blocks =? 0) ;;;
      let num_total_computed_tokens := num_local_computed_tokens + num_external_computed_tokens in
      let num_skipped_tokens := get_num_skipped_tokens m num_total_computed_tokens in
      let num_skipped_blocks := num_skipped_tokens / m_block_size m in
      let new_computed_blocks :=
        if 0 <? num_skipped_blocks then py_drop new_computed_blocks num_skipped_blocks
        else new_computed_blocks in
      let num_external_computed_tokens :=
        if 0 <? num_skipped_blocks
        then Z.min (num_total_computed_tokens - num_skipped_tokens) num_external_computed_tokens
        else num_external_computed_tokens in
      (if m_enable_caching m then on_pool (BlockPool.touch new_computed_blocks)
       else assert (len new_computed_blocks =? 0)) ;;;
      let blocks := py_repeat (_null_block m) num_skipped_blocks ++ new_computed_blocks in
      set_req_blocks request_id blocks ;;;
      update (fun m => set_num_cached_block
                (<[request_id := len blocks]> (num_cached_block m)) m) ;;;
      if 0 <? num_external_computed_tokens then
        extend_with_new request_id
          (cdiv num_total_computed_tokens (m_block_size m) - len blocks) ;;; ret tt
      else ret tt
  end.

Definition allocate_new_computed_blocks (request_id : string)
    (new_computed_blocks : list bref) (num_local_computed_tokens num_external_computed_tokens : Z)
  : M state unit :=
  m <- self ;;
  match m_class m with
  | CrossAttentionManager => assert (len new_computed_blocks =? 0)
  | _ => base_allocate_new_computed_blocks request_id new_computed_blocks
           num_local_computed_tokens num_external_computed_tokens
  end.

Definition base_allocate_new_blocks (request_id : string) (num_tokens : Z)
  : M state (list bref) :=
  blocks <- req_blocks request_id ;;
  m <- self ;;
  let num_required_blocks := cdiv num_tokens (m_block_size m) in
  let num_new_blocks := num_required_blocks - len blocks in
  if num_new_blocks <=? 0 then ret []
  else extend_with_new request_id num_new_blocks.

(** The loop of align mode that moves the speculative blocks of the last step
    to the end of the list; it stops at the first block that is not skipped. *)
Fixpoint reuse_loop (null : bref) (num_skipped_blocks : Z) (idxs : list Z) (blocks : list bref)
  : option (list bref) :=
  match idxs with
  | [] => Some blocks
  | block_idx :: idxs =>
      if block_idx <? num_skipped_blocks then
        b ← py_index blocks block_idx;
        reuse_loop null num_skipped_blocks idxs
          (<[Z.to_nat (if block_idx <? 0 then block_idx + len (blocks ++ [b]) else block_idx) := null]>
             (blocks ++ [b]))
      else Some blocks
  end.

(** [MambaManager.allocate_new_blocks] in align mode. *)
Definition align_allocate_new_blocks (request_id : string) (num_tokens_main_model : Z)
  : M state (list bref) :=
  blocks <- req_blocks request_id ;;
  m <- self ;;
  let spec_blocks := num_spec_blocks m in
  let num_required_blocks := cdiv num_tokens_main_model (m_block_size m) + spec_blocks in
  if num_required_blocks =? len blocks then ret []
  else
    assert (len blocks <? num_required_blocks) ;;;
    let prev_block_len := len blocks in
    let blocks_allocated := bool_decide (request_id ∈ _allocated_block_reqs m) in
    (if blocks_allocated
     then update (fun m => set_align_state
            (<[request_id := prev_block_len - 1 - spec_blocks]> (last_state_block_idx m))
            (_allocated_block_reqs m) m)
     else if 0 <? prev_block_len
     then update (fun m => set_align_state
            (<[request_id := prev_block_len - 1]> (last_state_block_idx m))
            (_allocated_block_reqs m) m)
     else ret tt) ;;;
    let num_skipped_blocks := num_required_blocks - spec_blocks - 1 in
    let blocks :=
      if prev_block_len <? num_skipped_blocks
      then blocks ++ py_repeat (_null_block m) (num_skipped_blocks - prev_block_len)
      else blocks in
    blocks <- (if blocks_allocated
               then of_option IndexError
                      (reuse_loop (_null_block m) num_skipped_blocks
                         (py_range (prev_block_len - spec_blocks) prev_block_len) blocks)
               else ret blocks) ;;
    set_req_blocks request_id blocks ;;;
    let num_new_blocks := num_required_blocks - len blocks in
    assert (if blocks_allocated then num_new_blocks <=? 1
            else num_new_blocks <=? spec_blocks + 1) ;;;
    new_blocks <- on_pool (BlockPool.get_new_blocks num_new_blocks) ;;
    let blocks := blocks ++ new_blocks in
    set_req_blocks request_id blocks ;;;
    update (fun m => set_align_state (last_state_block_idx m)
              ({[request_id]} ∪ _allocated_block_reqs m) m) ;;;
    ret (py_drop blocks prev_block_len).

Definition mamba_allocate_new_blocks (request_id : string) (num_tokens num_tokens_main_model : Z)
  : M state (list bref) :=
  m <- self ;;
  if negb (is_align m) then
    let num_tokens :=
      if 0 <? num_spec_blocks m then num_tokens + m_block_size m * num_spec_blocks m
      else num_tokens in
    base_allocate_new_blocks request_id num_tokens
  else align_allocate_new_blocks request_id num_tokens_main_model.

Definition allocate_new_blocks (request_id : string) (num_tokens num_tokens_main_model : Z)
  : M state (list bref) :=
  m <- self ;;
  match m_class m with
  | MambaManager => mamba_allocate_new_blocks request_id num_tokens num_tokens_main_model
  | _ => base_allocate_new_blocks request_id num_tokens
  end.

Definition take_new_block_ids : M state (list Z) :=
  m <- self ;; update (set_new_block_ids []) ;;; ret (new_block_ids m).

(** ** Caching and freeing *)

(** Returns the request, whose memo table the pool's event may have extended. *)
Definition base_cache_blocks (request : Request) (num_tokens : Z) : M state Request :=
  m <- self ;;
  let num_cached_blocks := default 0 (num_cached_block m !! request_id request) in
  let num_full_blocks := num_tokens / m_block_size m in
  if num_full_blocks <=? num_cached_blocks then ret request
  else
    blocks <- req_blocks (request_id request) ;;
    request <- on_pool (BlockPool.cache_full_blocks request blocks num_cached_blocks
                          num_full_blocks (m_block_size m) (kv_cache_group_id m)) ;;
    update (fun m => set_num_cached_block
              (<[request_id request := num_full_blocks]> (num_cached_block m)) m) ;;;
    ret request.

(** The loop at the end of [MambaManager.cache_blocks]. *)
Definition note_cached (h : store) (blocks : list bref) : M state unit :=
  mfor blocks (fun r =>
    b <- of_option AttributeError (h !! r) ;;
    if is_null b then ret tt
    else
      k <- of_option AssertionError (block_hash b) ;;
      update (fun m => set_cached_blocks_this_step ({[k]} ∪ cached_blocks_this_step m) m)).

Definition cache_blocks (request : Request) (num_tokens : Z) : M state Request :=
  m <- self ;;
  match m_class m with
  | CrossAttentionManager => raise ValueError
  | MambaManager =>
      let before := default 0 (num_cached_block m !! request_id request) in
      request <- base_cache_blocks request num_tokens ;;
      m <- self ;;
      let after := default 0 (num_cached_block m !! request_id request) in
      if before <? after then
        blocks <- req_blocks (request_id request) ;;
        pool <- block_pool ;;
        note_cached (BlockPool.heap pool) (py_slice blocks before after) ;;;
        ret request
      else ret request
  | _ => base_cache_blocks request num_tokens
  end.

(** [self.req_to_blocks.pop(request_id, [])] *)
Definition pop_req_blocks (request_id : string) : M state (list bref) :=
  m <- self ;;
  update (set_req_to_blocks (delete request_id (req_to_blocks m))) ;;;
  ret (default [] (req_to_blocks m !! request_id)).

Definition base_free (request_id : string) : M state unit :=
  blocks <- pop_req_blocks request_id ;;
  on_pool (BlockPool.free_blocks (rev blocks)) ;;;
  update (fun m => set_num_cached_block (delete request_id (num_cached_block m)) m).

Definition free (request_id : string) : M state unit :=
  m <- self ;;
  (if bool_decide (m_class m = MambaManager) && is_align m
   then update (fun m => set_align_state (delete request_id (last_state_block_idx m))
                  (_allocated_block_reqs m ∖ {[request_id]}) m)
   else ret tt) ;;;
  base_free request_id.

(** The [for i in range(n - 1, -1, -1)] loop of [remove_skipped_blocks]: the
    removed blocks, last index first, and the updated list. *)
Fixpoint skip_loop (null : bref) (n : nat) (blocks : list bref) (removed : list bref)
  : list bref * list bref :=
  match n with
  | O => (removed, blocks)
  | S i =>
      match blocks !! i with
      | None => (removed, blocks)
      | Some b =>
          if decide (b = null) then (removed, blocks)
          else skip_loop null i (<[i := null]> blocks) (removed ++ [b])
      end
  end.

(** [SingleTypeKVCacheManager.remove_skipped_blocks] *)
Definition base_remove_skipped_blocks (request_id : string) (total_computed_tokens : Z)
  : M state unit :=
  m <- self ;;
  let num_skipped_tokens := get_num_skipped_tokens m total_computed_tokens in
  if num_skipped_tokens <=? 0 then ret tt
  else
    blocks <- req_blocks request_id ;;
    let num_skipped_blocks := Z.min (num_skipped_tokens / m_block_size m) (len blocks) in
    let r := skip_loop (_null_block m) (Z.to_nat num_skipped_blocks) blocks [] in
    set_req_blocks request_id r.2 ;;;
    on_pool (BlockPool.free_blocks r.1).

(** [MambaManager.remove_skipped_blocks] *)
Definition mamba_remove_skipped_blocks (request_id : string) (num_computed_tokens : Z)
  : M state unit :=
  m <- self ;;
  let num_computed_tokens := Z.max 0 (num_computed_tokens - num_spec_blocks m) in
  base_remove_skipped_blocks request_id num_computed_tokens ;;;
  if negb (is_align m) then ret tt
  else
    m <- self ;;
    match last_state_block_idx m !! request_id with
    | None => ret tt
    | Some idx =>
        if idx <? cdiv num_computed_tokens (m_block_size m) - 1 then
          blocks <- req_blocks request_id ;;
          b <- of_option IndexError (py_index blocks idx) ;;
          if decide (b = _null_block m) then ret tt
          else
            on_pool (BlockPool.free_blocks [b]) ;;;
            set_req_blocks request_id
              (<[Z.to_nat (if idx <? 0 then idx + len blocks else idx) := _null_block m]> blocks)
        else ret tt
    end.

Definition remove_skipped_blocks (request_id : string) (total_computed_tokens : Z)
  : M state unit :=
  m <- self ;;
  match m_class m with
  | MambaManager => mamba_remove_skipped_blocks request_id total_computed_tokens
  | _ => base_remove_skipped_blocks request_id total_computed_tokens
  end.

Definition new_step_starts : M state unit :=
  m <- self ;;
  match m_class m with
  | MambaManager => update (set_cached_blocks_this_step ∅)
  | _ => ret tt
  end.

(** The loop of [FullAttentionManager.get_num_common_prefix_blocks]. *)
Fixpoint common_prefix (h : store) (num_reqs : Z) (blocks : list bref) : Z :=
  match blocks with
  | [] => 0
  | r :: blocks =>
      match h !! r with
      | Some b => if ref_cnt b =? num_reqs then 1 + common_prefix h num_reqs blocks else 0
      | None => 0
      end
  end.

Definition get_num_common_prefix_blocks (running_request_id : string) : M state Z :=
  m <- self ;;
  match m_class m with
  | FullAttentionManager | SinkFullAttentionManager =>
      blocks <- req_blocks running_request_id ;;
      m <- self ;;
      pool <- block_pool ;;
      ret (common_prefix (BlockPool.heap pool) (Z.of_nat (base.size (req_to_blocks m))) blocks)
  | _ => ret 0
  end.
End with_env.
End Manager.
