(* ===== verification/PrefixHit.v ===== *)
(** * Longest cache hit of each attention type

    Models the class methods [find_longest_cache_hit] of
    vllm/v1/core/single_type_kv_cache_manager.py.  They read the pool and the
    hashes of a request and return, for every group, the blocks of the hit. *)

From S2P Require Import Prelude FreeQueue Request BlockHash BlockPool CacheSpec SingleType.
From stdpp Require Import options.

Module PrefixHit.

(** [for computed, cached in zip(computed_blocks, cached_block): computed.append(cached)] *)
Definition append_each (computed : list (list bref)) (cached : list bref) : list (list bref) :=
  zip_with (fun l b => l ++ [b]) computed cached ++ drop (length cached) computed.

(** [for computed in computed_blocks: computed.pop()]; [pop] on an empty list
    raises [IndexError]. *)
Definition pop_each (computed : list (list bref)) : exn + list (list bref) :=
  if existsb (fun l => len l =? 0) computed then inl IndexError
  else inr ((fun l => take (length l - 1) l) <$> computed).

(** [computed_blocks[0]] *)
Definition first (computed : list (list bref)) : exn + list bref :=
  match computed with [] => inl IndexError | l :: _ => inr l end.

(** [while block_size != alignment_tokens and len(computed_blocks[0]) *
    block_size % alignment_tokens != 0: pop each]; [fuel] bounds the pops. *)
Fixpoint align_loop (fuel : nat) (block_size alignment_tokens : Z) (computed : list (list bref))
  : exn + list (list bref) :=
  if block_size =? alignment_tokens then inr computed else
  match first computed with
  | inl e => inl e
  | inr l =>
      if len l * block_size mod alignment_tokens =? 0 then inr computed
      else match fuel with
           | O => inl RuntimeError
           | S fuel =>
               match pop_each computed with
               | inl e => inl e
               | inr computed => align_loop fuel block_size alignment_tokens computed
               end
           end
  end.

Definition align_fuel (computed : list (list bref)) : nat := S (length (concat computed)).

Definition realign (block_size alignment_tokens : Z) (computed : list (list bref))
  : exn + list (list bref) :=
  align_loop (align_fuel computed) block_size alignment_tokens computed.

Section hit.
Variable pool : BlockPool.t.
Variable kv_cache_group_ids : list Z.

Definition lookup_hash (h : bytes) : exn + option (list bref) :=
  BlockPool.get_cached_block pool h kv_cache_group_ids.

(** [if cached_block := get_cached_block(..)]: an empty list is false. *)
Definition truthy (o : option (list bref)) : option (list bref) :=
  match o with Some [] => None | o => o end.

Definition empty_computed : list (list bref) := (fun _ => []) <$> kv_cache_group_ids.

(** ** Full attention *)

(** The left-to-right scan: append hits until the first miss. *)
Fixpoint full_loop (hashes : list bytes) (computed : list (list bref)) : exn + list (list bref) :=
  match hashes with
  | [] => inr computed
  | h :: hashes =>
      match lookup_hash h with
      | inl e => inl e
      | inr o => match truthy o with
                 | Some cached => full_loop hashes (append_each computed cached)
                 | None => inr computed
                 end
      end
  end.

(** [if use_eagle and computed_blocks[0]: pop each] *)
Definition eagle_drop (use_eagle : bool) (computed : list (list bref)) : exn + list (list bref) :=
  if use_eagle then
    match first computed with
    | inl e => inl e
    | inr l => if len l =? 0 then inr computed else pop_each computed
    end
  else inr computed.

(** [islice(block_hashes, n)] raises [ValueError] for a negative bound. *)
Definition full_find_longest_cache_hit (block_hashes : BlockHashList) (max_length : Z)
    (spec : KVCacheSpec) (use_eagle : bool) (alignment_tokens dcp_world_size pcp_world_size : Z)
  : exn + list (list bref) :=
  let is_chunked := match spec with ChunkedLocalAttentionSpec _ _ => true | _ => false end in
  if negb (is_full spec || is_chunked) then inl AssertionError else
  let bs := block_size spec in
  let bs := if 1 <? dcp_world_size * pcp_world_size
            then bs * (dcp_world_size * pcp_world_size) else bs in
  let max_num_blocks := max_length / bs in
  if max_num_blocks <? 0 then inl ValueError else
  match full_loop (take (Z.to_nat max_num_blocks) (bhl_list block_hashes)) empty_computed with
  | inl e => inl e
  | inr computed =>
      match eagle_drop use_eagle computed with
      | inl e => inl e
      | inr computed => realign bs alignment_tokens computed
      end
  end.

(** ** Sliding window *)

(** [computed[i] = cached] in every group. *)
Definition set_each (i : Z) (computed : list (list bref)) (cached : list bref)
  : list (list bref) :=
  zip_with (fun l b => <[Z.to_nat i := b]> l) computed cached ++ drop (length cached) computed.

(** [del computed[k:]] in every group. *)
Definition truncate_each (k : Z) (computed : list (list bref)) : list (list bref) :=
  (fun l => py_take l k) <$> computed.

(** The right-to-left scan over the indices below [n]; the flag of the result
    is [match_found]. *)
Fixpoint window_loop (block_hashes : BlockHashList) (block_size alignment_tokens need : Z)
    (use_eagle : bool) (n : nat) (computed : list (list bref)) (num_contiguous_blocks : Z)
  : exn + (list (list bref) * Z * bool) :=
  match n with
  | O => inr (computed, num_contiguous_blocks, false)
  | S i =>
      let go := window_loop block_hashes block_size alignment_tokens need use_eagle i in
      match bhl_get block_hashes (Z.of_nat i) with
      | None => inl IndexError
      | Some h =>
          match lookup_hash h with
          | inl e => inl e
          | inr o =>
              match truthy o with
              | None => go computed 0
              | Some cached =>
                  let post_pop_blocks := if use_eagle then Z.of_nat i else Z.of_nat i + 1 in
                  if (num_contiguous_blocks =? 0) && negb (block_size =? alignment_tokens)
                     && negb ((post_pop_blocks * block_size) mod alignment_tokens =? 0)
                  then go computed num_contiguous_blocks
                  else
                    let computed := set_each (Z.of_nat i) computed cached in
                    let num_contiguous_blocks := num_contiguous_blocks + 1 in
                    if need <=? num_contiguous_blocks then
                      inr (truncate_each (Z.of_nat i + num_contiguous_blocks) computed,
                           num_contiguous_blocks, true)
                    else go computed num_contiguous_blocks
              end
          end
      end
  end.

(** [cdiv(sliding_window - 1, block_size)], plus one for eagle. *)
Definition contiguous_needed (window block_size : Z) (use_eagle : bool) : Z :=
  cdiv (window - 1) block_size + (if use_eagle then 1 else 0).

Definition window_find_longest_cache_hit (block_hashes : BlockHashList) (max_length : Z)
    (spec : KVCacheSpec) (use_eagle : bool) (alignment_tokens dcp_world_size pcp_world_size : Z)
  : exn + list (list bref) :=
  match sliding_window_of spec with
  | None => inl AssertionError
  | Some window =>
      if negb ((dcp_world_size =? 1) && (pcp_world_size =? 1)) then inl AssertionError else
      let bs := block_size spec in
      let need := contiguous_needed window bs use_eagle in
      let max_num_blocks := max_length / bs in
      let computed := (fun _ => py_repeat (BlockPool.null_block pool) max_num_blocks)
                        <$> kv_cache_group_ids in
      match window_loop block_hashes bs alignment_tokens need use_eagle
              (Z.to_nat max_num_blocks) computed 0 with
      | inl e => inl e
      | inr (computed, num_contiguous_blocks, match_found) =>
          match (if match_found then inr computed
                 else realign bs alignment_tokens (truncate_each num_contiguous_blocks computed)) with
          | inl e => inl e
          | inr computed =>
              match first computed with
              | inl e => if use_eagle then inl e else inr computed
              | inr l =>
                  if use_eagle && negb (len l =? 0) then
                    match pop_each computed with
                    | inl e => inl e
                    | inr computed => realign bs alignment_tokens computed
                    end
                  else inr computed
              end
          end
      end
  end.

(** ** Chunked local attention *)

Fixpoint chunked_loop (block_hashes : BlockHashList) (idxs : list Z) (computed : list (list bref))
  : exn + list (list bref) :=
  match idxs with
  | [] => inr computed
  | i :: idxs =>
      match bhl_get block_hashes i with
      | None => inl IndexError
      | Some h =>
          match lookup_hash h with
          | inl e => inl e
          | inr o => match truthy o with
                     | Some cached => chunked_loop block_hashes idxs (append_each computed cached)
                     | None => inr computed
                     end
          end
      end
  end.

Definition chunked_find_longest_cache_hit (block_hashes : BlockHashList) (max_length : Z)
    (spec : KVCacheSpec) (use_eagle : bool) (alignment_tokens dcp_world_size pcp_world_size : Z)
  : exn + list (list bref) :=
  match spec with
  | ChunkedLocalAttentionSpec a chunk =>
      if use_eagle || negb ((dcp_world_size =? 1) && (pcp_world_size =? 1))
         || negb (a_block_size a =? alignment_tokens)
      then inl AssertionError else
      let bs := a_block_size a in
      let max_num_blocks := max_length / bs in
      let local_attention_start_idx :=
        if 0 <? max_length then (max_length / chunk) * chunk else 0 in
      let local_attention_start_block_idx := local_attention_start_idx / bs in
      let computed := (fun _ => py_repeat (BlockPool.null_block pool)
                                  local_attention_start_block_idx) <$> kv_cache_group_ids in
      chunked_loop block_hashes (py_range local_attention_start_block_idx max_num_blocks) computed
  | _ => inl AssertionError
  end.

(** ** Mamba *)

Fixpoint mamba_loop (block_hashes : BlockHashList) (block_size alignment_tokens : Z) (n : nat)
    (computed : list (list bref)) : exn + list (list bref) :=
  match n with
  | O => inr computed
  | S i =>
      match bhl_get block_hashes (Z.of_nat i) with
      | None => inl IndexError
      | Some h =>
          match lookup_hash h with
          | inl e => inl e
          | inr o =>
              match truthy o with
              | None => mamba_loop block_hashes block_size alignment_tokens i computed
              | Some cached =>
                  if negb (block_size =? alignment_tokens)
                     && negb ((Z.of_nat i + 1) * block_size mod alignment_tokens =? 0)
                  then mamba_loop block_hashes block_size alignment_tokens i computed
                  else
                    inr (append_each
                           ((fun l => l ++ replicate i (BlockPool.null_block pool)) <$> computed)
                           cached)
              end
          end
      end
  end.

Definition mamba_find_longest_cache_hit (block_hashes : BlockHashList) (max_length : Z)
    (spec : KVCacheSpec) (use_eagle : bool) (alignment_tokens dcp_world_size pcp_world_size : Z)
  : exn + list (list bref) :=
  if negb (is_mamba spec && (dcp_world_size =? 1) && (pcp_world_size =? 1))
  then inl AssertionError else
  let bs := block_size spec in
  mamba_loop block_hashes bs alignment_tokens (Z.to_nat (max_length / bs)) empty_computed.

(** ** Dispatch on the manager class *)

Definition find_longest_cache_hit (cls : ManagerClass) (block_hashes : BlockHashList)
    (max_length : Z) (spec : KVCacheSpec) (use_eagle : bool)
    (alignment_tokens dcp_world_size pcp_world_size : Z) : exn + list (list bref) :=
  match cls with
  | FullAttentionManager | SinkFullAttentionManager =>
      full_find_longest_cache_hit block_hashes max_length spec use_eagle alignment_tokens
        dcp_world_size pcp_world_size
  | SlidingWindowManager =>
      window_find_longest_cache_hit block_hashes max_length spec use_eagle alignment_tokens
        dcp_world_size pcp_world_size
  | ChunkedLocalAttentionManager =>
      chunked_find_longest_cache_hit block_hashes max_length spec use_eagle alignment_tokens
        dcp_world_size pcp_world_size
  | MambaManager =>
      mamba_find_longest_cache_hit block_hashes max_length spec use_eagle alignment_tokens
        dcp_world_size pcp_world_size
  | CrossAttentionManager =>
      match spec with CrossAttentionSpec _ => inl NotImplementedError | _ => inl AssertionError end
  end.
End hit.
End PrefixHit.

(** ** What the lookups return *)

(** Block [r] holds the KV of the block with hash [h] for group [g]. *)
Definition carries (p : BlockPool.t) (h : bytes) (g : Z) (r : bref) : Prop :=
  exists k, make_block_hash_with_group_id h g = inr k /\ hashof (BlockPool.heap p) r = Some k.

Definition group_ids_ok (gs : list Z) : Prop := Forall (fun g => 0 <= g < 2 ^ 32) gs.

Section lookups.
Variable p : BlockPool.t.
Variable n : nat.
Variable free : list bref.
Hypothesis Hc : pool_core n p free.

Lemma get_cached_block_loop_spec h gs acc :
  group_ids_ok gs ->
  match BlockPool.get_cached_block_loop p h gs acc with
  | inr (Some bs) => exists bs', bs = acc ++ bs' /\ Forall2 (carries p h) gs bs'
  | inr None => exists g, g ∈ gs /\ forall r, ~ carries p h g r
  | inl _ => False
  end.
Proof using Hc.
  intros Hgs. revert acc. induction Hgs as [|g gs Hg Hgs IH]; intros acc; simpl.
  { exists []. by rewrite app_nil_r. }
  pose proof (group_id_roundtrip h g) as Hk.
  destruct (make_block_hash_with_group_id h g) as [e|k] eqn:Ek; [by destruct Hk as [_ []]|].
  rewrite get_one_block_spec by apply Hc.
  destruct (cached_at (BlockPool.cached_block_hash_to_block p) k) as [|r rs] eqn:Eat; simpl.
  - exists g. split; [left|]. intros r (k' & Hk' & Hr). assert (k' = k) as -> by congruence.
    apply (pc_cache _ _ _ Hc) in Hr. rewrite Eat in Hr. by apply not_elem_of_nil in Hr.
  - specialize (IH (acc ++ [r])).
    destruct (BlockPool.get_cached_block_loop p h gs (acc ++ [r])) as [e|[bs|]]; [done|..].
    + destruct IH as (bs' & -> & Hall). exists (r :: bs'). rewrite <- app_assoc. split; [done|].
      constructor; [|done]. exists k. split; [done|]. apply (pc_cache _ _ _ Hc). rewrite Eat. left.
    + destruct IH as (g' & Hin & Hno). exists g'. split; [by right|done].
Qed.

(** A lookup never raises; a hit is a block of every group, a miss means that
    some group has no block with the hash. *)
Lemma lookup_spec h gs :
  group_ids_ok gs -> gs <> [] ->
  exists o, PrefixHit.lookup_hash p gs h = inr o /\ PrefixHit.truthy o = o /\
    match o with
    | Some bs => Forall2 (carries p h) gs bs
    | None => exists g, g ∈ gs /\ forall r, ~ carries p h g r
    end.
Proof using Hc.
  intros Hgs Hne. unfold PrefixHit.lookup_hash, BlockPool.get_cached_block.
  pose proof (get_cached_block_loop_spec h gs [] Hgs) as Hs.
  destruct (BlockPool.get_cached_block_loop p h gs []) as [e|[bs|]]; [done|..].
  - destruct Hs as (bs' & -> & Hall). exists (Some bs'). split_and!; [done| |done].
    inversion Hall; subst; done.
  - by exists None.
Qed.
End lookups.

(** ** Columns: the same position in the lists of all groups *)

(** [cols] has one list per group, each of length [k]. *)
Definition shape (gs : list Z) (k : nat) (cols : list (list bref)) : Prop :=
  length cols = length gs /\ Forall (fun l => length l = k) cols.

(** At position [j] every group has a block for the hash [h]. *)
Definition hit_at (p : BlockPool.t) (gs : list Z) (cols : list (list bref)) (j : nat) (h : bytes)
  : Prop :=
  forall i g l, gs !! i = Some g -> cols !! i = Some l ->
    exists r, l !! j = Some r /\ carries p h g r.

Section columns.
Import PrefixHit.
Variable p : BlockPool.t.
Variable gs : list Z.
Implicit Types cols : list (list bref).

Lemma shape_lookup k cols i l : shape gs k cols -> cols !! i = Some l -> length l = k.
Proof. intros [_ Hf] Hl. rewrite Forall_forall in Hf. apply Hf. by eapply list_elem_of_lookup_2. Qed.

Lemma shape_empty : shape gs 0 ((fun _ => []) <$> gs).
Proof. split; [by rewrite length_fmap|]. apply Forall_forall. intros l (g & -> & _)%list_elem_of_fmap. done. Qed.

Lemma shape_const (l0 : list bref) : shape gs (length l0) ((fun _ => l0) <$> gs).
Proof. split; [by rewrite length_fmap|]. apply Forall_forall. intros l (g & -> & _)%list_elem_of_fmap. done. Qed.

Lemma shape_first k cols : shape gs k cols -> gs <> [] -> exists l, first cols = inr l /\ length l = k.
Proof.
  intros [Hlen Hf] Hne. destruct cols as [|l cols]; [by destruct gs|].
  exists l. split; [done|]. by apply Forall_cons in Hf as [? _].
Qed.

(** Changing every list by the same function of the list and its new block. *)
Lemma zip_cols (f : list bref -> bref -> list bref) k k' cols bs h :
  shape gs k cols -> Forall2 (carries p h) gs bs ->
  (forall l b, length l = k -> length (f l b) = k') ->
  let cols' := zip_with f cols bs ++ drop (length bs) cols in
  shape gs k' cols' /\
  (forall i l', cols' !! i = Some l' -> exists l b g, cols !! i = Some l /\ bs !! i = Some b /\
     gs !! i = Some g /\ carries p h g b /\ l' = f l b).
Proof.
  intros Hs Hbs Hf cols'. pose proof (Forall2_length _ _ _ Hbs) as Hlen.
  destruct Hs as [Hlc Hall].
  assert (cols' = zip_with f cols bs) as ->.
  { unfold cols'. rewrite drop_ge by lia. by rewrite app_nil_r. }
  assert (forall i l', zip_with f cols bs !! i = Some l' -> exists l b g, cols !! i = Some l /\ bs !! i = Some b /\
     gs !! i = Some g /\ carries p h g b /\ l' = f l b) as Hz.
  { intros i l' Hl'. rewrite lookup_zip_with in Hl'.
    destruct (cols !! i) as [l|] eqn:El; [|done]. destruct (bs !! i) as [b|] eqn:Eb; [|done].
    simpl in Hl'. injection Hl' as <-.
    destruct (gs !! i) as [g|] eqn:Eg.
    2: { apply lookup_ge_None in Eg. apply lookup_lt_Some in Eb. lia. }
    exists l, b, g. split_and!; try done. by eapply Forall2_lookup_lr. }
  split; [split|done].
  - rewrite length_zip_with. lia.
  - apply Forall_forall. intros l' [i Hi]%list_elem_of_lookup_1.
    destruct (Hz i l' Hi) as (l & b & g & Hl & _ & _ & _ & ->). apply Hf.
    rewrite Forall_forall in Hall. apply Hall. by eapply list_elem_of_lookup_2.
Qed.

Lemma append_each_spec k cols bs h :
  shape gs k cols -> Forall2 (carries p h) gs bs ->
  shape gs (S k) (append_each cols bs) /\
  hit_at p gs (append_each cols bs) k h /\
  (forall j h', (j < k)%nat -> hit_at p gs cols j h' -> hit_at p gs (append_each cols bs) j h').
Proof.
  intros Hs Hbs. destruct (zip_cols (fun l b => l ++ [b]) k (S k) cols bs h Hs Hbs) as [Hs' Hz].
  { intros l b Hl. rewrite length_app. simpl. lia. }
  split; [done|]. split.
  - intros i g l' Hg Hl'. destruct (Hz i l' Hl') as (l & b & g' & Hl & _ & Hg' & Hcar & ->).
    simplify_eq. exists b. split; [|done].
    apply list_lookup_middle. by rewrite (shape_lookup k cols i l Hs Hl).
  - intros j h' Hj Hhit i g l' Hg Hl'. destruct (Hz i l' Hl') as (l & b & g' & Hl & _ & Hg' & _ & ->).
    destruct (Hhit i g l Hg Hl) as (r & Hr & Hcar). exists r. split; [|done].
    by apply lookup_app_l_Some.
Qed.

Lemma set_each_spec k cols bs h i :
  shape gs k cols -> Forall2 (carries p h) gs bs -> (i < k)%nat ->
  shape gs k (set_each (Z.of_nat i) cols bs) /\
  hit_at p gs (set_each (Z.of_nat i) cols bs) i h /\
  (forall j h', j <> i -> hit_at p gs cols j h' -> hit_at p gs (set_each (Z.of_nat i) cols bs) j h').
Proof.
  intros Hs Hbs Hi. unfold set_each. rewrite Nat2Z.id.
  destruct (zip_cols (fun l b => <[i:=b]> l) k k cols bs h Hs Hbs) as [Hs' Hz].
  { intros l b Hl. by rewrite length_insert. }
  split; [done|]. split.
  - intros x g l' Hg Hl'. destruct (Hz x l' Hl') as (l & b & g' & Hl & _ & Hg' & Hcar & ->).
    simplify_eq. exists b. split; [|done]. apply list_lookup_insert_eq.
    by rewrite (shape_lookup k cols x l Hs Hl).
  - intros j h' Hj Hhit x g l' Hg Hl'. destruct (Hz x l' Hl') as (l & b & g' & Hl & _ & Hg' & _ & ->).
    destruct (Hhit x g l Hg Hl) as (r & Hr & Hcar). exists r. split; [|done].
    by rewrite list_lookup_insert_ne.
Qed.

(** Cutting every list at the same length keeps the hits below it. *)
Lemma cut_spec k k' cols (f : list bref -> list bref) :
  shape gs k cols -> (k' <= k)%nat -> (forall l, length l = k -> f l = take k' l) ->
  shape gs k' (f <$> cols) /\
  (forall j h, (j < k')%nat -> hit_at p gs cols j h -> hit_at p gs (f <$> cols) j h).
Proof.
  intros Hs Hk Hf. split.
  - destruct Hs as [Hlen Hall]. split; [by rewrite length_fmap|].
    rewrite Forall_fmap. eapply Forall_impl; [exact Hall|]. intros l Hl. simpl in *.
    rewrite Hf, length_take by done. lia.
  - intros j h Hj Hhit i g l' Hg Hl'. apply list_lookup_fmap_Some in Hl' as (l & -> & Hl).
    destruct (Hhit i g l Hg Hl) as (r & Hr & Hcar). exists r. split; [|done].
    rewrite Hf by by eapply shape_lookup. by rewrite lookup_take_lt.
Qed.

Lemma pop_each_spec k cols :
  shape gs (S k) cols ->
  exists cols', pop_each cols = inr cols' /\ shape gs k cols' /\
    (forall j h, (j < k)%nat -> hit_at p gs cols j h -> hit_at p gs cols' j h).
Proof.
  intros Hs. unfold pop_each.
  assert (existsb (fun l => len l =? 0) cols = false) as ->.
  { apply not_true_is_false. intros (l & Hl & Hz)%existsb_exists.
    destruct Hs as [_ Hall]. rewrite Forall_forall in Hall.
    apply list_elem_of_In in Hl. specialize (Hall l Hl). apply Z.eqb_eq in Hz. unfold len in Hz. lia. }
  eexists. split; [done|]. apply (cut_spec (S k) k); [done|lia|].
  intros l Hl. f_equal. lia.
Qed.

Lemma truncate_each_spec k k' cols :
  shape gs k cols -> (k' <= k)%nat ->
  shape gs k' (truncate_each (Z.of_nat k') cols) /\
  (forall j h, (j < k')%nat -> hit_at p gs cols j h ->
     hit_at p gs (truncate_each (Z.of_nat k') cols) j h).
Proof.
  intros Hs Hk. unfold truncate_each. apply (cut_spec k k'); [done..|].
  intros l Hl. rewrite py_take_nonneg by lia. by rewrite Nat2Z.id.
Qed.

(** Re-aligning only shortens, and ends at a multiple of the alignment. *)
Lemma realign_spec bs al k cols :
  shape gs k cols -> gs <> [] -> 0 < al ->
  exists k' cols', realign bs al cols = inr cols' /\ (k' <= k)%nat /\ shape gs k' cols' /\
    (bs = al \/ (Z.of_nat k' * bs) mod al = 0) /\
    ((Z.of_nat k * bs) mod al = 0 -> k' = k) /\
    (forall j h, (j < k')%nat -> hit_at p gs cols j h -> hit_at p gs cols' j h).
Proof.
  intros Hs Hne Hal. unfold realign.
  assert (k <= align_fuel cols)%nat as Hfuel.
  { destruct (shape_first k cols Hs Hne) as (l & Hl & Hlk). unfold align_fuel.
    destruct cols as [|l' cols]; [done|]. injection Hl as ->. simpl. rewrite length_app. lia. }
  revert Hfuel. generalize (align_fuel cols). intros fuel. revert k cols Hs.
  induction fuel as [|fuel IH]; intros k cols Hs Hfuel; simpl;
    destruct (Z.eqb_spec bs al) as [->|Hbs]; try (exists k, cols; by eauto 10);
    destruct (shape_first k cols Hs Hne) as (l & -> & Hlk); unfold len; rewrite Hlk;
    destruct (Z.eqb_spec (Z.of_nat k * bs mod al) 0) as [Hz|Hz]; try (exists k, cols; by eauto 10).
  - exfalso. apply Hz. assert (k = 0%nat) as -> by lia. by rewrite Z.mul_0_l, Z.mod_0_l by lia.
  - destruct k as [|k]; [exfalso; apply Hz; by rewrite Z.mul_0_l, Z.mod_0_l by lia|].
    destruct (pop_each_spec k cols Hs) as (cols1 & -> & Hs1 & Hh1).
    destruct (IH k cols1 Hs1 ltac:(lia)) as (k' & cols' & He & Hle & Hs' & Hal' & _ & Hh').
    exists k', cols'. split_and!; [done|lia|done|done|done|].
    intros j h Hj Hhit. apply Hh'; [done|]. apply Hh1; [lia|done].
Qed.
End columns.

(** ** Correctness of the searches *)
Section searches.
Import PrefixHit.
Variable p : BlockPool.t.
Variable n : nat.
Variable free : list bref.
Variable gs : list Z.
Hypothesis Hc : pool_core n p free.
Hypothesis Hgs : group_ids_ok gs.
Hypothesis Hne : gs <> [].

(** Some group has no block with the hash. *)
Definition miss (h : bytes) : Prop := exists g, g ∈ gs /\ forall r, ~ carries p h g r.

Lemma lookup_cases h :
  (exists bs, lookup_hash p gs h = inr (Some bs) /\ truthy (Some bs) = Some bs /\
     Forall2 (carries p h) gs bs) \/
  (lookup_hash p gs h = inr None /\ miss h).
Proof using Hc Hgs Hne.
  destruct (lookup_spec p n free Hc h gs Hgs Hne) as ([bs|] & Hl & Ht & H); [left|right]; eauto.
Qed.

Lemma full_loop_spec hashes cols k :
  shape gs k cols ->
  exists m cols', full_loop p gs hashes cols = inr cols' /\ (m <= length hashes)%nat /\
    shape gs (k + m) cols' /\
    (forall j h, (j < k)%nat -> hit_at p gs cols j h -> hit_at p gs cols' j h) /\
    (forall j h, (j < m)%nat -> hashes !! j = Some h -> hit_at p gs cols' (k + j) h) /\
    (forall h, hashes !! m = Some h -> miss h).
Proof using Hc Hgs Hne.
  revert k cols. induction hashes as [|h hashes IH]; intros k cols Hs; simpl.
  { exists 0%nat, cols. rewrite Nat.add_0_r. split_and!; [done|lia|done|done| |done]. intros; lia. }
  destruct (lookup_cases h) as [(bs & -> & -> & Hbs)|[-> Hmiss]]; simpl.
  2: { exists 0%nat, cols. rewrite Nat.add_0_r.
       split; [done|]. split; [lia|]. split; [done|]. split; [done|]. split; [intros; lia|].
       intros h' [= <-]. done. }
  destruct (append_each_spec p gs k cols bs h Hs Hbs) as (Hs1 & Hk & Hold).
  destruct (IH (S k) _ Hs1) as (m & cols' & -> & Hm & Hs' & Hold' & Hnew & Hmiss).
  exists (S m), cols'. replace (k + S m)%nat with (S k + m)%nat by lia.
  split; [done|]. split; [lia|]. split; [done|]. split; [|split].
  - intros j h' Hj Hhit. apply Hold'; [lia|]. by apply Hold.
  - intros [|j] h' Hj Hh'.
    + injection Hh' as <-. rewrite Nat.add_0_r. apply Hold'; [lia|done].
    + replace (k + S j)%nat with (S k + j)%nat by lia. apply Hnew; [lia|done].
  - intros h' Hh'. by apply Hmiss.
Qed.

Lemma eagle_drop_spec (use_eagle : bool) k cols :
  shape gs k cols ->
  exists k' cols', eagle_drop use_eagle cols = inr cols' /\ shape gs k' cols' /\
    (k' = if use_eagle then k - 1 else k)%nat /\
    (forall j h, (j < k')%nat -> hit_at p gs cols j h -> hit_at p gs cols' j h).
Proof using Hne.
  intros Hs. unfold eagle_drop. destruct use_eagle; [|exists k, cols; eauto].
  destruct (shape_first gs k cols Hs Hne) as (l & -> & Hl).
  destruct k as [|k]; [exists 0%nat, cols; rewrite (proj2 (Z.eqb_eq _ _)) by (unfold len; lia); eauto|].
  rewrite (proj2 (Z.eqb_neq _ _)) by (unfold len; lia).
  destruct (pop_each_spec p gs k cols Hs) as (cols' & -> & Hs' & Hh).
  exists k, cols'. split; [done|]. split; [done|]. split; [lia|done].
Qed.

(** The scan of the window from position [m] down; the [c] positions from [m]
    on are already hits. *)
Lemma window_loop_spec hashes bs al need (use_eagle : bool) m K cols c :
  shape gs K cols -> 0 < bs -> 0 < al ->
  (forall j, (j < K)%nat -> is_Some (bhl_get hashes (Z.of_nat j))) ->
  (m + c <= K)%nat ->
  (forall j h, (m <= j < m + c)%nat -> bhl_get hashes (Z.of_nat j) = Some h -> hit_at p gs cols j h) ->
  ((0 < c)%nat -> bs = al \/ ((Z.of_nat (m + c) - (if use_eagle then 1 else 0)) * bs) mod al = 0) ->
  exists cols' c' found,
    window_loop p gs hashes bs al need use_eagle m cols (Z.of_nat c) = inr (cols', Z.of_nat c', found) /\
    if found : bool then
      exists k, shape gs k cols' /\ need <= Z.of_nat c' /\ (0 < c' <= k)%nat /\ (k <= K)%nat /\
        (forall j h, (k - c' <= j < k)%nat -> bhl_get hashes (Z.of_nat j) = Some h -> hit_at p gs cols' j h) /\
        (bs = al \/ ((Z.of_nat k - (if use_eagle then 1 else 0)) * bs) mod al = 0)
    else shape gs K cols' /\ (c' <= K)%nat /\
      (forall j h, (j < c')%nat -> bhl_get hashes (Z.of_nat j) = Some h -> hit_at p gs cols' j h).
Proof using Hc Hgs Hne.
  intros Hs Hbs Hal Hdef. revert cols c Hs.
  induction m as [|i IH]; intros cols c Hs Hmc Hhit Hali; cbn [window_loop].
  { exists cols, c, false. split; [done|]. split; [done|]. split; [done|].
    intros j h Hj. apply Hhit. lia. }
  destruct (Hdef i) as [h Hh]; [lia|]. rewrite Hh.
  destruct (lookup_cases h) as [(blks & -> & -> & Hblks)|[-> _]]; cbn [truthy].
  2: { apply (IH cols 0%nat Hs); [lia|intros; lia|intros; lia]. }
  destruct ((Z.of_nat c =? 0) && negb (bs =? al) &&
    negb ((if use_eagle then Z.of_nat i else Z.of_nat i + 1) * bs mod al =? 0))%bool eqn:Hskip.
  { bool_to_prop. assert (c = 0%nat) as -> by lia.
    apply (IH cols 0%nat Hs); [lia|intros; lia|intros; lia]. }
  destruct (set_each_spec p gs K cols blks h i Hs Hblks) as (Hs1 & Hnew & Hold); [lia|].
  assert (forall j h', (i <= j < i + S c)%nat -> bhl_get hashes (Z.of_nat j) = Some h' ->
    hit_at p gs (set_each (Z.of_nat i) cols blks) j h') as Hhit1.
  { intros j h' Hj Hh'. destruct (decide (j = i)) as [->|Hji]; [by simplify_eq|].
    apply Hold; [done|]. apply Hhit; [lia|done]. }
  assert (bs = al \/ ((Z.of_nat (i + S c) - (if use_eagle then 1 else 0)) * bs) mod al = 0) as Hali1.
  { destruct (decide (c = 0%nat)) as [->|Hc0].
    - simpl in Hskip. destruct (Z.eqb_spec bs al); [by left|right]. simpl in Hskip.
      apply negb_false_iff, Z.eqb_eq in Hskip. rewrite <- Hskip. f_equal. f_equal.
      destruct use_eagle; lia.
    - replace (i + S c)%nat with (S i + c)%nat by lia. apply Hali. lia. }
  destruct (Z.leb_spec need (Z.of_nat c + 1)) as [Hn|Hn].
  - destruct (truncate_each_spec p gs K (i + S c) _ Hs1) as [Hs2 Hh2]; [lia|].
    replace (Z.of_nat i + (Z.of_nat c + 1)) with (Z.of_nat (i + S c)) by lia.
    eexists _, (S c), true. split; [do 3 f_equal; lia|].
    exists (i + S c)%nat. split; [done|]. split; [lia|]. split; [lia|]. split; [lia|]. split; [|done].
    intros j h' Hj Hh'. apply Hh2; [lia|]. apply Hhit1; [lia|done].
  - replace (Z.of_nat c + 1) with (Z.of_nat (S c)) by lia.
    apply (IH _ (S c) Hs1); [lia|done|]. intros _. done.
Qed.

Lemma mamba_loop_spec hashes bs al m :
  0 < bs -> 0 < al -> (forall j, (j < m)%nat -> is_Some (bhl_get hashes (Z.of_nat j))) ->
  exists k cols, mamba_loop p gs hashes bs al m (empty_computed gs) = inr cols /\
    shape gs k cols /\ (k <= m)%nat /\ (bs = al \/ (Z.of_nat k * bs) mod al = 0) /\
    (forall j h, k = S j -> bhl_get hashes (Z.of_nat j) = Some h -> hit_at p gs cols j h).
Proof using Hc Hgs Hne.
  intros Hbs Hal. induction m as [|i IH]; intros Hdef; cbn [mamba_loop].
  { exists 0%nat, (empty_computed gs). split; [done|]. split; [apply shape_empty|]. split; [lia|].
    split; [right; by rewrite Z.mul_0_l, Z.mod_0_l by lia|]. intros; lia. }
  assert (forall j, (j < i)%nat -> is_Some (bhl_get hashes (Z.of_nat j))) as Hdef' by (intros; apply Hdef; lia).
  destruct (IH Hdef') as (k & cols & He & Hs & Hk & Ha & Hh).
  assert (exists k cols, mamba_loop p gs hashes bs al i (empty_computed gs) = inr cols /\
    shape gs k cols /\ (k <= S i)%nat /\ (bs = al \/ (Z.of_nat k * bs) mod al = 0) /\
    (forall j h, k = S j -> bhl_get hashes (Z.of_nat j) = Some h -> hit_at p gs cols j h)) as Hrec.
  { exists k, cols. split; [done|]. split; [done|]. split; [lia|]. split; done. }
  destruct (Hdef i) as [h Hhi]; [lia|]. rewrite Hhi.
  destruct (lookup_cases h) as [(blks & -> & -> & Hblks)|[-> _]]; cbn [truthy]; [|exact Hrec].
  destruct (negb (bs =? al) && negb ((Z.of_nat i + 1) * bs mod al =? 0))%bool eqn:Hskip; [exact Hrec|].
  clear Hrec. assert (shape gs i ((fun l => l ++ replicate i (BlockPool.null_block p)) <$> empty_computed gs)) as Hs0.
  { unfold empty_computed. rewrite <- list_fmap_compose.
    pose proof (shape_const gs (replicate i (BlockPool.null_block p))) as Hsc.
    rewrite length_replicate in Hsc. exact Hsc. }
  destruct (append_each_spec p gs i _ blks h Hs0 Hblks) as (Hs1 & Hnew & _).
  exists (S i), (append_each ((fun l => l ++ replicate i (BlockPool.null_block p)) <$> empty_computed gs) blks).
  split; [done|]. split; [done|]. split; [lia|]. split.
  - destruct (Z.eqb_spec bs al); [by left|right]. simpl in Hskip.
    apply negb_false_iff, Z.eqb_eq in Hskip. by rewrite Nat2Z.inj_succ.
  - intros j h' [= <-] Hh'. simplify_eq. exact Hnew.
Qed.

Lemma chunked_loop_spec hashes start m cols k :
  shape gs k cols -> Z.of_nat k = start -> 0 <= start ->
  (forall j, start <= j < start + Z.of_nat m -> is_Some (bhl_get hashes j)) ->
  exists k' cols', chunked_loop p gs hashes (py_range start (start + Z.of_nat m)) cols = inr cols' /\
    shape gs k' cols' /\ (k <= k' <= k + m)%nat /\
    (forall j h, (j < k)%nat -> hit_at p gs cols j h -> hit_at p gs cols' j h) /\
    (forall j h, (k <= j < k')%nat -> bhl_get hashes (Z.of_nat j) = Some h -> hit_at p gs cols' j h) /\
    ((k' < k + m)%nat -> forall h, bhl_get hashes (Z.of_nat k') = Some h -> miss h).
Proof using Hc Hgs Hne.
  revert start cols k. induction m as [|m IH]; intros start cols k Hs Hk H0 Hdef.
  { rewrite py_range_nil by lia.
    exists k, cols. split; [done|]. split; [done|]. split; [lia|]. split; [done|].
    split; intros; lia. }
  rewrite py_range_cons by lia.
  replace (start + Z.of_nat (S m)) with (start + 1 + Z.of_nat m) by lia.
  cbn [chunked_loop]. destruct (Hdef start) as [h Hh]; [lia|]. rewrite Hh.
  destruct (lookup_cases h) as [(blks & -> & -> & Hblks)|[-> Hmiss]]; cbn [truthy].
  2: { exists k, cols. split; [done|]. split; [done|]. split; [lia|]. split; [done|].
       split; [intros; lia|]. intros _ h' Hh'. rewrite Hk, Hh in Hh'. by injection Hh' as <-. }
  destruct (append_each_spec p gs k cols blks h Hs Hblks) as (Hs1 & Hnew & Hold).
  destruct (IH (start + 1) _ (S k) Hs1) as (k' & cols' & -> & Hs' & Hk' & Hold' & Hhits & Hmiss);
    [lia|lia|intros; apply Hdef; lia|].
  exists k', cols'. split; [done|]. split; [done|]. split; [lia|]. split; [|split].
  - intros j h' Hj Hhit. apply Hold'; [lia|]. by apply Hold.
  - intros j h' Hj Hh'. destruct (decide (j = k)) as [->|].
    + rewrite Hk, Hh in Hh'. injection Hh' as <-. apply Hold'; [lia|done].
    + apply Hhits; [lia|done].
  - intros Hlt. apply Hmiss. lia.
Qed.
End searches.

(** ** Each attention type *)

(** The block size a spec has under context parallelism. *)
Definition parallel_block_size (spec : KVCacheSpec) (dcp pcp : Z) : Z :=
  if 1 <? dcp * pcp then block_size spec * (dcp * pcp) else block_size spec.

(** Full attention: the search never fails; it returns [k] blocks per
    group, within [max_length] and a multiple of the alignment, each carrying
    the hash of its position for its group; and without eagle and re-alignment
    it stops only at the length limit or where some group has no block. *)
Lemma full_hit_spec (p : BlockPool.t) (n : nat) (free : list bref) (gs : list Z)
    (hashes : BlockHashList) (max_length : Z) (spec : KVCacheSpec) (use_eagle : bool)
    (al dcp pcp : Z)
    (Hc : pool_core n p free) (Hgs : group_ids_ok gs) (Hne : gs <> [])
    (Hspec : is_full spec = true) (Hbs : 0 < parallel_block_size spec dcp pcp) (Hal : 0 < al)
    (Hlen : 0 <= max_length) :
  let bs := parallel_block_size spec dcp pcp in
  exists k cols,
    PrefixHit.full_find_longest_cache_hit p gs hashes max_length spec use_eagle al dcp pcp = inr cols /\
    shape gs k cols /\ Z.of_nat k * bs <= max_length /\
    (bs = al \/ (Z.of_nat k * bs) mod al = 0) /\
    (k <= length (bhl_list hashes))%nat /\
    (forall j h, (j < k)%nat -> bhl_list hashes !! j = Some h -> hit_at p gs cols j h) /\
    (use_eagle = false -> bs = al -> (Z.of_nat k + 1) * bs <= max_length ->
       forall h, bhl_list hashes !! k = Some h -> miss p gs h).
Proof.
  intros bs. unfold PrefixHit.full_find_longest_cache_hit. rewrite Hspec. simpl.
  fold (parallel_block_size spec dcp pcp). fold bs.
  pose proof (Z.div_pos max_length bs Hlen Hbs) as Hq.
  destruct (Z.ltb_spec (max_length / bs) 0); [lia|].
  set (q := Z.to_nat (max_length / bs)).
  destruct (full_loop_spec p n free gs Hc Hgs Hne (take q (bhl_list hashes)) _ 0 (shape_empty gs))
    as (m & cols & He & Hm & Hs & _ & Hhit & Hmiss). simpl in Hs.
  unfold PrefixHit.empty_computed. rewrite He.
  rewrite length_take in Hm.
  destruct (eagle_drop_spec p gs Hne use_eagle m cols Hs) as (k1 & cols1 & -> & Hs1 & Hk1 & Hh1).
  destruct (realign_spec p gs bs al k1 cols1 Hs1 Hne Hal) as (k & cols' & -> & Hk & Hs' & Ha & Hsame & Hh').
  assert (k <= m)%nat as Hkm by (destruct use_eagle; lia).
  exists k, cols'. split; [done|]. split; [done|]. split; [|split; [done|split; [lia|split]]].
  - pose proof (Z.mul_div_le max_length bs Hbs). nia.
  - intros j h Hj Hhj. apply Hh'; [done|]. apply Hh1; [lia|].
    change j with (0 + j)%nat. apply Hhit; [lia|]. rewrite lookup_take_lt; [done|lia].
  - intros -> Heq Hle h Hhk. assert (k = m) as ->.
    { rewrite <- Hk1. apply Hsame. rewrite Heq. apply Z.mod_mul. lia. }
    apply Hmiss. rewrite lookup_take_lt; [done|].
    assert (Z.of_nat m + 1 <= max_length / bs) by (apply Z.div_le_lower_bound; lia). lia.
Qed.

(** Sliding window: the search returns [k] blocks per group with [k] times
    the block size within [max_length] and aligned, such that every token the
    window of the next token reaches lies in a block that is cached for its
    position and group: nothing in the window is read from an uncached block,
    with or without eagle and after any re-alignment. *)
Lemma window_hit_spec (p : BlockPool.t) (n : nat) (free : list bref) (gs : list Z)
    (hashes : BlockHashList) (max_length w : Z) (spec : KVCacheSpec) (use_eagle : bool) (al : Z)
    (Hc : pool_core n p free) (Hgs : group_ids_ok gs) (Hne : gs <> [])
    (Hspec : sliding_window_of spec = Some w) (Hw : 0 < w) (Hbs : 0 < block_size spec)
    (Hal : 0 < al) (Hlen : 0 <= max_length)
    (Hdef : forall j, (Z.of_nat j < max_length / block_size spec) ->
       is_Some (bhl_get hashes (Z.of_nat j))) :
  let bs := block_size spec in
  exists k cols,
    PrefixHit.window_find_longest_cache_hit p gs hashes max_length spec use_eagle al 1 1 = inr cols /\
    shape gs k cols /\ Z.of_nat k * bs <= max_length /\
    (bs = al \/ (Z.of_nat k * bs) mod al = 0) /\
    (forall t h, Z.max 0 (Z.of_nat k * bs - (w - 1)) <= t < Z.of_nat k * bs ->
       bhl_get hashes (t / bs) = Some h -> hit_at p gs cols (Z.to_nat (t / bs)) h).
Proof.
  intros bs. set (need := PrefixHit.contiguous_needed w bs use_eagle).
  pose proof (Z.div_pos max_length bs Hlen Hbs) as Hq. set (q := Z.to_nat (max_length / bs)).
  assert (shape gs q ((fun _ => py_repeat (BlockPool.null_block p) (max_length / bs)) <$> gs)) as Hs0.
  { pose proof (shape_const gs (py_repeat (BlockPool.null_block p) (max_length / bs))) as Hs.
    unfold py_repeat in Hs at 1. rewrite length_replicate in Hs. exact Hs. }
  pose proof (Z.mul_div_le max_length bs Hbs) as Hqb.
  pose proof (cdiv_bounds (w - 1) bs Hbs) as Hcw. set (cw := cdiv (w - 1) bs) in *.
  (* It is enough that the last [cdiv (w - 1) bs] blocks are hits. *)
  assert (forall k cols, (k <= q)%nat -> shape gs k cols ->
    (bs = al \/ (Z.of_nat k * bs) mod al = 0) ->
    (forall j h, (j < k)%nat -> Z.of_nat k - cw <= Z.of_nat j -> bhl_get hashes (Z.of_nat j) = Some h ->
       hit_at p gs cols j h) ->
    exists k' cols', (inr cols : exn + list (list bref)) = inr cols' /\
    shape gs k' cols' /\ Z.of_nat k' * bs <= max_length /\
    (bs = al \/ (Z.of_nat k' * bs) mod al = 0) /\
    (forall t h, Z.max 0 (Z.of_nat k' * bs - (w - 1)) <= t < Z.of_nat k' * bs ->
       bhl_get hashes (t / bs) = Some h -> hit_at p gs cols' (Z.to_nat (t / bs)) h)) as Hend.
  { intros k cols Hkq Hs Ha Hhit. exists k, cols. split; [done|]. split; [done|].
    split; [nia|]. split; [done|]. intros t h Ht Hh.
    assert (0 <= t / bs) by (apply Z.div_pos; lia).
    assert (t / bs < Z.of_nat k) by (apply Z.div_lt_upper_bound; lia).
    assert (Z.of_nat k - cw <= t / bs) by (apply Z.div_le_lower_bound; [done|]; nia).
    apply Hhit; [lia..|]. by rewrite Z2Nat.id. }
  unfold PrefixHit.window_find_longest_cache_hit. rewrite Hspec. simpl. fold bs need.
  destruct (window_loop_spec p n free gs Hc Hgs Hne hashes bs al need use_eagle q q _ 0 Hs0 Hbs Hal)
    as (cols & c & found & He & Hres); [intros; apply Hdef; fold bs; lia|lia|intros; lia|intros; lia|].
  change (Z.of_nat 0) with 0 in He. fold q. rewrite He. destruct found.
  - destruct Hres as (k & Hs & Hneed & Hck & Hkq & Hhit & Ha).
    destruct (shape_first gs k cols Hs Hne) as (l & -> & Hl). unfold len. rewrite Hl.
    unfold need, PrefixHit.contiguous_needed in Hneed. fold cw in Hneed.
    rewrite (proj2 (Z.eqb_neq (Z.of_nat k) _)) by lia. destruct use_eagle; simpl.
    + destruct k as [|k]; [lia|]. destruct (pop_each_spec p gs k cols Hs) as (cols1 & -> & Hs1 & Hh1).
      destruct (realign_spec p gs bs al k cols1 Hs1 Hne Hal) as (k' & cols' & -> & Hk & Hs' & Ha' & Hsame & Hh').
      assert (k' = k) as ->.
      { apply Hsame. destruct Ha as [<-|Ha]; [apply Z.mod_mul; lia|].
        rewrite <- Ha. do 2 f_equal. lia. }
      apply (Hend k); [lia|done|done|]. intros j h Hj Hcwj Hh. apply Hh'; [lia|]. apply Hh1; [lia|].
      apply Hhit; [lia|done].
    + apply (Hend k); [lia|done|by rewrite Z.sub_0_r in Ha|]. intros j h Hj Hcwj Hh.
      apply Hhit; [lia|done].
  - destruct Hres as (Hs & Hcq & Hhit).
    destruct (truncate_each_spec p gs q c cols Hs Hcq) as [Hs1 Hh1].
    destruct (realign_spec p gs bs al c _ Hs1 Hne Hal) as (k & cols1 & -> & Hk & Hs2 & Ha & _ & Hh2).
    destruct (shape_first gs k cols1 Hs2 Hne) as (l & -> & Hl). unfold len. rewrite Hl.
    assert (forall j h, (j < k)%nat -> bhl_get hashes (Z.of_nat j) = Some h -> hit_at p gs cols1 j h) as Hall.
    { intros j h Hj Hh. apply Hh2; [done|]. apply Hh1; [lia|]. apply Hhit; [lia|done]. }
    destruct (use_eagle && negb (Z.of_nat k =? 0))%bool eqn:Hpop; [|apply (Hend k); [lia|done|done|auto]].
    bool_to_prop. destruct k as [|k]; [lia|].
    destruct (pop_each_spec p gs k cols1 Hs2) as (cols2 & -> & Hs3 & Hh3).
    destruct (realign_spec p gs bs al k cols2 Hs3 Hne Hal) as (k' & cols3 & -> & Hk' & Hs4 & Ha4 & _ & Hh4).
    apply (Hend k'); [lia|done|done|]. intros j h Hj _ Hh. apply Hh4; [done|]. apply Hh3; [lia|].
    apply Hall; [lia|done].
Qed.

(** Mamba: the state the hit resumes from, the block at the last position
    of the hit, is cached for its position in every group, and the hit is
    aligned and within [max_length]. *)
Lemma mamba_hit_spec (p : BlockPool.t) (n : nat) (free : list bref) (gs : list Z)
    (hashes : BlockHashList) (max_length : Z) (spec : KVCacheSpec) (use_eagle : bool) (al : Z)
    (Hc : pool_core n p free) (Hgs : group_ids_ok gs) (Hne : gs <> [])
    (Hspec : is_mamba spec = true) (Hbs : 0 < block_size spec)
    (Hal : 0 < al) (Hlen : 0 <= max_length)
    (Hdef : forall j, (Z.of_nat j < max_length / block_size spec) ->
       is_Some (bhl_get hashes (Z.of_nat j))) :
  let bs := block_size spec in
  exists k cols,
    PrefixHit.mamba_find_longest_cache_hit p gs hashes max_length spec use_eagle al 1 1 = inr cols /\
    shape gs k cols /\ Z.of_nat k * bs <= max_length /\
    (bs = al \/ (Z.of_nat k * bs) mod al = 0) /\
    (forall j h, k = S j -> bhl_get hashes (Z.of_nat j) = Some h -> hit_at p gs cols j h).
Proof.
  intros bs. unfold PrefixHit.mamba_find_longest_cache_hit. rewrite Hspec. simpl. fold bs.
  pose proof (Z.div_pos max_length bs Hlen Hbs) as Hq.
  destruct (mamba_loop_spec p n free gs Hc Hgs Hne hashes bs al (Z.to_nat (max_length / bs)) Hbs Hal)
    as (k & cols & He & Hs & Hk & Ha & Hh); [intros; apply Hdef; fold bs; lia|].
  exists k, cols. split; [done|]. split; [done|]. split; [|done].
  pose proof (Z.mul_div_le max_length bs Hbs). nia.
Qed.

(** Chunked local attention: all blocks before the chunk of the next token
    count as computed, every block of the hit from the chunk's start on is
    cached for its position, and the search stops at the first block that some
    group misses. *)
Lemma chunked_hit_spec (p : BlockPool.t) (n : nat) (free : list bref) (gs : list Z)
    (hashes : BlockHashList) (max_length chunk : Z) (a : AttentionSpec)
    (Hc : pool_core n p free) (Hgs : group_ids_ok gs) (Hne : gs <> [])
    (Hbs : 0 < a_block_size a) (Hchunk : 0 < chunk) (Hlen : 0 <= max_length)
    (Hdef : forall j, 0 <= j < max_length / a_block_size a -> is_Some (bhl_get hashes j)) :
  let bs := a_block_size a in
  let start := (max_length / chunk * chunk) / bs in
  exists k cols,
    PrefixHit.chunked_find_longest_cache_hit p gs hashes max_length
      (ChunkedLocalAttentionSpec a chunk) false bs 1 1 = inr cols /\
    shape gs k cols /\ start <= Z.of_nat k <= max_length / bs /\
    (forall j h, start <= Z.of_nat j < Z.of_nat k -> bhl_get hashes (Z.of_nat j) = Some h ->
       hit_at p gs cols j h) /\
    (Z.of_nat k < max_length / bs -> forall h, bhl_get hashes (Z.of_nat k) = Some h -> miss p gs h).
Proof.
  intros bs start. unfold PrefixHit.chunked_find_longest_cache_hit. fold bs. simpl. rewrite Z.eqb_refl. simpl.
  assert (0 <= max_length / chunk * chunk <= max_length) as Hmc.
  { pose proof (Z.mul_div_le max_length chunk Hchunk). pose proof (Z.div_pos max_length chunk Hlen Hchunk). nia. }
  assert ((if 0 <? max_length then max_length / chunk * chunk else 0) = max_length / chunk * chunk) as ->.
  { destruct (Z.ltb_spec 0 max_length); [done|]. assert (max_length = 0) as -> by lia.
    by rewrite Z.div_0_l by lia. }
  fold start.
  assert (0 <= start <= max_length / bs) as Hst.
  { split; [apply Z.div_pos; [lia|exact Hbs]|apply Z.div_le_mono; [exact Hbs|lia]]. }
  assert (shape gs (Z.to_nat start) ((fun _ => py_repeat (BlockPool.null_block p) start) <$> gs)) as Hs0.
  { pose proof (shape_const gs (py_repeat (BlockPool.null_block p) start)) as Hs.
    unfold py_repeat in Hs at 1. rewrite length_replicate in Hs. exact Hs. }
  destruct (chunked_loop_spec p n free gs Hc Hgs Hne hashes start (Z.to_nat (max_length / bs - start)) _ _ Hs0)
    as (k & cols & He & Hs & Hk & _ & Hhits & Hmiss); [lia|lia|intros; apply Hdef; fold bs; lia|].
  replace (start + Z.of_nat (Z.to_nat (max_length / bs - start))) with (max_length / bs) in He by lia.
  exists k, cols. split; [done|]. split; [done|]. split; [lia|]. split.
  - intros j h Hj Hh. apply Hhits; [lia|done].
  - intros Hlt. apply Hmiss. lia.
Qed.

(** ** Main theorems *)

Lemma bhl_get_list b j h :
  (j < length (bhl_list b))%nat -> bhl_get b (Z.of_nat j) = Some h -> bhl_list b !! j = Some h.
Proof.
  destruct b as [l|b]; simpl; intros Hj Hh.
  - by rewrite py_index_nonneg, Nat2Z.id in Hh by lia.
  - injection Hh as <-. unfold BHL_to_list in *. rewrite length_fmap in Hj.
    rewrite list_lookup_fmap. unfold py_range in *. rewrite length_fmap, length_seq in Hj.
    rewrite list_lookup_fmap, lookup_seq_lt by lia. simpl. do 2 f_equal.
Qed.

(** The hit of one group covers what the next token needs: [cols] has one list
    of [k] blocks per group, and every token before position [q = k * block
    size] that the token at [q] attends to lies in a block that the cache holds
    for its position and group. *)
Definition sound_hit (p : BlockPool.t) (gs : list Z) (hashes : BlockHashList) (spec : KVCacheSpec)
    (k : nat) (cols : list (list bref)) : Prop :=
  shape gs k cols /\
  forall t h, 0 <= t < Z.of_nat k * block_size spec ->
    attends spec (Z.of_nat k * block_size spec) t ->
    bhl_get hashes (t / block_size spec) = Some h ->
    hit_at p gs cols (Z.to_nat (t / block_size spec)) h.

(** What the coordinator relies on: a search that succeeds, and whose hit is
    sound, within the length asked for, and aligned. *)
Class Finder (p : BlockPool.t) (gs : list Z) (hashes : BlockHashList) (cls : ManagerClass)
    (spec : KVCacheSpec) (use_eagle : bool) (al limit : Z) : Prop :=
  finds max_length : 0 <= max_length <= limit ->
    exists k cols, PrefixHit.find_longest_cache_hit p gs cls hashes max_length spec use_eagle al 1 1
      = inr cols /\ sound_hit p gs hashes spec k cols /\
      Z.of_nat k * block_size spec <= max_length /\
      (block_size spec = al \/ (Z.of_nat k * block_size spec) mod al = 0).

(** The side conditions of chunked attention: its method takes no eagle flag
    and no larger alignment, and its chunks must be whole blocks. *)
Definition chunk_ok (spec : KVCacheSpec) (use_eagle : bool) (al : Z) : Prop :=
  match spec with
  | ChunkedLocalAttentionSpec a chunk =>
      use_eagle = false /\ al = a_block_size a /\ chunk mod a_block_size a = 0
  | CrossAttentionSpec _ => False
  | _ => True
  end.

Section contract.
Context (p : BlockPool.t) (n : nat) (free : list bref) (gs : list Z) (hashes : BlockHashList).
Context (spec : KVCacheSpec) (use_eagle : bool) (al limit : Z).
Context (Hc : pool_core n p free) (Hgs : group_ids_ok gs) (Hne : gs <> []) (Hal : 0 < al).
Context (Hdef : forall j, Z.of_nat j < limit / block_size spec -> is_Some (bhl_get hashes (Z.of_nat j))).

Lemma full_finder cls :
  cls = FullAttentionManager \/ cls = SinkFullAttentionManager ->
  is_full spec = true -> 0 < block_size spec -> Finder p gs hashes cls spec use_eagle al limit.
Proof using Hc Hgs Hne Hal.
  intros Hcls Hf Hbs len [Hlen _].
  destruct (full_hit_spec p n free gs hashes len spec use_eagle al 1 1 Hc Hgs Hne Hf Hbs Hal Hlen)
    as (k & cols & He & Hs & Hle & Ha & Hk & Hhit & _).
  exists k, cols. split; [by destruct Hcls as [-> | ->]|]. split; [|done]. split; [done|].
  intros t h Ht _ Hh. change (parallel_block_size spec 1 1) with (block_size spec) in *.
  assert (0 <= t / block_size spec) by (apply Z.div_pos; lia).
  assert (t / block_size spec < Z.of_nat k) by (apply Z.div_lt_upper_bound; lia).
  apply Hhit; [lia|]. apply bhl_get_list; [lia|]. by rewrite Z2Nat.id.
Qed.

Lemma window_finder w :
  sliding_window_of spec = Some w -> 1 <= w -> 0 < block_size spec ->
  (forall q t, attends spec q t <-> q - w < t) ->
  Finder p gs hashes SlidingWindowManager spec use_eagle al limit.
Proof using Hc Hgs Hne Hal Hdef.
  intros Hw Hw1 Hbs Hat len [Hlen Hlim].
  destruct (window_hit_spec p n free gs hashes len w spec use_eagle al Hc Hgs Hne Hw ltac:(lia) Hbs Hal Hlen)
    as (k & cols & He & Hs & Hle & Ha & Hhit).
  { intros j Hj. apply Hdef. pose proof (Z.div_le_mono len limit _ Hbs Hlim). lia. }
  exists k, cols. split; [done|]. split; [|done]. split; [done|].
  intros t h Ht Hatt%Hat Hh. apply Hhit; [lia|done].
Qed.

Lemma mamba_finder :
  is_mamba spec = true -> 0 < block_size spec ->
  (forall q t, attends spec q t <-> q - 1 <= t) ->
  Finder p gs hashes MambaManager spec use_eagle al limit.
Proof using Hc Hgs Hne Hal Hdef.
  intros Hm Hbs Hat len [Hlen Hlim].
  destruct (mamba_hit_spec p n free gs hashes len spec use_eagle al Hc Hgs Hne Hm Hbs Hal Hlen)
    as (k & cols & He & Hs & Hle & Ha & Hhit).
  { intros j Hj. apply Hdef. pose proof (Z.div_le_mono len limit _ Hbs Hlim). lia. }
  exists k, cols. split; [done|]. split; [|done]. split; [done|].
  intros t h Ht Hatt%Hat Hh. destruct k as [|k]; [lia|].
  assert (t / block_size spec = Z.of_nat k) as Hq.
  { symmetry. apply (Z.div_unique _ _ _ (block_size spec - 1)); lia. }
  rewrite Hq in *. rewrite Nat2Z.id. by apply Hhit.
Qed.

Lemma chunked_finder a chunk :
  spec = ChunkedLocalAttentionSpec a chunk -> 0 < chunk -> 0 < a_block_size a ->
  chunk_ok spec use_eagle al ->
  Finder p gs hashes ChunkedLocalAttentionManager spec use_eagle al limit.
Proof using Hal Hc Hgs Hne Hdef.
  intros -> Hch Hbs (-> & -> & Hmod) len [Hlen Hlim]. simpl in *.
  set (bs := a_block_size a) in *.
  destruct (chunked_hit_spec p n free gs hashes len chunk a Hc Hgs Hne Hbs Hch Hlen)
    as (k & cols & He & Hs & [Hst Hk] & Hhit & _).
  { intros j Hj. rewrite <- (Z2Nat.id j) by lia. apply Hdef. simpl. fold bs in Hj |- *.
    pose proof (Z.div_le_mono len limit _ Hbs Hlim). lia. }
  fold bs in Hst, Hk, Hhit. pose proof (Z.mul_div_le len bs Hbs) as Hlb.
  exists k, cols. split; [done|]. split; [|split; [nia|by left]]. split; [done|].
  simpl. fold bs. intros t h Ht Hat Hh.
  assert (0 <= t / bs) by (apply Z.div_pos; lia).
  assert (t / bs < Z.of_nat k) by (apply Z.div_lt_upper_bound; lia).
  apply Hhit; [|by rewrite Z2Nat.id by lia]. rewrite Z2Nat.id by lia. split; [|done].
  (* The chunk of [k * bs] starts at a block boundary at or after the first block looked up. *)
  assert (chunk = bs * (chunk / bs)) as Hcb by (apply Z.div_exact; [lia|done]).
  apply Z.div_le_mono; [done|].
  transitivity (t / chunk * chunk); [|rewrite Z.mul_comm; by apply Z.mul_div_le].
  rewrite Hat. apply Z.mul_le_mono_nonneg_r; [lia|]. apply Z.div_le_lower_bound; [done|].
  assert (bs * (len / chunk * (chunk / bs)) = chunk * (len / chunk)) as Hs2 by (rewrite Hcb at 3; ring).
  assert (len / chunk * chunk / bs = len / chunk * (chunk / bs)) as Hs3.
  { symmetry. apply Z.div_unique_exact; lia. }
  rewrite Hs3 in Hst. nia.
Qed.
End contract.

(** Every search the model dispatches to keeps the contract. *)
Lemma find_contract (p : BlockPool.t) (n : nat) (free : list bref) (gs : list Z)
    (hashes : BlockHashList) (spec : KVCacheSpec) (cls : ManagerClass) (use_eagle : bool) (al limit : Z) :
  pool_core n p free -> group_ids_ok gs -> gs <> [] -> 0 < al ->
  Manager.spec_manager_map spec = Some cls -> spec_params_ok spec -> chunk_ok spec use_eagle al ->
  (forall j, Z.of_nat j < limit / block_size spec -> is_Some (bhl_get hashes (Z.of_nat j))) ->
  Finder p gs hashes cls spec use_eagle al limit.
Proof.
  intros Hc Hgs Hne Hal Hcls [Hbs Hp] Hchunk Hdef.
  destruct spec; simpl in Hcls; try discriminate; injection Hcls as <-.
  1,2,3: eapply full_finder; eauto.
  1: eapply full_finder; eauto.
  1: eapply chunked_finder; eauto.
  1,2: eapply window_finder; eauto; done.
  - eapply mamba_finder; eauto; done.
  - done.
Qed.


(** Full attention finds the longest hit: without eagle and re-alignment,
    every block of the result carries the hash of its position in every group,
    and the search stops only at the length limit or where some group has no
    block. *)
Theorem full_hit_longest (p : BlockPool.t) (n : nat) (free : list bref) (gs : list Z)
    (hashes : BlockHashList) (max_length : Z) (spec : KVCacheSpec) (dcp pcp : Z)
    (Hc : pool_core n p free) (Hgs : group_ids_ok gs) (Hne : gs <> [])
    (Hspec : is_full spec = true) (Hbs : 0 < parallel_block_size spec dcp pcp)
    (Hlen : 0 <= max_length) :
  let bs := parallel_block_size spec dcp pcp in
  exists k cols,
    PrefixHit.find_longest_cache_hit p gs FullAttentionManager hashes max_length spec false bs dcp pcp
      = inr cols /\
    shape gs k cols /\ Z.of_nat k * bs <= max_length /\
    (forall j h, (j < k)%nat -> bhl_list hashes !! j = Some h -> hit_at p gs cols j h) /\
    ((Z.of_nat k + 1) * bs <= max_length ->
     forall h, bhl_list hashes !! k = Some h -> miss p gs h).
Proof.
  intros bs. destruct (full_hit_spec p n free gs hashes max_length spec false bs dcp pcp
    Hc Hgs Hne Hspec Hbs Hbs Hlen) as (k & cols & He & Hs & Hle & _ & _ & Hhit & Hmiss).
  exists k, cols. split; [done|]. split; [done|]. split; [done|]. split; [done|].
  by apply Hmiss.
Qed.

(** ** Witnesses *)

#[local] Existing Instance demo_env.

(** The request with two full blocks, and the pool that caches them in group 0. *)
Definition demo_hashes : BlockHashList :=
  HashList (block_hashes (demo_hashed_request "a" [5; 6; 7; 8; 9])).
Definition demo_pool3 : BlockPool.t :=
  final (BlockPool.cache_full_blocks (demo_hashed_request "a" [5; 6; 7; 8; 9])
           [Blk 1; Blk 2] 0 2 2 0 demo_pool2).

Lemma demo_pool3_core : pool_core 4 demo_pool3 [Blk 3].
Proof.
  assert (leaves (BlockPool.cache_full_blocks (demo_hashed_request "a" [5; 6; 7; 8; 9])
    [Blk 1; Blk 2] 0 2 2 0) demo_pool2 (fun p => pool_rep 4 p [Blk 3] [Blk 1; Blk 2] [])) as Hl.
  { apply (cache_full_blocks_leaves 4); [exact demo_pool2_rep|].
    repeat constructor; eexists; (split; [reflexivity|lia]). }
  unfold leaves in Hl. unfold demo_pool3.
  destruct (BlockPool.cache_full_blocks _ _ _ _ _ _ demo_pool2); by apply pr_core in Hl.
Qed.

Lemma demo_group_ok : group_ids_ok [0].
Proof. repeat constructor; lia. Qed.

Lemma demo_hashes_defined j :
  Z.of_nat j < 5 / 2 -> is_Some (bhl_get demo_hashes (Z.of_nat j)).
Proof.
  intros Hj. assert (j = 0 \/ j = 1)%nat as [-> | ->] by (change (5 / 2) with 2 in Hj; lia);
    apply (bool_decide_unpack _); vm_compute; exact I.
Qed.

Lemma full_hit_longest_witness :
  exists k cols, PrefixHit.find_longest_cache_hit demo_pool3 [0] FullAttentionManager demo_hashes 5
      (FullAttentionSpec (demo_block 2) (demo_full None)) false 2 1 1 = inr cols /\
    shape [0] k cols /\ cols = [[Blk 1; Blk 2]].
Proof.
  destruct (full_hit_longest demo_pool3 4 [Blk 3] [0] demo_hashes 5
    (FullAttentionSpec (demo_block 2) (demo_full None)) 1 1
    demo_pool3_core demo_group_ok ltac:(discriminate) eq_refl ltac:(reflexivity) ltac:(lia))
    as (k & cols & He & Hs & _).
  exists k, cols. split; [exact He|]. split; [exact Hs|].
  vm_compute in He. congruence.
Defined.


(** When chunks are not whole blocks the chunked search is unsound: with
    blocks of four tokens and chunks of six, on an empty cache, the hit for
    seven tokens has one null block, although token 4, which is computed next,
    attends to token 0 of the same chunk. *)
Theorem chunked_hit_unaligned :
  let spec := ChunkedLocalAttentionSpec (demo_block 4) 6 in
  PrefixHit.find_longest_cache_hit demo_pool [0] ChunkedLocalAttentionManager
    (HashList [[1]]) 7 spec false 4 1 1 = inr [[Blk 0]] /\
  attends spec 4 0 /\
  BlockPool.cached_block_hash_to_block demo_pool = ∅.
Proof. split; [vm_compute; reflexivity|]. split; [|vm_compute; reflexivity]. reflexivity. Qed.
