(* ===== verification/Ownership.v ===== *)
(** * Who holds which block: proofs about the single-type managers

    The references a manager holds are the blocks in its request tables; every
    operation keeps them in agreement with the reference counts of the pool.
    On top of it: the admission predictor is sufficient, skipped blocks are
    outside the attention window, and the counterexamples of align mode and of
    the sink manager. *)

From S2P Require Import Prelude FreeQueue Request BlockHash BlockPool CacheSpec SingleType.
From stdpp Require Import options.

Import Manager.

(** ** The references of a manager *)

(** The blocks of a list without the null block. *)
Definition real_blocks (l : list bref) : list bref := filter (fun r => r <> Blk 0) l.

(** All blocks of a request table. *)
Definition table_blocks (t : gmap string (list bref)) : list bref :=
  real_blocks (concat (map_to_list t).*2).

Definition held_by (m : Manager.t) : list bref := table_blocks (req_to_blocks m).

Definition blocks_of (request_id : string) (m : Manager.t) : list bref :=
  default [] (req_to_blocks m !! request_id).

(** A list of blocks of the pool without repetitions, except the null block. *)
Definition block_list (n : nat) (l : list bref) : Prop :=
  Forall (real n) l /\ NoDup (real_blocks l).

Lemma real_blocks_app l1 l2 : real_blocks (l1 ++ l2) = real_blocks l1 ++ real_blocks l2.
Proof. apply filter_app. Qed.

Lemma real_blocks_null k : real_blocks (py_repeat (Blk 0) k) = [].
Proof.
  unfold py_repeat. induction (Z.to_nat k) as [|m IH]; [done|]. simpl.
  unfold real_blocks in *. by rewrite filter_cons_False by naive_solver.
Qed.

Lemma elem_of_real_blocks r l : r ∈ real_blocks l <-> r <> Blk 0 /\ r ∈ l.
Proof. unfold real_blocks. rewrite list_elem_of_filter. done. Qed.

Lemma real_blocks_id l : (Blk 0 ∉ l) -> real_blocks l = l.
Proof. intros H0. apply list_filter_all. intros r Hr Heq. by rewrite Heq in Hr. Qed.

Lemma real_blocks_perm l1 l2 : l1 ≡ₚ l2 -> real_blocks l1 ≡ₚ real_blocks l2.
Proof. unfold real_blocks. by intros ->. Qed.

Lemma table_insert t request_id l :
  table_blocks (<[request_id := l]> t) ≡ₚ real_blocks l ++ table_blocks (delete request_id t).
Proof.
  unfold table_blocks. rewrite <- insert_delete_eq. rewrite <- real_blocks_app.
  apply real_blocks_perm. rewrite map_to_list_insert by apply lookup_delete_eq. done.
Qed.

Lemma table_split t request_id :
  table_blocks t ≡ₚ real_blocks (default [] (t !! request_id)) ++ table_blocks (delete request_id t).
Proof.
  destruct (t !! request_id) as [l|] eqn:El; simpl.
  - rewrite <- table_insert. by rewrite insert_id.
  - by rewrite delete_id.
Qed.

Lemma table_blocks_elem t request_id l r :
  t !! request_id = Some l -> r ∈ l -> r <> Blk 0 -> r ∈ table_blocks t.
Proof.
  intros Hl Hr H0. rewrite (table_split t request_id), Hl, elem_of_app, elem_of_real_blocks. auto.
Qed.

(** What holds of a manager with the pool it shares: the counts of the pool are
    the references of the manager and of the [others]. *)
Record mgr_rep (n : nat) (s : state) (free others reserved : list bref) : Prop := {
  mr_pool : pool_rep n s.2 free (held_by s.1 ++ others) reserved;
  mr_null : _null_block s.1 = Blk 0;
  mr_bs : 0 < m_block_size s.1;
  mr_lists request_id l : req_to_blocks s.1 !! request_id = Some l -> block_list n l;
}.

Lemma blocks_of_list n s free others reserved request_id :
  mgr_rep n s free others reserved -> block_list n (blocks_of request_id s.1).
Proof.
  intros Hm. unfold blocks_of. destruct (req_to_blocks s.1 !! request_id) eqn:E; simpl.
  - by eapply mr_lists.
  - split; [done|apply NoDup_nil_2].
Qed.

(** The other fields of the manager do not matter. *)
Lemma mgr_rep_eq n s s' free others reserved :
  mgr_rep n s free others reserved -> s'.2 = s.2 -> req_to_blocks s'.1 = req_to_blocks s.1 ->
  _null_block s'.1 = _null_block s.1 -> m_block_size s'.1 = m_block_size s.1 ->
  mgr_rep n s' free others reserved.
Proof.
  intros [Hp H0 Hbs Hl] E1 E2 E3 E4. constructor.
  - unfold held_by. rewrite E1, E2. exact Hp.
  - by rewrite E3.
  - by rewrite E4.
  - rewrite E2. exact Hl.
Qed.

(** Replacing the list of one request and the pool. *)
Lemma mgr_rep_set n s p' free free' others reserved request_id l (f : Manager.t -> Manager.t) :
  mgr_rep n s free others reserved -> block_list n l ->
  pool_rep n p' free' (real_blocks l ++ table_blocks (delete request_id (req_to_blocks s.1)) ++ others)
    reserved ->
  req_to_blocks (f s.1) = <[request_id := l]> (req_to_blocks s.1) ->
  _null_block (f s.1) = _null_block s.1 -> m_block_size (f s.1) = m_block_size s.1 ->
  mgr_rep n (f s.1, p') free' others reserved.
Proof.
  intros [Hp H0 Hbs Hl] Hbl Hp' Ht Hn Hb. constructor; simpl.
  - eapply pool_rep_perm; [|exact Hp']. unfold held_by. rewrite Ht, table_insert. by rewrite <- app_assoc.
  - by rewrite Hn.
  - by rewrite Hb.
  - intros rid' l'. rewrite Ht, lookup_insert. case_decide; [by intros [= <-]|apply Hl].
Qed.

(** ** Running the primitive operations *)

(** The fields the constructor fixes. *)
Definition config (m : Manager.t) :=
  (m_class m, m_spec m, m_block_size m, m_enable_caching m,
   _max_admission_blocks_per_request m, kv_cache_group_id m, _null_block m, sink_blocks m).

Lemma config_eq m m' :
  config m' = config m ->
  m_class m' = m_class m /\ m_spec m' = m_spec m /\ m_block_size m' = m_block_size m /\
  m_enable_caching m' = m_enable_caching m /\ _null_block m' = _null_block m.
Proof. unfold config. intros [=]. done. Qed.

(** [req_to_blocks[request_id]] inserts the empty list when it is missing. *)
Definition seen (request_id : string) (m : Manager.t) : Manager.t :=
  set_req_to_blocks (<[request_id := blocks_of request_id m]> (req_to_blocks m)) m.

Lemma req_blocks_run request_id s :
  req_blocks request_id s = Ret (blocks_of request_id s.1) (seen request_id s.1, s.2).
Proof.
  destruct s as [m p]. unfold req_blocks, seen, blocks_of, bind, self. simpl.
  destruct (req_to_blocks m !! request_id) as [l|] eqn:El; simpl; [|done].
  rewrite insert_id by done. by destruct m.
Qed.

Lemma succeeds_req_blocks request_id s (Q : list bref -> state -> Prop) :
  Q (blocks_of request_id s.1) (seen request_id s.1, s.2) -> succeeds (req_blocks request_id) s Q.
Proof. unfold succeeds. by rewrite req_blocks_run. Qed.

Lemma succeeds_self s (Q : Manager.t -> state -> Prop) : Q s.1 s -> succeeds self s Q.
Proof. done. Qed.

Lemma succeeds_block_pool s (Q : BlockPool.t -> state -> Prop) : Q s.2 s -> succeeds block_pool s Q.
Proof. done. Qed.

Lemma succeeds_update f s (Q : unit -> state -> Prop) : Q tt (f s.1, s.2) -> succeeds (update f) s Q.
Proof. done. Qed.

Lemma succeeds_set_req_blocks request_id l s (Q : unit -> state -> Prop) :
  Q tt (set_req_to_blocks (<[request_id := l]> (req_to_blocks s.1)) s.1, s.2) ->
  succeeds (set_req_blocks request_id l) s Q.
Proof. done. Qed.

Lemma succeeds_on_pool {A} (f : M BlockPool.t A) s (Q : A -> state -> Prop) :
  succeeds f s.2 (fun a p => Q a (s.1, p)) -> succeeds (on_pool f) s Q.
Proof. intros Hs. unfold on_pool. by apply succeeds_zoom. Qed.

(** Symbolic execution of the manager's primitives. *)
Ltac mstep :=
  lazymatch goal with
  | |- succeeds self _ _ => apply succeeds_self
  | |- succeeds block_pool _ _ => apply succeeds_block_pool
  | |- succeeds (update _) _ _ => apply succeeds_update
  | |- succeeds (req_blocks _) _ _ => apply succeeds_req_blocks
  | |- succeeds (set_req_blocks _ _) _ _ => apply succeeds_set_req_blocks
  | _ => sstep
  end; cbv beta; cbn [fst snd].

Lemma blocks_of_seen request_id m : blocks_of request_id (seen request_id m) = blocks_of request_id m.
Proof. unfold blocks_of at 1, seen. simpl. by rewrite lookup_insert_eq. Qed.

Lemma mgr_rep_seen n s free others reserved request_id :
  mgr_rep n s free others reserved ->
  mgr_rep n (seen request_id s.1, s.2) free others reserved.
Proof.
  intros Hm. eapply (mgr_rep_set n s s.2 free free others reserved request_id); [done| | |done..].
  - by eapply blocks_of_list.
  - eapply pool_rep_perm; [|apply (mr_pool _ _ _ _ _ Hm)].
    unfold held_by. by rewrite (table_split _ request_id) at 1; rewrite <- app_assoc.
Qed.

(** The free blocks of the pool are real, distinct and held by nobody. *)
Lemma free_block_list n p free held reserved k :
  pool_rep n p free held reserved -> block_list n (take k free) /\ (Blk 0 ∉ take k free).
Proof.
  intros Hp. assert (Blk 0 ∉ take k free) as H0.
  { intros Hin. apply elem_of_take in Hin as (i & Hi & _). apply list_elem_of_lookup_2 in Hi.
    apply (pr_free _ _ _ _ _ Hp) in Hi as [Hu _]. by apply usable_null in Hu. }
  split; [split|done].
  - apply Forall_forall. intros r (i & Hi & _)%elem_of_take. apply list_elem_of_lookup_2 in Hi.
    apply (pr_free _ _ _ _ _ Hp) in Hi as [(j & -> & _ & Hj)%elem_of_usable _]. by exists j.
  - rewrite real_blocks_id by done. eapply sublist_NoDup; [|apply sublist_take].
    apply (rep_nodup _ _ (pc_queue _ _ _ (pr_core _ _ _ _ _ Hp))).
Qed.

(** Appending blocks nobody holds keeps a list free of repetitions. *)
Lemma block_list_app n l1 l2 :
  block_list n l1 -> block_list n l2 -> (forall r, r ∈ real_blocks l2 -> r ∉ real_blocks l1) ->
  block_list n (l1 ++ l2).
Proof.
  intros [Hf1 Hn1] [Hf2 Hn2] Hd. split; [by apply Forall_app|].
  rewrite real_blocks_app. apply NoDup_app. split; [done|]. split; [|done].
  intros r H1 H2. by apply (Hd r H2).
Qed.

(** ** Allocation *)

Section allocation.
Context `{HashEnv}.
Variable n : nat.
Implicit Types (s : state) (free others reserved : list bref) (request_id : string).

(** What an operation on the table of [request_id] must not change. *)
Definition keeps request_id s s' : Prop :=
  config s'.1 = config s.1 /\ num_cached_block s'.1 = num_cached_block s.1 /\
  (forall rid, rid <> request_id -> req_to_blocks s'.1 !! rid = req_to_blocks s.1 !! rid) /\
  (forall rid, rid <> request_id -> blocks_of rid s'.1 = blocks_of rid s.1).

(** New blocks are not among the blocks a request has. *)
Lemma new_disjoint s free others reserved request_id k r :
  mgr_rep n s free others reserved -> r ∈ real_blocks (take k free) ->
  r ∉ real_blocks (blocks_of request_id s.1).
Proof.
  intros Hm [_ Hr]%elem_of_real_blocks [Hr0 Hin]%elem_of_real_blocks.
  apply elem_of_take in Hr as (i & Hi & _). apply list_elem_of_lookup_2 in Hi.
  apply (pr_free _ _ _ _ _ (mr_pool _ _ _ _ _ Hm)) in Hi as (_ & Hi & _). apply Hi.
  rewrite elem_of_app. left. unfold held_by. rewrite (table_split _ request_id), elem_of_app. left.
  by apply elem_of_real_blocks.
Qed.

(** Giving new blocks to a request, as part of its list [l]. *)
Lemma pool_rep_grow s p' free' others reserved request_id new l :
  pool_rep n p' free' (new ++ held_by s.1 ++ others) reserved ->
  real_blocks l ≡ₚ real_blocks (blocks_of request_id s.1) ++ new ->
  pool_rep n p' free' (real_blocks l ++ table_blocks (delete request_id (req_to_blocks s.1)) ++ others)
    reserved.
Proof.
  intros Hp Hl. eapply pool_rep_perm; [|exact Hp]. rewrite Hl. unfold held_by.
  rewrite (table_split _ request_id). fold (blocks_of request_id s.1).
  rewrite <- !app_assoc. rewrite !app_assoc. do 2 f_equiv. apply Permutation_app_comm.
Qed.

Lemma null_real s free others reserved : mgr_rep n s free others reserved -> real n (Blk 0).
Proof.
  intros Hm. exists 0%nat. split; [done|].
  pose proof (pc_pos _ _ _ (pr_core _ _ _ _ _ (mr_pool _ _ _ _ _ Hm))). lia.
Qed.

Lemma extend_spec s free others reserved request_id k :
  mgr_rep n s free others reserved -> 0 <= k <= len free ->
  succeeds (extend_with_new request_id k) s (fun new s' =>
    new = take (Z.to_nat k) free /\
    mgr_rep n s' (drop (Z.to_nat k) free) others reserved /\
    req_to_blocks s'.1 = <[request_id := blocks_of request_id s.1 ++ new]> (req_to_blocks s.1) /\
    config s'.1 = config s.1 /\ num_cached_block s'.1 = num_cached_block s.1).
Proof.
  intros Hm Hk. pose proof (mr_pool _ _ _ _ _ Hm) as Hp. unfold extend_with_new. mstep.
  apply succeeds_on_pool. eapply succeeds_mono; [by apply (get_new_blocks_spec n)|].
  intros new p' (-> & Hp' & _). set (new := take (Z.to_nat k) free) in *.
  destruct (free_block_list n _ _ _ _ (Z.to_nat k) Hp) as [Hnew H0]. fold new in Hnew, H0.
  destruct (blocks_of_list _ _ _ _ _ request_id Hm) as [Hf Hnd].
  do 5 mstep.
  assert (mgr_rep n (set_req_to_blocks (<[request_id := blocks_of request_id s.1 ++ new]> (req_to_blocks s.1)) s.1, p')
    (drop (Z.to_nat k) free) others reserved) as Hm'.
  { eapply mgr_rep_set; [exact Hm| | |done..].
    - apply block_list_app; [done..|]. intros r. by eapply new_disjoint.
    - eapply pool_rep_grow; [exact Hp'|]. by rewrite real_blocks_app, (real_blocks_id new). }
  mstep. destruct (records_new_blocks _); repeat mstep; (split; [done|]);
    (split; [eapply mgr_rep_eq; [exact Hm'|done| |done..]|split; [|done]]);
    simpl; by rewrite insert_insert_eq.
Qed.

Lemma base_allocate_spec s free others reserved request_id num_tokens :
  mgr_rep n s free others reserved ->
  let k := Z.max 0 (cdiv num_tokens (m_block_size s.1) - len (blocks_of request_id s.1)) in
  k <= len free ->
  succeeds (base_allocate_new_blocks request_id num_tokens) s (fun new s' =>
    new = take (Z.to_nat k) free /\
    mgr_rep n s' (drop (Z.to_nat k) free) others reserved /\
    req_to_blocks s'.1 = <[request_id := blocks_of request_id s.1 ++ new]> (req_to_blocks s.1) /\
    config s'.1 = config s.1 /\ num_cached_block s'.1 = num_cached_block s.1).
Proof.
  intros Hm k Hk. unfold base_allocate_new_blocks. do 4 mstep.
  change (m_block_size (seen request_id s.1)) with (m_block_size s.1).
  pose proof (mgr_rep_seen n s free others reserved request_id Hm) as Hm1.
  destruct (Z.leb_spec (cdiv num_tokens (m_block_size s.1) - len (blocks_of request_id s.1)) 0).
  - mstep. assert (k = 0) as -> by lia. simpl. rewrite take_0, drop_0, app_nil_r. done.
  - replace (cdiv num_tokens (m_block_size s.1) - len (blocks_of request_id s.1)) with k by lia.
    eapply succeeds_mono; [apply (extend_spec _ _ _ _ _ _ Hm1); lia|].
    intros new s' (-> & Hm' & Ht & Hc & Hn). split; [done|]. split; [done|]. split; [|done].
    rewrite Ht. simpl. rewrite blocks_of_seen. by rewrite insert_insert_eq.
Qed.

(** The blocks a predictor counts as evictable are the ones touching takes out
    of the free queue. *)
Lemma evictable_spec p free held reserved bs :
  pool_rep n p free held reserved -> Forall (touchable n reserved) bs -> NoDup (real_blocks bs) ->
  len (filter (fun r => r ∉ bs) free) = len free - _get_num_evictable_blocks (BlockPool.heap p) bs.
Proof.
  intros Hp Hbs Hnd. pose proof Hp as [Hc Hr Hfree Hheld _ _]. unfold _get_num_evictable_blocks.
  assert (forall r, r ∈ bs -> exists i, r = Blk i /\ (i < n)%nat) as Hreal.
  { rewrite Forall_forall in Hbs. intros r Hr'. destruct (Hbs r Hr') as (i & -> & Hi & _). eauto. }
  rewrite (to_free_spec n p free held bs) by done.
  assert (filter (fun r => r ∈ bs) free ≡ₚ freed held bs) as Hperm.
  { apply NoDup_Permutation.
    - apply NoDup_filter, (rep_nodup _ _ (pc_queue _ _ _ Hc)).
    - unfold freed. eapply sublist_NoDup; [exact Hnd|]. unfold real_blocks.
      rewrite (list_filter_iff _ (fun r => (r ∉ held) /\ r <> Blk 0)) by (intros; tauto).
      rewrite <- (list_filter_filter (fun r => r ∉ held) (fun r => r <> Blk 0)). apply sublist_filter.
    - intros r. unfold freed. rewrite !list_elem_of_filter, Hfree. split.
      + intros (Hin & Hu & Hnh & _). split; [|done]. split; [|done]. intros ->.
        by apply usable_null in Hu.
      + intros ((H0 & Hnh) & Hin). split; [done|]. rewrite Forall_forall in Hbs.
        destruct (Hbs r Hin) as (i & -> & Hi & Hres). split; [|split; [done|]].
        * apply elem_of_usable. exists i. split_and!; [done| |done]. congruence.
        * apply Hres. congruence. }
  rewrite <- Hperm. clear. induction free as [|r l IH]; [done|].
  rewrite !filter_cons. repeat case_decide; try tauto; rewrite !len_cons; lia.
Qed.

Lemma block_list_drop bs k : NoDup (real_blocks bs) -> NoDup (real_blocks (drop k bs)).
Proof.
  rewrite <- (take_drop k bs) at 1. rewrite real_blocks_app. by intros (_ & _ & ?)%NoDup_app.
Qed.

(** Taking over the computed blocks of a new request; [skipped] blocks of it lie
    before the window.  After the blocks are touched and recorded only the
    allocation for external tokens is left. *)
Section computed.
Variables (s : state) (free others reserved : list bref) (request_id : string).
Variables (new : list bref) (local ext : Z).
Let total := local + ext.
Let bs := m_block_size s.1.
Let skipped := get_num_skipped_tokens s.1 total / bs.
Let kept := drop (Z.to_nat skipped) new.
Let blocks1 := py_repeat (Blk 0) skipped ++ kept.
Let free1 := filter (fun r => r ∉ kept) free.
Let ext1 := if 0 <? skipped then Z.min (total - get_num_skipped_tokens s.1 total) ext else ext.

Hypothesis Hm : mgr_rep n s free others reserved.
Hypothesis Hnc : num_cached_block s.1 !! request_id = None.
Hypothesis Hnil : blocks_of request_id s.1 = [].
Hypothesis Hnew : Forall (touchable n reserved) new.
Hypothesis Hnd : NoDup (real_blocks new).
Hypothesis Hcache : m_enable_caching s.1 = false -> new = [].

Definition computed_manager : Manager.t :=
  let m := set_req_to_blocks (<[request_id := blocks1]> (req_to_blocks s.1)) s.1 in
  set_num_cached_block (<[request_id := len blocks1]> (num_cached_block m)) m.

Lemma computed_touched :
  exists p1, mgr_rep n (computed_manager, p1) free1 others reserved /\
    base_allocate_new_computed_blocks request_id new local ext s =
      (if 0 <? ext1 then extend_with_new request_id (cdiv total bs - len blocks1) ;;; ret tt
       else ret tt) (computed_manager, p1).
Proof using All.
  pose proof (mr_pool _ _ _ _ _ Hm) as Hp. pose proof (mr_null _ _ _ _ _ Hm) as H0.
  assert (Forall (touchable n reserved) kept) as Hkept by (by apply Forall_drop).
  assert (exists p1, (if m_enable_caching s.1 then on_pool (BlockPool.touch kept)
      else assert (len kept =? 0)) (seen request_id s.1, s.2) = Ret tt (seen request_id s.1, p1) /\
    pool_rep n p1 free1 (real_blocks kept ++ held_by s.1 ++ others) reserved) as (p1 & Hrun & Hp1).
  { destruct (m_enable_caching s.1).
    - pose proof (touch_spec n _ _ _ _ _ Hp Hkept) as Ht. apply succeeds_inv in Ht as ([] & p1 & Ht & Hp1 & _).
      exists p1. split; [|done]. unfold on_pool, zoom. simpl. by rewrite Ht.
    - assert (kept = []) as Hk0 by (unfold kept; rewrite Hcache by done; by destruct (Z.to_nat skipped)).
      exists s.2. unfold free1. rewrite Hk0. split; [done|]. rewrite list_filter_all by set_solver. exact Hp. }
  exists p1. split.
  - apply (mgr_rep_set n s p1 free free1 others reserved request_id blocks1
      (fun _ => computed_manager)); [done| | |done..].
    + split; [|unfold blocks1; rewrite real_blocks_app, real_blocks_null; by apply block_list_drop].
      apply Forall_app. split.
      * apply Forall_replicate. by eapply null_real.
      * eapply Forall_impl; [exact Hkept|]. intros r (i & -> & Hi & _). by exists i.
    + unfold blocks1. rewrite real_blocks_app, real_blocks_null. simpl.
      eapply pool_rep_perm; [|exact Hp1]. unfold held_by.
      rewrite (table_split (req_to_blocks s.1) request_id).
      fold (blocks_of request_id s.1). by rewrite Hnil.
  - unfold base_allocate_new_computed_blocks. erewrite bind_Ret by done. rewrite Hnc.
    erewrite bind_Ret by apply req_blocks_run. rewrite Hnil. erewrite bind_Ret by done.
    fold total bs. cbv zeta. fold skipped.
    assert ((if 0 <? skipped then py_drop new skipped else new) = kept) as ->.
    { unfold kept. destruct (Z.ltb_spec 0 skipped); [apply py_drop_nonneg; lia|].
      by replace (Z.to_nat skipped) with 0%nat by lia. }
    erewrite bind_Ret by exact Hrun. rewrite H0. fold blocks1 ext1.
    erewrite bind_Ret by done. erewrite bind_Ret by done. f_equal. unfold computed_manager.
    simpl. unfold set_req_to_blocks, set_num_cached_block. simpl. by rewrite insert_insert_eq.
Qed.

Lemma computed_blocks_of : blocks_of request_id computed_manager = blocks1.
Proof using. unfold blocks_of. simpl. by rewrite lookup_insert_eq. Qed.

Lemma base_computed_spec :
  let k := if 0 <? ext1 then cdiv total bs - len blocks1 else 0 in
  0 <= k <= len free1 ->
  succeeds (base_allocate_new_computed_blocks request_id new local ext) s (fun _ s' =>
    mgr_rep n s' (drop (Z.to_nat k) free1) others reserved /\
    req_to_blocks s'.1 = <[request_id := blocks1 ++ take (Z.to_nat k) free1]> (req_to_blocks s.1) /\
    num_cached_block s'.1 = <[request_id := len blocks1]> (num_cached_block s.1) /\
    config s'.1 = config s.1).
Proof using All.
  intros k Hk. destruct computed_touched as (p1 & Hm1 & Hrun). unfold succeeds. rewrite Hrun.
  clear Hrun. destruct (0 <? ext1) eqn:Hext.
  - change (succeeds (extend_with_new request_id (cdiv total bs - len blocks1) ;;; ret tt)
      (computed_manager, p1) (fun _ s' =>
      mgr_rep n s' (drop (Z.to_nat k) free1) others reserved /\
      req_to_blocks s'.1 = <[request_id := blocks1 ++ take (Z.to_nat k) free1]> (req_to_blocks s.1) /\
      num_cached_block s'.1 = <[request_id := len blocks1]> (num_cached_block s.1) /\
      config s'.1 = config s.1)).
    mstep. eapply succeeds_mono; [apply (extend_spec _ _ _ _ request_id k Hm1); lia|].
    intros new' s' (-> & Hm' & Ht & Hc & Hn). mstep. split; [done|]. rewrite Ht.
    cbn [fst]. rewrite computed_blocks_of. simpl. rewrite insert_insert_eq.
    split; [done|]. by rewrite Hn.
  - assert (k = 0) as -> by done. simpl. rewrite take_0, drop_0, app_nil_r. done.
Qed.
End computed.

(** ** The admission predictor *)

Lemma base_predict_new s request_id num_tokens new total cap_on :
  num_cached_block s.1 !! request_id = None -> blocks_of request_id s.1 = [] ->
  cap_on = false \/ _max_admission_blocks_per_request s.1 = None ->
  let skipped := get_num_skipped_tokens s.1 total / m_block_size s.1 in
  base_get_num_blocks_to_allocate request_id num_tokens new total cap_on s =
    Ret (Z.max (cdiv num_tokens (m_block_size s.1) - Z.max skipped (len new)) 0
         + _get_num_evictable_blocks (BlockPool.heap s.2) (drop (Z.to_nat skipped) new)) s.
Proof.
  intros Hnc Hnil Hcap skipped. destruct s as [m p].
  unfold base_get_num_blocks_to_allocate, bind, self, block_pool. simpl in *.
  rewrite Hnc. unfold blocks_of in Hnil. simpl in Hnil. rewrite Hnil. fold skipped.
  unfold ret. rewrite len_nil, Z.add_0_r, Z.sub_0_r, py_drop_nonneg by lia.
  replace (Z.to_nat (Z.max 0 skipped)) with (Z.to_nat skipped) by lia.
  destruct (_max_admission_blocks_per_request m); [|done].
  destruct Hcap as [->|]; [done|congruence].
Qed.

Lemma base_predict_running s request_id num_tokens new total cap_on c :
  num_cached_block s.1 !! request_id = Some c ->
  cap_on = false \/ _max_admission_blocks_per_request s.1 = None ->
  base_get_num_blocks_to_allocate request_id num_tokens new total cap_on s =
    if len new =? 0
    then Ret (Z.max (cdiv num_tokens (m_block_size s.1) - len (blocks_of request_id s.1)) 0) s
    else Raise AssertionError s.
Proof.
  intros Hnc Hcap. destruct s as [m p].
  unfold base_get_num_blocks_to_allocate, bind, self, block_pool, assert. simpl in *.
  rewrite Hnc. fold (blocks_of request_id m). destruct (len new =? 0); [|done].
  destruct (_max_admission_blocks_per_request m); [|done].
  destruct Hcap as [->|]; [done|congruence].
Qed.

(** What the predictor promises: with [k] blocks of the free queue the request
    has room for [num_tokens] tokens, and nothing else changes. *)
Definition admitted s free others reserved request_id num_tokens k (s' : state) : Prop :=
  exists free', mgr_rep n s' free' others reserved /\ len free' = len free - k /\
    num_tokens <= m_block_size s.1 * len (blocks_of request_id s'.1) /\
    config s'.1 = config s.1 /\
    (forall rid, rid <> request_id -> req_to_blocks s'.1 !! rid = req_to_blocks s.1 !! rid).

Lemma admission_running s free others reserved request_id num_tokens new local ext k s1 c :
  mgr_rep n s free others reserved -> num_cached_block s.1 !! request_id = Some c ->
  base_get_num_blocks_to_allocate request_id num_tokens new (local + ext) false s = Ret k s1 ->
  k <= len free ->
  succeeds (base_allocate_new_computed_blocks request_id new local ext ;;;
            base_allocate_new_blocks request_id num_tokens) s (fun _ s' =>
    admitted s free others reserved request_id num_tokens k s').
Proof.
  intros Hm Hnc Hget Hk. pose proof (mr_bs _ _ _ _ _ Hm) as Hbs.
  set (bs := m_block_size s.1) in *. pose proof (cdiv_bounds num_tokens bs Hbs) as HR.
  set (R := cdiv num_tokens bs) in *.
  rewrite (base_predict_running s _ _ _ _ _ c) in Hget by auto.
  destruct (len new =? 0) eqn:E0; [|discriminate]. fold bs R in Hget. injection Hget as <- _.
  apply succeeds_bind. unfold base_allocate_new_computed_blocks. do 2 mstep. rewrite Hnc.
  apply succeeds_assert; [done|].
  eapply succeeds_mono; [apply (base_allocate_spec s free others reserved request_id num_tokens Hm)|].
  { fold bs R. lia. }
  fold bs R. intros blks s' (-> & Hm' & Ht & Hc & _). eexists. split; [exact Hm'|].
  split; [rewrite len_drop; lia|]. split; [|split; [done|]].
  + unfold blocks_of at 1. rewrite Ht, lookup_insert_eq. simpl. rewrite len_app, len_take. nia.
  + intros rid Hne. rewrite Ht. by rewrite lookup_insert_ne.
Qed.

Lemma admission_new s free others reserved request_id num_tokens new local ext k s1 :
  mgr_rep n s free others reserved ->
  num_cached_block s.1 !! request_id = None -> blocks_of request_id s.1 = [] ->
  Forall (touchable n reserved) new -> NoDup (real_blocks new) ->
  (m_enable_caching s.1 = false -> new = []) ->
  get_num_skipped_tokens s.1 (local + ext) <= local + ext ->
  len new * m_block_size s.1 <= local -> 0 <= ext -> local + ext <= num_tokens ->
  base_get_num_blocks_to_allocate request_id num_tokens new (local + ext) false s = Ret k s1 ->
  k <= len free ->
  succeeds (base_allocate_new_computed_blocks request_id new local ext ;;;
            base_allocate_new_blocks request_id num_tokens) s (fun _ s' =>
    admitted s free others reserved request_id num_tokens k s').
Proof.
  intros Hm Hnc Hnil Hnew Hnd Hcache Hskip Hlen Hext Htok Hget Hk.
  pose proof (mr_bs _ _ _ _ _ Hm) as Hbs. pose proof (mr_pool _ _ _ _ _ Hm) as Hp.
  set (bs := m_block_size s.1) in *. pose proof (cdiv_bounds num_tokens bs Hbs) as HR.
  set (R := cdiv num_tokens bs) in *.
  rewrite (base_predict_new s) in Hget by auto. fold bs R in Hget.
  set (skipped := get_num_skipped_tokens s.1 (local + ext) / bs) in *.
  injection Hget as <- _. set (kept := drop (Z.to_nat skipped) new) in *.
  set (ev := _get_num_evictable_blocks (BlockPool.heap s.2) kept) in *.
  assert (Forall (touchable n reserved) kept) as Hkept by (by apply Forall_drop).
  pose proof (evictable_spec _ _ _ _ kept Hp Hkept (block_list_drop _ _ Hnd)) as Hev. fold ev in Hev.
  set (free1 := filter (fun r => r ∉ kept) free) in *.
  set (blocks1 := py_repeat (Blk 0) skipped ++ kept).
  assert (len blocks1 = Z.max skipped (len new)) as Hl1.
  { unfold blocks1, kept. rewrite len_app, len_replicate, len_drop.
    pose proof (len_nonneg new). lia. }
  pose proof (cdiv_bounds (local + ext) bs Hbs) as HT.
  assert (skipped <= cdiv (local + ext) bs) as HST.
  { transitivity ((local + ext) / bs); [apply Z.div_le_mono; lia|by apply div_le_cdiv]. }
  assert (len new <= cdiv (local + ext) bs) as HNT by nia.
  assert (cdiv (local + ext) bs <= R) as HTR by (apply cdiv_mono; lia).
  set (ext1 := if 0 <? skipped then Z.min (local + ext - get_num_skipped_tokens s.1 (local + ext)) ext else ext).
  set (k1 := if 0 <? ext1 then cdiv (local + ext) bs - len blocks1 else 0).
  assert (0 <= k1 <= R - len blocks1) as Hk1 by (unfold k1; destruct (0 <? ext1); lia).
  assert (R - len blocks1 <= len free1) as Hfit by (rewrite Hev, Hl1; clear - Hk; lia).
  apply succeeds_bind. eapply succeeds_mono.
  { apply (base_computed_spec s free others reserved request_id new local ext); [done..|].
    change (0 <= k1 <= len free1). lia. }
  intros _ s2 (Hm2 & Ht2 & _ & Hc2).
  change (mgr_rep n s2 (drop (Z.to_nat k1) free1) others reserved) in Hm2.
  change (req_to_blocks s2.1 = <[request_id := blocks1 ++ take (Z.to_nat k1) free1]> (req_to_blocks s.1)) in Ht2.
  clearbody k1.
  assert (blocks_of request_id s2.1 = blocks1 ++ take (Z.to_nat k1) free1) as Hb2.
  { unfold blocks_of. by rewrite Ht2, lookup_insert_eq. }
  assert (len (blocks1 ++ take (Z.to_nat k1) free1) = len blocks1 + k1) as Hl2.
  { rewrite len_app, len_take. lia. }
  apply config_eq in Hc2 as Hc2'. destruct Hc2' as (_ & _ & Hbs2 & _ & _). fold bs in Hbs2.
  eapply succeeds_mono.
  { apply (base_allocate_spec s2 _ _ _ request_id num_tokens Hm2).
    rewrite Hbs2, Hb2, Hl2, len_drop. fold R. lia. }
  intros blks s' (-> & Hm' & Ht & Hc & _).
  rewrite Hbs2, Hb2, Hl2 in Hm', Ht. fold R in Hm', Ht. eexists. split; [exact Hm'|].
  split; [rewrite !len_drop; lia|]. split; [|split; [by rewrite Hc|]].
  + unfold blocks_of. rewrite Ht, lookup_insert_eq. simpl. rewrite len_app, Hl2, len_take, len_drop. nia.
  + intros rid Hne. rewrite Ht, Ht2, !lookup_insert_ne by done. done.
Qed.

(** ** Freeing *)

Lemma base_free_spec s free others reserved request_id :
  mgr_rep n s free others reserved ->
  let rest := table_blocks (delete request_id (req_to_blocks s.1)) ++ others in
  succeeds (base_free request_id) s (fun _ s' =>
    mgr_rep n s' (free ++ freed rest (rev (blocks_of request_id s.1))) others reserved /\
    req_to_blocks s'.1 = delete request_id (req_to_blocks s.1) /\
    num_cached_block s'.1 = delete request_id (num_cached_block s.1) /\
    config s'.1 = config s.1 /\
    (forall r, hashof (BlockPool.heap s'.2) r = hashof (BlockPool.heap s.2) r)).
Proof.
  intros Hm rest. pose proof (mr_pool _ _ _ _ _ Hm) as Hp.
  destruct (blocks_of_list _ _ _ _ _ request_id Hm) as [Hf Hnd].
  assert (rev (blocks_of request_id s.1) ≡ₚ blocks_of request_id s.1) as Hrev.
  { symmetry. apply Permutation_rev. }
  unfold base_free, pop_req_blocks. do 7 mstep.
  apply succeeds_on_pool. eapply succeeds_mono.
  { apply (free_blocks_spec n _ _ _ rest _ _ Hp).
    - fold (real_blocks (rev (blocks_of request_id s.1))). unfold held_by, rest.
      rewrite (table_split _ request_id). fold (blocks_of request_id s.1).
      rewrite <- app_assoc. by rewrite (real_blocks_perm _ _ Hrev).
    - intros r. rewrite Hrev. rewrite Forall_forall in Hf. apply Hf.
    - fold (real_blocks (rev (blocks_of request_id s.1))).
      by rewrite (real_blocks_perm _ _ Hrev). }
  intros _ p' [Hp' Hh]. mstep. split; [|done].
  destruct Hm as [_ H0 Hbs Hl]. constructor; simpl; try done.
  intros rid l. rewrite lookup_delete. case_decide; [done|apply Hl].
Qed.

(** Removing the entry of a request gives back each of its blocks once. *)
Lemma real_blocks_insert_null l i r :
  l !! i = Some r -> r <> Blk 0 -> real_blocks l ≡ₚ r :: real_blocks (<[i := Blk 0]> l).
Proof.
  intros Hi H0. pose proof (lookup_lt_Some _ _ _ Hi) as Hlt.
  rewrite insert_take_drop by done. rewrite <- (take_drop_middle l i r Hi) at 1.
  rewrite !real_blocks_app. unfold real_blocks at 2 4.
  rewrite filter_cons_True, filter_cons_False by naive_solver.
  symmetry. apply Permutation_middle.
Qed.

Lemma skip_loop_spec m blocks removed :
  let r := skip_loop (Blk 0) m blocks removed in
  exists gone, r.1 = removed ++ gone /\ length r.2 = length blocks /\
    (forall i, (m <= i)%nat -> r.2 !! i = blocks !! i) /\
    (forall i b, r.2 !! i = Some b -> b = Blk 0 \/ blocks !! i = Some b) /\
    real_blocks blocks ≡ₚ gone ++ real_blocks r.2 /\ Forall (fun b => b <> Blk 0) gone.
Proof.
  revert blocks removed. induction m as [|m IH]; intros blocks removed; simpl.
  { exists []. rewrite app_nil_r. split_and!; [done..|auto|done|done]. }
  assert (exists gone, removed = removed ++ gone /\ length blocks = length blocks /\
    (forall i, (S m <= i)%nat -> blocks !! i = blocks !! i) /\
    (forall i b, blocks !! i = Some b -> b = Blk 0 \/ blocks !! i = Some b) /\
    real_blocks blocks ≡ₚ gone ++ real_blocks blocks /\ Forall (fun b => b <> Blk 0) gone) as Hstop.
  { exists []. rewrite app_nil_r. split_and!; [done..|auto|done|done]. }
  destruct (blocks !! m) as [b|] eqn:Hb; [|exact Hstop].
  destruct (decide (b = Blk 0)) as [|H0]; [exact Hstop|].
  destruct (IH (<[m := Blk 0]> blocks) (removed ++ [b])) as (gone & -> & Hlen & Hhi & Hlo & Hperm & Hall).
  exists (b :: gone). rewrite <- app_assoc. split; [done|]. split; [by rewrite Hlen, length_insert|].
  split; [|split; [|split; [|by constructor]]].
  - intros i Hi. rewrite Hhi by lia. rewrite list_lookup_insert_ne by lia. done.
  - intros i b' Hi. destruct (Hlo i b' Hi) as [|Hi']; [by left|].
    apply list_lookup_insert_Some in Hi' as [(_ & <- & _)|[_ Hi']]; auto.
  - rewrite (real_blocks_insert_null _ _ _ Hb H0). simpl. by f_equiv.
Qed.

(** Giving back some blocks of a request and writing null in their place. *)
Lemma give_back_spec s free others reserved request_id l' gone (f : Manager.t -> Manager.t) :
  mgr_rep n s free others reserved ->
  real_blocks (blocks_of request_id s.1) ≡ₚ gone ++ real_blocks l' ->
  Forall (fun b => b <> Blk 0) gone -> Forall (real n) l' ->
  req_to_blocks (f s.1) = <[request_id := l']> (req_to_blocks s.1) ->
  config (f s.1) = config s.1 ->
  succeeds (on_pool (BlockPool.free_blocks gone)) (f s.1, s.2) (fun _ s' =>
    s'.1 = f s.1 /\ mgr_rep n s' (free ++ freed (held_by (f s.1) ++ others) gone) others reserved /\
    (forall r, hashof (BlockPool.heap s'.2) r = hashof (BlockPool.heap s.2) r)).
Proof.
  intros Hm Hperm Hgone Hl' Ht Hcfg. pose proof (mr_pool _ _ _ _ _ Hm) as Hp.
  destruct (blocks_of_list _ _ _ _ _ request_id Hm) as [Hf Hnd].
  rewrite Hperm in Hnd. apply NoDup_app in Hnd as (Hg & _ & Hl'nd).
  apply config_eq in Hcfg as (_ & _ & Hb & _ & Hn).
  assert (forall r, r ∈ gone -> r <> Blk 0) as Hg0 by (by rewrite Forall_forall in Hgone).
  assert (real_blocks gone = gone) as Hreal.
  { apply real_blocks_id. intros Hin. by apply (Hg0 (Blk 0)). }
  assert (held_by s.1 ≡ₚ gone ++ held_by (f s.1)) as Hheld.
  { unfold held_by. rewrite (table_split (req_to_blocks s.1) request_id), Ht, table_insert.
    fold (blocks_of request_id s.1). by rewrite Hperm, <- app_assoc. }
  apply succeeds_on_pool. eapply succeeds_mono.
  { apply (free_blocks_spec n _ _ _ (held_by (f s.1) ++ others) _ gone Hp).
    - fold (real_blocks gone). by rewrite Hreal, Hheld, <- app_assoc.
    - intros r Hr. assert (r ∈ real_blocks (blocks_of request_id s.1)) as Hin.
      { rewrite Hperm, elem_of_app. by left. }
      apply elem_of_real_blocks in Hin as [_ Hin]. rewrite Forall_forall in Hf. by apply Hf.
    - fold (real_blocks gone). by rewrite Hreal. }
  intros _ p' [Hp' Hh]. split; [done|]. split; [|done]. constructor; simpl; [done|..].
  - rewrite Hn. apply Hm.
  - rewrite Hb. apply Hm.
  - intros rid l. rewrite Ht, lookup_insert. case_decide as E; [|apply Hm].
    intros [= <-]. done.
Qed.

(** The null blocks below [m] form a prefix. *)
Definition null_prefix (m : nat) (l : list bref) : Prop :=
  forall i j, (i < j < m)%nat -> l !! j = Some (Blk 0) -> l !! i = Some (Blk 0).

Lemma skip_loop_clears m blocks removed i :
  null_prefix m blocks -> (m <= length blocks)%nat -> (i < m)%nat ->
  (skip_loop (Blk 0) m blocks removed).2 !! i = Some (Blk 0).
Proof.
  revert blocks removed. induction m as [|m IH]; intros blocks removed Hpre Hlen Hi; [lia|]. simpl.
  destruct (lookup_lt_is_Some_2 blocks m) as [b Hb]; [lia|]. rewrite Hb.
  destruct (decide (b = Blk 0)) as [->|H0]; simpl.
  - destruct (decide (i = m)) as [->|]; [done|]. apply (Hpre i m); [lia|done].
  - destruct (decide (i = m)) as [->|].
    + pose proof (skip_loop_spec m (<[m := Blk 0]> blocks) (removed ++ [b])) as Hsk.
      destruct Hsk as (_ & _ & _ & Hhi & _). rewrite Hhi by lia. by apply list_lookup_insert_eq.
    + apply IH; [|by rewrite length_insert; lia|lia]. intros x y Hxy.
      rewrite !list_lookup_insert_ne by lia. apply Hpre. lia.
Qed.

Lemma base_remove_skipped_spec s free others reserved request_id total :
  mgr_rep n s free others reserved ->
  let cut := Z.min (get_num_skipped_tokens s.1 total / m_block_size s.1) (len (blocks_of request_id s.1)) in
  succeeds (base_remove_skipped_blocks request_id total) s (fun _ s' =>
    config s'.1 = config s.1 /\ num_cached_block s'.1 = num_cached_block s.1 /\
    (exists free', mgr_rep n s' free' others reserved /\ exists more, free' = free ++ more) /\
    len (blocks_of request_id s'.1) = len (blocks_of request_id s.1) /\
    (forall i, cut <= Z.of_nat i -> blocks_of request_id s'.1 !! i = blocks_of request_id s.1 !! i) /\
    (forall i b, blocks_of request_id s'.1 !! i = Some b ->
       b = Blk 0 \/ blocks_of request_id s.1 !! i = Some b) /\
    (forall rid, rid <> request_id -> req_to_blocks s'.1 !! rid = req_to_blocks s.1 !! rid) /\
    last_state_block_idx s'.1 = last_state_block_idx s.1 /\
    (forall r, hashof (BlockPool.heap s'.2) r = hashof (BlockPool.heap s.2) r) /\
    (null_prefix (length (blocks_of request_id s.1)) (blocks_of request_id s.1) ->
     forall i, Z.of_nat i < cut -> blocks_of request_id s'.1 !! i = Some (Blk 0))).
Proof.
  intros Hm cut. unfold base_remove_skipped_blocks. do 2 mstep.
  destruct (Z.leb_spec (get_num_skipped_tokens s.1 total) 0) as [Hle|Hgt].
  { pose proof (Z.div_le_mono _ 0 (m_block_size s.1) (mr_bs _ _ _ _ _ Hm) Hle) as Hd.
    rewrite Z.div_0_l in Hd by (pose proof (mr_bs _ _ _ _ _ Hm); lia).
    mstep. split_and!; try done; [|auto|intros; lia]. exists free. split; [done|]. exists []. by rewrite app_nil_r. }
  pose proof (mr_bs _ _ _ _ _ Hm) as Hbs.
  do 2 mstep. rewrite (mr_null _ _ _ _ _ Hm). fold cut.
  pose proof (skip_loop_spec (Z.to_nat cut) (blocks_of request_id s.1) []) as Hsk. cbv zeta in Hsk.
  pose proof (skip_loop_clears (Z.to_nat cut) (blocks_of request_id s.1) []) as Hcl.
  set (r := skip_loop _ _ _ _) in *.
  destruct Hsk as (gone & Hr1 & Hlen & Hhi & Hlo & Hperm & Hall). simpl in Hr1. rewrite Hr1.
  do 2 mstep.
  pose proof (blocks_of_list _ _ _ _ _ request_id Hm) as [Hf _].
  assert (Forall (real n) r.2) as Hreal.
  { apply Forall_lookup. intros i b Hi. destruct (Hlo i b Hi) as [->|Hi'].
    - by eapply null_real.
    - by eapply Forall_lookup_1. }
  set (m1 := set_req_to_blocks _ _).
  assert (req_to_blocks m1 = <[request_id := r.2]> (req_to_blocks s.1)) as Ht1.
  { unfold m1. simpl. by rewrite insert_insert_eq. }
  assert (blocks_of request_id m1 = r.2) as Hb1 by (unfold blocks_of; by rewrite Ht1, lookup_insert_eq).
  eapply succeeds_mono.
  { apply (give_back_spec s free others reserved request_id r.2 gone (fun _ => m1) Hm); done. }
  intros _ s' (Hs1 & Hm' & Hh). simpl in Hs1. rewrite Hs1, Hb1.
  split; [done|]. split; [done|]. split; [eexists; split; [exact Hm'|by eexists]|].
  split; [unfold len; by rewrite Hlen|]. split; [intros i Hi; apply Hhi; lia|].
  split; [done|]. split; [intros rid Hne; by rewrite Ht1, lookup_insert_ne|].
  split; [done|]. split; [done|]. intros Hpre i Hi. unfold len in *.
  apply Hcl; [intros x y Hxy; apply Hpre|..]; lia.
Qed.


(** ** Caching *)

Lemma leaves_on_pool {A} (f : M BlockPool.t A) s (P : state -> Prop) :
  leaves f s.2 (fun p => P (s.1, p)) -> leaves (on_pool f) s P.
Proof. unfold leaves, on_pool, zoom. simpl. by destruct (f s.2). Qed.

Lemma leaves_self {A} (k : Manager.t -> M state A) s (P : state -> Prop) :
  leaves (k s.1) s P -> leaves (bind self k) s P.
Proof. done. Qed.

Lemma leaves_req_blocks {A} (k : list bref -> M state A) request_id s (P : state -> Prop) :
  leaves (k (blocks_of request_id s.1)) (seen request_id s.1, s.2) P ->
  leaves (bind (req_blocks request_id) k) s P.
Proof. unfold leaves, bind. by rewrite req_blocks_run. Qed.

(** Caching full blocks keeps the ownership and the tables, even if it raises. *)
Lemma base_cache_leaves s free others reserved request num_tokens :
  mgr_rep n s free others reserved ->
  leaves (base_cache_blocks request num_tokens) s (fun s' =>
    mgr_rep n s' free others reserved /\ config s'.1 = config s.1 /\
    forall rid, blocks_of rid s'.1 = blocks_of rid s.1).
Proof.
  intros Hm. unfold base_cache_blocks. apply leaves_self. cbv beta zeta.
  set (have := default 0 (num_cached_block s.1 !! request_id request)). set (full := num_tokens / m_block_size s.1).
  destruct (full <=? have); [unfold leaves; simpl; done|]. apply leaves_req_blocks. cbv beta.
  assert (forall rid, blocks_of rid (seen (request_id request) s.1) = blocks_of rid s.1) as Hseen.
  { intros rid. unfold blocks_of at 1, seen. simpl. rewrite lookup_insert. case_decide; by subst. }
  assert (forall f : Manager.t -> Manager.t, forall p',
    pool_rep n p' free (held_by s.1 ++ others) reserved ->
    (forall m, req_to_blocks (f m) = req_to_blocks m /\ config (f m) = config m) ->
    mgr_rep n (f (seen (request_id request) s.1), p') free others reserved /\
    config (f (seen (request_id request) s.1)) = config s.1 /\
    forall rid, blocks_of rid (f (seen (request_id request) s.1)) = blocks_of rid s.1) as Hok.
  { intros f p' Hp' Hf. destruct (Hf (seen (request_id request) s.1)) as [Ht Hc].
    split; [|split; [by rewrite Hc|intros rid; unfold blocks_of at 1; rewrite Ht; apply Hseen]].
    apply config_eq in Hc as (_ & _ & Hb & _ & Hn).
    apply (mgr_rep_set n s p' free free others reserved (request_id request)
      (blocks_of (request_id request) s.1) (fun _ => f (seen (request_id request) s.1))); try done.
    - by apply (blocks_of_list _ _ _ _ _ (request_id request) Hm).
    - eapply pool_rep_perm; [|exact Hp']. unfold held_by.
      by rewrite (table_split (req_to_blocks s.1) (request_id request)), <- app_assoc. }
  apply leaves_bind.
  - apply leaves_on_pool. eapply leaves_mono.
    + apply (cache_full_blocks_leaves n). { apply (mr_pool _ _ _ _ _ Hm). }
      by apply (blocks_of_list _ _ _ _ _ (request_id request) Hm).
    + intros p' Hp'. by apply (Hok (fun m => m)).
  - intros request' s' (Hm' & Hc' & Hb'). apply leaves_bind; [|by intros [] s'' ?].
    split; [|split; [done|done]]. by eapply mgr_rep_eq; [exact Hm'|..].
Qed.

(** ** Mamba, align mode *)

(** The loop moves [c] blocks from position [a] to the end, leaving nulls. *)
Lemma reuse_spec (m : nat) a skipped blocks :
  (a + m <= length blocks)%nat ->
  let c := Z.to_nat (Z.min (skipped - Z.of_nat a) (Z.of_nat m)) in
  reuse_loop (Blk 0) skipped (py_range (Z.of_nat a) (Z.of_nat (a + m))) blocks =
    Some (take a blocks ++ replicate c (Blk 0) ++ drop (a + c) blocks ++ take c (drop a blocks)).
Proof.
  revert a blocks. induction m as [|m IH]; intros a blocks Hlen c.
  { rewrite py_range_nil by lia. simpl. replace c with 0%nat by lia. simpl.
    rewrite take_0, app_nil_r, Nat.add_0_r. by rewrite take_drop. }
  rewrite py_range_cons by lia. simpl.
  destruct (Z.ltb_spec (Z.of_nat a) skipped) as [Hlt|Hge].
  2: { replace c with 0%nat by lia. simpl. rewrite take_0, app_nil_r, Nat.add_0_r. by rewrite take_drop. }
  rewrite py_index_nonneg, Nat2Z.id by lia.
  destruct (lookup_lt_is_Some_2 blocks a) as [b Hb]; [lia|]. rewrite Hb. simpl.
  destruct (Z.ltb_spec (Z.of_nat a) 0); [lia|]. rewrite Nat2Z.id.
  replace (Z.of_nat a + 1) with (Z.of_nat (S a)) by lia.
  replace (Z.of_nat (a + S m)) with (Z.of_nat (S a + m)) by lia.
  rewrite IH by (rewrite length_insert, length_app; simpl; lia).
  set (c' := Z.to_nat (Z.min (skipped - Z.of_nat (S a)) (Z.of_nat m))).
  assert (c = S c') as -> by lia. assert (c' <= m)%nat as Hc' by lia. f_equal.
  rewrite insert_app_l by lia.
  rewrite (take_app_le _ _ (S a)), (drop_app_le _ _ (S a)), (drop_app_le _ _ (S a + c'))
    by (rewrite length_insert; lia).
  rewrite !drop_insert_lt by lia.
  rewrite take_app_le by (rewrite length_drop; lia).
  assert (take (S a) (<[a := Blk 0]> blocks) = take a blocks ++ [Blk 0]) as ->.
  { rewrite (take_S_r _ a (Blk 0)) by (apply list_lookup_insert_eq; lia). f_equal.
    by rewrite take_insert_ge by lia. }
  rewrite (drop_S blocks b a Hb). rewrite <- !app_assoc. simpl.
  replace (a + S c')%nat with (S a + c')%nat by lia. done.
Qed.

Section align.
Variables (l : list bref) (spec required : nat).

(** The list after the null blocks are added and the speculative blocks moved. *)
Definition padded : list bref := l ++ replicate (required - spec - 1 - length l) (Blk 0).
Definition moved : nat := Nat.min (required - 1 - length l) spec.
Definition shifted : list bref :=
  take (length l - spec) padded ++ replicate moved (Blk 0) ++
  drop (length l - spec + moved) padded ++ take moved (drop (length l - spec) padded).

Hypothesis Hreq : (length l < required)%nat.
Hypothesis Hspec : (spec <= length l)%nat.

Lemma reuse_shifted :
  reuse_loop (Blk 0) (Z.of_nat required - Z.of_nat spec - 1)
    (py_range (Z.of_nat (length l) - Z.of_nat spec) (Z.of_nat (length l))) padded = Some shifted.
Proof using Hreq Hspec.
  replace (Z.of_nat (length l) - Z.of_nat spec) with (Z.of_nat (length l - spec)) by lia.
  replace (Z.of_nat (length l)) with (Z.of_nat ((length l - spec) + spec)) by lia.
  rewrite reuse_spec by (unfold padded; rewrite length_app; lia).
  replace (Z.to_nat (Z.min (Z.of_nat required - Z.of_nat spec - 1 - Z.of_nat (length l - spec)) (Z.of_nat spec)))
    with moved by (unfold moved; lia).
  done.
Qed.

Lemma padded_length : length padded = Nat.max (length l) (required - spec - 1).
Proof using. unfold padded. rewrite length_app, length_replicate. clear. lia. Qed.

(** All required blocks but one are in place. *)
Lemma shifted_length : length shifted = (required - 1)%nat.
Proof using Hreq Hspec.
  unfold shifted. rewrite !length_app, length_replicate, !length_take, !length_drop, padded_length.
  unfold moved. lia.
Qed.

Lemma replicate_null_real k : real_blocks (replicate k (Blk 0)) = [].
Proof using. rewrite <- (Nat2Z.id k). apply real_blocks_null. Qed.

Lemma padded_real : real_blocks padded = real_blocks l.
Proof using. unfold padded. by rewrite real_blocks_app, replicate_null_real, app_nil_r. Qed.

Lemma shifted_real : real_blocks shifted ≡ₚ real_blocks l.
Proof using Hreq Hspec.
  rewrite <- padded_real. unfold shifted. rewrite !real_blocks_app, replicate_null_real. simpl.
  rewrite <- (take_drop (length l - spec) padded) at 4. rewrite real_blocks_app. f_equiv.
  rewrite <- (take_drop moved (drop (length l - spec) padded)) at 2.
  rewrite real_blocks_app, drop_drop. apply Permutation_app_comm.
Qed.

Lemma padded_elem r : r ∈ padded -> r = Blk 0 \/ r ∈ l.
Proof using.
  unfold padded. rewrite elem_of_app. intros [|Hx]; [by right|left].
  by apply elem_of_replicate in Hx as [-> _].
Qed.

Lemma shifted_elem r : r ∈ shifted -> r = Blk 0 \/ r ∈ l.
Proof using.
  unfold shifted. rewrite !elem_of_app.
  intros [Hr|[Hr|[Hr|Hr]]].
  - apply padded_elem. by eapply subseteq_take.
  - left. by apply elem_of_replicate in Hr as [-> _].
  - apply padded_elem. by eapply subseteq_drop.
  - apply padded_elem. eapply subseteq_drop. by eapply subseteq_take.
Qed.

(** If the speculative blocks were allocated, so are the blocks moved to the end. *)
Lemma shifted_tail :
  Forall (fun r => r <> Blk 0) (drop (length l - spec) l) ->
  Forall (fun r => r <> Blk 0) (drop (required - 1 - spec) shifted).
Proof using Hreq Hspec.
  intros Hl.
  assert (length (take (length l - spec) padded ++ replicate moved (Blk 0))
    = (length l - spec + moved)%nat) as HA.
  { rewrite length_app, length_take, length_replicate, padded_length. lia. }
  unfold shifted. rewrite app_assoc. destruct (decide (required - 1 - length l <= spec)%nat) as [Hle|Hgt].
  - assert (moved = required - 1 - length l)%nat as Hm by (unfold moved; lia).
    rewrite drop_app_length' by lia.
    assert (padded = l) as ->.
    { unfold padded. replace (required - spec - 1 - length l)%nat with 0%nat by lia. apply app_nil_r. }
    apply Forall_app. split.
    + rewrite <- drop_drop. by apply Forall_drop.
    + by apply Forall_take.
  - assert (moved = spec) as Hm by (unfold moved; lia). rewrite Hm in *.
    rewrite drop_app_ge by lia. rewrite HA.
    replace (length l - spec + spec)%nat with (length l) by lia.
    rewrite drop_app_length' by (rewrite length_drop, padded_length; lia).
    unfold padded. rewrite drop_app_le by lia.
    rewrite take_app_le by (rewrite length_drop; lia). by apply Forall_take.
Qed.
End align.

(** The same with the integers of the code. *)
Lemma padded_eq l sp R :
  0 <= sp <= R ->
  (if len l <? R - sp - 1 then l ++ py_repeat (Blk 0) (R - sp - 1 - len l) else l)
  = padded l (Z.to_nat sp) (Z.to_nat R).
Proof.
  intros Hsp. unfold padded, py_repeat, len. destruct (Z.ltb_spec (Z.of_nat (length l)) (R - sp - 1)).
  - do 2 f_equal. lia.
  - replace (Z.to_nat R - Z.to_nat sp - 1 - length l)%nat with 0%nat by lia. by rewrite app_nil_r.
Qed.

Lemma reuse_shifted_eq l sp R :
  0 <= sp <= len l -> len l < R ->
  reuse_loop (Blk 0) (R - sp - 1) (py_range (len l - sp) (len l)) (padded l (Z.to_nat sp) (Z.to_nat R))
  = Some (shifted l (Z.to_nat sp) (Z.to_nat R)).
Proof.
  intros Hsp Hlt. unfold len in *. rewrite <- reuse_shifted by lia. f_equal; [|f_equal]; lia.
Qed.

(** [num_required_blocks] of align mode. *)
Definition align_required (m : Manager.t) (num_tokens_main_model : Z) : Z :=
  cdiv num_tokens_main_model (m_block_size m) + num_spec_blocks m.

(** A request that already runs in align mode needs one new block: the
    speculative blocks of its last step move to the end of its list. *)
Lemma align_running_spec s free others reserved request_id main :
  mgr_rep n s free others reserved ->
  request_id ∈ _allocated_block_reqs s.1 ->
  let l := blocks_of request_id s.1 in
  let spec := Z.to_nat (num_spec_blocks s.1) in
  let required := Z.to_nat (align_required s.1 main) in
  0 <= num_spec_blocks s.1 -> (spec <= length l)%nat ->
  len l < align_required s.1 main -> 1 <= len free ->
  succeeds (align_allocate_new_blocks request_id main) s (fun new s' =>
    let l' := shifted l spec required ++ take 1 free in
    mgr_rep n s' (drop 1 free) others reserved /\
    blocks_of request_id s'.1 = l' /\ new = drop (length l) l' /\
    (forall rid, rid <> request_id -> req_to_blocks s'.1 !! rid = req_to_blocks s.1 !! rid) /\
    config s'.1 = config s.1 /\ request_id ∈ _allocated_block_reqs s'.1).
Proof.
  intros Hm Halloc l spec required Hs0 Hspec Hlt Hfree.
  pose proof (mr_pool _ _ _ _ _ Hm) as Hp.
  assert (length l < required)%nat as Hreq by (unfold required, len in *; lia).
  destruct (blocks_of_list _ _ _ _ _ request_id Hm) as [Hf Hnd]. fold l in Hf, Hnd.
  unfold align_allocate_new_blocks. do 4 mstep. fold l.
  change (cdiv main (m_block_size (seen request_id s.1)) + num_spec_blocks (seen request_id s.1))
    with (align_required s.1 main).
  change (num_spec_blocks (seen request_id s.1)) with (num_spec_blocks s.1).
  change (_null_block (seen request_id s.1)) with (_null_block s.1).
  rewrite (mr_null _ _ _ _ _ Hm).
  rewrite (proj2 (Z.eqb_neq (align_required s.1 main) (len l))) by lia. mstep. apply succeeds_assert; [by apply Z.ltb_lt|].
  rewrite (bool_decide_true (request_id ∈ _allocated_block_reqs (seen request_id s.1))) by exact Halloc.
  do 3 mstep.
  assert (0 <= num_spec_blocks s.1 <= len l) as Hsl by (unfold spec, len in *; lia).
  rewrite padded_eq by lia. fold spec required.
  pose proof (reuse_shifted_eq l (num_spec_blocks s.1) (align_required s.1 main) Hsl Hlt) as Hrun.
  fold spec required in Hrun.
  do 3 mstep. set (mid := shifted l spec required) in *.
  assert (align_required s.1 main - len mid = 1) as ->.
  { unfold len, mid. rewrite shifted_length by done. lia. }
  assert (Forall (real n) mid) as Hmid.
  { apply Forall_forall. intros r [->|Hr]%shifted_elem.
    - by eapply null_real.
    - rewrite Forall_forall in Hf. by apply Hf. }
  pose proof (shifted_real l spec required Hreq Hspec) as Hperm. fold mid in Hperm.
  mstep. apply succeeds_assert; [done|]. mstep. apply succeeds_on_pool.
  eapply succeeds_mono; [apply (get_new_blocks_spec n _ _ _ _ 1 Hp); lia|].
  intros new p' (-> & Hp' & _). change (Z.to_nat 1) with 1%nat in *.
  destruct (free_block_list n _ _ _ _ 1 Hp) as [[Hnf Hnn] H0].
  do 4 mstep. set (m1 := set_align_state _ _ _).
  assert (req_to_blocks m1 = <[request_id := mid ++ take 1 free]> (req_to_blocks s.1)) as Ht.
  { unfold m1. simpl. by rewrite !insert_insert_eq. }
  mstep. split; [|split; [by unfold blocks_of; rewrite Ht, lookup_insert_eq|split]].
  - apply (mgr_rep_set n s p' free (drop 1 free) others reserved request_id (mid ++ take 1 free)
      (fun _ => m1)); try done.
    + apply block_list_app; [split; [done|by rewrite Hperm]|done|].
      intros r. rewrite Hperm. by eapply new_disjoint.
    + eapply pool_rep_grow; [exact Hp'|]. by rewrite real_blocks_app, (real_blocks_id (take 1 free)), Hperm.
  - rewrite py_drop_nonneg by apply len_nonneg. f_equal. unfold len. lia.
  - split; [|split; [done|]].
    + intros rid Hne. by rewrite Ht, lookup_insert_ne.
    + unfold m1. simpl. set_solver.
Qed.

(** Align mode insists that the number of required blocks never shrinks. *)
Lemma align_shrink_error s request_id main :
  align_required s.1 main < len (blocks_of request_id s.1) ->
  exists s', align_allocate_new_blocks request_id main s = Raise AssertionError s' /\
    (forall rid, blocks_of rid s'.1 = blocks_of rid s.1) /\ s'.2 = s.2.
Proof.
  intros Hlt. unfold align_allocate_new_blocks. erewrite bind_Ret by apply req_blocks_run.
  erewrite bind_Ret by done. cbn [fst snd].
  change (cdiv main (m_block_size (seen request_id s.1)) + num_spec_blocks (seen request_id s.1))
    with (align_required s.1 main).
  rewrite (proj2 (Z.eqb_neq (align_required s.1 main) (len (blocks_of request_id s.1)))) by lia.
  rewrite (proj2 (Z.ltb_ge (len (blocks_of request_id s.1)) (align_required s.1 main))) by lia.
  eexists. split; [done|]. split; [|done]. intros rid. simpl.
  unfold blocks_of at 1, seen. simpl. rewrite lookup_insert. case_decide; by subst.
Qed.

(** ** Dispatch *)

Lemma succeeds_same_config {A B} (f : M state A) (g g' : M state B) s (Q : B -> state -> Prop) :
  leaves f s (fun s' => config s'.1 = config s.1) ->
  (forall s', config s'.1 = config s.1 -> g s' = g' s') ->
  succeeds (f ;;; g') s Q -> succeeds (f ;;; g) s Q.
Proof.
  unfold leaves, succeeds, bind. intros Hf Hg. destruct (f s) as [a s'|]; [|done].
  by rewrite Hg.
Qed.

Lemma leaves_update f s (P : state -> Prop) : P (f s.1, s.2) -> leaves (update f) s P.
Proof. done. Qed.

Lemma leaves_ret {A} (a : A) s (P : state -> Prop) : P s -> leaves (ret a) s P.
Proof. done. Qed.

Lemma leaves_set_req_blocks request_id l s (P : state -> Prop) :
  P (set_req_to_blocks (<[request_id := l]> (req_to_blocks s.1)) s.1, s.2) ->
  leaves (set_req_blocks request_id l) s P.
Proof. done. Qed.

Lemma leaves_on_pool_any {A} (f : M BlockPool.t A) s (P : state -> Prop) :
  (forall p, P (s.1, p)) -> leaves (on_pool f) s P.
Proof. intros Hp. apply leaves_on_pool. unfold leaves. destruct (f s.2); apply Hp. Qed.

Lemma extend_config request_id k c s :
  config s.1 = c -> leaves (extend_with_new request_id k) s (fun s' => config s'.1 = c).
Proof.
  intros Hc. unfold extend_with_new.
  apply leaves_bind; [by apply leaves_on_pool_any|]. intros new s1 H1. apply leaves_req_blocks.
  apply leaves_bind; [by apply leaves_set_req_blocks|]. intros [] s2 H2. apply leaves_self.
  apply leaves_bind; [by destruct (block_pool s2) eqn:E; inversion E; subst|].
  intros p s3 H3. apply leaves_bind; [by destruct (records_new_blocks _)|]. by intros [] s4 H4.
Qed.

Lemma computed_config request_id new local ext s :
  leaves (base_allocate_new_computed_blocks request_id new local ext) s
    (fun s' => config s'.1 = config s.1).
Proof.
  unfold base_allocate_new_computed_blocks. apply leaves_self.
  destruct (num_cached_block s.1 !! request_id); [by apply leaves_assert|].
  apply leaves_req_blocks. apply leaves_bind; [by apply leaves_assert|]. intros [] s1 H1. cbv zeta.
  apply leaves_bind.
  { destruct (m_enable_caching s.1); [by apply leaves_on_pool_any|by apply leaves_assert]. }
  intros [] s2 H2. apply leaves_bind; [by apply leaves_set_req_blocks|]. intros [] s3 H3.
  apply leaves_bind; [by apply leaves_update|]. intros [] s4 H4.
  match goal with |- leaves (if ?b then _ else _) _ _ => destruct b end; [|by apply leaves_ret].
  apply leaves_bind; [by apply extend_config|]. by intros _ s5 H5.
Qed.

Lemma dispatch_computed {A} s (k : unit -> M state A) request_id new local ext Q :
  m_class s.1 <> CrossAttentionManager ->
  succeeds (bind (base_allocate_new_computed_blocks request_id new local ext) k) s Q ->
  succeeds (bind (allocate_new_computed_blocks request_id new local ext) k) s Q.
Proof.
  intros Hc. unfold allocate_new_computed_blocks, succeeds, bind, self. by destruct (m_class s.1).
Qed.

Lemma dispatch_new s request_id num_tokens main :
  m_class s.1 <> MambaManager ->
  allocate_new_blocks request_id num_tokens main s = base_allocate_new_blocks request_id num_tokens s.
Proof. intros Hc. unfold allocate_new_blocks, bind, self. by destruct (m_class s.1). Qed.

(** ** Attention windows *)

(** A manager of the class its specification asks for, with sensible parameters. *)
Definition spec_ok (m : Manager.t) : Prop :=
  spec_manager_map (m_spec m) = Some (m_class m) /\ spec_params_ok (m_spec m) /\
  (m_class m = MambaManager -> block_size (m_spec m) = m_block_size m).

Lemma skipped_le m total : spec_ok m -> 0 <= total -> get_num_skipped_tokens m total <= total.
Proof.
  unfold get_num_skipped_tokens. intros (Hcls & [_ Hp] & _) Ht.
  destruct (m_spec m); simpl in *; try discriminate; injection Hcls as <-; simpl in *; try lia.
  pose proof (Z.mul_div_le total attention_chunk_size ltac:(lia)). lia.
Qed.

(** The skipped tokens are exactly those the next token does not attend to. *)
Lemma attends_skipped m q t :
  spec_ok m -> 0 <= t <= q -> attends (m_spec m) q t <-> get_num_skipped_tokens m q <= t.
Proof.
  unfold get_num_skipped_tokens. intros (Hcls & [_ Hp] & _) Ht.
  destruct (m_spec m); simpl in *; try discriminate; injection Hcls as <-; simpl in *; try lia.
  pose proof (Z.div_le_mono t q attention_chunk_size ltac:(lia) ltac:(lia)).
  split; intros Hx.
  - rewrite <- Hx, Z.mul_comm. apply Z.mul_div_le. lia.
  - assert (q / attention_chunk_size <= t / attention_chunk_size); [|lia].
    apply Z.div_le_lower_bound; lia.
Qed.
End allocation.

(** ** Main theorems *)

Section theorems.
Context `{HashEnv}.



(** C33. Freeing a request gives back all its blocks: those that nobody else
    holds go to the end of the eviction order, the last block of the request
    first, and keep their hashes; other requests are not touched. *)
Theorem free_request (n : nat) s free others reserved request_id
    (Hm : mgr_rep n s free others reserved) :
  let rest := table_blocks (delete request_id (req_to_blocks s.1)) ++ others in
  succeeds (Manager.free request_id) s (fun _ s' =>
    mgr_rep n s' (free ++ freed rest (rev (blocks_of request_id s.1))) others reserved /\
    req_to_blocks s'.1 = delete request_id (req_to_blocks s.1) /\
    num_cached_block s'.1 = delete request_id (num_cached_block s.1) /\
    (forall r, r ∈ blocks_of request_id s.1 -> r <> Blk 0 -> (r ∉ rest) ->
       r ∈ free ++ freed rest (rev (blocks_of request_id s.1))) /\
    (forall r, hashof (BlockPool.heap s'.2) r = hashof (BlockPool.heap s.2) r)).
Proof.
  intros rest. unfold Manager.free. do 2 mstep.
  assert (forall f : Manager.t -> Manager.t,
    req_to_blocks (f s.1) = req_to_blocks s.1 -> num_cached_block (f s.1) = num_cached_block s.1 ->
    config (f s.1) = config s.1 ->
    succeeds (base_free request_id) (f s.1, s.2) (fun _ s' =>
    mgr_rep n s' (free ++ freed rest (rev (blocks_of request_id s.1))) others reserved /\
    req_to_blocks s'.1 = delete request_id (req_to_blocks s.1) /\
    num_cached_block s'.1 = delete request_id (num_cached_block s.1) /\
    (forall r, r ∈ blocks_of request_id s.1 -> r <> Blk 0 -> (r ∉ rest) ->
       r ∈ free ++ freed rest (rev (blocks_of request_id s.1))) /\
    (forall r, hashof (BlockPool.heap s'.2) r = hashof (BlockPool.heap s.2) r))) as Hgo.
  { intros f Ht Hc (_ & _ & Hb & _ & H0)%config_eq.
    assert (mgr_rep n (f s.1, s.2) free others reserved) as Hm' by (by eapply mgr_rep_eq).
    eapply succeeds_mono; [by apply (base_free_spec n _ _ _ _ request_id Hm')|].
    unfold blocks_of. simpl. rewrite Ht, Hc. fold (blocks_of request_id s.1) rest.
    intros _ s' (Hr & Ht' & Hc' & _ & Hh). split; [done|]. split; [done|]. split; [done|]. split; [|done].
    intros r Hr1 Hr0 Hr2. rewrite elem_of_app. right. apply list_elem_of_filter. split; [done|].
    rewrite <- Permutation_rev. done. }
  mstep. match goal with |- succeeds (if ?b then _ else _) _ _ => destruct b end; mstep.
  - by apply (Hgo (fun m => set_align_state (delete request_id (last_state_block_idx m))
                  (_allocated_block_reqs m ∖ {[request_id]}) m)).
  - rewrite (surjective_pairing s). by apply (Hgo (fun m => m)).
Qed.

(** A Mamba request that runs in align mode: a step that needs more blocks
    takes exactly one from the pool and moves the speculative blocks, so the
    list has the required length and, if the speculative blocks were allocated,
    the last [1 + num_speculative_blocks] entries, which hold the running and
    the speculative states, are allocated again. *)
Theorem align_allocate_running (n : nat) s free others reserved request_id main
    (Hm : mgr_rep n s free others reserved)
    (Hrun : request_id ∈ _allocated_block_reqs s.1) (Hs0 : 0 <= num_spec_blocks s.1)
    (Hlen : num_spec_blocks s.1 <= len (blocks_of request_id s.1))
    (Hlt : len (blocks_of request_id s.1) < align_required s.1 main) (Hfree : 1 <= len free) :
  let l := blocks_of request_id s.1 in
  succeeds (align_allocate_new_blocks request_id main) s (fun new s' =>
    let l' := blocks_of request_id s'.1 in
    mgr_rep n s' (drop 1 free) others reserved /\ len l' = align_required s.1 main /\
    new = py_drop l' (len l) /\ real_blocks l' ≡ₚ real_blocks l ++ take 1 free /\
    (Forall (fun r => r <> Blk 0) (py_drop l (len l - num_spec_blocks s.1)) ->
     Forall (fun r => r <> Blk 0) (py_drop l' (len l' - 1 - num_spec_blocks s.1)))).
Proof.
  intros l. fold l in Hlen, Hlt. set (spec := Z.to_nat (num_spec_blocks s.1)).
  set (required := Z.to_nat (align_required s.1 main)).
  assert (spec <= length l)%nat as Hspec by (unfold spec, len in *; lia).
  assert (length l < required)%nat as Hreq by (unfold required, len in *; lia).
  eapply succeeds_mono; [by apply (align_running_spec n s free others reserved request_id main)|].
  fold l spec required. cbv zeta. intros new s' (Hm' & -> & -> & _ & _ & _).
  destruct (free_block_list n _ _ _ _ 1 (mr_pool _ _ _ _ _ Hm)) as [_ H0].
  assert (len (shifted l spec required ++ take 1 free) = align_required s.1 main) as Hl'.
  { rewrite len_app, len_take. unfold len at 1. rewrite shifted_length by done. lia. }
  split; [done|]. split; [done|]. split; [|split].
  - rewrite py_drop_nonneg by apply len_nonneg. unfold len. by rewrite Nat2Z.id.
  - by rewrite real_blocks_app, (shifted_real l spec required), (real_blocks_id (take 1 free)).
  - rewrite Hl', !py_drop_nonneg by lia.
    replace (Z.to_nat (len l - num_spec_blocks s.1)) with (length l - spec)%nat by (unfold len, spec; lia).
    replace (Z.to_nat (align_required s.1 main - 1 - num_spec_blocks s.1))
      with (required - 1 - spec)%nat by (unfold required, spec; lia).
    intros Hl. rewrite drop_app_le by (rewrite shifted_length; lia).
    apply Forall_app. split; [by apply shifted_tail|].
    apply Forall_forall. intros r Hr ->. done.
Qed.

(** C36. Align mode rejects a step that needs fewer blocks than the last one:
    it raises [AssertionError], although the predictor asks for no block. *)
Theorem align_allocate_shrinks s request_id main total
    (Hal : is_align s.1 = true) (Hcls : m_class s.1 = MambaManager)
    (Hlt : align_required s.1 main < len (blocks_of request_id s.1)) :
  (exists k, get_num_blocks_to_allocate request_id main [] total main false s
    = Ret k (seen request_id s.1, s.2) /\ k < 0) /\
  exists s', allocate_new_blocks request_id main main s = Raise AssertionError s'.
Proof.
  split.
  - eexists. unfold get_num_blocks_to_allocate, mamba_get_num_blocks_to_allocate.
    unfold bind, self, block_pool. rewrite Hcls. rewrite Hal. simpl. rewrite req_blocks_run.
    fold (align_required s.1 main). rewrite (len_nil (A:=bref)), Z.sub_0_r.
    destruct (Z.ltb_spec 0 (align_required s.1 main - len (blocks_of request_id s.1))); [lia|].
    split; [done|]. assert (_get_num_evictable_blocks (BlockPool.heap s.2) [] = 0) as -> by done. lia.
  - destruct (align_shrink_error s request_id main Hlt) as (s' & Hrun & _). exists s'.
    unfold allocate_new_blocks, mamba_allocate_new_blocks, bind, self. by rewrite Hcls, Hal.
Qed.

(** Blocks that were set aside stay set aside. *)
Lemma reserved_forever n s s' :
  rtc (pool_step n) s s' -> ps_reserved s <> [] -> ps_reserved s' <> [].
Proof.
  intros Hr. induction Hr as [|s1 s2 s3 Hstep _ IH]; [done|]. intros Hne. apply IH.
  destruct Hstep; simpl in *; try done. by destruct bs.
Qed.

(** Once the manager of attention sinks has taken its blocks from the
    queue, the prefix cache can never be reset again: whatever the clients of
    the pool do, even with every block given back, [reset_prefix_cache]
    returns [False] and changes nothing. *)
Theorem sink_manager_blocks_reset num ec hs ev a f sink mb ml gid p0 m p1 s
    (Hnum : 1 <= num) (Hinit : BlockPool.init num ec hs ev = inr p0) (Hbs : 0 < a_block_size a)
    (Hmgr : get_manager_for_kv_cache_spec (SinkFullAttentionSpec a f (Some sink)) mb ml ec gid 1 1 p0
            = Ret m p1)
    (Hr : rtc (pool_step (Z.to_nat num)) (PS p1 [] (sink_blocks m)) s) :
  BlockPool.reset_prefix_cache (ps_pool s) = Ret false (ps_pool s).
Proof.
  destruct (pool_init_spec num ec hs ev ltac:(lia)) as (p & Hp & _ & _ & _ & Hrep).
  assert (p = p0) as -> by congruence. set (n := Z.to_nat num) in *.
  unfold get_manager_for_kv_cache_spec in Hmgr. simpl in Hmgr.
  unfold bind, ret, get, of_option, assert in Hmgr. simpl in Hmgr.
  destruct ((0 <? sink) && (sink mod a_block_size a =? 0))%bool eqn:Hs; [|discriminate].
  bool_to_prop. assert (sink = a_block_size a * (sink / a_block_size a)) as Hex.
  { apply Z.div_exact; [lia|done]. }
  assert (1 <= sink / a_block_size a) as Hk by nia.
  pose proof (reserve_spec n p0 _ _ _ (sink / a_block_size a) Hrep ltac:(lia)) as Hres.
  unfold ret in Hmgr. destruct (BlockPool.on_queue _ p0) as [bs q|e q] eqn:Eq; [|discriminate].
  destruct Hres as [Hbs' Hrep1]. injection Hmgr as <- <-. simpl in Hr. rewrite app_nil_r in Hrep1.
  assert (bs <> []) as Hne.
  { rewrite Hbs'. destruct (usable n) as [|r l] eqn:Eu; [|by replace (Z.to_nat _) with
      (S (Z.to_nat (sink / a_block_size a - 1))) by lia].
    unfold BlockPool.on_queue, zoom in Eq.
    pose proof (pc_queue _ _ _ (pr_core _ _ _ _ _ Hrep)) as Hq.
    by rewrite (popleft_n_error _ [] _ Hq) in Eq by (rewrite len_nil; lia). }
  assert (pool_ok n s) as [free Hok].
  { eapply pool_reachable_ok; [|exact Hr]. eexists. exact Hrep1. }
  pose proof (reserved_forever _ _ _ Hr Hne) as Hne'.
  pose proof (reset_prefix_cache_spec n _ _ _ _ Hok) as Hreset. unfold succeeds in Hreset.
  destruct (BlockPool.reset_prefix_cache (ps_pool s)) as [[] p'|]; [| |done].
  - destruct Hreset as (_ & [Ht _] & _). by destruct (Ht eq_refl).
  - destruct Hreset as (_ & _ & Hf & _). by rewrite (Hf eq_refl).
Qed.
End theorems.

(** ** Witnesses *)

#[local] Existing Instance demo_env.

(** A manager with one request that holds two blocks of a pool of four. *)
Definition demo_state (cls : ManagerClass) (spec : KVCacheSpec) : state :=
  (Manager.Mk cls spec 2 true None 0 (Blk 0) [] {[ "a" := [Blk 1; Blk 2] ]} {[ "a" := 0 ]} ∅ ∅
     {[ "a" ]} [], demo_pool2).

Lemma demo_state_rep cls spec : mgr_rep 4 (demo_state cls spec) [Blk 3] [] [].
Proof.
  constructor.
  - eapply pool_rep_perm; [|exact demo_pool2_rep]. vm_compute. reflexivity.
  - done.
  - simpl. lia.
  - intros rid l. simpl. rewrite lookup_singleton. case_decide; [|done]. intros [= <-]. split.
    + repeat constructor; eexists; (split; [reflexivity|lia]).
    + apply (bool_decide_unpack _). vm_compute. exact I.
Qed.



Lemma free_request_witness :
  exists s', Manager.free "a" (demo_state FullAttentionManager
      (FullAttentionSpec (demo_block 2) (demo_full None))) = Ret tt s' /\
    mgr_rep 4 s' [Blk 3; Blk 2; Blk 1] [] [].
Proof.
  pose proof (free_request 4 _ _ _ _ "a"
    (demo_state_rep FullAttentionManager (FullAttentionSpec (demo_block 2) (demo_full None)))) as Hs.
  apply succeeds_inv in Hs as ([] & s' & Hrun & Hrep & _).
  exists s'. split; [exact Hrun|exact Hrep].
Defined.

Lemma align_allocate_running_witness :
  exists new s', align_allocate_new_blocks "a" 4
      (demo_state MambaManager (MambaSpec (demo_mamba 2 1))) = Ret new s' /\
    len (blocks_of "a" s'.1) = 3 /\ Forall (fun r => r <> Blk 0) (py_drop (blocks_of "a" s'.1) 1).
Proof.
  pose proof (align_allocate_running 4 _ _ _ _ "a" 4
    (demo_state_rep MambaManager (MambaSpec (demo_mamba 2 1)))
    ltac:(vm_compute; reflexivity) ltac:(vm_compute; discriminate) ltac:(vm_compute; discriminate)
    ltac:(vm_compute; reflexivity) ltac:(vm_compute; discriminate)) as Hs.
  apply succeeds_inv in Hs as (new & s' & Hrun & _ & Hlen & _ & _ & Htail).
  exists new, s'. split; [exact Hrun|]. split; [exact Hlen|]. rewrite Hlen in Htail. apply Htail.
  apply (bool_decide_unpack _). vm_compute. exact I.
Defined.

Lemma align_allocate_shrinks_witness :
  exists s', allocate_new_blocks "a" 2 2
    (demo_state MambaManager (MambaSpec (demo_mamba 2 0))) = Raise AssertionError s'.
Proof.
  exact (proj2 (align_allocate_shrinks (demo_state MambaManager (MambaSpec (demo_mamba 2 0))) "a" 2 2
    eq_refl eq_refl ltac:(vm_compute; reflexivity))).
Defined.

Lemma sink_manager_blocks_reset_witness :
  exists m p1, get_manager_for_kv_cache_spec
      (SinkFullAttentionSpec (demo_block 2) (demo_full None) (Some 2)) 8 16 true 0 1 1 demo_pool = Ret m p1 /\
    sink_blocks m = [Blk 1] /\ BlockPool.reset_prefix_cache p1 = Ret false p1.
Proof.
  destruct (get_manager_for_kv_cache_spec
    (SinkFullAttentionSpec (demo_block 2) (demo_full None) (Some 2)) 8 16 true 0 1 1 demo_pool)
    as [m p1|e p1] eqn:E; [|vm_compute in E; discriminate].
  exists m, p1. split; [reflexivity|]. split.
  - apply (f_equal (fun o => match o with Ret m _ => sink_blocks m | Raise _ _ => [] end)) in E.
    vm_compute in E. symmetry. exact E.
  - exact (sink_manager_blocks_reset 4 true 2 false (demo_block 2) (demo_full None) 2 8 16 0
      demo_pool m p1 (PS p1 [] (sink_blocks m)) ltac:(lia) eq_refl ltac:(reflexivity) E
      (rtc_refl _ _)).
Defined.
