(* ===== verification/Coordinator.v ===== *)
(** * The coordinator of the KV-cache groups

    Models vllm/v1/core/kv_cache_coordinator.py.  A coordinator owns the block
    pool and one manager per KV-cache group; most methods call the managers one
    after the other on the shared pool.  The three subclasses differ in how they
    look up the prefix cache; the fields the constructor fixes are in [Conf]. *)

From S2P Require Import Prelude FreeQueue Request BlockHash BlockPool CacheSpec SingleType.
From S2P Require Import PrefixHit Ownership.
From stdpp Require Import options.

Module Coordinator.

Inductive Kind :=
  | KVCacheCoordinatorNoPrefixCache
  | UnitaryKVCacheCoordinator
  | HybridKVCacheCoordinator.

(** One entry of [attention_groups]. *)
Definition attention_group : Type := KVCacheSpec * list Z * ManagerClass.

Record Conf := MkConf {
  c_kind : Kind;
  kv_cache_config : KVCacheConfig;
  c_max_model_len : Z;
  c_enable_caching : bool;
  eagle_group_ids : gset Z;
  c_hash_block_size : Z;
  c_dcp_world_size : Z;
  c_pcp_world_size : Z;
  c_block_size : Z;
  attention_groups : list attention_group;
  lcm_block_size : Z;
  eagle_attn_group_indices : gset Z;
}.

(** The managers and the pool they share. *)
Definition state : Type := list Manager.t * BlockPool.t.

Definition managers : M state (list Manager.t) := fun s => Ret s.1 s.
Definition block_pool : M state BlockPool.t := fun s => Ret s.2 s.
Definition on_pool {A} (m : M BlockPool.t A) : M state A := zoom snd (fun p s => (s.1, p)) m.

(** [for i, manager in enumerate(self.single_type_managers)]: [f] runs on each
    manager with the pool; [a] is what the loop accumulates. *)
Fixpoint each_loop {A} (f : Z -> A -> M Manager.state A) (i : Z) (a : A)
    (ms : list Manager.t) (pool : BlockPool.t) : outcome state A :=
  match ms with
  | [] => Ret a ([], pool)
  | m :: ms =>
      match f i a (m, pool) with
      | Raise e (m, pool) => Raise e (m :: ms, pool)
      | Ret a (m, pool) =>
          match each_loop f (i + 1) a ms pool with
          | Ret a (ms, pool) => Ret a (m :: ms, pool)
          | Raise e (ms, pool) => Raise e (m :: ms, pool)
          end
      end
  end.

Definition each {A} (f : Z -> A -> M Manager.state A) (a : A) : M state A :=
  fun s => each_loop f 0 a s.1 s.2.

(** ** The methods of the base class *)

Definition is_cross (m : Manager.t) : bool := bool_decide (Manager.m_class m = CrossAttentionManager).

Definition get_num_blocks_to_allocate (request_id : string) (num_tokens : Z)
    (new_computed_blocks : list (list bref))
    (num_encoder_tokens total_computed_tokens num_tokens_main_model : Z)
    (apply_admission_cap : bool) : M state Z :=
  each (fun i num_blocks_to_allocate =>
    m <- Manager.self ;;
    k <- (if is_cross m then
            Manager.get_num_blocks_to_allocate request_id num_encoder_tokens [] 0
              num_encoder_tokens apply_admission_cap
          else
            blocks <- of_option IndexError (py_index new_computed_blocks i) ;;
            Manager.get_num_blocks_to_allocate request_id num_tokens blocks
              total_computed_tokens num_tokens_main_model apply_admission_cap) ;;
    ret (num_blocks_to_allocate + k)) 0.

Section with_env.
Context `{HashEnv}.

Definition allocate_new_computed_blocks (request_id : string)
    (new_computed_blocks : list (list bref))
    (num_local_computed_tokens num_external_computed_tokens : Z) : M state unit :=
  each (fun i _ =>
    blocks <- of_option IndexError (py_index new_computed_blocks i) ;;
    Manager.allocate_new_computed_blocks request_id blocks num_local_computed_tokens
      num_external_computed_tokens) tt.

Definition allocate_new_blocks (request_id : string)
    (num_tokens num_tokens_main_model num_encoder_tokens : Z) : M state (list (list bref)) :=
  each (fun _ new =>
    m <- Manager.self ;;
    blocks <- Manager.allocate_new_blocks request_id
                (if is_cross m then num_encoder_tokens else num_tokens) num_tokens_main_model ;;
    ret (new ++ [blocks])) [].

(** Returns the request, whose memo table the pool's events may extend. *)
Definition cache_blocks (request : Request) (num_computed_tokens : Z) : M state Request :=
  each (fun _ request => Manager.cache_blocks request num_computed_tokens) request.

Definition free (request_id : string) : M state unit :=
  each (fun _ _ => Manager.free request_id) tt.

Definition get_num_common_prefix_blocks (c : Conf) (running_request_id : string) : M state (list Z) :=
  match c_kind c with
  | KVCacheCoordinatorNoPrefixCache => ms <- managers ;; ret ((fun _ => 0) <$> ms)
  | _ => each (fun _ l => k <- Manager.get_num_common_prefix_blocks running_request_id ;;
                          ret (l ++ [k])) []
  end.

Definition remove_skipped_blocks (request_id : string) (total_computed_tokens : Z) : M state unit :=
  each (fun _ _ => Manager.remove_skipped_blocks request_id total_computed_tokens) tt.

Definition get_blocks (request_id : string) : M state (list (list bref)) :=
  ms <- managers ;;
  ret ((fun m => default [] (Manager.req_to_blocks m !! request_id)) <$> ms).

Definition new_step_starts : M state unit := each (fun _ _ => Manager.new_step_starts) tt.

(** ** Construction *)

(** [get_manager_for_kv_cache_spec] for every group. *)
Fixpoint make_managers (groups : list KVCacheGroupSpec)
    (max_num_batched_tokens max_model_len : Z) (enable_caching : bool) (i dcp pcp : Z)
  : M BlockPool.t (list Manager.t) :=
  match groups with
  | [] => ret []
  | g :: groups =>
      m <- Manager.get_manager_for_kv_cache_spec (kv_cache_spec g) max_num_batched_tokens
             max_model_len enable_caching i dcp pcp ;;
      ms <- make_managers groups max_num_batched_tokens max_model_len enable_caching (i + 1) dcp pcp ;;
      ret (m :: ms)
  end.

(** [eagle_group_ids]: the flagged groups, or all of them if none is flagged. *)
Definition eagle_ids (groups : list KVCacheGroupSpec) (use_eagle : bool) : gset Z :=
  let flagged := list_to_set (omap (fun x => if is_eagle_group x.2 then Some (Z.of_nat x.1) else None)
                                (imap pair groups)) in
  if use_eagle && bool_decide (flagged = ∅)
  then list_to_set (py_range 0 (len groups))
  else flagged.

(** The inner loop of [verify_and_split_kv_cache_groups]: add group [i] to the
    entry with the same spec, or append a new entry. *)
Fixpoint add_group (i : Z) (spec : KVCacheSpec) (cls : ManagerClass) (l : list attention_group)
  : exn + list attention_group :=
  match l with
  | [] => inr [(spec, [i], cls)]
  | (existing_spec, group_ids, existing_cls) :: l =>
      if decide (existing_spec = spec) then
        if decide (cls = existing_cls) then inr ((existing_spec, group_ids ++ [i], existing_cls) :: l)
        else inl AssertionError
      else match add_group i spec cls l with
           | inl e => inl e
           | inr l => inr ((existing_spec, group_ids, existing_cls) :: l)
           end
  end.

Fixpoint split_loop (i : Z) (groups : list (KVCacheSpec * ManagerClass)) (l : list attention_group)
  : exn + list attention_group :=
  match groups with
  | [] => inr l
  | (spec, cls) :: groups =>
      match add_group i spec cls l with
      | inl e => inl e
      | inr l => split_loop (i + 1) groups l
      end
  end.

Definition group_is_full (g : attention_group) : bool := is_full g.1.1.

(** [sorted(attention_groups, key=lambda x: not isinstance(x[0], FullAttentionSpec))];
    the sort is stable. *)
Definition sort_groups (l : list attention_group) : list attention_group :=
  filter (fun g => group_is_full g = true) l ++ filter (fun g => group_is_full g = false) l.

(** [verify_and_split_kv_cache_groups]: the groups, the least common multiple
    of their block sizes and the indices with eagle groups. *)
Definition verify_and_split (groups : list KVCacheGroupSpec) (ms : list Manager.t) (eagle : gset Z)
  : exn + (list attention_group * Z * gset Z) :=
  match split_loop 0 (zip (kv_cache_spec <$> groups) (Manager.m_class <$> ms)) [] with
  | inl e => inl e
  | inr l =>
      if len l <=? 1 then inl AssertionError else
      let sorted := sort_groups l in
      let lcm_block_size := foldl Z.lcm 1 ((fun g => block_size g.1.1) <$> l) in
      let indices := list_to_set (omap (fun x : nat * attention_group =>
          if existsb (fun gid => bool_decide (gid ∈ eagle)) x.2.1.2 then Some (Z.of_nat x.1) else None)
        (imap pair sorted)) in
      inr (sorted, lcm_block_size, indices)
  end.

(** The constructors; [kind] is the class. *)
Definition init (kind : Kind) (config : KVCacheConfig) (max_model_len max_num_batched_tokens : Z)
    (use_eagle enable_caching enable_kv_cache_events : bool)
    (dcp_world_size pcp_world_size hash_block_size : Z) : exn + (Conf * state) :=
  let enable_caching :=
    match kind with KVCacheCoordinatorNoPrefixCache => false | _ => enable_caching end in
  match BlockPool.init (num_blocks config) enable_caching hash_block_size enable_kv_cache_events with
  | inl e => inl e
  | inr pool =>
      let groups := kv_cache_groups config in
      let eagle := eagle_ids groups use_eagle in
      match make_managers groups max_num_batched_tokens max_model_len enable_caching 0
              dcp_world_size pcp_world_size pool with
      | Raise e _ => inl e
      | Ret ms pool =>
          let conf := MkConf kind config max_model_len enable_caching eagle hash_block_size
                        dcp_world_size pcp_world_size in
          match kind with
          | KVCacheCoordinatorNoPrefixCache => inr (conf 0 [] 1 ∅, (ms, pool))
          | UnitaryKVCacheCoordinator =>
              match groups with
              | [] => inl IndexError
              | g :: _ =>
                  let bs := block_size (kv_cache_spec g) in
                  let bs := if 1 <? dcp_world_size then bs * dcp_world_size else bs in
                  let bs := if 1 <? pcp_world_size then bs * pcp_world_size else bs in
                  if enable_caching && negb (hash_block_size =? bs) then inl AssertionError
                  else if negb (len groups =? 1) then inl AssertionError
                  else inr (conf bs [] 1 ∅, (ms, pool))
              end
          | HybridKVCacheCoordinator =>
              if negb (forallb (fun g => block_size (kv_cache_spec g) mod hash_block_size =? 0) groups
                       && (dcp_world_size =? 1) && (pcp_world_size =? 1))
              then inl AssertionError
              else match verify_and_split groups ms eagle with
                   | inl e => inl e
                   | inr (l, lcm, indices) => inr (conf 0 l lcm indices, (ms, pool))
                   end
          end
      end
  end.

(** [get_kv_cache_coordinator] *)
Definition get_kv_cache_coordinator (config : KVCacheConfig) (max_model_len max_num_batched_tokens : Z)
    (use_eagle enable_caching enable_kv_cache_events : bool)
    (dcp_world_size pcp_world_size hash_block_size : Z) : exn + (Conf * state) :=
  let kind :=
    if negb enable_caching then KVCacheCoordinatorNoPrefixCache
    else if len (kv_cache_groups config) =? 1 then UnitaryKVCacheCoordinator
    else HybridKVCacheCoordinator in
  init kind config max_model_len max_num_batched_tokens use_eagle enable_caching
    enable_kv_cache_events dcp_world_size pcp_world_size hash_block_size.
End with_env.

(** ** Prefix-cache lookup *)

(** The candidate blocks of every KV-cache group; [None] before its first lookup. *)
Abbreviation hits := (list (option (list bref))).

(** [for group_id, blocks in zip(group_ids, hit_blocks)] *)
Definition record_hits (group_ids : list Z) (hit_blocks : list (list bref)) (h : hits) : hits :=
  foldl (fun h x => <[Z.to_nat x.1 := Some x.2]> h) h (zip group_ids hit_blocks).

Section lookup.
Variable c : Conf.
Variable pool : BlockPool.t.
Variable block_hashes : list bytes.
Variable max_cache_hit_length : Z.

(** The body of [for idx, (spec, group_ids, manager_cls) in enumerate(...)]. *)
Definition visit_group (idx : Z) (g : attention_group) (curr_hit_length : Z) (h : hits)
    (eagle_verified : gset Z) : exn + (Z * hits * gset Z) :=
  let '(spec, group_ids, manager_cls) := g in
  match group_ids with
  | [] => inl IndexError
  | g0 :: _ =>
      match h !! Z.to_nat g0 with
      | None => inl IndexError
      | Some cached_blocks =>
          if is_full spec && is_some cached_blocks then
            inr (curr_hit_length / block_size spec * block_size spec, h, eagle_verified)
          else
            let use_eagle := bool_decide (idx ∈ eagle_attn_group_indices c)
                             && negb (bool_decide (idx ∈ eagle_verified)) in
            let max_length :=
              if use_eagle then Z.min (curr_hit_length + block_size spec) max_cache_hit_length
              else curr_hit_length in
            match get_block_hashes_for block_hashes (c_hash_block_size c) (block_size spec) with
            | inl e => inl e
            | inr hashes =>
                match PrefixHit.find_longest_cache_hit pool group_ids manager_cls hashes max_length
                        spec use_eagle (lcm_block_size c) 1 1 with
                | inl e => inl e
                | inr hit_blocks =>
                    match PrefixHit.first hit_blocks with
                    | inl e => inl e
                    | inr l =>
                        let new_hit_length := len l * block_size spec in
                        let eagle_verified :=
                          if use_eagle then {[idx]} ∪ eagle_verified
                          else if new_hit_length <? curr_hit_length then ∅ else eagle_verified in
                        inr (new_hit_length, record_hits group_ids hit_blocks h, eagle_verified)
                    end
                end
            end
      end
  end.

(** One iteration of the [while] loop over the groups from index [idx] on. *)
Fixpoint visit_groups (idx : Z) (gs : list attention_group) (curr_hit_length : Z) (h : hits)
    (eagle_verified : gset Z) : exn + (Z * hits * gset Z) :=
  match gs with
  | [] => inr (curr_hit_length, h, eagle_verified)
  | g :: gs =>
      match visit_group idx g curr_hit_length h eagle_verified with
      | inl e => inl e
      | inr (curr, h, verified) => visit_groups (idx + 1) gs curr h verified
      end
  end.

Definition is_simple_hybrid : bool :=
  (len (attention_groups c) =? 2) &&
  match attention_groups c with g :: _ => group_is_full g | [] => false end.

(** The [while True] loop; [None] when the fuel runs out. *)
Fixpoint fixpoint_loop (fuel : nat) (hit_length : Z) (h : hits) (eagle_verified : gset Z)
  : option (exn + (Z * hits)) :=
  match fuel with
  | O => None
  | S fuel =>
      match visit_groups 0 (attention_groups c) hit_length h eagle_verified with
      | inl e => Some (inl e)
      | inr (curr_hit_length, h, eagle_verified) =>
          if hit_length <=? curr_hit_length then Some (inr (hit_length, h))
          else if is_simple_hybrid then Some (inr (curr_hit_length, h))
          else fixpoint_loop fuel curr_hit_length h eagle_verified
      end
  end.

(** Truncate the blocks of the first attention group if it is full attention. *)
Definition truncate_full (hit_length : Z) (h : hits) : hits :=
  match attention_groups c with
  | (spec, group_ids, _) :: _ =>
      if is_full spec then
        let num_blocks := hit_length / block_size spec in
        foldl (fun h gid =>
                 match h !! Z.to_nat gid with
                 | Some (Some blks) => <[Z.to_nat gid := Some (py_take blks num_blocks)]> h
                 | _ => h
                 end) h group_ids
      else h
  | [] => h
  end.

(** Each further iteration shortens the length, so this many suffice. *)
Definition lookup_fuel : nat := S (S (Z.to_nat max_cache_hit_length)).

Definition hybrid_find_longest_cache_hit : option (exn + (list (list bref) * Z)) :=
  let num_groups := length (kv_cache_groups (kv_cache_config c)) in
  match fixpoint_loop lookup_fuel max_cache_hit_length (replicate num_groups None) ∅ with
  | None => None
  | Some (inl e) => Some (inl e)
  | Some (inr (hit_length, h)) =>
      Some (inr ((fun o => default [] o) <$> truncate_full hit_length h, hit_length))
  end.

Definition unitary_find_longest_cache_hit (m : Manager.t) : exn + (list (list bref) * Z) :=
  match kv_cache_groups (kv_cache_config c) with
  | [] => inl IndexError
  | g :: _ =>
      match PrefixHit.find_longest_cache_hit pool [0] (Manager.m_class m) (HashList block_hashes)
              max_cache_hit_length (kv_cache_spec g) (bool_decide (0 ∈ eagle_group_ids c))
              (c_block_size c) (c_dcp_world_size c) (c_pcp_world_size c) with
      | inl e => inl e
      | inr hit_blocks =>
          match PrefixHit.first hit_blocks with
          | inl e => inl e
          | inr l => inr (hit_blocks, len l * c_block_size c)
          end
      end
  end.
End lookup.

(** [find_longest_cache_hit] of the three classes; [None] stands for a loop
    that does not end, which [hybrid_terminates] excludes. *)
Definition find_longest_cache_hit (c : Conf) (block_hashes : list bytes)
    (max_cache_hit_length : Z) (s : state) : option (exn + (list (list bref) * Z)) :=
  match c_kind c with
  | KVCacheCoordinatorNoPrefixCache => Some (inr ((fun _ => []) <$> s.1, 0))
  | UnitaryKVCacheCoordinator =>
      match s.1 with
      | [] => Some (inl IndexError)
      | m :: _ => Some (unitary_find_longest_cache_hit c s.2 block_hashes max_cache_hit_length m)
      end
  | HybridKVCacheCoordinator =>
      hybrid_find_longest_cache_hit c s.2 block_hashes max_cache_hit_length
  end.
End Coordinator.

Import Coordinator.

(** ** Termination of the fixed-point search *)

Section termination.
Variable c : Conf.
Variable pool : BlockPool.t.
Variable block_hashes : list bytes.
Variable limit : Z.
Hypothesis Hbs : Forall (fun g : attention_group => 0 < block_size g.1.1) (attention_groups c).

Lemma visit_group_nonneg idx g curr h v curr' h' v' :
  0 < block_size g.1.1 -> 0 <= curr ->
  visit_group c pool block_hashes limit idx g curr h v = inr (curr', h', v') -> 0 <= curr'.
Proof using.
  destruct g as [[spec gids] cls]. simpl. intros Hb Hc. unfold visit_group.
  destruct gids as [|g0 gids]; [done|].
  destruct (h !! Z.to_nat g0) as [o|]; [|done].
  destruct (is_full spec && is_some o)%bool.
  { intros [= <- _ _]. pose proof (Z.div_pos curr _ Hc Hb). nia. }
  destruct (get_block_hashes_for _ _ _) as [|hashes]; [done|].
  destruct (PrefixHit.find_longest_cache_hit _ _ _ _ _ _ _ _ _ _) as [|cols]; [done|].
  destruct (PrefixHit.first cols) as [|l]; [done|]. intros [= <- _ _].
  pose proof (len_nonneg l). nia.
Qed.

Lemma visit_groups_nonneg gs idx curr h v curr' h' v' :
  Forall (fun g : attention_group => 0 < block_size g.1.1) gs -> 0 <= curr ->
  visit_groups c pool block_hashes limit idx gs curr h v = inr (curr', h', v') -> 0 <= curr'.
Proof using.
  intros Hgs. revert idx curr h v. induction Hgs as [|g gs Hg Hgs IH]; intros idx curr h v Hc; simpl.
  { by intros [= <- _ _]. }
  destruct (visit_group _ _ _ _ _ _ _ _ _) as [|[[curr1 h1] v1]] eqn:E; [done|].
  apply IH. by eapply visit_group_nonneg.
Qed.

Lemma fixpoint_loop_ends fuel hit h v :
  0 <= hit < Z.of_nat fuel -> is_Some (fixpoint_loop c pool block_hashes limit fuel hit h v).
Proof using Hbs.
  revert hit h v. induction fuel as [|fuel IH]; intros hit h v Hf; [lia|]. cbn [fixpoint_loop].
  destruct (visit_groups _ _ _ _ _ _ _ _ _) as [|[[curr h1] v1]] eqn:E; [by eexists|].
  destruct (Z.leb_spec hit curr); [by eexists|]. destruct (is_simple_hybrid c); [by eexists|].
  apply IH. split; [|lia]. eapply visit_groups_nonneg; [exact Hbs| |exact E]. lia.
Qed.
End termination.

(** C30. The fixed-point search of the hybrid coordinator ends: whatever the
    pool holds and whatever the managers find, each further iteration starts
    from a shorter non-negative length. *)
Theorem hybrid_terminates c pool block_hashes max_length
    (Hbs : Forall (fun g : attention_group => 0 < block_size g.1.1) (attention_groups c))
    (Hmax : 0 <= max_length) :
  is_Some (hybrid_find_longest_cache_hit c pool block_hashes max_length).
Proof.
  unfold hybrid_find_longest_cache_hit.
  destruct (fixpoint_loop_ends c pool block_hashes max_length Hbs (lookup_fuel max_length) max_length
    (replicate (length (kv_cache_groups (kv_cache_config c))) None) ∅) as [r ->].
  { unfold lookup_fuel. lia. }
  destruct r as [|[]]; by eexists.
Qed.

(** ** Recording the hits *)

Definition recorded (gids : list Z) (cols : list (list bref)) (h : hits) : Prop :=
  forall i gid l, gids !! i = Some gid -> cols !! i = Some l -> h !! Z.to_nat gid = Some (Some l).

Lemma record_hits_spec gids cols h :
  NoDup gids -> Forall (fun g => 0 <= g < len h) gids ->
  let h' := record_hits gids cols h in
  length h' = length h /\ recorded gids cols h' /\
  (forall j, (forall g, g ∈ gids -> Z.to_nat g <> j) -> h' !! j = h !! j).
Proof.
  intros Hnd. revert cols h. induction Hnd as [|g gids Hg Hnd IH]; intros cols h Hr; simpl.
  { split; [done|]. split; [|done]. intros i gid l Hi. by rewrite lookup_nil in Hi. }
  destruct cols as [|l cols].
  { split; [done|]. split; [|done]. intros i gid l _ Hl. by rewrite lookup_nil in Hl. }
  apply Forall_cons in Hr as [Hg0 Hr].
  destruct (IH cols (<[Z.to_nat g := Some l]> h)) as (Hlen & Hrec & Hoth).
  { eapply Forall_impl; [exact Hr|]. intros x Hx. unfold len. by rewrite length_insert. }
  unfold record_hits in *. simpl. rewrite length_insert in Hlen. split; [done|]. split.
  - intros [|i] gid l' Hi Hl; simpl in Hi, Hl; [|by eapply Hrec].
    simplify_eq. rewrite Hoth.
    + apply list_lookup_insert_eq. unfold len in Hg0. lia.
    + intros x Hx Heq. rewrite Forall_forall in Hr. specialize (Hr x Hx).
      assert (x = gid) as -> by lia. done.
  - intros j Hj. rewrite Hoth by (intros x Hx; apply Hj; by right).
    apply list_lookup_insert_ne. apply Hj. left.
Qed.

(** Cutting the recorded blocks of some groups. *)
Lemma truncate_spec gids cols h m :
  NoDup gids -> Forall (fun g => 0 <= g) gids -> length cols = length gids -> recorded gids cols h ->
  let h' := foldl (fun h gid => match h !! Z.to_nat gid with
                     | Some (Some blks) => <[Z.to_nat gid := Some (py_take blks m)]> h
                     | _ => h
                     end) h gids in
  recorded gids ((fun l => py_take l m) <$> cols) h' /\
  (forall j, (forall g, g ∈ gids -> Z.to_nat g <> j) -> h' !! j = h !! j).
Proof.
  intros Hnd. revert cols h. induction Hnd as [|g gids Hg Hnd IH]; intros cols h Hr Hlen Hrec; simpl.
  { split; [|done]. intros i gid l Hi. by rewrite lookup_nil in Hi. }
  destruct cols as [|l cols]; [done|]. simpl in Hlen. apply Forall_cons in Hr as [Hg0 Hr].
  assert (forall x, x ∈ gids -> Z.to_nat x <> Z.to_nat g) as Hdiff.
  { intros x Hx Heq. rewrite Forall_forall in Hr. specialize (Hr x Hx).
    assert (x = g) as -> by lia. done. }
  rewrite (Hrec 0%nat g l eq_refl eq_refl).
  destruct (IH cols (<[Z.to_nat g := Some (py_take l m)]> h)) as [Hrec' Hoth]; [done|lia| |].
  { intros i gid l' Hi Hl. rewrite list_lookup_insert_ne; [by apply (Hrec (S i))|].
    intros Heq. apply (Hdiff gid); [by eapply list_elem_of_lookup_2|done]. }
  split.
  - intros [|i] gid l' Hi Hl; simpl in Hi, Hl; [|by eapply Hrec'].
    simplify_eq. rewrite Hoth by done. apply list_lookup_insert_eq.
    by eapply lookup_lt_Some, (Hrec 0%nat).
  - intros j Hj. rewrite Hoth by (intros x Hx; apply Hj; by right).
    apply list_lookup_insert_ne. apply Hj. left.
Qed.

(** ** Soundness of the hybrid search *)

Section soundness.
Variable c : Conf.
Variable pool : BlockPool.t.
Variable block_hashes : list bytes.
Variable limit : Z.
Abbreviation al := (lcm_block_size c).

(** What the search needs of a group: the view of the request's hashes exists
    and the group's method keeps the [Finder] contract. *)
Record group_ok (num : Z) (g : attention_group) : Prop := {
  go_hashes : exists hashes,
    get_block_hashes_for block_hashes (c_hash_block_size c) (block_size g.1.1) = inr hashes /\
    Finder pool g.1.2 hashes g.2 g.1.1 false al limit;
  go_bs : 0 < block_size g.1.1;
  go_div : (block_size g.1.1 | al);
  go_ne : g.1.2 <> [];
  go_nodup : NoDup g.1.2;
  go_range : Forall (fun gid => 0 <= gid < num) g.1.2;
}.

(** The recorded blocks of the group are a sound hit of [k] blocks. *)
Definition hit_of (g : attention_group) (h : hits) (k : nat) : Prop :=
  exists hashes cols,
    get_block_hashes_for block_hashes (c_hash_block_size c) (block_size g.1.1) = inr hashes /\
    recorded g.1.2 cols h /\ sound_hit pool g.1.2 hashes g.1.1 k cols.

(** The recorded blocks of a full-attention group, before its first lookup and after. *)
Definition full_pre (g : attention_group) (h : hits) (curr : Z) : Prop :=
  group_is_full g = true ->
  (forall g0, head g.1.2 = Some g0 -> h !! Z.to_nat g0 = Some None) \/
  (exists k, hit_of g h k /\ curr <= Z.of_nat k * block_size g.1.1 /\ (al | curr)).

Lemma hit_of_same g h h' k :
  (forall gid, gid ∈ g.1.2 -> h' !! Z.to_nat gid = h !! Z.to_nat gid) -> hit_of g h k -> hit_of g h' k.
Proof.
  intros Hsame (hashes & cols & Hh & Hrec & Hs). exists hashes, cols. split; [done|]. split; [|done].
  intros i gid l Hi Hl. rewrite Hsame by by eapply list_elem_of_lookup_2. by eapply Hrec.
Qed.

Hypothesis Heagle : eagle_attn_group_indices c = ∅.
Hypothesis Hal : 0 < al.

Lemma visit_group_spec num idx g curr h v :
  group_ok num g -> len h = num -> 0 <= curr <= limit -> full_pre g h curr ->
  exists curr' h' v' k,
    visit_group c pool block_hashes limit idx g curr h v = inr (curr', h', v') /\
    0 <= curr' <= curr /\ (al | curr') /\ hit_of g h' k /\ curr' <= Z.of_nat k * block_size g.1.1 /\
    (group_is_full g = false -> Z.of_nat k * block_size g.1.1 = curr') /\ len h' = num /\
    (forall j, (forall gid, gid ∈ g.1.2 -> Z.to_nat gid <> j) -> h' !! j = h !! j).
Proof using Heagle Hal.
  destruct g as [[spec gids] cls]. intros [(hashes & Hh & Hfind) Hbs Hdiv Hne Hnd Hr] Hlen Hcurr Hpre.
  unfold visit_group, full_pre, group_is_full in *. simpl in *.
  destruct gids as [|g0 gids']; [done|]. set (gids := g0 :: gids') in *.
  destruct (h !! Z.to_nat g0) as [o|] eqn:Eg0.
  2: { apply lookup_ge_None in Eg0. apply Forall_cons in Hr as [? _]. unfold len in Hlen. lia. }
  destruct (is_full spec && is_some o)%bool eqn:Efull.
  - apply andb_true_iff in Efull as [Ef Eo]. destruct (Hpre Ef) as [Hnone|(k & Hk & Hle & Hdl)].
    { specialize (Hnone g0 eq_refl). destruct o; [congruence|done]. }
    assert (curr / block_size spec * block_size spec = curr) as ->.
    { rewrite Z.mul_comm. symmetry. apply Z.div_exact; [lia|].
      apply Z.mod_divide; [lia|]. by etransitivity. }
    exists curr, h, v, k. split; [done|]. split; [lia|]. split; [done|]. split; [done|].
    split; [done|]. split; [congruence|done].
  - rewrite Heagle. rewrite bool_decide_false by set_solver. cbn [andb].
    rewrite Hh. destruct (Hfind curr Hcurr) as (k & cols & -> & Hs & Hle & Ha).
    destruct (proj1 Hs) as [Hcl _]. destruct cols as [|l cols']; [done|]. simpl.
    assert (length l = k) as Hl by (by eapply (shape_lookup gids k (l :: cols') 0); [apply Hs|]).
    unfold len at 1 2 3. rewrite Hl.
    destruct (record_hits_spec gids (l :: cols') h Hnd) as (Hlen' & Hrec & Hoth); [by rewrite Hlen|].
    eexists _, _, _, k. split; [done|]. split; [lia|]. split.
    { destruct Ha as [<-|Ha]; [by exists (Z.of_nat k)|]. by apply Z.mod_divide; [lia|]. }
    split; [by exists hashes, (l :: cols')|]. split; [done|]. split; [done|].
    split; [unfold len in *; lia|done].
Qed.

(** Groups with pairwise different group ids. *)
Definition apart (g g' : attention_group) : Prop := forall x, x ∈ g.1.2 -> x ∈ g'.1.2 -> False.

Lemma apart_lookup num g g' (h h' : hits) :
  group_ok num g -> group_ok num g' -> apart g g' ->
  (forall j, (forall gid, gid ∈ g.1.2 -> Z.to_nat gid <> j) -> h' !! j = h !! j) ->
  forall gid, gid ∈ g'.1.2 -> h' !! Z.to_nat gid = h !! Z.to_nat gid.
Proof using.
  intros Hg Hg' Hap Hsame gid Hin. apply Hsame. intros x Hx Heq.
  pose proof (go_range _ _ Hg) as Hr. pose proof (go_range _ _ Hg') as Hr'.
  rewrite Forall_forall in Hr, Hr'. specialize (Hr x Hx). specialize (Hr' gid Hin).
  assert (x = gid) as -> by lia. by apply (Hap gid).
Qed.

Lemma visit_groups_spec num gs idx curr h v :
  Forall (group_ok num) gs -> ForallOrdPairs apart gs -> len h = num -> 0 <= curr <= limit ->
  Forall (fun g => full_pre g h curr) gs ->
  exists curr' h' v',
    visit_groups c pool block_hashes limit idx gs curr h v = inr (curr', h', v') /\
    0 <= curr' <= curr /\ (gs <> [] -> (al | curr')) /\ len h' = num /\
    (forall g, g ∈ gs -> exists k, hit_of g h' k /\ curr' <= Z.of_nat k * block_size g.1.1 /\
       (group_is_full g = false -> Z.of_nat k * block_size g.1.1 <= curr) /\
       (group_is_full g = false -> last gs = Some g -> Z.of_nat k * block_size g.1.1 = curr')) /\
    (forall j, (forall g gid, g ∈ gs -> gid ∈ g.1.2 -> Z.to_nat gid <> j) -> h' !! j = h !! j).
Proof using Heagle Hal.
  intros Hok Hap. revert idx curr h v. induction Hap as [|g gs Hg Hap IH]; intros idx curr h v Hlen Hc Hpre.
  { exists curr, h, v. simpl. split; [done|]. split; [lia|]. split; [done|]. split; [done|].
    split; [|done]. intros g Hg. by apply not_elem_of_nil in Hg. }
  apply Forall_cons in Hok as [Hok1 Hok]. apply Forall_cons in Hpre as [Hpre1 Hpre].
  destruct (visit_group_spec num idx g curr h v Hok1 Hlen Hc Hpre1)
    as (curr1 & h1 & v1 & k1 & Hrun & Hc1 & Hal1 & Hhit1 & Hk1 & Hk1' & Hlen1 & Hsame1).
  rewrite Forall_forall in Hg, Hok, Hpre.
  destruct (IH ltac:(by apply Forall_forall) (idx + 1) curr1 h1 v1) as
    (curr2 & h2 & v2 & Hrun2 & Hc2 & Hal2 & Hlen2 & Hall2 & Hsame2); [done|lia| |].
  { apply Forall_forall. intros g' Hg'. intros Hf. destruct (Hpre g' Hg' Hf) as [Hn|(k & Hk & Hle & Hd)].
    - left. intros g0 Hg0. rewrite (apart_lookup num g g' h h1); eauto.
      destruct g'.1.2; [done|]. injection Hg0 as ->. left.
    - right. exists k. split; [|split; [lia|done]].
      eapply hit_of_same; [|exact Hk]. eapply apart_lookup; eauto. }
  simpl. rewrite Hrun, Hrun2. exists curr2, h2, v2. split; [done|]. split; [lia|]. split; [|split; [done|split]].
  - intros _. destruct gs; [|by apply Hal2]. simpl in Hrun2. by injection Hrun2 as <- _ _.
  - intros g' [->|Hg']%elem_of_cons.
    + exists k1. split; [|split; [lia|split; [intros Hf; rewrite Hk1' by done; lia|]]].
      * eapply hit_of_same; [|exact Hhit1]. intros gid Hin. apply Hsame2.
        intros g2 gid2 Hg2 Hin2 Heq.
        pose proof (go_range _ _ Hok1) as Hr. pose proof (go_range _ _ (Hok g2 Hg2)) as Hr2.
        rewrite Forall_forall in Hr, Hr2. specialize (Hr gid Hin). specialize (Hr2 gid2 Hin2).
        assert (gid = gid2) as -> by lia. by apply (Hg g2 Hg2 gid2).
      * intros Hf Hlast. destruct gs as [|g2 gs].
        { simpl in Hrun2. injection Hrun2 as <- _ _. by apply Hk1'. }
        (* [g] would occur twice. *)
        exfalso. assert (g ∈ g2 :: gs) as Hin by (by apply last_Some_elem_of).
        pose proof (go_ne _ _ Hok1) as Hne. destruct (g.1.2) as [|x l] eqn:E; [done|].
        apply (Hg g Hin x); rewrite E; left.
    + destruct (Hall2 g' Hg') as (k & Hk & Hle & Hle' & Hl). exists k. split; [done|]. split; [done|].
      split; [intros Hf; specialize (Hle' Hf); lia|]. intros Hf Hlast. apply (Hl Hf).
      destruct gs; [by apply not_elem_of_nil in Hg'|done].
  - intros j Hj. rewrite Hsame2 by (intros; eapply Hj; [right|]; eauto).
    apply Hsame1. intros gid. apply Hj. left.
Qed.

(** What the loop ends with: every group has a sound hit of exactly the final
    length, full attention at least that. *)
Definition settled (h : hits) (hit : Z) : Prop :=
  forall g, g ∈ attention_groups c -> exists k, hit_of g h k /\ hit <= Z.of_nat k * block_size g.1.1 /\
    (group_is_full g = false -> Z.of_nat k * block_size g.1.1 = hit).

Lemma settled_after num curr h hit :
  Forall (group_ok num) (attention_groups c) ->
  Forall (fun g => group_is_full g = false) (tail (attention_groups c)) ->
  0 <= curr <= hit ->
  (forall g, g ∈ attention_groups c -> exists k, hit_of g h k /\ curr <= Z.of_nat k * block_size g.1.1 /\
     (group_is_full g = false -> Z.of_nat k * block_size g.1.1 <= hit) /\
     (group_is_full g = false -> last (attention_groups c) = Some g -> Z.of_nat k * block_size g.1.1 = curr)) ->
  (hit <= curr -> settled h hit) /\ (is_simple_hybrid c = true -> settled h curr).
Proof using.
  intros Hok Htail Hc Hall. split.
  - intros Hle g Hg. destruct (Hall g Hg) as (k & Hk & H1 & H2 & _). exists k.
    split; [done|]. split; [lia|]. intros Hf. specialize (H2 Hf). lia.
  - intros Hs g Hg. destruct (Hall g Hg) as (k & Hk & H1 & H2 & H3). exists k.
    split; [done|]. split; [lia|]. intros Hf. apply (H3 Hf).
    unfold is_simple_hybrid in Hs. apply andb_true_iff in Hs as [Hl Hfull]. apply Z.eqb_eq in Hl.
    destruct (attention_groups c) as [|g1 [|g2 [|]]]; try (unfold len in Hl; simpl in Hl; lia).
    apply elem_of_cons in Hg as [->|Hg]; [congruence|]. by apply list_elem_of_singleton in Hg as ->.
Qed.

Lemma fixpoint_loop_spec num fuel hit h v r :
  Forall (group_ok num) (attention_groups c) -> ForallOrdPairs apart (attention_groups c) ->
  Forall (fun g => group_is_full g = false) (tail (attention_groups c)) ->
  attention_groups c <> [] -> len h = num -> 0 <= hit <= limit ->
  Forall (fun g => full_pre g h hit) (attention_groups c) ->
  fixpoint_loop c pool block_hashes limit fuel hit h v = Some r ->
  exists hit' h', r = inr (hit', h') /\ 0 <= hit' <= limit /\ (al | hit') /\ settled h' hit'.
Proof using Heagle Hal.
  intros Hok Hap Htail Hne. revert hit h v. induction fuel as [|fuel IH]; intros hit h v Hlen Hh Hpre; [done|].
  cbn [fixpoint_loop].
  destruct (visit_groups_spec num (attention_groups c) 0 hit h v) as
    (curr & h1 & v1 & -> & Hc & Hd & Hlen1 & Hall & _); [done..|].
  destruct (settled_after num curr h1 hit Hok Htail Hc Hall) as [Hset Hsimple].
  specialize (Hd Hne). destruct (Z.leb_spec hit curr) as [Hle|Hlt].
  { intros [= <-]. exists hit, h1. split; [done|]. split; [done|]. split; [|by apply Hset].
    by replace hit with curr by lia. }
  destruct (is_simple_hybrid c).
  { intros [= <-]. exists curr, h1. split; [done|]. split; [lia|]. split; [done|]. by apply Hsimple. }
  apply IH; [done|lia|]. apply Forall_forall. intros g Hg _. right.
  destruct (Hall g Hg) as (k & Hk & Hle & _). by exists k.
Qed.

(** Cutting a full-attention hit keeps it sound. *)
Lemma sound_hit_cut gids hashes spec k k' cols :
  is_full spec = true -> (k' <= k)%nat -> sound_hit pool gids hashes spec k cols -> 0 < block_size spec ->
  sound_hit pool gids hashes spec k' ((fun l => py_take l (Z.of_nat k')) <$> cols).
Proof using.
  intros Hf Hk [Hs Hhit] Hbs.
  destruct (cut_spec pool gids k k' cols (fun l => py_take l (Z.of_nat k')) Hs Hk) as [Hs' Hh'].
  { intros l _. rewrite py_take_nonneg by lia. by rewrite Nat2Z.id. }
  split; [done|]. intros t h Ht _ Hh.
  assert (0 <= t / block_size spec) by (apply Z.div_pos; lia).
  assert (t / block_size spec < Z.of_nat k') by (apply Z.div_lt_upper_bound; lia).
  apply Hh'; [lia|]. apply (Hhit t h); [nia| |done].
  destruct spec; done.
Qed.

Lemma settled_truncated num h hit :
  Forall (group_ok num) (attention_groups c) -> ForallOrdPairs apart (attention_groups c) ->
  Forall (fun g => group_is_full g = false) (tail (attention_groups c)) ->
  0 <= hit -> (al | hit) -> settled h hit ->
  forall g, g ∈ attention_groups c ->
    hit_of g (truncate_full c hit h) (Z.to_nat (hit / block_size g.1.1)).
Proof using.
  intros Hok Hap Htail Hh Hd Hset g Hg. rewrite Forall_forall in Hok.
  destruct (Hset g Hg) as (k & Hk & Hle & Heq). pose proof (go_bs _ _ (Hok g Hg)) as Hbs.
  assert (group_is_full g = false -> Z.to_nat (hit / block_size g.1.1) = k) as Hkk.
  { intros Hf. rewrite <- (Heq Hf), Z.div_mul by lia. apply Nat2Z.id. }
  unfold truncate_full. destruct (attention_groups c) as [|[[spec gids] cls] gs] eqn:Eg.
  { by apply not_elem_of_nil in Hg. }
  apply elem_of_cons in Hg as [->|Hg]; simpl in *.
  - unfold group_is_full in *. simpl in *. destruct (is_full spec) eqn:Hf; [|by rewrite Hkk].
    destruct Hk as (hashes & cols & Hhs & Hrec & Hs). simpl in *.
    pose proof (go_nodup _ _ (Hok (spec, gids, cls) ltac:(left))) as Hnd.
    pose proof (go_range _ _ (Hok (spec, gids, cls) ltac:(left))) as Hr. simpl in Hnd, Hr.
    destruct (truncate_spec gids cols h (hit / block_size spec) Hnd) as [Hrec' _];
      [by eapply Forall_impl; [exact Hr|]; simpl; lia|by destruct Hs as [[? _] _]|done|].
    pose proof (Z.div_pos hit _ Hh Hbs) as Hq.
    exists hashes, ((fun l => py_take l (hit / block_size spec)) <$> cols).
    split; [done|]. split; [done|].
    pose proof (sound_hit_cut gids hashes spec k (Z.to_nat (hit / block_size spec)) cols Hf) as Hcut.
    rewrite Z2Nat.id in Hcut by done. apply Hcut; [|done|done].
    assert (hit / block_size spec <= Z.of_nat k); [|lia].
    apply Z.div_le_upper_bound; lia.
  - rewrite Forall_forall in Htail. rewrite Hkk by by apply Htail.
    destruct (is_full spec) eqn:Hf; [|done].
    eapply hit_of_same; [|exact Hk].
    assert (exists cols, length cols = length gids /\ recorded gids cols h) as (cols & Hl & Hrec).
    { destruct (Hset (spec, gids, cls) ltac:(rewrite Eg; left)) as (k0 & (? & cols & _ & ? & [[? _] _]) & _). by exists cols. }
    pose proof (go_nodup _ _ (Hok (spec, gids, cls) ltac:(left))) as Hnd.
    pose proof (go_range _ _ (Hok (spec, gids, cls) ltac:(left))) as Hr. simpl in Hnd, Hr.
    destruct (truncate_spec gids cols h (hit / block_size spec) Hnd) as [_ Hoth];
      [by eapply Forall_impl; [exact Hr|]; simpl; lia|done|done|].
    eapply (apart_lookup num (spec, gids, cls)); [by apply Hok; left|by apply Hok; right| |done].
    inversion Hap as [|? ? Hap1 _]; subst. rewrite Forall_forall in Hap1. by apply Hap1.
Qed.
End soundness.

(** ** Splitting the groups *)

(** The group ids of an entry are those of groups with its spec and class. *)
Definition entry_ok (pairs : list (KVCacheSpec * ManagerClass)) (e : attention_group) : Prop :=
  e.1.2 <> [] /\ forall gid, gid ∈ e.1.2 -> 0 <= gid /\ pairs !! Z.to_nat gid = Some (e.1.1, e.2).

Definition all_ids (l : list attention_group) : list Z := concat ((fun e => e.1.2) <$> l).
Definition all_specs (l : list attention_group) : list KVCacheSpec := (fun e => e.1.1) <$> l.

Lemma add_group_spec pairs i spec cls l l' :
  add_group i spec cls l = inr l' -> Forall (entry_ok pairs) l -> NoDup (all_specs l) ->
  0 <= i -> pairs !! Z.to_nat i = Some (spec, cls) ->
  Forall (entry_ok pairs) l' /\ all_ids l' ≡ₚ i :: all_ids l /\ NoDup (all_specs l') /\
  (forall s, s ∈ all_specs l' -> s = spec \/ s ∈ all_specs l).
Proof.
  intros Hadd Hok Hnd Hi Hp. revert l' Hadd.
  induction Hok as [|[[spec1 ids] cls1] l [Hne Hids] Hok IH]; intros l' Hadd; simpl in Hadd.
  { injection Hadd as <-. split; [|split; [done|split; [apply NoDup_singleton|set_solver]]].
    constructor; [|done]. split; [done|]. by intros gid ->%list_elem_of_singleton. }
  apply NoDup_cons in Hnd as [Hnin Hnd]. simpl in *.
  destruct (decide (spec1 = spec)) as [->|Hspec].
  - destruct (decide (cls = cls1)) as [->|]; [|done]. injection Hadd as <-.
    split; [|split; [|split; [by apply NoDup_cons|set_solver]]].
    + constructor; [|done]. split; simpl; [by destruct ids|].
      intros gid [Hin| ->%list_elem_of_singleton]%elem_of_app; [by apply Hids|done].
    + unfold all_ids. simpl. rewrite <- app_assoc. symmetry. apply Permutation_middle.
  - destruct (add_group i spec cls l) as [|l1] eqn:E; [done|]. injection Hadd as <-.
    destruct (IH Hnd l1 eq_refl) as (Hok1 & Hperm & Hnd1 & Hin). split; [|split; [|split]].
    + by constructor.
    + unfold all_ids in *. simpl. rewrite Hperm. symmetry. apply Permutation_middle.
    + apply NoDup_cons. split; [|done]. intros [?|?]%Hin; done.
    + intros s Hs. unfold all_specs in *. simpl in *. apply elem_of_cons in Hs as [->|Hs]; [by right; left|].
      destruct (Hin s Hs); [by left|by right; right].
Qed.

Lemma split_loop_spec pairs done_ rest l l' :
  pairs = done_ ++ rest ->
  split_loop (len done_) rest l = inr l' -> Forall (entry_ok pairs) l -> NoDup (all_specs l) ->
  all_ids l ≡ₚ py_range 0 (len done_) ->
  Forall (entry_ok pairs) l' /\ NoDup (all_specs l') /\ all_ids l' ≡ₚ py_range 0 (len pairs).
Proof.
  revert done_ l. induction rest as [|[spec cls] rest IH]; intros done_ l Hp Hs Hok Hnd Hperm; simpl in Hs.
  { injection Hs as <-. rewrite app_nil_r in Hp. by subst. }
  destruct (add_group _ _ _ _) as [|l1] eqn:E; [done|].
  destruct (add_group_spec pairs _ _ _ _ _ E Hok Hnd) as (Hok1 & Hperm1 & Hnd1 & _).
  { apply len_nonneg. }
  { subst. unfold len. rewrite Nat2Z.id. by apply list_lookup_middle. }
  apply (IH (done_ ++ [(spec, cls)]) l1); [by rewrite <- app_assoc|by rewrite len_app, len_cons|done..|].
  rewrite Hperm1, Hperm, len_app. change (len [(spec, cls)]) with 1. symmetry. unfold py_range.
  replace (Z.to_nat (len done_ + 1 - 0)) with (S (Z.to_nat (len done_ - 0))) by (pose proof (len_nonneg done_); lia).
  rewrite seq_S, fmap_app. simpl. rewrite <- Permutation_cons_append. f_equiv.
  pose proof (len_nonneg done_). lia.
Qed.

Lemma sort_groups_perm l : sort_groups l ≡ₚ l.
Proof.
  unfold sort_groups. induction l as [|e l IH]; [done|].
  destruct (group_is_full e) eqn:He; rewrite filter_cons, (filter_cons _ e); rewrite He; simpl.
  - by f_equiv.
  - rewrite <- Permutation_middle. by f_equiv.
Qed.

Lemma foldl_lcm_divide (l : list Z) a x : x ∈ l \/ x = a -> (x | foldl Z.lcm a l).
Proof.
  revert a x. induction l as [|y l IH]; intros a x; simpl.
  - intros [[]%not_elem_of_nil| ->]. apply Z.divide_refl.
  - intros [[->|Hin]%elem_of_cons| ->]; [|apply IH; by left|].
    + etransitivity; [apply (Z.divide_lcm_r a)|]. apply IH. by right.
    + etransitivity; [apply (Z.divide_lcm_l a y)|]. apply IH. by right.
Qed.

(** C34. Splitting the groups is a partition: every KV-cache group belongs to
    exactly one attention group, which has its specification and manager class;
    equal specifications share one entry; full attention comes first; and the
    alignment is a multiple of every block size. *)
Theorem verify_and_split_partition groups ms eagle l lcm indices
    (Hlen : length ms = length groups) (Hv : verify_and_split groups ms eagle = inr (l, lcm, indices)) :
  all_ids l ≡ₚ py_range 0 (len groups) /\ NoDup (all_specs l) /\ 1 < len l /\
  (forall spec gids cls, (spec, gids, cls) ∈ l -> gids <> [] /\ (block_size spec | lcm) /\
     forall gid, gid ∈ gids -> exists g m, groups !! Z.to_nat gid = Some g /\
       ms !! Z.to_nat gid = Some m /\ kv_cache_spec g = spec /\ Manager.m_class m = cls) /\
  (exists l1 l2, l = l1 ++ l2 /\ Forall (fun g => group_is_full g = true) l1 /\
     Forall (fun g => group_is_full g = false) l2).
Proof.
  unfold verify_and_split in Hv. set (pairs := zip _ _) in Hv.
  destruct (split_loop 0 pairs []) as [|l0] eqn:Es; [done|].
  destruct (Z.leb_spec (len l0) 1) as [|Hl]; [done|]. injection Hv as <- <- _.
  assert (len pairs = len groups) as Hlp.
  { unfold pairs, len. rewrite length_zip_with, !length_fmap. lia. }
  destruct (split_loop_spec pairs [] pairs [] l0 eq_refl Es) as (Hok & Hnd & Hperm); [done|apply NoDup_nil_2|done|].
  pose proof (sort_groups_perm l0) as Hsort. rewrite Hlp in Hperm. split; [|split; [|split; [|split]]].
  - unfold all_ids in *. by rewrite Hsort.
  - unfold all_specs in *. by rewrite Hsort.
  - by rewrite Hsort.
  - intros spec gids cls Hin. rewrite Hsort in Hin. rewrite Forall_forall in Hok.
    destruct (Hok _ Hin) as [Hne Hids]. simpl in *. split; [done|]. split.
    + apply foldl_lcm_divide. left. apply list_elem_of_fmap. by exists (spec, gids, cls).
    + intros gid Hg. destruct (Hids gid Hg) as [_ Hp]. unfold pairs in Hp.
      apply lookup_zip_with_Some in Hp as (s1 & c1 & [= -> ->] & H1 & H2).
      apply list_lookup_fmap_Some in H1 as (g & -> & H1). apply list_lookup_fmap_Some in H2 as (m & -> & H2).
      by exists g, m.
  - exists (filter (fun g => group_is_full g = true) l0), (filter (fun g => group_is_full g = false) l0).
    split; [done|]. split; apply Forall_forall; by intros g [? _]%list_elem_of_filter.
Qed.

(** ** Main theorem of the hybrid search *)

Lemma hashes_defined block_hashes hash_size size max_length hashes j :
  get_block_hashes_for block_hashes hash_size size = inr hashes -> 0 < size ->
  max_length <= len block_hashes * hash_size -> Z.of_nat j < max_length / size ->
  is_Some (bhl_get hashes (Z.of_nat j)).
Proof.
  unfold get_block_hashes_for. intros Hh Hs Hm Hj. destruct (Z.eqb_spec size hash_size) as [->|].
  - injection Hh as <-. simpl. rewrite py_index_nonneg, Nat2Z.id by lia. apply lookup_lt_is_Some_2.
    assert (max_length / hash_size <= len block_hashes) by (apply Z.div_le_upper_bound; lia).
    unfold len in *. lia.
  - destruct (BHL_new _ _ _) as [|b]; [done|]. injection Hh as <-. by eexists.
Qed.

(** What [verify_and_split] establishes of an attention group, and the
    conditions on the specification. *)
Record hybrid_group (c : Conf) (g : attention_group) : Prop := {
  hg_cls : Manager.spec_manager_map g.1.1 = Some g.2;
  hg_params : spec_params_ok g.1.1;
  hg_chunk : chunk_ok g.1.1 false (lcm_block_size c);
  hg_div : (block_size g.1.1 | lcm_block_size c);
  hg_hash : block_size g.1.1 mod c_hash_block_size c = 0;
  hg_ne : g.1.2 <> [];
  hg_nodup : NoDup g.1.2;
  hg_range : Forall (fun gid => 0 <= gid < len (kv_cache_groups (kv_cache_config c))) g.1.2;
}.

Lemma hybrid_group_ok c pool n free block_hashes limit g :
  pool_core n pool free -> 0 < lcm_block_size c -> limit <= len block_hashes * c_hash_block_size c ->
  len (kv_cache_groups (kv_cache_config c)) <= 2 ^ 32 -> hybrid_group c g ->
  group_ok c pool block_hashes limit (len (kv_cache_groups (kv_cache_config c))) g.
Proof.
  intros Hc Hal Hlim Hnum [Hcls Hp Hch Hdiv Hhash Hne Hnd Hr].
  assert (exists hashes, get_block_hashes_for block_hashes (c_hash_block_size c) (block_size g.1.1)
    = inr hashes) as [hashes Hh].
  { unfold get_block_hashes_for, BHL_new. rewrite Hhash. simpl. destruct (_ =? _); by eexists. }
  constructor; try done; [|by apply Hp]. exists hashes. split; [done|].
  eapply find_contract; try done.
  - eapply Forall_impl; [exact Hr|]. simpl. lia.
  - intros j Hj. eapply hashes_defined; [done|by apply Hp|done|done].
Qed.


(** ** Concrete configurations *)

#[local] Existing Instance demo_env.

Definition demo_group (s : KVCacheSpec) : KVCacheGroupSpec :=
  {| layer_names := []; kv_cache_spec := s; is_eagle_group := false |}.
Definition demo_attn (heads b : Z) : AttentionSpec :=
  {| a_block_size := b; num_kv_heads := heads; head_size := 128; dtype := "bfloat16";
     kv_quant_mode := NONE; a_page_size_padded := None |}.
Definition demo_full_spec (heads : Z) : KVCacheSpec := FullAttentionSpec (demo_attn heads 2) (demo_full None).
Definition demo_window_spec (w : Z) : KVCacheSpec := SlidingWindowSpec (demo_attn 8 2) w 128.

Definition demo_config (specs : list KVCacheSpec) : KVCacheConfig :=
  {| num_blocks := 16; kv_cache_tensors := []; kv_cache_groups := demo_group <$> specs |}.

(** A hybrid coordinator for groups of block size 2. *)
Definition demo_hybrid (specs : list KVCacheSpec) (use_eagle : bool) : Conf * state :=
  match init HybridKVCacheCoordinator (demo_config specs) 32 32 use_eagle true false 1 1 2 with
  | inr x => x
  | inl _ => (MkConf HybridKVCacheCoordinator (demo_config specs) 0 false ∅ 0 0 0 0 [] 1 ∅, ([], demo_pool))
  end.

Definition demo_req : Request := demo_hashed_request "a" [5; 6; 7; 8; 9].

(** Cache the request's first blocks in each group: [ns] has their number, and
    block ids are assigned in order; then free them, and let another request
    use and free all other blocks, so that the cached ones are evicted first. *)
Fixpoint demo_fill (g : Z) (ns : list nat) (next : nat) : M BlockPool.t unit :=
  match ns with
  | [] => ret tt
  | k :: ns =>
      let blks := Blk <$> seq next k in
      BlockPool.cache_full_blocks demo_req blks 0 (Z.of_nat k) 2 g ;;;
      demo_fill (g + 1) ns (next + k) ;;;
      BlockPool.free_blocks (rev blks)
  end.

Definition demo_age (ns : list nat) : M BlockPool.t unit :=
  BlockPool.get_new_blocks (Z.of_nat (sum_list ns)) ;;;
  demo_fill 0 ns 1 ;;;
  p <- get ;;
  others <- BlockPool.get_new_blocks (BlockPool.get_num_free_blocks p - Z.of_nat (sum_list ns)) ;;
  BlockPool.free_blocks others.

Definition demo_aged (specs : list KVCacheSpec) (use_eagle : bool) (ns : list nat) : Conf * state :=
  let '(c, s) := demo_hybrid specs use_eagle in (c, (s.1, final (demo_age ns s.2))).

(** With eagle and no flagged group all groups drop their last block, but
    the Mamba search ignores the flag: the hit of four tokens that is returned
    comes with a single block of two tokens for the full-attention group. *)
Theorem hybrid_eagle_mamba_overshoots :
  let '(c, s) := demo_aged [demo_full_spec 8; MambaSpec (demo_mamba 2 0)] true [2; 2]%nat in
  find_longest_cache_hit c (block_hashes demo_req) 4 s
    = Some (inr ([[Blk 1]; [Blk 0; Blk 4]], 4)).
Proof. vm_compute. reflexivity. Qed.

(** With two different full-attention entries only the first is truncated
    to the final length: the second keeps blocks beyond the hit of two tokens. *)
Theorem hybrid_second_full_not_truncated :
  let '(c, s) := demo_aged [demo_full_spec 8; demo_full_spec 4; demo_window_spec 3] false [2; 2; 1]%nat in
  find_longest_cache_hit c (block_hashes demo_req) 4 s
    = Some (inr ([[Blk 1]; [Blk 3; Blk 4]; [Blk 5]], 2)).
Proof. vm_compute. reflexivity. Qed.

Definition tables (request_id : string) (s : state) : list (list bref) :=
  blocks_of request_id <$> s.1.


(** ** Witnesses *)

Definition demo_specs : list KVCacheSpec := [demo_full_spec 8; demo_window_spec 5].
Definition demo_conf : Conf := (demo_hybrid demo_specs false).1.

Lemma hybrid_terminates_witness :
  is_Some (hybrid_find_longest_cache_hit demo_conf demo_pool3 (block_hashes demo_req) 4).
Proof.
  apply (hybrid_terminates demo_conf demo_pool3 (block_hashes demo_req) 4); [|lia].
  repeat (apply Forall_cons; split); [..|apply Forall_nil; exact I]; vm_compute; reflexivity.
Defined.

Lemma verify_and_split_partition_witness :
  exists l lcm indices, verify_and_split (kv_cache_groups (demo_config demo_specs))
      (demo_hybrid demo_specs false).2.1 ∅ = inr (l, lcm, indices) /\
    all_ids l ≡ₚ [0; 1].
Proof.
  destruct (verify_and_split (kv_cache_groups (demo_config demo_specs))
      (demo_hybrid demo_specs false).2.1 ∅) as [e|[[l lcm] indices]] eqn:E;
    [vm_compute in E; discriminate|].
  exists l, lcm, indices. split; [reflexivity|].
  assert (length (demo_hybrid demo_specs false).2.1 = length (kv_cache_groups (demo_config demo_specs)))
    as Hlen by (vm_compute; reflexivity).
  exact (proj1 (verify_and_split_partition _ _ _ _ _ _ Hlen E)).
Defined.

Lemma demo_full_group : hybrid_group demo_conf (demo_full_spec 8, [0], FullAttentionManager).
Proof.
  split; simpl fst; simpl snd.
  - reflexivity.
  - split; [reflexivity|exact I].
  - exact I.
  - exists 1. vm_compute. reflexivity.
  - vm_compute. reflexivity.
  - discriminate.
  - apply NoDup_singleton.
  - apply Forall_singleton. vm_compute. split; [discriminate|reflexivity].
Qed.

Lemma demo_window_group : hybrid_group demo_conf (demo_window_spec 5, [1], SlidingWindowManager).
Proof.
  split; simpl fst; simpl snd.
  - reflexivity.
  - split; [reflexivity|vm_compute; discriminate].
  - exact I.
  - exists 1. vm_compute. reflexivity.
  - vm_compute. reflexivity.
  - discriminate.
  - apply NoDup_singleton.
  - apply Forall_singleton. vm_compute. split; [discriminate|reflexivity].
Qed.

