(* ===== verification/Ledger.v ===== *)
(** * The ledger: every operation of the managers keeps the reference counts

    [Ownership] says what the operations do when they succeed.  This file says
    what they leave behind in any case: whether an operation of a manager
    returns or raises, the counts of the pool are still the references in the
    request tables.  It covers every class, align mode included, and lifts to
    the methods of the coordinator. *)

From S2P Require Import Prelude FreeQueue Request BlockHash BlockPool CacheSpec SingleType Ownership.
From S2P Require Import PrefixHit Coordinator.
From stdpp Require Import options.

Import Manager.

(** ** Running an operation to either outcome *)

Lemma leaves_and {S A} (m : M S A) s (P Q : S -> Prop) :
  leaves m s P -> leaves m s Q -> leaves m s (fun s' => P s' /\ Q s').
Proof. unfold leaves. destruct (m s); auto. Qed.

Lemma succeeds_leaves {S A} (m : M S A) s (P : S -> Prop) :
  succeeds m s (fun _ s' => P s') -> leaves m s P.
Proof. unfold succeeds, leaves. by destruct (m s). Qed.

Lemma leaves_run {S A} (m : M S A) s (P : S -> Prop) (o : outcome S A) :
  m s = o -> match o with Ret _ s' | Raise _ s' => P s' end -> leaves m s P.
Proof. unfold leaves. by intros ->. Qed.

Lemma leaves_bind_eq {S A B} (m : M S A) (k : A -> M S B) s a s1 (P : S -> Prop) :
  m s = Ret a s1 -> leaves (k a) s1 P -> leaves (bind m k) s P.
Proof. intros Hm. unfold leaves. by rewrite (bind_Ret _ _ _ _ _ Hm). Qed.

Lemma leaves_raise {S A} e s (P : S -> Prop) : P s -> leaves (@raise S A e) s P.
Proof. done. Qed.

Lemma leaves_guard {S A} b (k : M S A) (s : S) (P : S -> Prop) :
  P s -> (b = true -> leaves k s P) -> leaves (assert b ;;; k) s P.
Proof. intros Hs Hk. destruct b; [by apply Hk|exact Hs]. Qed.

Lemma leaves_mfor {S A} (f : A -> M S unit) (I : S -> Prop) l s :
  I s -> (forall x s, I s -> leaves (f x) s I) -> leaves (mfor l f) s I.
Proof.
  intros Hs Hf. revert s Hs. induction l as [|x l IH]; intros s Hs; [done|]. simpl.
  apply leaves_bind; [by apply Hf|]. intros [] s' Hs'. by apply IH.
Qed.

Lemma leaves_block_pool {A} (k : BlockPool.t -> M state A) s (P : state -> Prop) :
  leaves (k s.2) s P -> leaves (bind block_pool k) s P.
Proof. done. Qed.

Lemma leaves_req_blocks_end request_id s (P : state -> Prop) :
  P (seen request_id s.1, s.2) -> leaves (req_blocks request_id) s P.
Proof. unfold leaves. by rewrite req_blocks_run. Qed.

(** A value the operation does not change, whatever happens to the rest: each
    step is a lookup or a write to other fields. *)
Ltac lstep :=
  lazymatch goal with
  | |- leaves (bind self _) _ _ => apply leaves_self
  | |- leaves (bind block_pool _) _ _ => apply leaves_block_pool
  | |- leaves (bind (req_blocks _) _) _ _ => apply leaves_req_blocks
  | |- leaves (bind _ _) _ _ => apply leaves_bind; [|intros ? ? ?]
  | |- leaves (req_blocks _) _ _ => apply leaves_req_blocks_end
  | |- leaves (update _) _ _ => apply leaves_update
  | |- leaves (set_req_blocks _ _) _ _ => apply leaves_set_req_blocks
  | |- leaves (ret _) _ _ => apply leaves_ret
  | |- leaves (raise _) _ _ => apply leaves_raise
  | |- leaves (assert _) _ _ => apply leaves_assert
  | |- leaves (of_option _ _) _ _ => apply leaves_of_option
  | |- leaves (on_pool _) _ _ => apply leaves_on_pool_any; intros ?
  | |- leaves (if ?b then _ else _) _ _ => destruct b
  | |- leaves (match ?o with Some _ => _ | None => _ end) _ _ => destruct o
  end; cbv beta zeta; cbn [fst snd].

(** The constructor's fields and the requests that run in align mode. *)
Definition fixed (m : Manager.t) := (config m, _allocated_block_reqs m).

Ltac keep_fixed := repeat lstep; cbn [fst snd]; (done || congruence).

Section fixed.
Context `{HashEnv}.
Variable c : (ManagerClass * KVCacheSpec * Z * bool * option Z * Z * bref * list bref) * gset string.

Lemma extend_fixed request_id k s :
  fixed s.1 = c -> leaves (extend_with_new request_id k) s (fun s' => fixed s'.1 = c).
Proof using. intros Hc. unfold extend_with_new. keep_fixed. Qed.

Lemma base_allocate_fixed request_id k s :
  fixed s.1 = c -> leaves (base_allocate_new_blocks request_id k) s (fun s' => fixed s'.1 = c).
Proof using.
  intros Hc. unfold base_allocate_new_blocks. do 3 lstep; [done|]. by apply extend_fixed.
Qed.

Lemma base_computed_fixed request_id new local ext s :
  fixed s.1 = c ->
  leaves (base_allocate_new_computed_blocks request_id new local ext) s (fun s' => fixed s'.1 = c).
Proof using.
  intros Hc. unfold base_allocate_new_computed_blocks. do 3 lstep; [done|]. repeat lstep; try done.
  by apply extend_fixed.
Qed.

Lemma base_cache_fixed request k s :
  fixed s.1 = c -> leaves (base_cache_blocks request k) s (fun s' => fixed s'.1 = c).
Proof using. intros Hc. unfold base_cache_blocks. keep_fixed. Qed.

Lemma base_remove_skipped_fixed request_id k s :
  fixed s.1 = c -> leaves (base_remove_skipped_blocks request_id k) s (fun s' => fixed s'.1 = c).
Proof using. intros Hc. unfold base_remove_skipped_blocks. keep_fixed. Qed.

Lemma base_free_fixed request_id s :
  fixed s.1 = c -> leaves (base_free request_id) s (fun s' => fixed s'.1 = c).
Proof using. intros Hc. unfold base_free, pop_req_blocks. keep_fixed. Qed.
End fixed.

(** ** What holds of a manager between calls *)

(** The references, the manager's class and, for a request that runs in align
    mode, room for its speculative blocks. *)
Record owned (n : nat) (others reserved : list bref) (s : state) : Prop := {
  ow_rep : exists free, mgr_rep n s free others reserved;
  ow_spec : spec_ok s.1;
  ow_align rid : rid ∈ _allocated_block_reqs s.1 ->
    is_align s.1 = true /\ num_spec_blocks s.1 <= len (blocks_of rid s.1);
}.

Section operations.
Context `{HashEnv}.
Variable n : nat.
Variables others reserved : list bref.
Implicit Types (s : state) (free : list bref) (request_id : string).

(** What every operation leaves: the manager is [owned] and its constructor's
    fields are unchanged. *)
Definition kept s s' : Prop := owned n others reserved s' /\ config s'.1 = config s.1.

Lemma kept_refl s : owned n others reserved s -> kept s s.
Proof using. done. Qed.

Lemma kept_trans s1 s2 s3 : kept s1 s2 -> kept s2 s3 -> kept s1 s3.
Proof using. intros [_ E1] [? E2]. split; [done|congruence]. Qed.

Lemma config_spec_ok m m' : config m' = config m -> spec_ok m -> spec_ok m'.
Proof using. intros (E1 & E2 & E3 & _)%config_eq. unfold spec_ok. by rewrite E1, E2, E3. Qed.

Lemma config_align m m' :
  config m' = config m -> is_align m' = is_align m /\ num_spec_blocks m' = num_spec_blocks m.
Proof using.
  intros (_ & E & _)%config_eq. unfold is_align, mamba_mode, num_spec_blocks, mamba_fields. by rewrite E.
Qed.

(** The requests' lists may only grow while the align-mode requests stay the same. *)
Lemma kept_grown s s' free' :
  owned n others reserved s -> mgr_rep n s' free' others reserved -> fixed s'.1 = fixed s.1 ->
  (forall rid, rid ∈ _allocated_block_reqs s.1 -> len (blocks_of rid s.1) <= len (blocks_of rid s'.1)) ->
  kept s s'.
Proof using.
  intros [_ Hs Ha] Hm Hf Hg. pose proof (f_equal fst Hf) as Hc. pose proof (f_equal snd Hf) as Hal.
  simpl in Hc, Hal. split; [|done]. constructor.
  - by eexists.
  - by eapply config_spec_ok.
  - intros rid. rewrite Hal. intros Hin. destruct (config_align _ _ Hc) as [-> ->].
    destruct (Ha rid Hin). specialize (Hg rid Hin). split; [done|lia].
Qed.

(** [seen] changes nothing that matters. *)
Lemma kept_seen request_id s :
  owned n others reserved s -> kept s (seen request_id s.1, s.2).
Proof using.
  intros Ho. pose proof Ho as [[free Hm] _ _]. eapply kept_grown; [done|by apply mgr_rep_seen|done|].
  intros rid _. simpl. unfold blocks_of at 2, seen. simpl. rewrite lookup_insert.
  case_decide; subst; reflexivity.
Qed.

(** A successful run with the same allocations. *)
Lemma kept_run {A} (m : M state A) s :
  owned n others reserved s ->
  leaves m s (fun s' => fixed s'.1 = fixed s.1) ->
  leaves m s (fun s' => (exists free', mgr_rep n s' free' others reserved) /\
    forall rid, rid ∈ _allocated_block_reqs s.1 -> len (blocks_of rid s.1) <= len (blocks_of rid s'.1)) ->
  leaves m s (kept s).
Proof using.
  intros Ho Hf Hl. eapply leaves_mono; [by apply (leaves_and _ _ _ _ Hf Hl)|].
  intros s' (E & [free' Hm] & Hg). by eapply kept_grown.
Qed.

(** Replacing a request's list by a longer one. *)
Lemma grown_insert s s' request_id l :
  req_to_blocks s'.1 = <[request_id := l]> (req_to_blocks s.1) ->
  len (blocks_of request_id s.1) <= len l ->
  forall rid, len (blocks_of rid s.1) <= len (blocks_of rid s'.1).
Proof using.
  intros Ht Hl rid. unfold blocks_of at 2. rewrite Ht, lookup_insert.
  case_decide; [by subst|]. reflexivity.
Qed.

(** *** Allocation *)

Lemma extend_leaves request_id k s :
  owned n others reserved s -> 0 <= k -> leaves (extend_with_new request_id k) s (kept s).
Proof using.
  intros Ho Hk. pose proof Ho as [[free Hm] _ _]. apply kept_run; [done|by apply extend_fixed|].
  destruct (decide (k <= len free)) as [Hle|Hgt].
  - apply succeeds_leaves. eapply succeeds_mono; [by apply (extend_spec n s free others reserved)|].
    intros new s' (-> & Hm' & Ht & _). split; [by eexists|]. intros rid _.
    eapply grown_insert; [exact Ht|]. len_lia.
  - eapply leaves_run.
    + unfold extend_with_new, bind, on_pool, zoom.
      rewrite (get_new_blocks_error n _ _ _ _ k (mr_pool _ _ _ _ _ Hm)) by lia. reflexivity.
    + destruct s. split; [by eexists|]. simpl. intros; lia.
Qed.

Lemma base_allocate_leaves request_id num_tokens s :
  owned n others reserved s -> leaves (base_allocate_new_blocks request_id num_tokens) s (kept s).
Proof using.
  intros Ho. unfold base_allocate_new_blocks. do 2 lstep. pose proof (kept_seen request_id s Ho) as Hk.
  match goal with |- leaves (if ?x <=? 0 then _ else _) _ _ => destruct (Z.leb_spec x 0) end.
  - by lstep.
  - eapply leaves_mono; [apply extend_leaves; [apply Hk|lia]|]. intros s'. by apply kept_trans.
Qed.

(** The computed blocks the caller passes: they are in the cache, and their
    tokens are not more than the local tokens it announces. *)
Definition computed_ok (m : Manager.t) (new : list bref) (local ext : Z) : Prop :=
  Forall (touchable n reserved) new /\ NoDup (real_blocks new) /\
  (m_enable_caching m = false -> new = []) /\
  len new * m_block_size m <= local /\ 0 <= local /\ 0 <= ext.

(** The blocks before the window and the computed ones never exceed the blocks
    of all computed tokens. *)
Lemma computed_len_le m (new : list bref) local ext :
  spec_ok m -> 0 < m_block_size m -> len new * m_block_size m <= local -> 0 <= local -> 0 <= ext ->
  let skipped := get_num_skipped_tokens m (local + ext) / m_block_size m in
  len (py_repeat (Blk 0) skipped ++ drop (Z.to_nat skipped) new) <= cdiv (local + ext) (m_block_size m).
Proof using.
  intros Hs Hbs Hlen Hl He skipped. pose proof (cdiv_bounds (local + ext) _ Hbs) as HT.
  assert (get_num_skipped_tokens m (local + ext) <= local + ext) as Hk by (apply skipped_le; [done|lia]).
  assert (skipped <= cdiv (local + ext) (m_block_size m)) as HST.
  { transitivity ((local + ext) / m_block_size m); [apply Z.div_le_mono; lia|by apply div_le_cdiv]. }
  assert (len new <= cdiv (local + ext) (m_block_size m)) as HNT by nia.
  pose proof (cdiv_nonneg (local + ext) _ Hbs ltac:(lia)). clearbody skipped.
  rewrite len_app, len_replicate, len_drop. lia.
Qed.

Lemma base_computed_leaves request_id new local ext s :
  owned n others reserved s -> computed_ok s.1 new local ext ->
  leaves (base_allocate_new_computed_blocks request_id new local ext) s (kept s).
Proof using.
  intros Ho (Hnew & Hnd & Hcache & Hlen & Hl0 & He0). pose proof Ho as [[free Hm] Hs Ha].
  pose proof (mr_bs _ _ _ _ _ Hm) as Hbs.
  destruct (num_cached_block s.1 !! request_id) as [c|] eqn:Hnc.
  { unfold base_allocate_new_computed_blocks. lstep. rewrite Hnc. by lstep. }
  destruct (decide (blocks_of request_id s.1 = [])) as [Hnil|Hne].
  2: { unfold base_allocate_new_computed_blocks. lstep. rewrite Hnc. lstep.
    apply leaves_guard; [by apply kept_seen|]. intros E. by apply Z.eqb_eq, len_zero_nil in E. }
  pose proof (computed_touched n s free others reserved request_id new local ext Hm Hnc Hnil Hnew Hnd Hcache)
    as (p1 & Hm1 & Hrun). pose proof (computed_blocks_of s request_id new local ext) as Hb1.
  set (m1 := computed_manager _ _ _ _ _) in *.
  assert (kept s (m1, p1)) as Hk1.
  { eapply kept_grown; [done|exact Hm1|done|]. intros rid _. eapply grown_insert; [done|].
    rewrite Hnil, (len_nil (A:=bref)). apply len_nonneg. }
  pose proof (computed_len_le _ _ _ _ Hs Hbs Hlen Hl0 He0) as Hle. cbv zeta in Hle.
  unfold leaves. rewrite Hrun. match goal with |- context [if ?b then _ else _] => destruct b end; [|done].
  apply (leaves_bind _ _ (m1, p1) (kept s)); [|by intros].
  eapply leaves_mono; [apply extend_leaves; [apply Hk1|lia]|]. intros s'. by apply kept_trans.
Qed.


(** *** Caching and freeing *)

Lemma base_cache_kept request num_tokens s :
  owned n others reserved s -> leaves (base_cache_blocks request num_tokens) s (kept s).
Proof using.
  intros Ho. pose proof Ho as [[free Hm] _ _]. apply kept_run; [done|by apply base_cache_fixed|].
  eapply leaves_mono; [by apply base_cache_leaves|]. intros s' (Hm' & _ & Hb).
  split; [by eexists|]. intros rid _. by rewrite Hb.
Qed.

(** Fields that are neither tables nor fixed. *)
Lemma kept_other_fields (f : Manager.t -> Manager.t) s :
  owned n others reserved s ->
  req_to_blocks (f s.1) = req_to_blocks s.1 -> fixed (f s.1) = fixed s.1 -> kept s (f s.1, s.2).
Proof using.
  intros Ho Ht Hf. pose proof Ho as [[free Hm] _ _]. pose proof (f_equal fst Hf) as Hc. simpl in Hc.
  apply config_eq in Hc as (_ & _ & Hb & _ & H0).
  eapply (kept_grown s (f s.1, s.2) free); [done| |done|].
  - by eapply mgr_rep_eq.
  - intros rid _. unfold blocks_of. simpl. by rewrite Ht.
Qed.

Lemma cache_blocks_kept request num_tokens s :
  owned n others reserved s -> leaves (cache_blocks request num_tokens) s (kept s).
Proof using.
  intros Ho. unfold cache_blocks. lstep.
  destruct (m_class s.1); try by apply base_cache_kept.
  - apply leaves_bind; [by apply base_cache_kept|]. intros r s1 Hk1. lstep.
    match goal with |- leaves (if ?b then _ else _) _ _ => destruct b end; [|by lstep].
    lstep. lstep. assert (kept s (seen (request_id r) s1.1, s1.2)) as Hk2.
    { eapply kept_trans; [exact Hk1|]. apply kept_seen, Hk1. }
    apply leaves_bind; [|by intros]. unfold note_cached. apply leaves_mfor; [done|].
    intros x s2 Hk3. apply leaves_bind; [by apply leaves_of_option|]. intros b s3 Hk4.
    lstep; [by lstep|]. apply leaves_bind; [by apply leaves_of_option|]. intros k s4 Hk5. lstep.
    eapply kept_trans; [exact Hk5|].
    apply (kept_other_fields (fun m => set_cached_blocks_this_step ({[k]} ∪ cached_blocks_this_step m) m));
      [apply Hk5|done|done].
  - by lstep.
Qed.

Lemma is_align_class m : spec_ok m -> is_align m = true -> m_class m = MambaManager.
Proof using.
  unfold is_align, mamba_mode, mamba_fields. intros (Hc & _) Ha.
  destruct (m_spec m); try discriminate. simpl in Hc. congruence.
Qed.

Lemma free_kept request_id s :
  owned n others reserved s -> leaves (Manager.free request_id) s (kept s).
Proof using.
  intros Ho. pose proof Ho as [[free Hm] Hs Ha]. unfold Manager.free. lstep.
  assert (forall s1, config s1.1 = config s.1 -> req_to_blocks s1.1 = req_to_blocks s.1 -> s1.2 = s.2 ->
    (forall rid, rid ∈ _allocated_block_reqs s1.1 -> rid <> request_id /\ rid ∈ _allocated_block_reqs s.1) ->
    leaves (base_free request_id) s1 (kept s)) as Hgo.
  { intros s1 Hc1 Ht1 Hp1 Hal1.
    assert (mgr_rep n s1 free others reserved) as Hm1.
    { apply config_eq in Hc1 as (_ & _ & Hb & _ & H0). by eapply mgr_rep_eq. }
    eapply leaves_mono.
    { apply leaves_and; [by apply (base_free_fixed (fixed s1.1))|].
      apply succeeds_leaves. by apply (base_free_spec n s1 free others reserved request_id). }
    intros s' (Hf & Hm' & Ht' & _ & Hc' & _). pose proof (f_equal snd Hf) as Hal'. simpl in Hal'.
    rewrite Hc1 in Hc'. split; [|done]. constructor; [by eexists|by eapply config_spec_ok|].
    intros rid. rewrite Hal'. intros [Hne Hin]%Hal1. destruct (config_align _ _ Hc') as [-> ->].
    unfold blocks_of. rewrite Ht', Ht1, lookup_delete_ne by done. by apply Ha. }
  destruct (bool_decide (m_class s.1 = MambaManager) && is_align s.1)%bool eqn:E;
    (eapply leaves_bind_eq; [done|]); apply Hgo; try done.
  - intros rid. simpl. set_solver.
  - intros rid Hin. destruct (Ha rid Hin) as [Hal _].
    by rewrite (is_align_class _ Hs Hal), Hal in E.
Qed.

(** *** Recycling *)

Lemma base_remove_skipped_kept request_id total s :
  owned n others reserved s -> leaves (base_remove_skipped_blocks request_id total) s (kept s).
Proof using.
  intros Ho. pose proof Ho as [[free Hm] _ _]. apply kept_run; [done|by apply base_remove_skipped_fixed|].
  apply succeeds_leaves. eapply succeeds_mono; [by apply (base_remove_skipped_spec n)|].
  intros _ s' (_ & _ & (free' & Hm' & _) & Hlen & _ & _ & Hoth & _).
  split; [by eexists|]. intros rid _. destruct (decide (rid = request_id)) as [->|Hne]; [by rewrite Hlen|].
  unfold blocks_of. by rewrite Hoth.
Qed.

(** Giving back one block of a request and writing null in its place. *)
Lemma null_one_kept request_id i b s :
  owned n others reserved s -> blocks_of request_id s.1 !! i = Some b -> b <> Blk 0 ->
  leaves (on_pool (BlockPool.free_blocks [b]) ;;;
          set_req_blocks request_id (<[i := Blk 0]> (blocks_of request_id s.1))) s (kept s).
Proof using.
  intros Ho Hi Hb. pose proof Ho as [[free Hm] _ _]. set (l' := <[i := Blk 0]> _).
  destruct (blocks_of_list _ _ _ _ _ request_id Hm) as [Hf _].
  set (f := set_req_to_blocks (<[request_id := l']> (req_to_blocks s.1))).
  pose proof (give_back_spec n s free others reserved request_id l' [b] f Hm) as Hg.
  apply succeeds_inv in Hg as ([] & s' & Hrun & Hs' & Hm' & _); [| |by constructor| |done..].
  - unfold on_pool, zoom in Hrun. simpl in Hrun.
    destruct (BlockPool.free_blocks [b] s.2) as [[] p'|] eqn:Ep; [|done]. injection Hrun as <-.
    eapply leaves_bind_eq; [unfold on_pool, zoom; by rewrite Ep|]. simpl in Hm'.
    apply leaves_set_req_blocks. simpl. eapply (kept_grown s (f s.1, p')); [done|exact Hm'|done|].
    intros rid _. eapply (grown_insert s (f s.1, p')); [done|]. unfold l', len. by rewrite length_insert.
  - rewrite (real_blocks_insert_null _ _ _ Hi Hb). done.
  - apply Forall_insert; [done|]. by eapply null_real.
Qed.

Lemma remove_skipped_kept request_id total s :
  owned n others reserved s -> leaves (remove_skipped_blocks request_id total) s (kept s).
Proof using.
  intros Ho. unfold remove_skipped_blocks. lstep.
  destruct (m_class s.1); try by apply base_remove_skipped_kept.
  unfold mamba_remove_skipped_blocks. lstep.
  apply leaves_bind; [by apply base_remove_skipped_kept|]. intros [] s1 Hk1. lstep; [by lstep|].
  lstep. destruct (last_state_block_idx s1.1 !! request_id) as [idx|]; [|by lstep].
  match goal with |- leaves (if ?b then _ else _) _ _ => destruct b end; [|by lstep].
  lstep. pose proof (kept_seen request_id s1 (proj1 Hk1)) as Hk2.
  destruct (py_index (blocks_of request_id s1.1) idx) as [b|] eqn:Ei.
  2: { eapply leaves_run; [done|]. by eapply kept_trans. }
  eapply leaves_bind_eq; [done|]. cbn beta. case_decide as E0; [by lstep; eapply kept_trans|].
  pose proof (proj1 Hk1) as [[free Hm] _ _].
  change (_null_block s1.1) with (_null_block s1.1) in *. rewrite (mr_null _ _ _ _ _ Hm) in *.
  eapply leaves_mono.
  - rewrite <- (blocks_of_seen request_id s1.1).
    apply (null_one_kept request_id _ b (seen request_id s1.1, s1.2)); [apply Hk2| |done].
    simpl. rewrite blocks_of_seen. revert Ei. unfold py_index.
    destruct ((if idx <? 0 then _ else _) <? 0); done.
  - intros s'. intros Hk3. eapply kept_trans; [exact Hk1|]. exact (kept_trans _ _ _ Hk2 Hk3).
Qed.

(** *** Align mode *)

(** Appending one more list of new blocks to the list of a request. *)
Lemma align_tail_kept request_id mid required back guard s :
  owned n others reserved s -> is_align s.1 = true ->
  real_blocks mid ≡ₚ real_blocks (blocks_of request_id s.1) -> Forall (real n) mid ->
  len (blocks_of request_id s.1) <= len mid < required -> num_spec_blocks s.1 <= required ->
  leaves (set_req_blocks request_id mid ;;;
    assert guard ;;;
    new_blocks <- on_pool (BlockPool.get_new_blocks (required - len mid)) ;;
    set_req_blocks request_id (mid ++ new_blocks) ;;;
    update (fun m => set_align_state (last_state_block_idx m)
              ({[request_id]} ∪ _allocated_block_reqs m) m) ;;;
    ret (py_drop (mid ++ new_blocks) back)) s (kept s).
Proof using.
  intros Ho Hal Hperm Hreal [Hle Hlt] Hspec. pose proof Ho as [[free Hm] Hs Ha].
  destruct (blocks_of_list _ _ _ _ _ request_id Hm) as [Hf Hnd].
  set (m1 := set_req_to_blocks (<[request_id := mid]> (req_to_blocks s.1)) s.1).
  assert (mgr_rep n (m1, s.2) free others reserved) as Hm1.
  { eapply (mgr_rep_set n s s.2 free free others reserved request_id mid (fun _ => m1)); try done.
    - split; [done|by rewrite Hperm].
    - eapply pool_rep_perm; [|apply (mr_pool _ _ _ _ _ Hm)]. unfold held_by.
      by rewrite (table_split _ request_id), Hperm, <- app_assoc. }
  assert (blocks_of request_id m1 = mid) as Hb1 by (unfold blocks_of; simpl; by rewrite lookup_insert_eq).
  assert (kept s (m1, s.2)) as Hk1.
  { eapply (kept_grown s (m1, s.2) free); [done|done|done|]. intros rid _. by eapply grown_insert. }
  eapply leaves_bind_eq; [done|]. simpl. fold m1. apply leaves_guard; [exact Hk1|]. intros _.
  destruct (decide (required - len mid <= len free)) as [Hfit|Hno].
  2: { apply (leaves_run _ _ _ (Raise ValueError (m1, s.2))); [|exact Hk1].
    pose proof (get_new_blocks_error n s.2 _ _ _ (required - len mid) (mr_pool _ _ _ _ _ Hm1) ltac:(lia)) as He.
    unfold bind, on_pool, zoom. simpl in *. by rewrite He. }
  pose proof (get_new_blocks_spec n _ _ _ _ (required - len mid) (mr_pool _ _ _ _ _ Hm1) ltac:(lia)) as Hnew.
  apply succeeds_inv in Hnew as (new & p2 & Hrun & -> & Hp2 & _). simpl in Hrun.
  set (new := take _ free) in *. set (fr := drop _ free) in *.
  eapply leaves_bind_eq; [unfold on_pool, zoom; simpl; by rewrite Hrun|].
  do 2 (eapply leaves_bind_eq; [done|]). apply leaves_ret. cbn [fst snd].
  set (m2 := set_align_state _ _ _).
  assert (req_to_blocks m2 = <[request_id := mid ++ new]> (req_to_blocks s.1)) as Ht2.
  { unfold m2. simpl. by rewrite insert_insert_eq. }
  destruct (free_block_list n _ _ _ _ (Z.to_nat (required - len mid)) (mr_pool _ _ _ _ _ Hm)) as [Hnb H0].
  split; [|done]. constructor.
  - exists fr. eapply (mgr_rep_set n s p2 free fr others reserved request_id (mid ++ new) (fun _ => m2)); try done.
    + apply block_list_app; [by split; [|rewrite Hperm]|exact Hnb|].
      intros r. rewrite Hperm. by eapply new_disjoint.
    + eapply (pool_rep_grow n s p2 fr others reserved request_id new).
      * eapply pool_rep_perm; [|exact Hp2]. f_equiv. unfold held_by. simpl.
        by rewrite table_insert, Hperm, (table_split (req_to_blocks s.1) request_id).
      * rewrite real_blocks_app, Hperm. f_equiv. by rewrite real_blocks_id.
  - by eapply config_spec_ok; [|exact Hs].
  - cbn [fst]. assert (is_align m2 = true /\ num_spec_blocks m2 = num_spec_blocks s.1) as [-> ->] by done.
    intros rid Hin. split; [done|]. unfold blocks_of. simpl fst. rewrite Ht2, lookup_insert.
    case_decide as E.
    + simpl. rewrite len_app. unfold new. rewrite len_take. pose proof (len_nonneg free). lia.
    + apply Ha. simpl in Hin. set_solver.
Qed.

Lemma replicate_nulls_real k s free :
  mgr_rep n s free others reserved -> Forall (real n) (py_repeat (Blk 0) k).
Proof using. intros Hm. apply Forall_replicate. by eapply null_real. Qed.

Lemma align_allocate_kept request_id main s :
  owned n others reserved s -> is_align s.1 = true -> 0 <= main ->
  leaves (align_allocate_new_blocks request_id main) s (kept s).
Proof using.
  intros Ho Hal Hmain. pose proof Ho as [[free Hm] Hs Ha].
  pose proof (mr_bs _ _ _ _ _ Hm) as Hbs. set (l := blocks_of request_id s.1).
  destruct (blocks_of_list _ _ _ _ _ request_id Hm) as [Hf _]. fold l in Hf.
  assert (0 <= num_spec_blocks s.1) as Hsp.
  { destruct Hs as (_ & [_ Hp] & _). unfold num_spec_blocks, mamba_fields. by destruct (m_spec s.1). }
  pose proof (cdiv_nonneg main _ Hbs Hmain) as Hcd.
  unfold align_allocate_new_blocks. do 2 lstep. fold l.
  change (cdiv main (m_block_size (seen request_id s.1)) + num_spec_blocks (seen request_id s.1))
    with (align_required s.1 main).
  change (num_spec_blocks (seen request_id s.1)) with (num_spec_blocks s.1).
  change (_null_block (seen request_id s.1)) with (_null_block s.1).
  change (_allocated_block_reqs (seen request_id s.1)) with (_allocated_block_reqs s.1).
  rewrite (mr_null _ _ _ _ _ Hm). set (R := align_required s.1 main) in *.
  assert (num_spec_blocks s.1 <= R) as HR by (unfold R, align_required; lia).
  pose proof (kept_seen request_id s Ho) as Hk1.
  destruct (R =? len l); [by lstep|].
  apply leaves_guard; [exact Hk1|]. intros Hlt. apply Z.ltb_lt in Hlt.
  (* the bookkeeping of the last state block *)
  set (s1 := (seen request_id s.1, s.2)) in *.
  match goal with |- leaves (bind ?m _) s1 _ => assert (exists s2, m s1 = Ret tt s2 /\
    kept s s2 /\ blocks_of request_id s2.1 = l) as (s2 & Hrun & Hk2 & Hl2) end.
  { assert (forall i, exists s2, update (fun m => set_align_state (<[request_id := i]> (last_state_block_idx m))
      (_allocated_block_reqs m) m) s1 = Ret tt s2 /\ kept s s2 /\ blocks_of request_id s2.1 = l) as Hupd.
    { intros i. eexists. split; [done|]. split; [|apply (blocks_of_seen request_id s.1)].
      eapply kept_trans; [exact Hk1|]. by apply kept_other_fields; [apply Hk1|..]. }
    destruct (bool_decide _); [apply Hupd|]. destruct (0 <? len l); [apply Hupd|].
    exists s1. split; [done|]. split; [exact Hk1|apply (blocks_of_seen request_id s.1)]. }
  eapply leaves_bind_eq; [exact Hrun|]. clear Hrun. simpl.
  rewrite padded_eq by lia. set (sp := num_spec_blocks s.1) in *. set (b := bool_decide _).
  set (pad := padded l (Z.to_nat sp) (Z.to_nat R)).
  assert (exists mid, (if b then of_option IndexError
      (reuse_loop (Blk 0) (R - sp - 1) (py_range (len l - sp) (len l)) pad) else ret pad) s2 = Ret mid s2 /\
    real_blocks mid ≡ₚ real_blocks l /\ Forall (real n) mid /\ len l <= len mid < R)
    as (mid & Hrun & Hperm & Hreal & Hlen).
  { assert (forall mid, (forall r, r ∈ mid -> r = Blk 0 \/ r ∈ l) -> Forall (real n) mid) as Hre.
    { intros mid Hmid. apply Forall_forall. intros r Hr. destruct (Hmid r Hr) as [->|Hin].
      - by eapply null_real.
      - rewrite Forall_forall in Hf. by apply Hf. }
    unfold b. destruct (bool_decide_reflect (request_id ∈ _allocated_block_reqs s.1)) as [Hin|_].
    - destruct (Ha _ Hin) as [_ Hle]. fold l in Hle. exists (shifted l (Z.to_nat sp) (Z.to_nat R)).
      split; [unfold pad; by rewrite reuse_shifted_eq by lia|].
      assert (Z.to_nat sp <= length l)%nat as H1 by (unfold len in *; lia).
      assert (length l < Z.to_nat R)%nat as H2 by (unfold len in *; lia).
      split; [by apply shifted_real|]. split; [apply Hre, shifted_elem|].
      unfold len in *. rewrite shifted_length by done. lia.
    - exists pad. split; [done|]. split; [unfold pad; by rewrite padded_real|]. split.
      + apply Hre, padded_elem.
      + unfold pad, len in *. rewrite padded_length. lia. }
  eapply leaves_bind_eq; [exact Hrun|]. cbn beta.
  destruct (config_align _ _ (proj2 Hk2)) as [Ea Es].
  eapply leaves_mono; [apply align_tail_kept; [apply Hk2|by rewrite Ea|by rewrite Hl2|done|by rewrite Hl2|by rewrite Es]|].
  intros s3. by apply kept_trans.
Qed.

(** *** The methods of every class *)

Lemma get_num_blocks_to_allocate_kept request_id num_tokens new total main cap s :
  owned n others reserved s ->
  leaves (get_num_blocks_to_allocate request_id num_tokens new total main cap) s (kept s).
Proof using.
  intros Ho.
  assert (forall k, leaves (base_get_num_blocks_to_allocate request_id k new total cap) s (kept s)) as Hbase.
  { intros k. unfold base_get_num_blocks_to_allocate. do 2 lstep.
    destruct (num_cached_block s.1 !! request_id); [|by lstep]. by lstep; [|intros]; lstep. }
  unfold get_num_blocks_to_allocate. lstep. destruct (m_class s.1); try apply Hbase.
  unfold mamba_get_num_blocks_to_allocate. do 2 lstep. lstep; [by lstep|]. lstep; [apply Hbase|].
  lstep. lstep. by apply kept_seen.
Qed.

Lemma allocate_new_computed_blocks_kept request_id new local ext s :
  owned n others reserved s ->
  (m_class s.1 <> CrossAttentionManager -> computed_ok s.1 new local ext) ->
  leaves (allocate_new_computed_blocks request_id new local ext) s (kept s).
Proof using.
  intros Ho Hok. unfold allocate_new_computed_blocks. lstep.
  destruct (m_class s.1) eqn:E; try by apply base_computed_leaves; [|apply Hok]. by lstep.
Qed.

Lemma allocate_new_blocks_kept request_id num_tokens main s :
  owned n others reserved s -> 0 <= main ->
  leaves (allocate_new_blocks request_id num_tokens main) s (kept s).
Proof using.
  intros Ho Hmain. unfold allocate_new_blocks. lstep.
  destruct (m_class s.1); try by apply base_allocate_leaves.
  unfold mamba_allocate_new_blocks. lstep. destruct (is_align s.1) eqn:E; simpl.
  - by apply align_allocate_kept.
  - by apply base_allocate_leaves.
Qed.

Lemma get_num_common_prefix_blocks_kept request_id s :
  owned n others reserved s -> leaves (get_num_common_prefix_blocks request_id) s (kept s).
Proof using.
  intros Ho. unfold get_num_common_prefix_blocks. lstep.
  destruct (m_class s.1); try (by lstep); repeat lstep; by apply kept_seen.
Qed.

Lemma take_new_block_ids_kept s : owned n others reserved s -> leaves take_new_block_ids s (kept s).
Proof using.
  intros Ho. unfold take_new_block_ids. lstep. eapply leaves_bind_eq; [done|]. lstep.
  by apply (kept_other_fields (set_new_block_ids [])).
Qed.

Lemma new_step_starts_kept s : owned n others reserved s -> leaves new_step_starts s (kept s).
Proof using.
  intros Ho. unfold new_step_starts. lstep. destruct (m_class s.1); try (by lstep).
  lstep. by apply (kept_other_fields (set_cached_blocks_this_step ∅)).
Qed.
End operations.

(** ** The managers of a coordinator *)

(** What holds of one manager whatever the pool holds. *)
Record manager_ok (n : nat) (m : Manager.t) : Prop := {
  mk_null : _null_block m = Blk 0;
  mk_bs : 0 < m_block_size m;
  mk_lists request_id l : req_to_blocks m !! request_id = Some l -> block_list n l;
  mk_spec : spec_ok m;
  mk_align rid : rid ∈ _allocated_block_reqs m ->
    is_align m = true /\ num_spec_blocks m <= len (blocks_of rid m);
}.

(** The blocks in the tables of all managers. *)
Definition all_held (ms : list Manager.t) : list bref := concat (held_by <$> ms).

Lemma all_held_cons m ms : all_held (m :: ms) = held_by m ++ all_held ms.
Proof. done. Qed.

(** The blocks the sink managers took. *)
Definition all_sinks (ms : list Manager.t) : list bref := concat (sink_blocks <$> ms).

Lemma config_sinks ms ms' : config <$> ms = config <$> ms' -> all_sinks ms = all_sinks ms'.
Proof.
  unfold all_sinks. revert ms'. induction ms as [|m ms IH]; intros [|m' ms'] Heq; try done.
  rewrite !fmap_cons in *. injection Heq as Hm Hms. simpl. f_equal; [|by apply IH].
  unfold config in Hm. congruence.
Qed.

(** The references of all managers are the references of the pool. *)
Definition ledger (n : nat) (others reserved : list bref) (ms : list Manager.t) (p : BlockPool.t) : Prop :=
  (exists free, pool_rep n p free (all_held ms ++ others) reserved) /\
  Forall (manager_ok n) ms.

Lemma owned_split n others reserved m p :
  owned n others reserved (m, p) <->
  (exists free, pool_rep n p free (held_by m ++ others) reserved) /\ manager_ok n m.
Proof.
  split.
  - intros [[free [Hp H0 Hb Hl]] Hs Ha]. split; [by eexists|by constructor].
  - intros [[free Hp] [H0 Hb Hl Hs Ha]]. constructor; [exists free; by constructor|done..].
Qed.

Lemma ledger_cons n others reserved m ms p :
  ledger n others reserved (m :: ms) p <->
  owned n (all_held ms ++ others) reserved (m, p) /\ Forall (manager_ok n) ms.
Proof.
  unfold ledger. rewrite owned_split, Forall_cons, all_held_cons.
  rewrite <- app_assoc. tauto.
Qed.

Lemma ledger_perm n others others' reserved ms p :
  others ≡ₚ others' -> ledger n others reserved ms p -> ledger n others' reserved ms p.
Proof.
  intros Hp [[free Hr] Hok]. split; [|done]. exists free. eapply pool_rep_perm; [|exact Hr]. by rewrite Hp.
Qed.

(** The held blocks of [m] move between the managers and the others. *)
Lemma ledger_swap n others reserved m ms p :
  ledger n others reserved (m :: ms) p <-> ledger n (held_by m ++ others) reserved ms p /\ manager_ok n m.
Proof.
  unfold ledger. rewrite Forall_cons, all_held_cons.
  assert (forall free, pool_rep n p free ((held_by m ++ all_held ms) ++ others) reserved <->
    pool_rep n p free (all_held ms ++ held_by m ++ others) reserved) as Hiff.
  { intros free. split; apply pool_rep_perm; rewrite <- app_assoc, !(app_assoc _ _ others);
      by rewrite (Permutation_app_comm (held_by m)). }
  split.
  - intros [[free Hp] [Hm Hms]]. split; [split; [|done]|done]. exists free. by apply Hiff.
  - intros [[[free Hp] Hms] Hm]. split; [|done]. exists free. by apply Hiff.
Qed.

(** ** The methods of the coordinator *)

Section coordinator.
Context `{HashEnv}.
Variable n : nat.
Variable reserved : list bref.

Lemma each_loop_kept {A} (f : Z -> A -> M Manager.state A) (Pre : Z -> Manager.t -> Prop) ms :
  (forall j a others m p, Pre j m -> owned n others reserved (m, p) ->
    leaves (f j a) (m, p) (kept n others reserved (m, p))) ->
  forall i a others p, ledger n others reserved ms p ->
  (forall k m, ms !! k = Some m -> Pre (i + Z.of_nat k) m) ->
  match Coordinator.each_loop f i a ms p with
  | Ret _ s | Raise _ s => ledger n others reserved s.1 s.2 /\ config <$> s.1 = config <$> ms
  end.
Proof using.
  intros Hf. induction ms as [|m ms IH]; intros i a others p Hl Hpre; [done|]. simpl.
  pose proof (proj1 (ledger_cons _ _ _ _ _ _) Hl) as [Ho Hms].
  assert (Pre i m) as Hp0 by (rewrite <- (Z.add_0_r i); by apply (Hpre 0%nat)).
  pose proof (Hf i a _ m p Hp0 Ho) as Hrun. unfold leaves in Hrun.
  destruct (f i a (m, p)) as [a1 [m1 p1]|e [m1 p1]].
  - destruct Hrun as [Ho1 Hc1]. simpl in Hc1.
    assert (ledger n others reserved (m1 :: ms) p1) as Hl1 by (by apply ledger_cons).
    apply ledger_swap in Hl1 as [Hl1 Hm1].
    assert (forall k m', ms !! k = Some m' -> Pre (i + 1 + Z.of_nat k) m') as Hpre'.
    { intros k m' Hk. replace (i + 1 + Z.of_nat k) with (i + Z.of_nat (S k)) by lia. by apply Hpre. }
    specialize (IH (i + 1) a1 _ p1 Hl1 Hpre').
    destruct (Coordinator.each_loop f (i + 1) a1 ms p1) as [a2 [ms2 p2]|e2 [ms2 p2]];
      destruct IH as [Hl2 Hc2]; cbn [fst snd] in *; rewrite !fmap_cons, Hc1, Hc2; (split; [by apply ledger_swap|done]).
  - destruct Hrun as [Ho1 Hc1]. cbn [fst snd] in *. rewrite !fmap_cons, Hc1. split; [by apply ledger_cons|done].
Qed.

(** The pair of managers and pool, no block being held outside the managers. *)
Definition coord_ok (s : Coordinator.state) : Prop := ledger n [] reserved s.1 s.2.

Definition coord_kept (s s' : Coordinator.state) : Prop :=
  coord_ok s' /\ config <$> s'.1 = config <$> s.1.

Lemma coord_kept_trans s1 s2 s3 : coord_kept s1 s2 -> coord_kept s2 s3 -> coord_kept s1 s3.
Proof using. intros [_ E1] [? E2]. split; [done|congruence]. Qed.

Lemma each_kept {A} (f : Z -> A -> M Manager.state A) (Pre : Z -> Manager.t -> Prop) a s :
  (forall j a others m p, Pre j m -> owned n others reserved (m, p) ->
    leaves (f j a) (m, p) (kept n others reserved (m, p))) ->
  coord_ok s -> (forall k m, s.1 !! k = Some m -> Pre (Z.of_nat k) m) ->
  leaves (Coordinator.each f a) s (coord_kept s).
Proof using. intros Hf Hs Hpre. by apply (each_loop_kept f Pre s.1 Hf 0 a [] s.2). Qed.

Lemma coord_get_num_blocks_kept request_id num_tokens new enc total main cap s :
  coord_ok s ->
  leaves (Coordinator.get_num_blocks_to_allocate request_id num_tokens new enc total main cap) s (coord_kept s).
Proof using.
  intros Hs. apply (each_kept _ (fun _ _ => True)); [|done|done].
  intros j a others m p _ Ho. lstep. destruct (Coordinator.is_cross m).
  - apply leaves_bind; [by apply get_num_blocks_to_allocate_kept|]. by intros; lstep.
  - apply leaves_bind; [|by intros; lstep]. apply leaves_bind.
    + by apply leaves_of_option.
    + intros blks s' Hk. eapply leaves_mono; [apply get_num_blocks_to_allocate_kept, Hk|].
      intros s2. by apply kept_trans.
Qed.

(** Each manager that is not for cross attention gets the computed blocks of its group. *)
Definition all_computed_ok (ms : list Manager.t) (new : list (list bref)) (local ext : Z) : Prop :=
  forall i m blocks, ms !! i = Some m -> py_index new (Z.of_nat i) = Some blocks ->
    m_class m <> CrossAttentionManager -> computed_ok n reserved m blocks local ext.

Lemma coord_computed_kept request_id new local ext s :
  coord_ok s -> all_computed_ok s.1 new local ext ->
  leaves (Coordinator.allocate_new_computed_blocks request_id new local ext) s (coord_kept s).
Proof using.
  intros Hs Hok. apply (each_kept _ (fun j m => forall blocks, py_index new j = Some blocks ->
    m_class m <> CrossAttentionManager -> computed_ok n reserved m blocks local ext)); [|done|].
  - intros j a others m p Hpre Ho. destruct (py_index new j) as [blocks|] eqn:E.
    + eapply leaves_bind_eq; [done|]. apply allocate_new_computed_blocks_kept; [done|]. by apply Hpre.
    + by eapply leaves_run.
  - intros k m Hk blocks. by apply Hok.
Qed.

Lemma coord_allocate_kept request_id num_tokens main enc s :
  coord_ok s -> 0 <= main ->
  leaves (Coordinator.allocate_new_blocks request_id num_tokens main enc) s (coord_kept s).
Proof using.
  intros Hs Hmain. apply (each_kept _ (fun _ _ => True)); [|done|done].
  intros j a others m p _ Ho. lstep. apply leaves_bind; [by apply allocate_new_blocks_kept|].
  by intros; lstep.
Qed.

Lemma coord_cache_kept request num_computed s :
  coord_ok s -> leaves (Coordinator.cache_blocks request num_computed) s (coord_kept s).
Proof using.
  intros Hs. apply (each_kept _ (fun _ _ => True)); [|done|done].
  intros. by apply cache_blocks_kept.
Qed.

Lemma coord_free_kept request_id s : coord_ok s -> leaves (Coordinator.free request_id) s (coord_kept s).
Proof using.
  intros Hs. apply (each_kept _ (fun _ _ => True)); [|done|done]. intros. by apply free_kept.
Qed.

Lemma coord_remove_skipped_kept request_id total s :
  coord_ok s -> leaves (Coordinator.remove_skipped_blocks request_id total) s (coord_kept s).
Proof using.
  intros Hs. apply (each_kept _ (fun _ _ => True)); [|done|done]. intros. by apply remove_skipped_kept.
Qed.

Lemma coord_common_prefix_kept c request_id s :
  coord_ok s -> leaves (Coordinator.get_num_common_prefix_blocks c request_id) s (coord_kept s).
Proof using.
  intros Hs. unfold Coordinator.get_num_common_prefix_blocks.
  destruct (Coordinator.c_kind c); [done|..]; (apply (each_kept _ (fun _ _ => True)); [|done|done]);
    intros j a others m p _ Ho; (apply leaves_bind; [by apply get_num_common_prefix_blocks_kept|]);
    by intros; lstep.
Qed.

Lemma coord_new_step_kept s : coord_ok s -> leaves Coordinator.new_step_starts s (coord_kept s).
Proof using.
  intros Hs. apply (each_kept _ (fun _ _ => True)); [|done|done]. intros. by apply new_step_starts_kept.
Qed.

(** Operations on the pool that keep its references. *)
Lemma coord_pool_kept {A} (f : M BlockPool.t A) s :
  coord_ok s ->
  (forall free held, pool_rep n s.2 free held reserved ->
     leaves f s.2 (fun p => exists free', pool_rep n p free' held reserved)) ->
  leaves (Coordinator.on_pool f) s (coord_kept s).
Proof using.
  intros [[free Hp] Hms] Hf. specialize (Hf _ _ Hp). unfold leaves, Coordinator.on_pool, zoom in *. simpl in *.
  by destruct (f s.2).
Qed.
End coordinator.

(** ** Construction *)

Section construction.
Context `{HashEnv}.
Variable n : nat.

(** Sensible parameters of a KV-cache group; context parallelism is not used
    with Mamba states. *)
Definition group_params_ok (dcp pcp : Z) (spec : KVCacheSpec) : Prop :=
  spec_params_ok spec /\ match spec with MambaSpec _ => dcp * pcp <= 1 | _ => True end.

Lemma base_init_ok cls spec p ec gid dcp pcp cap sinks :
  spec_manager_map spec = Some cls -> group_params_ok dcp pcp spec -> BlockPool.null_block p = Blk 0 ->
  manager_ok n (set_sink_blocks sinks (base_init cls spec p ec gid dcp pcp cap)).
Proof using.
  intros Hcls [Hp Hmamba] H0. pose proof (proj1 Hp) as Hb. constructor; simpl.
  - done.
  - destruct (Z.ltb_spec 1 (dcp * pcp)); nia.
  - intros rid l Hl. by rewrite lookup_empty in Hl.
  - split; [done|]. split; [done|]. simpl. intros ->.
    destruct spec; try discriminate. by destruct (Z.ltb_spec 1 (dcp * pcp)); [lia|].
  - set_solver.
Qed.

Lemma get_manager_ok spec mb ml ec gid dcp pcp p free held reserved m p' :
  pool_rep n p free held reserved -> group_params_ok dcp pcp spec ->
  get_manager_for_kv_cache_spec spec mb ml ec gid dcp pcp p = Ret m p' ->
  manager_ok n m /\ held_by m = [] /\
  exists free', pool_rep n p' free' held (sink_blocks m ++ reserved).
Proof using.
  intros Hp Hg Hrun. pose proof (pc_null_block _ _ _ (pr_core _ _ _ _ _ Hp)) as H0.
  unfold get_manager_for_kv_cache_spec in Hrun.
  destruct (spec_manager_map spec) as [cls|] eqn:Ecls; [|discriminate].
  set (cap := max_admission_blocks_per_request spec mb ml) in *.
  assert (forall p1, BlockPool.null_block p1 = Blk 0 ->
    manager_ok n (base_init cls spec p1 ec gid dcp pcp cap) /\
    held_by (base_init cls spec p1 ec gid dcp pcp cap) = []) as Hbase.
  { intros p1 Hn. split; [|done].
    by apply (base_init_ok cls spec p1 ec gid dcp pcp cap []). }
  assert (forall m1, Ret m1 p = Ret m p' -> m1 = base_init cls spec p ec gid dcp pcp cap ->
    manager_ok n m /\ held_by m = [] /\ exists free', pool_rep n p' free' held (sink_blocks m ++ reserved)) as Hplain.
  { intros m1 [= -> ->] ->. destruct (Hbase p' H0). split; [done|]. split; [done|]. by exists free. }
  destruct spec; try by (eapply Hplain; [exact Hrun|reflexivity]).
  clear Hplain. destruct (Hbase p H0) as [Hok Hheld]. pose proof (mk_bs _ _ Hok) as Hb. simpl in Hb.
  unfold bind, ret, get, of_option, assert in Hrun. simpl in Hrun.
  set (bs := if 1 <? dcp * pcp then _ else _) in *.
  destruct sink_len as [sink|]; [|discriminate]. simpl in Hrun.
  destruct ((0 <? sink) && (sink mod bs =? 0))%bool eqn:Hs; [|discriminate]. bool_to_prop.
  assert (0 <= sink / bs) as Hs0 by (apply Z.div_pos; lia).
  pose proof (reserve_spec n p _ _ _ (sink / bs) Hp Hs0) as Hr.
  unfold ret in Hrun. destruct (BlockPool.on_queue _ p) as [sinks q|]; [|discriminate].
  destruct Hr as [_ Hq]. injection Hrun as <- <-. split; [|split; [done|by exists (drop (Z.to_nat (sink / bs)) free)]].
  by apply base_init_ok.
Qed.

Lemma pool_rep_reserved p free held reserved reserved' :
  reserved ≡ₚ reserved' -> pool_rep n p free held reserved -> pool_rep n p free held reserved'.
Proof using.
  intros Hp [Hc Hr Hf Hh Hres Hnd]. constructor; try done.
  - intros r. by rewrite <- Hp.
  - intros r. by rewrite <- Hp; apply Hh.
  - intros r. rewrite <- Hp. apply Hres.
  - by rewrite <- Hp.
Qed.

Lemma make_managers_ok groups mb ml ec i dcp pcp p free reserved ms p' :
  pool_rep n p free [] reserved -> Forall (fun g => group_params_ok dcp pcp (kv_cache_spec g)) groups ->
  Coordinator.make_managers groups mb ml ec i dcp pcp p = Ret ms p' ->
  ledger n [] (all_sinks ms ++ reserved) ms p' /\ all_held ms = [] /\ length ms = length groups.
Proof using.
  intros Hp Hg. revert i p free reserved ms p' Hp.
  induction Hg as [|g groups Hg Hgs IH]; intros i p free reserved ms p' Hp; simpl.
  { intros [= <- <-]. split; [|done]. split; [by exists free|done]. }
  unfold bind, ret.
  destruct (get_manager_for_kv_cache_spec _ _ _ _ _ _ _ p) as [m p1|] eqn:Em; [|done].
  destruct (get_manager_ok _ _ _ _ _ _ _ _ _ _ _ _ _ Hp Hg Em) as (Hm & Hheld & free1 & Hp1).
  destruct (Coordinator.make_managers groups _ _ _ _ _ _ p1) as [ms1 p2|] eqn:Ems; [|done].
  intros [= <- <-]. destruct (IH _ _ _ _ _ _ Hp1 Ems) as ([[free' Hp2] Hms] & Hall & Hlen).
  rewrite all_held_cons, Hheld, Hall. split; [|simpl; auto]. split; [|by constructor].
  exists free'. rewrite all_held_cons, Hheld. eapply pool_rep_reserved; [|exact Hp2].
  change (all_sinks (m :: ms1)) with (sink_blocks m ++ all_sinks ms1).
  by rewrite (Permutation_app_comm (sink_blocks m) (all_sinks ms1)), <- app_assoc.
Qed.
End construction.

(** A new coordinator: nothing is held, and only sink blocks are set aside. *)
Lemma coord_init_ok `{HashEnv} kind config ml mb eagle ec ev dcp pcp hs c s :
  Coordinator.init kind config ml mb eagle ec ev dcp pcp hs = inr (c, s) -> 0 < num_blocks config ->
  Forall (fun g => group_params_ok dcp pcp (kv_cache_spec g)) (kv_cache_groups config) ->
  Coordinator.c_kind c = kind /\ Coordinator.kv_cache_config c = config /\
  length s.1 = length (kv_cache_groups config) /\
  coord_ok (Z.to_nat (num_blocks config)) (all_sinks s.1) s /\ all_held s.1 = [].
Proof.
  intros Hinit Hnum Hg. unfold Coordinator.init in Hinit.
  set (caching := match kind with Coordinator.KVCacheCoordinatorNoPrefixCache => false | _ => ec end) in *.
  destruct (pool_init_spec (num_blocks config) caching hs ev Hnum) as (p0 & Hp0 & _ & _ & _ & Hrep).
  rewrite Hp0 in Hinit.
  destruct (Coordinator.make_managers _ _ _ _ _ _ _ p0) as [ms p1|] eqn:Em; [|discriminate].
  destruct (make_managers_ok _ _ _ _ _ _ _ _ _ _ _ _ _ Hrep Hg Em) as (Hl & Hall & Hlen).
  rewrite app_nil_r in Hl.
  assert (forall c1, Coordinator.c_kind c1 = kind -> Coordinator.kv_cache_config c1 = config ->
    inr (c1, (ms, p1)) = (inr (c, s) : exn + _) -> Coordinator.c_kind c = kind /\ Coordinator.kv_cache_config c = config /\
    length s.1 = length (kv_cache_groups config) /\
    coord_ok (Z.to_nat (num_blocks config)) (all_sinks s.1) s /\ all_held s.1 = []) as Hdone.
  { intros c1 Hk Hc Heq. inversion Heq. subst. split; [done|]. split; [done|]. split; [done|]. done. }
  destruct kind.
  - by eapply Hdone; [| |exact Hinit].
  - destruct (kv_cache_groups config); [discriminate|].
    destruct (_ && _)%bool; [discriminate|]. destruct (negb _); [discriminate|].
    by eapply Hdone; [| |exact Hinit].
  - destruct (negb _); [discriminate|]. destruct (Coordinator.verify_and_split _ _ _) as [|[[l lcm] idx]]; [discriminate|].
    by eapply Hdone; [| |exact Hinit].
Qed.
