(* ===== verification/Admission.v ===== *)
(** * Admission over all groups

    The admission check of [KVCacheManager.allocate_slots] adds up what the
    managers of all KV-cache groups predict.  Without external tokens the sum
    is sufficient: the managers take over the computed blocks one after the
    other and then allocate one after the other, and no step fails.  (With
    external tokens it is not: [Coordinator.hybrid_external_steals_hits].) *)

From S2P Require Import Prelude FreeQueue Request BlockHash BlockPool CacheSpec SingleType Ownership.
From S2P Require Import PrefixHit Coordinator Ledger.
From stdpp Require Import options.

Import Manager.

(** ** One manager *)

(** A manager that is neither for cross attention nor in align mode. *)
Definition plain (m : Manager.t) : Prop := m_class m <> CrossAttentionManager /\ is_align m = false.

(** The tokens a manager allocates for: Mamba adds its speculative blocks. *)
Definition tokens_of (m : Manager.t) (num_tokens : Z) : Z :=
  if bool_decide (m_class m = MambaManager) && (0 <? num_spec_blocks m)
  then num_tokens + m_block_size m * num_spec_blocks m else num_tokens.

(** The hit blocks a new request keeps: those not before the window. *)
Definition kept_hits (m : Manager.t) (request_id : string) (new : list bref) (local : Z) : list bref :=
  match num_cached_block m !! request_id with
  | Some _ => []
  | None => drop (Z.to_nat (get_num_skipped_tokens m local / m_block_size m)) new
  end.

(** The length of the request's list after it took over the computed blocks. *)
Definition taken_len (m : Manager.t) (request_id : string) (new : list bref) (local : Z) : Z :=
  match num_cached_block m !! request_id with
  | Some _ => len (blocks_of request_id m)
  | None => Z.max (get_num_skipped_tokens m local / m_block_size m) (len new)
  end.

(** The blocks still to allocate. *)
Definition need (m : Manager.t) (request_id : string) (num_tokens : Z) (new : list bref) (local : Z) : Z :=
  Z.max 0 (cdiv (tokens_of m num_tokens) (m_block_size m) - taken_len m request_id new local).

(** What the scheduler guarantees of a request: without a number of cached
    blocks it has no blocks, and a request that has one brings no computed blocks. *)
Definition request_fresh (m : Manager.t) (request_id : string) (new : list bref) : Prop :=
  match num_cached_block m !! request_id with
  | Some _ => new = []
  | None => blocks_of request_id m = []
  end.

Section manager.
Context `{HashEnv}.
Variable n : nat.
Implicit Types (s : Manager.state) (free others reserved new : list bref) (request_id : string).

Lemma config_tokens m m' k : config m' = config m -> tokens_of m' k = tokens_of m k.
Proof using.
  intros Hc. unfold tokens_of. destruct (config_align _ _ Hc) as [_ ->].
  apply config_eq in Hc as (-> & _ & -> & _). done.
Qed.

Lemma config_plain m m' : config m' = config m -> plain m -> plain m'.
Proof using.
  intros Hc. unfold plain. destruct (config_align _ _ Hc) as [-> _].
  apply config_eq in Hc as (-> & _). done.
Qed.

Lemma filter_nil_evictable h : _get_num_evictable_blocks h [] = 0.
Proof using. done. Qed.

(** What the predictor returns. *)
Lemma predict_spec s free others reserved request_id num_tokens new local main k s1 :
  mgr_rep n s free others reserved -> spec_ok s.1 -> plain s.1 -> request_fresh s.1 request_id new ->
  get_num_blocks_to_allocate request_id num_tokens new local main false s = Ret k s1 ->
  s1 = s /\ (len free < k \/
    k = need s.1 request_id num_tokens new local
        + _get_num_evictable_blocks (BlockPool.heap s.2) (kept_hits s.1 request_id new local)).
Proof using.
  intros Hm Hs [Hcross Hal] Hfresh Hget.
  assert (forall tokens, tokens = tokens_of s.1 num_tokens ->
    base_get_num_blocks_to_allocate request_id tokens new local false s = Ret k s1 ->
    s1 = s /\ k = need s.1 request_id num_tokens new local
        + _get_num_evictable_blocks (BlockPool.heap s.2) (kept_hits s.1 request_id new local)) as Hbase.
  { intros tokens -> Hb. unfold need, taken_len, kept_hits, request_fresh in *.
    destruct (num_cached_block s.1 !! request_id) as [c|] eqn:Ec.
    - rewrite (base_predict_running s _ _ _ _ _ c) in Hb by auto. subst new.
      injection Hb as <- <-. split; [done|]. rewrite filter_nil_evictable. lia.
    - rewrite (base_predict_new s) in Hb by auto. injection Hb as <- <-. split; [done|]. lia. }
  unfold get_num_blocks_to_allocate, bind, self in Hget. unfold tokens_of in Hbase.
  destruct (m_class s.1) eqn:Ecls; try (destruct (Hbase num_tokens eq_refl Hget); by auto).
  unfold mamba_get_num_blocks_to_allocate, bind, self, block_pool in Hget.
  destruct ((0 <? len new) && last_cached_this_step s.1 (BlockPool.heap s.2) new)%bool.
  { injection Hget as <- <-. split; [done|]. left. pose proof (mr_pool _ _ _ _ _ Hm) as Hp.
    pose proof (proj1 (free_length n _ _ _ _ Hp)). pose proof (pc_n _ _ _ (pr_core _ _ _ _ _ Hp)). lia. }
  rewrite Hal in Hget. simpl in Hget, Hbase. destruct Hs as (_ & _ & Hb). rewrite (Hb Ecls) in Hget.
  destruct (Hbase _ eq_refl Hget). auto.
Qed.

Lemma predict_runs s request_id num_tokens new local main :
  plain s.1 -> request_fresh s.1 request_id new ->
  exists k, get_num_blocks_to_allocate request_id num_tokens new local main false s = Ret k s.
Proof using.
  intros [_ Hal] Hfresh.
  assert (forall tokens, exists k,
    base_get_num_blocks_to_allocate request_id tokens new local false s = Ret k s) as Hbase.
  { intros tokens. unfold request_fresh in Hfresh.
    destruct (num_cached_block s.1 !! request_id) as [c|] eqn:Ec.
    - subst new. eexists. by rewrite (base_predict_running s _ _ _ _ _ c) by auto.
    - eexists. by rewrite (base_predict_new s) by auto. }
  unfold get_num_blocks_to_allocate, bind, self. destruct (m_class s.1); try apply Hbase.
  unfold mamba_get_num_blocks_to_allocate, bind, self, block_pool.
  destruct (_ && _)%bool; [by eexists|]. rewrite Hal. apply Hbase.
Qed.

(** Taking over the computed blocks. *)
Lemma take_over_spec s free others reserved request_id new local :
  mgr_rep n s free others reserved -> spec_ok s.1 -> plain s.1 -> request_fresh s.1 request_id new ->
  computed_ok n reserved s.1 new local 0 ->
  succeeds (allocate_new_computed_blocks request_id new local 0) s (fun _ s' =>
    mgr_rep n s' (filter (fun r => r ∉ kept_hits s.1 request_id new local) free) others reserved /\
    config s'.1 = config s.1 /\
    len (blocks_of request_id s'.1) = Z.max 0 (taken_len s.1 request_id new local) /\
    (forall rid, rid <> request_id -> req_to_blocks s'.1 !! rid = req_to_blocks s.1 !! rid)).
Proof using.
  intros Hm Hs [Hcross Hal] Hfresh (Hnew & Hnd & Hcache & Hlen & Hl0 & _).
  assert (succeeds (base_allocate_new_computed_blocks request_id new local 0) s (fun _ s' =>
    mgr_rep n s' (filter (fun r => r ∉ kept_hits s.1 request_id new local) free) others reserved /\
    config s'.1 = config s.1 /\
    len (blocks_of request_id s'.1) = Z.max 0 (taken_len s.1 request_id new local) /\
    (forall rid, rid <> request_id -> req_to_blocks s'.1 !! rid = req_to_blocks s.1 !! rid))) as Hbase.
  2: { unfold succeeds, allocate_new_computed_blocks, bind, self in *. by destruct (m_class s.1). }
  unfold request_fresh, kept_hits, taken_len in *.
  destruct (num_cached_block s.1 !! request_id) as [c|] eqn:Ec.
  - subst new. unfold base_allocate_new_computed_blocks. do 2 mstep. rewrite Ec.
    apply succeeds_assert; [done|]. rewrite list_filter_all by set_solver.
    split; [done|]. split; [done|]. split; [|done]. pose proof (len_nonneg (blocks_of request_id s.1)). lia.
  - pose proof (base_computed_spec n s free others reserved request_id new local 0 Hm Ec Hfresh Hnew Hnd Hcache) as Hc.
    cbv zeta in Hc. rewrite Z.add_0_r in Hc. set (skipped := get_num_skipped_tokens s.1 local / m_block_size s.1) in *.
    assert ((if 0 <? (if 0 <? skipped then Z.min (local - get_num_skipped_tokens s.1 local) 0 else 0)
      then cdiv local (m_block_size s.1) - len (py_repeat (Blk 0) skipped ++ drop (Z.to_nat skipped) new) else 0) = 0) as E0.
    { destruct (0 <? skipped); [|done]. destruct (Z.ltb_spec 0 (Z.min (local - get_num_skipped_tokens s.1 local) 0)); [lia|done]. }
    rewrite E0 in Hc. eapply succeeds_mono; [apply Hc; split; [done|apply len_nonneg]|].
    intros _ s' (Hm' & Ht & _ & Hcfg). rewrite drop_0 in Hm'. split; [done|]. split; [done|]. split.
    + unfold blocks_of. rewrite Ht, lookup_insert_eq. simpl. rewrite take_0, app_nil_r, len_app, len_replicate, len_drop.
      pose proof (len_nonneg new). lia.
    + intros rid Hne. rewrite Ht. by rewrite lookup_insert_ne.
Qed.

(** Allocating the rest. *)
Lemma allocate_rest_spec s free others reserved request_id num_tokens main :
  mgr_rep n s free others reserved -> plain s.1 -> 0 <= num_spec_blocks s.1 ->
  let k := Z.max 0 (cdiv (tokens_of s.1 num_tokens) (m_block_size s.1) - len (blocks_of request_id s.1)) in
  k <= len free ->
  succeeds (allocate_new_blocks request_id num_tokens main) s (fun blocks s' =>
    mgr_rep n s' (drop (Z.to_nat k) free) others reserved /\ config s'.1 = config s.1 /\
    blocks_of request_id s'.1 = blocks_of request_id s.1 ++ blocks /\ len blocks = k /\
    num_tokens <= m_block_size s.1 * len (blocks_of request_id s'.1) /\
    (forall rid, rid <> request_id -> req_to_blocks s'.1 !! rid = req_to_blocks s.1 !! rid)).
Proof using.
  intros Hm [Hcross Hal] Hsp k Hk. pose proof (mr_bs _ _ _ _ _ Hm) as Hbs.
  assert (num_tokens <= tokens_of s.1 num_tokens) as Hle by (unfold tokens_of; destruct (_ && _)%bool; nia).
  pose proof (cdiv_bounds (tokens_of s.1 num_tokens) _ Hbs) as Hcd.
  assert (succeeds (base_allocate_new_blocks request_id (tokens_of s.1 num_tokens)) s (fun blocks s' =>
    mgr_rep n s' (drop (Z.to_nat k) free) others reserved /\ config s'.1 = config s.1 /\
    blocks_of request_id s'.1 = blocks_of request_id s.1 ++ blocks /\ len blocks = k /\
    num_tokens <= m_block_size s.1 * len (blocks_of request_id s'.1) /\
    (forall rid, rid <> request_id -> req_to_blocks s'.1 !! rid = req_to_blocks s.1 !! rid))) as Hbase.
  { eapply succeeds_mono; [by apply (base_allocate_spec n s free others reserved request_id _ Hm)|].
    fold k. intros blocks s' (-> & Hm' & Ht & Hc & _). split; [done|]. split; [done|].
    assert (blocks_of request_id s'.1 = blocks_of request_id s.1 ++ take (Z.to_nat k) free) as Hb.
    { unfold blocks_of at 1. by rewrite Ht, lookup_insert_eq. }
    assert (len (take (Z.to_nat k) free) = k) as Hlk by (rewrite len_take; lia).
    split; [done|]. split; [done|]. split.
    - rewrite Hb, len_app, Hlk. pose proof (len_nonneg (blocks_of request_id s.1)). unfold k. nia.
    - intros rid Hne. by rewrite Ht, lookup_insert_ne. }
  unfold succeeds, allocate_new_blocks, bind, self in *. unfold tokens_of in Hbase.
  destruct (m_class s.1) eqn:Ec; simpl in Hbase; try exact Hbase.
  unfold mamba_allocate_new_blocks, bind, self. rewrite Hal. exact Hbase.
Qed.
End manager.

(** ** A loop over the managers that does not fail *)

Section loops.
Context `{HashEnv}.
Variable n : nat.
Variable reserved : list bref.

Lemma mgr_rep_of m p free others :
  manager_ok n m -> pool_rep n p free (held_by m ++ others) reserved ->
  mgr_rep n (m, p) free others reserved.
Proof using. intros [H0 Hb Hl Hs Ha] Hp. by constructor. Qed.

Lemma succeeds_leaves_and {S A} (m : M S A) s (Q : A -> S -> Prop) (P : S -> Prop) :
  succeeds m s Q -> leaves m s P -> succeeds m s (fun a s' => Q a s' /\ P s').
Proof using. unfold succeeds, leaves. by destruct (m s). Qed.

(** [Pre] is what each manager needs, [R] how the step changes it, and [I] holds
    of the accumulator and the free queue before the step of each index. *)
Lemma each_loop_succeeds {A} (f : Z -> A -> M Manager.state A)
    (Pre : Z -> Manager.t -> Prop) (R : Z -> Manager.t -> Manager.t -> Prop)
    (I : Z -> A -> list bref -> Prop) ms :
  (forall j a m p free others, manager_ok n m -> Pre j m -> I j a free ->
     mgr_rep n (m, p) free others reserved ->
     succeeds (f j a) (m, p) (fun a' s' => exists free', mgr_rep n s' free' others reserved /\
       manager_ok n s'.1 /\ I (j + 1) a' free' /\ R j m s'.1)) ->
  forall i a p free others,
  pool_rep n p free (all_held ms ++ others) reserved -> Forall (manager_ok n) ms ->
  (forall k m, ms !! k = Some m -> Pre (i + Z.of_nat k) m) -> I i a free ->
  exists a' ms' p' free', Coordinator.each_loop f i a ms p = Ret a' (ms', p') /\
    pool_rep n p' free' (all_held ms' ++ others) reserved /\ Forall (manager_ok n) ms' /\
    I (i + Z.of_nat (length ms)) a' free' /\ length ms' = length ms /\
    (forall k m m', ms !! k = Some m -> ms' !! k = Some m' -> R (i + Z.of_nat k) m m').
Proof using.
  intros Hf. induction ms as [|m ms IH]; intros i a p free others Hp Hms Hpre HI.
  { exists a, [], p, free. simpl. rewrite Z.add_0_r. by split_and!. }
  apply Forall_cons in Hms as [Hm Hms]. rewrite all_held_cons, <- app_assoc in Hp.
  assert (Pre i m) as Hp0 by (rewrite <- (Z.add_0_r i); by apply (Hpre 0%nat)).
  pose proof (Hf i a m p free _ Hm Hp0 HI (mgr_rep_of _ _ _ _ Hm Hp)) as Hrun.
  apply succeeds_inv in Hrun as (a1 & [m1 p1] & Hrun & free1 & Hm1 & Hok1 & HI1 & HR).
  simpl in Hok1, HR.
  assert (pool_rep n p1 free1 (all_held ms ++ held_by m1 ++ others) reserved) as Hp1.
  { eapply pool_rep_perm; [|apply (mr_pool _ _ _ _ _ Hm1)]. simpl.
    rewrite !app_assoc. by rewrite (Permutation_app_comm (held_by m1)). }
  destruct (IH (i + 1) a1 p1 free1 _ Hp1 Hms) as (a2 & ms2 & p2 & free2 & Hrun2 & Hp2 & Hms2 & HI2 & Hlen & HR2).
  { intros k m' Hk. replace (i + 1 + Z.of_nat k) with (i + Z.of_nat (S k)) by lia. by apply Hpre. }
  { done. }
  exists a2, (m1 :: ms2), p2, free2. simpl. rewrite Hrun, Hrun2. split; [done|]. split.
  { eapply pool_rep_perm; [|exact Hp2]. rewrite all_held_cons, !app_assoc.
    by rewrite (Permutation_app_comm (held_by m1)). }
  split; [by constructor|]. split; [by replace (i + Z.of_nat (S (length ms))) with (i + 1 + Z.of_nat (length ms)) by lia|].
  split; [by rewrite Hlen|]. intros [|k] mx mx' Hk Hk'; simpl in Hk, Hk'.
  - simplify_eq. by rewrite Z.add_0_r.
  - replace (i + Z.of_nat (S k)) with (i + 1 + Z.of_nat k) by lia. by apply HR2.
Qed.

(** Costs per index. *)
Definition sum (l : list Z) : Z := foldr Z.add 0 l.

Definition cost_before (costs : list Z) (j : Z) : Z := sum (take (Z.to_nat j) costs).
Definition cost_after (costs : list Z) (j : Z) : Z := sum (drop (Z.to_nat j) costs).

Lemma sum_app l1 l2 : sum (l1 ++ l2) = sum l1 + sum l2.
Proof using. unfold sum. induction l1; simpl; lia. Qed.

Lemma sum_nonneg l : Forall (fun k => 0 <= k) l -> 0 <= sum l.
Proof using. unfold sum. induction 1; simpl; lia. Qed.

Lemma cost_before_S costs k c :
  costs !! k = Some c -> cost_before costs (Z.of_nat k + 1) = cost_before costs (Z.of_nat k) + c.
Proof using.
  intros Hk. unfold cost_before. replace (Z.to_nat (Z.of_nat k + 1)) with (S k) by lia.
  rewrite Nat2Z.id, (take_S_r _ _ _ Hk), sum_app.
  change (sum [c]) with (c + 0). lia.
Qed.

Lemma cost_after_S costs k c :
  costs !! k = Some c -> cost_after costs (Z.of_nat k) = c + cost_after costs (Z.of_nat k + 1).
Proof using.
  intros Hk. unfold cost_after. replace (Z.to_nat (Z.of_nat k + 1)) with (S k) by lia.
  by rewrite Nat2Z.id, (drop_S _ _ _ Hk).
Qed.

(** Removing blocks from a part of the queue costs at most what it costs in all. *)
Lemma filter_out_cost (kept free free0 : list bref) :
  sublist free free0 ->
  len free - len (filter (fun r => r ∉ kept) free) <= len free0 - len (filter (fun r => r ∉ kept) free0).
Proof using.
  intros Hs. induction Hs as [|x l1 l2 _ IH|x l1 l2 _ IH]; [done|..].
  - rewrite !filter_cons. case_decide; rewrite ?len_cons; lia.
  - rewrite (filter_cons _ x l2). case_decide; rewrite ?len_cons; lia.
Qed.
End loops.

(** ** All managers *)

Section all_groups.
Context `{HashEnv}.
Variable n : nat.
Variable reserved : list bref.
Variable request_id : string.
Variables num_tokens main enc local : Z.
Variable new : list (list bref).

(** The computed blocks of the group of index [i]. *)
Definition blocks_at (i : Z) : list bref := default [] (py_index new i).

(** What a manager needs for the request to be admitted. *)
Record admissible (i : Z) (m : Manager.t) : Prop := {
  ad_plain : plain m;
  ad_fresh : request_fresh m request_id (blocks_at i);
  ad_computed : computed_ok n reserved m (blocks_at i) local 0;
}.

(** One number per manager, from index [i] on. *)
Fixpoint costs (F : Z -> Manager.t -> Z) (i : Z) (ms : list Manager.t) : list Z :=
  match ms with [] => [] | m :: ms => F i m :: costs F (i + 1) ms end.

Lemma costs_lookup F i ms k m : ms !! k = Some m -> costs F i ms !! k = Some (F (i + Z.of_nat k) m).
Proof using.
  revert i k. induction ms as [|x ms IH]; intros i [|k] Hk; simpl in *; [done..| |].
  - injection Hk as ->. by rewrite Z.add_0_r.
  - rewrite (IH (i + 1) k Hk). do 2 f_equal. lia.
Qed.

Lemma costs_length F i ms : length (costs F i ms) = length ms.
Proof using. revert i. induction ms as [|m ms IH]; intros i; simpl; [done|]. by rewrite IH. Qed.

Definition need_at (i : Z) (m : Manager.t) : Z := need m request_id num_tokens (blocks_at i) local.
Definition kept_at (i : Z) (m : Manager.t) : list bref := kept_hits m request_id (blocks_at i) local.
Definition evict_at (h : store) (i : Z) (m : Manager.t) : Z := _get_num_evictable_blocks h (kept_at i m).

(** The check leaves the state unchanged and returns the sum. *)
Lemma predict_all_loop h ms : forall i k0 p free others k s1,
  BlockPool.heap p = h ->
  pool_rep n p free (all_held ms ++ others) reserved -> Forall (manager_ok n) ms ->
  (forall j m, ms !! j = Some m -> admissible (i + Z.of_nat j) m) -> 0 <= k0 ->
  Coordinator.each_loop (fun i num_blocks_to_allocate =>
    m <- Manager.self ;;
    k <- (if Coordinator.is_cross m then
            Manager.get_num_blocks_to_allocate request_id enc [] 0 enc false
          else
            blocks <- of_option IndexError (py_index new i) ;;
            Manager.get_num_blocks_to_allocate request_id num_tokens blocks local main false) ;;
    ret (num_blocks_to_allocate + k)) i k0 ms p = Ret k s1 ->
  s1 = (ms, p) /\ k0 <= k /\
  (len free < k \/ k = k0 + sum (costs need_at i ms) + sum (costs (evict_at h) i ms)).
Proof using.
  induction ms as [|m ms IH]; intros i k0 p free others k s1 Hh Hp Hms Had Hk0 Hrun.
  { simpl in Hrun. injection Hrun as <- <-. split; [done|]. simpl. lia. }
  apply Forall_cons in Hms as [Hm Hms]. rewrite all_held_cons, <- app_assoc in Hp.
  assert (admissible i m) as [[Hcr Hal] Hfr Hco].
  { rewrite <- (Z.add_0_r i). by apply (Had 0%nat). }
  pose proof (mgr_rep_of n reserved _ _ _ _ Hm Hp) as Hrep.
  cbn [Coordinator.each_loop] in Hrun. unfold bind at 1 in Hrun. unfold self at 1 in Hrun. cbn [fst] in Hrun.
  unfold Coordinator.is_cross in Hrun at 1. rewrite (bool_decide_false (m_class m = CrossAttentionManager)) in Hrun by done.
  unfold blocks_at in Hfr, Hco. destruct (py_index new i) as [blocks|] eqn:Eb; [|discriminate].
  simpl in Hfr, Hco. unfold bind at 1 2, of_option at 1, ret at 1 in Hrun.
  destruct (get_num_blocks_to_allocate _ _ blocks _ _ _ (m, p)) as [k1 s2|e [m2 p2]] eqn:Eget; [|discriminate].
  destruct (predict_spec n (m, p) _ _ _ _ _ _ _ _ _ _ Hrep (mk_spec _ _ Hm) (conj Hcr Hal) Hfr Eget) as [-> Hk1].
  assert (0 <= k1) as Hk1n.
  { destruct Hk1 as [Hlt| ->]; [pose proof (len_nonneg free); lia|]. unfold need, _get_num_evictable_blocks.
    pose proof (len_nonneg (filter (fun r => BlockPool.to_free (BlockPool.heap p) r = true)
      (kept_hits m request_id blocks local))). simpl. lia. }
  cbv beta iota in Hrun. unfold ret in Hrun at 1.
  destruct (Coordinator.each_loop _ (i + 1) _ ms p) as [k2 [ms2 p2]|e [ms2 p2]] eqn:Eloop; [|discriminate].
  injection Hrun as <- <-.
  assert (pool_rep n p free (all_held ms ++ held_by m ++ others) reserved) as Hp2.
  { eapply pool_rep_perm; [|exact Hp]. rewrite !app_assoc. by rewrite (Permutation_app_comm (held_by m)). }
  destruct (IH (i + 1) (k0 + k1) p free _ k2 (ms2, p2) Hh Hp2 Hms) as (Hs & Hle & Hk2); [|lia|exact Eloop|].
  { intros j m' Hj. replace (i + 1 + Z.of_nat j) with (i + Z.of_nat (S j)) by lia. by apply Had. }
  injection Hs as -> ->. split; [done|]. split; [lia|]. destruct Hk1 as [Hlt|Hk1]; [left; lia|].
  destruct Hk2 as [Hlt|Hk2]; [by left|]. right.
  assert (k1 = need_at i m + evict_at h i m) as ->.
  { unfold need_at, evict_at, kept_at, blocks_at. by rewrite Eb, <- Hh. }
  rewrite Hk2. unfold sum. simpl. lia.
Qed.

Lemma predict_all_runs ms : forall i k0 p,
  (forall j m, ms !! j = Some m -> admissible (i + Z.of_nat j) m) ->
  (forall j m, ms !! j = Some m -> is_Some (py_index new (i + Z.of_nat j))) ->
  exists k s1, Coordinator.each_loop (fun i num_blocks_to_allocate =>
    m <- Manager.self ;;
    k <- (if Coordinator.is_cross m then
            Manager.get_num_blocks_to_allocate request_id enc [] 0 enc false
          else
            blocks <- of_option IndexError (py_index new i) ;;
            Manager.get_num_blocks_to_allocate request_id num_tokens blocks local main false) ;;
    ret (num_blocks_to_allocate + k)) i k0 ms p = Ret k s1.
Proof using.
  induction ms as [|m ms IH]; intros i k0 p Had Hnew; [by do 2 eexists|]. simpl.
  assert (admissible i m) as [[Hcr Hal] Hfr _].
  { rewrite <- (Z.add_0_r i). by apply (Had 0%nat). }
  destruct (Hnew 0%nat m eq_refl) as [blocks Hb]. rewrite Z.add_0_r in Hb.
  unfold blocks_at in Hfr. rewrite Hb in Hfr. simpl in Hfr.
  destruct (predict_runs (m, p) request_id num_tokens blocks local main (conj Hcr Hal) Hfr) as [k Hk].
  erewrite bind_Ret by done. cbn [fst]. unfold Coordinator.is_cross at 1. rewrite bool_decide_false by done.
  erewrite bind_Ret by (unfold bind, of_option; rewrite Hb; exact Hk). simpl.
  destruct (IH (i + 1) (k0 + k) p) as (k2 & [ms2 p2] & ->); [| |by do 2 eexists].
  - intros j m' Hj. replace (i + 1 + Z.of_nat j) with (i + Z.of_nat (S j)) by lia. by apply Had.
  - intros j m' Hj. replace (i + 1 + Z.of_nat j) with (i + Z.of_nat (S j)) by lia. by eapply Hnew.
Qed.

(** Taking over the computed blocks of every group. *)
Lemma take_over_all s free :
  pool_rep n s.2 free (all_held s.1 ++ []) reserved -> Forall (manager_ok n) s.1 ->
  (forall j m, s.1 !! j = Some m -> admissible (Z.of_nat j) m) ->
  (forall j m, s.1 !! j = Some m -> is_Some (py_index new (Z.of_nat j))) ->
  let evs := costs (evict_at (BlockPool.heap s.2)) 0 s.1 in
  exists ms' p' free', Coordinator.allocate_new_computed_blocks request_id new local 0 s = Ret tt (ms', p') /\
    pool_rep n p' free' (all_held ms' ++ []) reserved /\ Forall (manager_ok n) ms' /\
    len free - sum evs <= len free' /\ length ms' = length s.1 /\
    (forall k m m', s.1 !! k = Some m -> ms' !! k = Some m' ->
       config m' = config m /\
       len (blocks_of request_id m') = Z.max 0 (taken_len m request_id (blocks_at (Z.of_nat k)) local) /\
       (forall rid, rid <> request_id -> req_to_blocks m' !! rid = req_to_blocks m !! rid)).
Proof using.
  intros Hp Hms Had Hnew evs.
  pose (Pre := fun (j : Z) (m : Manager.t) => admissible j m /\ is_Some (py_index new j) /\
    exists k, j = Z.of_nat k /\ s.1 !! k = Some m).
  pose (R := fun (j : Z) (m m' : Manager.t) => config m' = config m /\
    len (blocks_of request_id m') = Z.max 0 (taken_len m request_id (blocks_at j) local) /\
    (forall rid, rid <> request_id -> req_to_blocks m' !! rid = req_to_blocks m !! rid)).
  pose (I := fun (j : Z) (_ : unit) (f : list bref) => sublist f free /\ len free - cost_before evs j <= len f).
  destruct (each_loop_succeeds n reserved (fun i (_ : unit) =>
    blocks <- of_option IndexError (py_index new i) ;;
    Manager.allocate_new_computed_blocks request_id blocks local 0) Pre R I s.1) with
    (i := 0) (a := tt) (p := s.2) (free := free) (others := @nil bref)
    as ([] & ms' & p' & free' & Hrun & Hp' & Hms' & HI & Hlen & HR).
  - intros j [] m p fr others Hm ([Hpl Hfr Hco] & [blocks Hb] & k & -> & Hk) [Hsub Hcost] Hrep.
    rewrite Hb. unfold blocks_at in Hfr, Hco. rewrite Hb in Hfr, Hco. simpl in Hfr, Hco.
    apply succeeds_bind, (succeeds_of_option _ _ blocks); [done|].
    pose proof (take_over_spec n (m, p) fr others reserved request_id blocks local Hrep (mk_spec _ _ Hm) Hpl Hfr Hco) as Ht.
    assert (owned n others reserved (m, p)) as Ho.
    { apply owned_split. split; [|done]. exists fr. apply (mr_pool _ _ _ _ _ Hrep). }
    pose proof (allocate_new_computed_blocks_kept n others reserved request_id blocks local 0 (m, p) Ho (fun _ => Hco)) as Hkept.
    eapply succeeds_mono; [apply (succeeds_leaves_and _ _ _ _ Ht Hkept)|].
    intros [] [m' p1] [(Hm' & Hc & Hl & Ho') [Hown _]].
    eexists. split; [exact Hm'|]. split; [apply (proj1 (owned_split _ _ _ _ _) Hown)|].
    split; [|split; [done|split; [unfold blocks_at; by rewrite Hb|done]]].
    assert (kept_at (Z.of_nat k) m = kept_hits m request_id blocks local) as Hkept_at.
    { unfold kept_at, blocks_at. by rewrite Hb. }
    assert (evs !! k = Some (evict_at (BlockPool.heap s.2) (Z.of_nat k) m)) as Hev.
    { unfold evs. by rewrite (costs_lookup _ 0 _ _ _ Hk). }
    destruct Hco as (Hto & Hnd & _).
    assert (Forall (touchable n reserved) (kept_hits m request_id blocks local) /\
      NoDup (real_blocks (kept_hits m request_id blocks local))) as [Hto' Hnd'].
    { unfold kept_hits. destruct (num_cached_block m !! request_id); [split; [done|apply NoDup_nil_2]|].
      split; [by apply Forall_drop|by apply block_list_drop]. }
    pose proof (evictable_spec n _ _ _ _ _ Hp Hto' Hnd') as He.
    split; [etransitivity; [apply sublist_filter|exact Hsub]|].
    rewrite (cost_before_S _ _ _ Hev). unfold evict_at. rewrite Hkept_at.
    pose proof (filter_out_cost (kept_hits m request_id blocks local) fr free Hsub). simpl. lia.
  - done.
  - done.
  - intros k m Hk. split; [by apply Had|]. split; [by eapply Hnew|]. by exists k.
  - split; [done|]. unfold cost_before. simpl. unfold sum. simpl. lia.
  - exists ms', p', free'. split; [exact Hrun|]. split; [done|]. split; [done|]. destruct HI as [_ HI].
    split; [|split; [done|]].
    + assert (cost_before evs (0 + Z.of_nat (length s.1)) = sum evs) as Hall; [|lia].
      unfold cost_before. f_equal. apply take_ge. rewrite Z.add_0_l, Nat2Z.id. unfold evs. by rewrite costs_length.
    + intros k m m' Hk Hk'. by apply (HR k m m').
Qed.

(** Allocating in every group. *)
Lemma allocate_all s free (ks : list Z) :
  pool_rep n s.2 free (all_held s.1 ++ []) reserved -> Forall (manager_ok n) s.1 ->
  Forall plain s.1 -> 0 <= main -> Forall (fun k => 0 <= k) ks ->
  (forall j m, s.1 !! j = Some m -> ks !! j = Some (Z.max 0
     (cdiv (tokens_of m num_tokens) (m_block_size m) - len (blocks_of request_id m)))) ->
  sum ks <= len free ->
  exists blocks ms' p' free', Coordinator.allocate_new_blocks request_id num_tokens main enc s = Ret blocks (ms', p') /\
    pool_rep n p' free' (all_held ms' ++ []) reserved /\ Forall (manager_ok n) ms' /\
    length ms' = length s.1 /\
    (forall k m m', s.1 !! k = Some m -> ms' !! k = Some m' ->
       config m' = config m /\ num_tokens <= m_block_size m * len (blocks_of request_id m') /\
       (exists l, blocks_of request_id m' = blocks_of request_id m ++ l) /\
       (forall rid, rid <> request_id -> req_to_blocks m' !! rid = req_to_blocks m !! rid)).
Proof using.
  intros Hp Hms Hpl Hmain Hpos Hks Hsum.
  pose (Pre := fun (j : Z) (m : Manager.t) => plain m /\ exists k, j = Z.of_nat k /\ s.1 !! k = Some m).
  pose (R := fun (j : Z) (m m' : Manager.t) =>
    config m' = config m /\ num_tokens <= m_block_size m * len (blocks_of request_id m') /\
    (exists l, blocks_of request_id m' = blocks_of request_id m ++ l) /\
    (forall rid, rid <> request_id -> req_to_blocks m' !! rid = req_to_blocks m !! rid)).
  pose (I := fun (j : Z) (_ : list (list bref)) (f : list bref) => cost_after ks j <= len f).
  destruct (each_loop_succeeds n reserved (fun (_ : Z) new =>
    m <- Manager.self ;;
    blocks <- Manager.allocate_new_blocks request_id
                (if Coordinator.is_cross m then enc else num_tokens) main ;;
    ret (new ++ [blocks])) Pre R I s.1) with
    (i := 0) (a := @nil (list bref)) (p := s.2) (free := free) (others := @nil bref)
    as (blocks & ms' & p' & free' & Hrun & Hp' & Hms' & _ & Hlen & HR).
  - intros j acc m p fr others Hm (Hplm & k & -> & Hk) Hcost Hrep.
    specialize (Hks _ _ Hk). unfold I in Hcost. rewrite (cost_after_S _ _ _ Hks) in Hcost.
    assert (0 <= cost_after ks (Z.of_nat k + 1)) as Hrest.
    { unfold cost_after. assert (Forall (fun k => 0 <= k) (drop (Z.to_nat (Z.of_nat k + 1)) ks)) as Hd by (by apply Forall_drop).
      by apply sum_nonneg. }
    apply succeeds_bind. apply succeeds_self. cbn [fst].
    unfold Coordinator.is_cross. rewrite bool_decide_false by apply Hplm.
    assert (0 <= num_spec_blocks m) as Hsp.
    { destruct (mk_spec _ _ Hm) as (_ & [_ Hsp] & _). unfold num_spec_blocks, mamba_fields. by destruct (m_spec m). }
    apply succeeds_bind.
    pose proof (allocate_rest_spec n (m, p) fr others reserved request_id num_tokens main Hrep Hplm Hsp) as Ht.
    cbv zeta in Ht. cbn [fst] in Ht. set (c := Z.max 0 _) in *. specialize (Ht ltac:(lia)).
    assert (owned n others reserved (m, p)) as Ho.
    { apply owned_split. split; [|done]. exists fr. apply (mr_pool _ _ _ _ _ Hrep). }
    pose proof (allocate_new_blocks_kept n others reserved request_id num_tokens main (m, p) Ho Hmain) as Hkept.
    eapply succeeds_mono; [apply (succeeds_leaves_and _ _ _ _ Ht Hkept)|].
    intros bl [m' p1] [(Hm' & Hc & Hb & Hl & Hroom & Ho') [Hown _]]. apply succeeds_ret.
    eexists. split; [exact Hm'|]. split; [apply (proj1 (owned_split _ _ _ _ _) Hown)|].
    split; [|split; [done|split; [done|split; [by eexists|done]]]].
    unfold I. rewrite len_drop. assert (0 <= c) by (unfold c; lia). lia.
  - done.
  - done.
  - intros k m Hk. split; [by eapply Forall_lookup_1|]. by exists k.
  - unfold I, cost_after. simpl. exact Hsum.
  - exists blocks, ms', p', free'. split; [exact Hrun|]. split; [done|]. split; [done|]. split; [done|].
    intros k m m' Hk Hk'. by apply (HR k m m').
Qed.
End all_groups.

(** ** Recycling before the check, caching after the allocation *)

Section around.
Context `{HashEnv}.
Variable n : nat.
Variable reserved : list bref.

(** What recycling keeps of a manager. *)
Definition recycled (request_id : string) (m m' : Manager.t) : Prop :=
  config m' = config m /\ num_cached_block m' = num_cached_block m /\
  len (blocks_of request_id m') = len (blocks_of request_id m) /\
  (forall rid, rid <> request_id -> req_to_blocks m' !! rid = req_to_blocks m !! rid).

Lemma recycle_spec s free others request_id total :
  mgr_rep n s free others reserved -> plain s.1 ->
  succeeds (remove_skipped_blocks request_id total) s (fun _ s' =>
    (exists free', mgr_rep n s' free' others reserved) /\ recycled request_id s.1 s'.1).
Proof using.
  intros Hm [_ Hal].
  assert (forall total, succeeds (base_remove_skipped_blocks request_id total) s (fun _ s' =>
    (exists free', mgr_rep n s' free' others reserved) /\ recycled request_id s.1 s'.1)) as Hbase.
  { intros k. eapply succeeds_mono; [by apply (base_remove_skipped_spec n)|].
    intros _ s' (Hc & Hn & (free' & Hm' & _) & Hl & _ & _ & Ho & _). split; [by exists free'|done]. }
  unfold remove_skipped_blocks. do 2 mstep.
  destruct (m_class s.1); try apply Hbase. unfold mamba_remove_skipped_blocks. do 3 mstep.
  eapply succeeds_mono; [apply Hbase|]. intros [] s' Hs'. cbv beta. rewrite Hal. exact Hs'.
Qed.

Lemma recycle_all s free request_id total :
  pool_rep n s.2 free (all_held s.1 ++ []) reserved -> Forall (manager_ok n) s.1 -> Forall plain s.1 ->
  exists ms' p' free', Coordinator.remove_skipped_blocks request_id total s = Ret tt (ms', p') /\
    pool_rep n p' free' (all_held ms' ++ []) reserved /\ Forall (manager_ok n) ms' /\
    length ms' = length s.1 /\
    (forall k m m', s.1 !! k = Some m -> ms' !! k = Some m' -> recycled request_id m m').
Proof using.
  intros Hp Hms Hpl.
  destruct (each_loop_succeeds n reserved (fun (_ : Z) (_ : unit) => Manager.remove_skipped_blocks request_id total)
    (fun _ m => plain m) (fun _ m m' => recycled request_id m m') (fun _ _ _ => True) s.1) with
    (i := 0) (a := tt) (p := s.2) (free := free) (others := @nil bref)
    as ([] & ms' & p' & free' & Hrun & Hp' & Hms' & _ & Hlen & HR); [|done|done| |done|].
  - intros j [] m p fr others Hm Hplm _ Hrep.
    pose proof (recycle_spec (m, p) fr others request_id total Hrep Hplm) as Ht.
    assert (owned n others reserved (m, p)) as Ho.
    { apply owned_split. split; [|done]. exists fr. apply (mr_pool _ _ _ _ _ Hrep). }
    pose proof (remove_skipped_kept n others reserved request_id total (m, p) Ho) as Hkept.
    eapply succeeds_mono; [apply (succeeds_leaves_and _ _ _ _ Ht Hkept)|].
    intros [] [m' p1] [[[fr' Hm'] Hrec] [Hown _]]. exists fr'. split; [done|].
    split; [apply (proj1 (owned_split _ _ _ _ _) Hown)|done].
  - intros k m Hk. by eapply Forall_lookup_1.
  - exists ms', p', free'. by split_and!.
Qed.

(** Caching does not touch the tables. *)
Definition same_tables (m m' : Manager.t) : Prop := forall rid, blocks_of rid m' = blocks_of rid m.

Lemma seen_tables request_id m : same_tables m (seen request_id m).
Proof using.
  intros rid. unfold blocks_of at 1, seen. simpl. rewrite lookup_insert. case_decide; by subst.
Qed.

Lemma base_cache_tables m request k s :
  same_tables m s.1 -> leaves (base_cache_blocks request k) s (fun s' => same_tables m s'.1).
Proof using.
  intros Hs. unfold base_cache_blocks. lstep. destruct (_ <=? _); [by lstep|]. lstep.
  assert (same_tables m (seen (Request.request_id request) s.1)) as Hs1.
  { intros rid. by rewrite seen_tables. }
  lstep; [by lstep|]. by lstep; [lstep|intros; lstep].
Qed.

Lemma cache_tables m request k s :
  same_tables m s.1 -> leaves (cache_blocks request k) s (fun s' => same_tables m s'.1).
Proof using.
  intros Hs. unfold cache_blocks. lstep. destruct (m_class s.1); try (by apply base_cache_tables); [|by lstep].
  apply leaves_bind; [by apply base_cache_tables|]. intros r s1 Hs1. lstep.
  destruct (_ <? _); [|by lstep]. lstep. lstep.
  apply leaves_bind; [|by intros]. unfold note_cached. apply leaves_mfor; [intros rid; cbn [fst]; by rewrite seen_tables|].
  intros x s2 Hs2. apply leaves_bind; [by apply leaves_of_option|]. intros b s3 Hs3.
  lstep; [by lstep|]. apply leaves_bind; [by apply leaves_of_option|]. intros h s4 Hs4. by lstep.
Qed.

Lemma cache_all_tables request k s :
  leaves (Coordinator.cache_blocks request k) s (fun s' => Forall2 same_tables s.1 s'.1).
Proof using.
  unfold leaves, Coordinator.cache_blocks, Coordinator.each. destruct s as [ms p]. simpl.
  generalize 0. revert request p. induction ms as [|m ms IH]; intros request p i; [constructor|]. simpl.
  pose proof (cache_tables m request k (m, p) (fun _ => eq_refl)) as Hm. unfold leaves in Hm.
  destruct (cache_blocks request k (m, p)) as [r [m1 p1]|e [m1 p1]]; simpl in Hm.
  - specialize (IH r p1 (i + 1)). destruct (Coordinator.each_loop _ _ _ _ _) as [a [ms2 p2]|e [ms2 p2]];
      by constructor.
  - constructor; [done|]. clear. induction ms; constructor; [intros rid; reflexivity|done].
Qed.
End around.
