(* ===== verification/Stats.v ===== *)
(** * Prefix-cache statistics

    Models [BaseCacheStats], [PrefixCacheStats] and [CachingMetrics] of
    vllm/v1/metrics/stats.py: the counters a KV-cache manager fills and the
    sliding window over the most recent requests that turns them into a hit
    rate. *)

From S2P Require Import Prelude.
From stdpp Require Import options.

Module PrefixCacheStats.

Record t := Mk {
  reset : bool;
  requests : Z;
  queries : Z;
  hits : Z;
  preempted_requests : Z;
  preempted_queries : Z;
  preempted_hits : Z;
}.

(** [PrefixCacheStats()] *)
Definition new : t := Mk false 0 0 0 0 0 0.

Definition set_reset (s : t) : t :=
  Mk true (requests s) (queries s) (hits s)
    (preempted_requests s) (preempted_queries s) (preempted_hits s).

Definition record (num_tokens num_hits : Z) (preempted : bool) (s : t) : t :=
  if preempted then
    Mk (reset s) (requests s) (queries s) (hits s)
      (preempted_requests s + 1) (preempted_queries s + num_tokens) (preempted_hits s + num_hits)
  else
    Mk (reset s) (requests s + 1) (queries s + num_tokens) (hits s + num_hits)
      (preempted_requests s) (preempted_queries s) (preempted_hits s).
End PrefixCacheStats.

Module CachingMetrics.

(** [query_queue] holds (requests, queries, hits). *)
Record t := Mk {
  max_recent_requests : Z;
  aggregated_requests : Z;
  aggregated_query_total : Z;
  aggregated_query_hit : Z;
  query_queue : list (Z * Z * Z);
}.

Definition init (max_recent_requests : Z) : t := Mk max_recent_requests 0 0 0 [].

Definition reset (m : t) : t := Mk (max_recent_requests m) 0 0 0 [].

(** [query_queue.popleft()] and the subtraction of its counts. *)
Definition drop_oldest (m : t) : t :=
  match query_queue m with
  | [] => m
  | (old_requests, old_queries, old_hits) :: q =>
      Mk (max_recent_requests m) (aggregated_requests m - old_requests)
        (aggregated_query_total m - old_queries) (aggregated_query_hit m - old_hits) q
  end.

Definition too_many (m : t) : bool :=
  (1 <? len (query_queue m)) && (max_recent_requests m <? aggregated_requests m).

(** The [while] loop of [observe]; the queue gets shorter, so its length is
    fuel enough. *)
Fixpoint trim (fuel : nat) (m : t) : t :=
  match fuel with
  | O => m
  | S fuel => if too_many m then trim fuel (drop_oldest m) else m
  end.

Definition observe (stats : PrefixCacheStats.t) (m : t) : t :=
  let m := if PrefixCacheStats.reset stats then reset m else m in
  if PrefixCacheStats.requests stats =? 0 then m
  else
    let m := Mk (max_recent_requests m)
               (aggregated_requests m + PrefixCacheStats.requests stats)
               (aggregated_query_total m + PrefixCacheStats.queries stats)
               (aggregated_query_hit m + PrefixCacheStats.hits stats)
               (query_queue m ++ [(PrefixCacheStats.requests stats,
                                   PrefixCacheStats.queries stats, PrefixCacheStats.hits stats)]) in
    trim (length (query_queue m)) m.

Definition empty (m : t) : bool := aggregated_requests m =? 0.

(** The hit rate as hits and queries; [None] where the code returns 0. *)
Definition hit_rate (m : t) : option (Z * Z) :=
  if aggregated_query_total m =? 0 then None
  else Some (aggregated_query_hit m, aggregated_query_total m).
End CachingMetrics.

Import CachingMetrics.

(** ** The window of recent requests *)

Section window.

Definition entry_requests (x : Z * Z * Z) : Z := x.1.1.
Definition entry_queries (x : Z * Z * Z) : Z := x.1.2.
Definition entry_hits (x : Z * Z * Z) : Z := x.2.

Definition total (f : Z * Z * Z -> Z) (l : list (Z * Z * Z)) : Z := foldr (fun x a => f x + a) 0 l.

Lemma total_app f l1 l2 : total f (l1 ++ l2) = total f l1 + total f l2.
Proof. unfold total. induction l1 as [|x l1 IH]; simpl; lia. Qed.

Lemma stats_total_nonneg l : Forall (fun x => 0 <= entry_requests x) l -> 0 <= total entry_requests l.
Proof. intros Hl. unfold total. induction Hl as [|x l Hx Hl IH]; simpl; lia. Qed.

(** The counters are the sums over the queue. *)
Definition sums (m : t) (q : list (Z * Z * Z)) : Prop :=
  query_queue m = q /\ aggregated_requests m = total entry_requests q /\
  aggregated_query_total m = total entry_queries q /\ aggregated_query_hit m = total entry_hits q.

(** A list of entries that fits the window. *)
Definition fits (limit : Z) (q : list (Z * Z * Z)) : Prop :=
  (length q <= 1)%nat \/ total entry_requests q <= limit.

#[export] Instance fits_dec limit q : Decision (fits limit q).
Proof. unfold fits. apply _. Defined.

(** [q] is the longest end of [l] that fits. *)
Definition longest_fit (limit : Z) (l q : list (Z * Z * Z)) : Prop :=
  fits limit q /\ exists old, l = old ++ q /\
    forall a b, old = a ++ b -> b <> [] -> ~ fits limit (b ++ q).

Lemma too_many_spec m q :
  sums m q -> too_many m = true <-> ~ fits (max_recent_requests m) q.
Proof.
  intros (Hq & Hr & _). unfold too_many, fits. rewrite Hq, Hr, andb_true_iff, !Z.ltb_lt.
  unfold len. lia.
Qed.

Lemma drop_oldest_sums m x q :
  sums m (x :: q) -> sums (drop_oldest m) q /\ max_recent_requests (drop_oldest m) = max_recent_requests m.
Proof.
  intros (Hq & H1 & H2 & H3). unfold drop_oldest. rewrite Hq. destruct x as [[a b] c]. simpl in *.
  split; [|done]. unfold sums, entry_requests, entry_queries, entry_hits in *. simpl in *.
  split; [done|]. lia.
Qed.

(** Trimming keeps the longest end that fits. *)
Lemma trim_spec m old q fuel :
  sums m q -> (length q <= fuel)%nat ->
  (forall a b, old = a ++ b -> b <> [] -> ~ fits (max_recent_requests m) (b ++ q)) ->
  exists q', sums (trim fuel m) q' /\ max_recent_requests (trim fuel m) = max_recent_requests m /\
    longest_fit (max_recent_requests m) (old ++ q) q'.
Proof.
  revert m old q. induction fuel as [|fuel IH]; intros m old q Hs Hf Hold.
  { destruct q; [|simpl in Hf; lia]. exists []. split; [done|]. split; [done|].
    split; [left; simpl; lia|]. exists old. split; [done|]. exact Hold. }
  simpl. destruct (too_many m) eqn:E.
  - apply (too_many_spec m q Hs) in E. destruct q as [|x q]; [by destruct E; left; simpl; lia|].
    destruct (drop_oldest_sums m x q Hs) as [Hs' Hmax].
    destruct (IH (drop_oldest m) (old ++ [x]) q Hs') as (q' & Hs2 & Hm2 & Hl); [simpl in Hf; lia| |].
    + intros a b Hab Hb. rewrite Hmax. destruct b as [|y b _] using rev_ind; [done|].
      rewrite app_assoc in Hab. apply app_inj_tail in Hab as [Hab <-].
      rewrite <- app_assoc. destruct (decide (b = [])) as [->|Hb']; [exact E|]. by apply (Hold a b).
    + exists q'. rewrite Hmax in Hm2, Hl. rewrite <- app_assoc in Hl. done.
  - exists q. split; [done|]. split; [done|]. split; [|by exists old].
    apply dec_stable. intros Hn. apply (too_many_spec m q Hs) in Hn. congruence.
Qed.

(** Adding an entry at the end keeps what was dropped too long. *)
Lemma longest_fit_app limit l q x q' :
  Forall (fun x => 0 <= entry_requests x) (l ++ [x]) ->
  longest_fit limit l q -> longest_fit limit (q ++ [x]) q' -> longest_fit limit (l ++ [x]) q'.
Proof.
  intros Hpos (_ & old & -> & Hold) (Hfit & old' & Hq & Hold'). split; [done|].
  exists (old ++ old'). rewrite <- !app_assoc, Hq. split; [done|]. intros a b Hab Hb.
  apply app_eq_inv in Hab as [(k & -> & ->)|(k & -> & ->)].
  - destruct (decide (k = [])) as [->|Hk]; [by apply (Hold' [])|].
    rewrite <- app_assoc, <- Hq. intros [Hlen|Htot].
    + rewrite !length_app in Hlen. simpl in Hlen. destruct k; [done|]. simpl in Hlen.
      destruct q; [|simpl in Hlen; lia]. destruct (Hold a (p :: k) eq_refl Hk). left. simpl in *. lia.
    + destruct (Hold a k eq_refl Hk). right. rewrite !total_app in *.
      rewrite <- app_assoc, !Forall_app in Hpos. destruct Hpos as (_ & _ & Hx).
      pose proof (stats_total_nonneg _ Hx). lia.
  - by apply (Hold' k b).
Qed.

(** The entries observed since the last reset. *)
Fixpoint observed (l : list PrefixCacheStats.t) (h : list (Z * Z * Z)) : list (Z * Z * Z) :=
  match l with
  | [] => h
  | s :: l =>
      let h := if PrefixCacheStats.reset s then [] else h in
      observed l (if PrefixCacheStats.requests s =? 0 then h
                  else h ++ [(PrefixCacheStats.requests s, PrefixCacheStats.queries s, PrefixCacheStats.hits s)])
  end.

Definition nonneg_stats (s : PrefixCacheStats.t) : Prop := 0 <= PrefixCacheStats.requests s.

(** The metrics after the entries [h]. *)
Definition metrics_ok (m : t) (h : list (Z * Z * Z)) : Prop :=
  Forall (fun x => 0 <= entry_requests x) h /\
  exists q, sums m q /\ longest_fit (max_recent_requests m) h q.

Lemma observe_spec s m h :
  nonneg_stats s -> metrics_ok m h ->
  metrics_ok (observe s m) (observed [s] h) /\ max_recent_requests (observe s m) = max_recent_requests m.
Proof.
  intros Hs Hm. simpl. unfold observe.
  set (m1 := if PrefixCacheStats.reset s then reset m else m).
  set (h1 := if PrefixCacheStats.reset s then [] else h).
  assert (metrics_ok m1 h1 /\ max_recent_requests m1 = max_recent_requests m) as [Hm1 Hmax].
  { unfold m1, h1. destruct (PrefixCacheStats.reset s); [|done]. split; [|done]. split; [done|].
    exists []. split; [done|]. split; [left; simpl; lia|]. exists []. split; [done|].
    intros [] []; done. }
  destruct (PrefixCacheStats.requests s =? 0); [by split|].
  destruct Hm1 as (Hpos & q & (Hq & H1 & H2 & H3) & Hl). rewrite <- Hmax. simpl.
  set (x := (_, _, _)). set (m2 := Mk _ _ _ _ _).
  assert (sums m2 (q ++ [x])) as Hs2.
  { split; [simpl; by rewrite Hq|]. simpl. rewrite !total_app, H1, H2, H3.
    unfold entry_requests, entry_queries, entry_hits. simpl. lia. }
  destruct (trim_spec m2 [] (q ++ [x]) (length (query_queue m1 ++ [x])) Hs2) as (q' & Hs3 & Hm3 & Hl3).
  { by rewrite Hq. }
  { intros [] []; done. }
  assert (Forall (fun x => 0 <= entry_requests x) (h1 ++ [x])) as Hpos'.
  { apply Forall_app. split; [done|]. by repeat constructor. }
  split; [|exact Hm3]. split; [done|]. exists q'. split; [done|]. rewrite Hm3.
  by eapply longest_fit_app.
Qed.

Lemma observes_spec l m h :
  Forall nonneg_stats l -> metrics_ok m h -> metrics_ok (foldl (fun m s => observe s m) m l) (observed l h) /\
  max_recent_requests (foldl (fun m s => observe s m) m l) = max_recent_requests m.
Proof.
  intros Hl. revert m h. induction Hl as [|s l Hs Hl IH]; intros m h Hm; [done|]. simpl.
  destruct (observe_spec s m h Hs Hm) as [Hm1 E1]. destruct (IH _ _ Hm1) as [Hm2 E2].
  split; [exact Hm2|congruence].
Qed.

Lemma init_metrics_ok limit : metrics_ok (init limit) [].
Proof.
  split; [done|]. exists []. split; [done|]. split; [left; simpl; lia|]. exists []. split; [done|].
  intros [] []; done.
Qed.
End window.

(** Whatever statistics are observed, the queue of the metrics is the
    longest end of the non-empty statistics since the last reset that has at
    most [max_recent_requests] requests (or is a single entry), and the
    aggregated counters are its sums. *)
Theorem caching_metrics_window limit stats (Hpos : Forall nonneg_stats stats) :
  let m := foldl (fun m s => observe s m) (init limit) stats in
  longest_fit limit (observed stats []) (query_queue m) /\
  aggregated_requests m = total entry_requests (query_queue m) /\
  aggregated_query_total m = total entry_queries (query_queue m) /\
  aggregated_query_hit m = total entry_hits (query_queue m).
Proof.
  intros m. destruct (observes_spec stats (init limit) [] Hpos (init_metrics_ok limit))
    as [(_ & q & (Hq & Hs) & Hl) Hmax].
  fold m in Hq, Hs, Hl, Hmax. rewrite Hmax in Hl. by rewrite Hq.
Qed.

Lemma caching_metrics_window_witness :
  let stats := [PrefixCacheStats.record 9 4 false PrefixCacheStats.new;
                PrefixCacheStats.record 7 2 false (PrefixCacheStats.record 5 4 false PrefixCacheStats.new);
                PrefixCacheStats.new;
                PrefixCacheStats.record 3 1 false PrefixCacheStats.new] in
  let m := foldl (fun m s => observe s m) (init 3) stats in
  query_queue m = [(2, 12, 6); (1, 3, 1)] /\ aggregated_query_total m = 15.
Proof.
  cbv zeta. set (stats := [_; _; _; _]).
  assert (Forall nonneg_stats stats) as Hpos.
  { unfold stats, nonneg_stats. repeat (apply Forall_cons; split; [vm_compute; discriminate|]). apply Forall_nil. exact I. }
  destruct (caching_metrics_window 3 stats Hpos) as (_ & _ & Ht & _). split; [vm_compute; reflexivity|].
  rewrite Ht. vm_compute. reflexivity.
Defined.
