(* ===== verification/KVManager.v ===== *)
(** * The KV-cache manager

    Models vllm/v1/core/kv_cache_manager.py: [KVCacheBlocks], what the
    scheduler gets back from an allocation, and [KVCacheManager], the facade of
    the whole stack.  The manager's state is its statistics and the coordinator
    (managers and pool); the configuration is in [Coordinator.Conf].

    A [KVCacheBlocks] is read when it is returned: the lists of
    [get_blocks] are those of the request at that moment. *)

From S2P Require Import Prelude FreeQueue Request BlockHash BlockPool CacheSpec SingleType Ownership.
From S2P Require Import PrefixHit Coordinator Ledger Admission Stats.
From stdpp Require Import options.

(** ** [KVCacheBlocks] *)

(** [is_shared_empty]: [blocks] is the tuple of the manager's
    [empty_kv_cache_blocks] itself, which [allocate_slots] tests by identity. *)
Record KVCacheBlocks := MkBlocks { kv_blocks : list (list bref); is_shared_empty : bool }.

Definition kv_add (a b : KVCacheBlocks) : KVCacheBlocks :=
  MkBlocks (zip_with app (kv_blocks a) (kv_blocks b)) false.

Definition get_block_ids (h : store) (allow_none : bool) (b : KVCacheBlocks) : option (list (list Z)) :=
  if allow_none && forallb (fun group => len group =? 0) (kv_blocks b) then None
  else Some (map (fun group => map (Manager.id_of h) group) (kv_blocks b)).

Definition unhashed (h : store) (r : bref) : bool := is_none (hashof h r).

Definition get_unhashed_block_ids (h : store) (b : KVCacheBlocks) : exn + list Z :=
  match kv_blocks b with
  | [group] => inr (map (Manager.id_of h) (filter (fun r => unhashed h r = true) group))
  | _ => inl AssertionError
  end.

Definition get_unhashed_block_ids_all_groups (h : store) (b : KVCacheBlocks) : list (list Z) :=
  map (fun group => map (Manager.id_of h)
    (filter (fun r => (unhashed h r && negb (default false (nullp h r)))%bool = true) group)) (kv_blocks b).

Definition new_empty (b : KVCacheBlocks) : KVCacheBlocks :=
  MkBlocks (map (fun _ => []) (kv_blocks b)) false.

(** ** [KVCacheManager] *)

Module KVCacheManager.

Record t := Mk {
  max_model_len : Z;
  enable_caching : bool;
  use_eagle : bool;
  log_stats : bool;
  prefix_cache_stats : option PrefixCacheStats.t;
  conf : Coordinator.Conf;
  coordinator : Coordinator.state;
  num_kv_cache_groups : Z;
}.

Definition block_pool (s : t) : BlockPool.t := (coordinator s).2.
Definition managers (s : t) : list Manager.t := (coordinator s).1.

Definition set_coordinator (c : Coordinator.state) (s : t) : t :=
  Mk (max_model_len s) (enable_caching s) (use_eagle s) (log_stats s) (prefix_cache_stats s)
    (conf s) c (num_kv_cache_groups s).

Definition set_stats (p : option PrefixCacheStats.t) (s : t) : t :=
  Mk (max_model_len s) (enable_caching s) (use_eagle s) (log_stats s) p
    (conf s) (coordinator s) (num_kv_cache_groups s).

Definition on_coordinator {A} (m : M Coordinator.state A) : M t A :=
  zoom coordinator set_coordinator m.

(** [self.empty_kv_cache_blocks] *)
Definition empty_kv_cache_blocks (s : t) : KVCacheBlocks :=
  MkBlocks (py_repeat [] (num_kv_cache_groups s)) true.

Definition create_kv_cache_blocks (blocks : list (list bref)) (s : t) : KVCacheBlocks :=
  if existsb (fun l => negb (len l =? 0)) blocks then MkBlocks blocks false
  else empty_kv_cache_blocks s.

(** [new_computed_blocks.blocks], or the shared empty tuple for [None]. *)
Definition computed_or_empty (new_computed_blocks : option KVCacheBlocks) (s : t) : KVCacheBlocks :=
  default (empty_kv_cache_blocks s) new_computed_blocks.

Section with_env.
Context `{HashEnv}.

(** [__init__]; the metrics collector is not modelled. *)
Definition init (config : KVCacheConfig) (max_model_len hash_block_size : Z)
    (max_num_batched_tokens : option Z) (enable_caching use_eagle log_stats enable_kv_cache_events : bool)
    (dcp_world_size pcp_world_size : Z) : exn + t :=
  match Coordinator.get_kv_cache_coordinator config max_model_len
          (default max_model_len max_num_batched_tokens) use_eagle enable_caching
          enable_kv_cache_events dcp_world_size pcp_world_size hash_block_size with
  | inl e => inl e
  | inr (c, s) =>
      inr (Mk max_model_len enable_caching use_eagle log_stats
             (if log_stats then Some PrefixCacheStats.new else None) c s
             (len (kv_cache_groups config)))
  end.

Definition usage (s : t) : option (Z * Z) := BlockPool.get_usage (block_pool s).

Definition make_prefix_cache_stats : M t (option PrefixCacheStats.t) :=
  s <- get ;;
  if negb (log_stats s) then ret None
  else
    let stats := prefix_cache_stats s in
    modify (set_stats (Some PrefixCacheStats.new)) ;;;
    ret stats.

(** [None] stands for a prefix-cache search that does not end; see
    [get_computed_blocks_total]. *)
Definition get_computed_blocks (request : Request) (s : t) : option (outcome t (KVCacheBlocks * Z)) :=
  if (negb (enable_caching s) || skip_reading_prefix_cache request)%bool
  then Some (Ret (empty_kv_cache_blocks s, 0) s)
  else
    let max_cache_hit_length := num_tokens request - 1 in
    match Coordinator.find_longest_cache_hit (conf s) (block_hashes request) max_cache_hit_length
            (coordinator s) with
    | None => None
    | Some (inl e) => Some (Raise e s)
    | Some (inr (computed_blocks, num_new_computed_tokens)) =>
        Some ((
          (if log_stats s then
             stats <- of_option AssertionError (prefix_cache_stats s) ;;
             modify (set_stats (Some (PrefixCacheStats.record (num_tokens request)
                       num_new_computed_tokens (0 <? num_preemptions request) stats)))
           else ret tt) ;;;
          ret (create_kv_cache_blocks computed_blocks s, num_new_computed_tokens)) s)
    end.

Definition can_fit_full_sequence (request : Request) (num_new_computed_tokens : Z)
    (new_computed_blocks : option KVCacheBlocks)
    (num_external_computed_tokens num_encoder_tokens : Z) : M t bool :=
  s <- get ;;
  let new_computed_block_list := kv_blocks (computed_or_empty new_computed_blocks s) in
  let num_local_computed_tokens := num_computed_tokens request + num_new_computed_tokens in
  let total_computed_tokens :=
    Z.min (num_local_computed_tokens + num_external_computed_tokens) (max_model_len s) in
  let full_num_tokens := Z.min (num_tokens request) (max_model_len s) in
  num_blocks_to_allocate <- on_coordinator (Coordinator.get_num_blocks_to_allocate
    (request_id request) full_num_tokens new_computed_block_list num_encoder_tokens
    total_computed_tokens full_num_tokens true) ;;
  s <- get ;;
  ret (num_blocks_to_allocate <=? BlockPool.get_num_free_blocks (block_pool s)).

(** [None] for "cannot allocate"; the other component is the request, whose
    memo table of prompt-embedding hashes caching may extend. *)
Definition allocate_slots (request : Request) (num_new_tokens num_new_computed_tokens : Z)
    (new_computed_blocks : option KVCacheBlocks)
    (num_lookahead_tokens num_external_computed_tokens : Z) (delay_cache_blocks : bool)
    (num_encoder_tokens : Z) : M t (option KVCacheBlocks * Request) :=
  if (num_new_tokens =? 0) && (num_external_computed_tokens =? 0) then raise ValueError
  else
    s <- get ;;
    let new_computed_block_list := computed_or_empty new_computed_blocks s in
    let num_local_computed_tokens := num_computed_tokens request + num_new_computed_tokens in
    let total_computed_tokens :=
      Z.min (num_local_computed_tokens + num_external_computed_tokens) (max_model_len s) in
    let num_tokens_main_model := total_computed_tokens + num_new_tokens in
    let num_tokens_need_slot :=
      Z.min (num_tokens_main_model + num_lookahead_tokens) (max_model_len s) in
    on_coordinator (Coordinator.remove_skipped_blocks (request_id request) total_computed_tokens) ;;;
    num_blocks_to_allocate <- on_coordinator (Coordinator.get_num_blocks_to_allocate
      (request_id request) num_tokens_need_slot (kv_blocks new_computed_block_list)
      num_encoder_tokens (num_local_computed_tokens + num_external_computed_tokens)
      num_tokens_main_model false) ;;
    s <- get ;;
    if BlockPool.get_num_free_blocks (block_pool s) <? num_blocks_to_allocate then ret (None, request)
    else
      (if negb (is_shared_empty new_computed_block_list) || (0 <? num_external_computed_tokens)
       then on_coordinator (Coordinator.allocate_new_computed_blocks (request_id request)
              (kv_blocks new_computed_block_list) num_local_computed_tokens
              num_external_computed_tokens)
       else ret tt) ;;;
      new_blocks <- on_coordinator (Coordinator.allocate_new_blocks (request_id request)
        num_tokens_need_slot num_tokens_main_model num_encoder_tokens) ;;
      s <- get ;;
      if (negb (enable_caching s) || delay_cache_blocks)%bool
      then ret (Some (create_kv_cache_blocks new_blocks s), request)
      else
        let num_tokens_to_cache :=
          Z.min (total_computed_tokens + num_new_tokens) (num_tokens request) in
        request <- on_coordinator (Coordinator.cache_blocks request num_tokens_to_cache) ;;
        s <- get ;;
        ret (Some (create_kv_cache_blocks new_blocks s), request).

Definition free (request : Request) : M t unit :=
  on_coordinator (Coordinator.free (request_id request)).

Definition remove_skipped_blocks (request_id : string) (total_computed_tokens : Z) : M t unit :=
  on_coordinator (Coordinator.remove_skipped_blocks request_id total_computed_tokens).

Definition evict_blocks (block_ids : list Z) : M t unit :=
  on_coordinator (Coordinator.on_pool (BlockPool.evict_blocks block_ids)).

Definition reset_prefix_cache : M t bool :=
  ok <- on_coordinator (Coordinator.on_pool BlockPool.reset_prefix_cache) ;;
  if negb ok then ret false
  else
    s <- get ;;
    (if log_stats s then
       stats <- of_option AssertionError (prefix_cache_stats s) ;;
       modify (set_stats (Some (PrefixCacheStats.set_reset stats)))
     else ret tt) ;;;
    ret true.

Definition get_num_common_prefix_blocks (running_request_id : string) : M t (list Z) :=
  s <- get ;;
  on_coordinator (Coordinator.get_num_common_prefix_blocks (conf s) running_request_id).

Definition take_events : M t (list KVCacheEvent) :=
  on_coordinator (Coordinator.on_pool BlockPool.take_events).

Definition get_blocks (request_id : string) : M t KVCacheBlocks :=
  blocks <- on_coordinator (Coordinator.get_blocks request_id) ;;
  s <- get ;;
  ret (create_kv_cache_blocks blocks s).

(** [get_block_ids] of the manager *)
Definition request_block_ids (request_id : string) : M t (list (list Z)) :=
  blocks <- get_blocks request_id ;;
  s <- get ;;
  of_option AttributeError (get_block_ids (BlockPool.heap (block_pool s)) false blocks).

Definition cache_blocks (request : Request) (num_computed_tokens : Z) : M t Request :=
  s <- get ;;
  if enable_caching s then on_coordinator (Coordinator.cache_blocks request num_computed_tokens)
  else ret request.

(** [take_new_block_ids], over all managers. *)
Definition take_new_block_ids : M t (list Z) :=
  on_coordinator (Coordinator.each (fun _ ids =>
    l <- Manager.take_new_block_ids ;; ret (ids ++ l)) []).

Definition new_step_starts : M t unit := on_coordinator Coordinator.new_step_starts.
End with_env.
End KVCacheManager.

Import KVCacheManager.

(** ** Every call keeps the ledger *)

Section trace.
Context `{HashEnv}.
Variable n : nat.
Variable reserved : list bref.
Implicit Types (s : KVCacheManager.t).

(** The manager's coordinator is [coord_ok]; its configuration never changes. *)
Definition km_ok s : Prop := coord_ok n reserved (coordinator s).

Definition km_kept s s' : Prop :=
  km_ok s' /\ config <$> managers s' = config <$> managers s /\ conf s' = conf s /\
  max_model_len s' = max_model_len s /\ enable_caching s' = enable_caching s /\
  num_kv_cache_groups s' = num_kv_cache_groups s /\
  (log_stats s' = log_stats s /\ (is_Some (prefix_cache_stats s) -> is_Some (prefix_cache_stats s'))).

Lemma km_kept_refl s : km_ok s -> km_kept s s.
Proof using. unfold km_kept. auto 10. Qed.

Lemma km_kept_trans s1 s2 s3 : km_kept s1 s2 -> km_kept s2 s3 -> km_kept s1 s3.
Proof using.
  unfold km_kept. intros (_ & E1 & E2 & E3 & E4 & E5 & E6 & E7) (? & F1 & F2 & F3 & F4 & F5 & F6 & F7).
  split; [done|]. rewrite F1, F2, F3, F4, F5, F6. auto 10.
Qed.

Lemma km_kept_set_stats s p : km_ok s -> is_Some p -> km_kept s (set_stats p s).
Proof using. unfold km_kept. auto 10. Qed.

Lemma on_coordinator_kept {A} (m : M Coordinator.state A) s :
  leaves m (coordinator s) (coord_kept n reserved (coordinator s)) ->
  leaves (on_coordinator m) s (km_kept s).
Proof using.
  unfold leaves, on_coordinator, zoom, km_kept, coord_kept. destruct (m (coordinator s)); intros [? ?]; auto 10.
Qed.

Lemma on_coordinator_run {A} (m : M Coordinator.state A) s a cs :
  m (coordinator s) = Ret a cs -> on_coordinator m s = Ret a (set_coordinator cs s).
Proof using. unfold on_coordinator, zoom. by intros ->. Qed.

(** A sequence of two calls. *)
Lemma km_bind {A B} (m : M t A) (k : A -> M t B) s :
  leaves m s (km_kept s) -> (forall a s1, km_kept s s1 -> leaves (k a) s1 (km_kept s1)) ->
  leaves (bind m k) s (km_kept s).
Proof using.
  intros Hm Hk. apply leaves_bind; [exact Hm|]. intros a s1 H1.
  eapply leaves_mono; [by apply Hk|]. intros s2. by apply km_kept_trans.
Qed.

Lemma km_get {B} (k : t -> M t B) s :
  leaves (k s) s (km_kept s) -> leaves (bind get k) s (km_kept s).
Proof using. done. Qed.

Lemma km_ret {A} (a : A) s : km_ok s -> leaves (ret a) s (km_kept s).
Proof using. intros Hs. unfold leaves. simpl. by apply km_kept_refl. Qed.

(** The computed blocks a caller hands over: in each group they are cached
    blocks without repetition whose tokens are among the announced ones. *)
Definition blocks_ok s (request : Request) (num_new_computed ext : Z) (b : option KVCacheBlocks) : Prop :=
  0 <= num_computed_tokens request + num_new_computed /\ 0 <= ext /\
  forall blocks, b = Some blocks ->
    all_computed_ok n reserved (managers s) (kv_blocks blocks) (num_computed_tokens request + num_new_computed) ext.

Lemma all_computed_config ms ms' new local ext :
  config <$> ms' = config <$> ms -> all_computed_ok n reserved ms new local ext ->
  all_computed_ok n reserved ms' new local ext.
Proof using.
  intros Heq Hok i m' blocks Hm' Hb Hcls.
  pose proof (f_equal (fun l => l !! i) Heq) as Hi. simpl in Hi. rewrite !list_lookup_fmap, Hm' in Hi.
  destruct (ms !! i) as [m|] eqn:Hm; [|done]. simpl in Hi. injection Hi as Hi.
  assert (config m' = config m) as (E1 & _ & E2 & E3 & _)%config_eq by (unfold config; congruence).
  rewrite E1 in Hcls. specialize (Hok i m blocks Hm Hb Hcls). unfold computed_ok in *. by rewrite E2, E3.
Qed.

Lemma empty_computed_ok ms k local ext :
  0 <= local -> 0 <= ext -> all_computed_ok n reserved ms (py_repeat [] k) local ext.
Proof using.
  intros Hl He i m blocks _ Hb _. rewrite py_index_nonneg in Hb by lia.
  apply lookup_replicate in Hb as [-> _]. split; [done|]. split; [apply NoDup_nil_2|].
  split; [done|]. change (len []) with 0. lia.
Qed.

Lemma allocate_slots_kept request new_tokens new_computed blocks lookahead ext delay enc s :
  km_ok s -> 0 <= max_model_len s -> 0 <= new_tokens -> blocks_ok s request new_computed ext blocks ->
  leaves (allocate_slots request new_tokens new_computed blocks lookahead ext delay enc) s (km_kept s).
Proof using.
  intros Hs Hml Hnt (Hl & He & Hb). unfold allocate_slots.
  destruct (_ && _)%bool; [by apply leaves_raise, km_kept_refl|]. apply km_get. cbv zeta.
  assert (all_computed_ok n reserved (managers s) (kv_blocks (computed_or_empty blocks s))
    (num_computed_tokens request + new_computed) ext) as Hc.
  { unfold computed_or_empty. destruct blocks as [b|]; [by apply Hb|]. by apply empty_computed_ok. }
  set (cb := computed_or_empty blocks s) in *. set (total := Z.min _ _).
  assert (0 <= total + new_tokens) as Hmain by lia. clearbody total.
  apply km_bind; [by apply on_coordinator_kept, coord_remove_skipped_kept|]. intros [] s1 Hk1.
  apply km_bind; [by apply on_coordinator_kept, coord_get_num_blocks_kept, Hk1|]. intros k s2 Hk2.
  apply km_get. destruct (_ <? k); [by apply km_ret, Hk2|].
  apply km_bind.
  { destruct (_ || _)%bool; [|by apply km_ret, Hk2].
    apply on_coordinator_kept, coord_computed_kept; [apply Hk2|].
    eapply all_computed_config; [|exact Hc]. etransitivity; [apply Hk2|apply Hk1]. }
  intros [] s3 Hk3.
  apply km_bind; [by apply on_coordinator_kept, coord_allocate_kept; [apply Hk3|]|]. intros new s4 Hk4.
  apply km_get. destruct (_ || _)%bool; [by apply km_ret, Hk4|].
  apply km_bind; [by apply on_coordinator_kept, coord_cache_kept, Hk4|]. intros r s5 Hk5.
  apply km_get. by apply km_ret, Hk5.
Qed.

Lemma can_fit_kept request new_computed blocks ext enc s :
  km_ok s -> leaves (can_fit_full_sequence request new_computed blocks ext enc) s (km_kept s).
Proof using.
  intros Hs. unfold can_fit_full_sequence. apply km_get. cbv zeta.
  apply km_bind; [by apply on_coordinator_kept, coord_get_num_blocks_kept|]. intros k s1 Hk.
  apply km_get. by apply km_ret, Hk.
Qed.

Lemma get_computed_kept request s o :
  km_ok s -> get_computed_blocks request s = Some o ->
  match o with Ret _ s' | Raise _ s' => km_kept s s' end.
Proof using.
  intros Hs. unfold get_computed_blocks. pose proof (km_kept_refl s Hs) as Hr.
  destruct (_ || _)%bool; [by intros [= <-]|].
  destruct (Coordinator.find_longest_cache_hit _ _ _ _) as [[e|[cols k]]|]; intros [= <-]; [done|].
  unfold bind, of_option, modify, ret. destruct (log_stats s); [|done].
  destruct (prefix_cache_stats s) as [st|] eqn:E; simpl; [|done]. by apply km_kept_set_stats.
Qed.

Lemma evict_kept ids s :
  km_ok s -> Forall (fun i => 0 <= i < Z.of_nat n) ids -> leaves (evict_blocks ids) s (km_kept s).
Proof using.
  intros Hs Hids. apply on_coordinator_kept, coord_pool_kept; [done|]. intros free held Hp.
  apply succeeds_leaves. eapply succeeds_mono; [by eapply evict_blocks_spec|].
  intros _ p [Hp' _]. by exists free.
Qed.

Lemma reset_kept s : km_ok s -> leaves reset_prefix_cache s (km_kept s).
Proof using.
  intros Hs. unfold reset_prefix_cache. apply km_bind.
  - apply on_coordinator_kept, coord_pool_kept; [done|]. intros free held Hp.
    apply succeeds_leaves. eapply succeeds_mono; [by eapply reset_prefix_cache_spec|].
    intros b p [Hp' _]. by exists free.
  - intros ok s1 Hk. destruct (negb ok); [by apply km_ret, Hk|]. apply km_get.
    apply km_bind; [|by intros _ s2 Hk2; apply km_ret, Hk2].
    destruct (log_stats s1); [|by apply km_ret, Hk].
    destruct (prefix_cache_stats s1) as [st|].
    + by apply km_kept_set_stats; [apply Hk|].
    + by apply km_kept_refl, Hk.
Qed.

Lemma take_events_kept s : km_ok s -> leaves take_events s (km_kept s).
Proof using.
  intros Hs. apply on_coordinator_kept, coord_pool_kept; [done|]. intros free held Hp.
  unfold leaves, BlockPool.take_events, bind, get. destruct (negb _); simpl; [by exists free|].
  exists free. destruct Hp as [Hc Hr Hf Hh Hres Hnd]. constructor; try done. by apply core_set_events.
Qed.

Lemma get_blocks_kept rid s : km_ok s -> leaves (get_blocks rid) s (km_kept s).
Proof using.
  intros Hs. unfold get_blocks. apply km_bind.
  - by apply on_coordinator_kept.
  - intros bs s1 Hk. apply km_get. by apply km_ret, Hk.
Qed.

Lemma take_new_block_ids_all_kept s : km_ok s -> leaves take_new_block_ids s (km_kept s).
Proof using.
  intros Hs. apply on_coordinator_kept. apply (each_kept _ _ _ (fun _ _ => True)); [|done|done].
  intros j a others m p _ Ho. apply leaves_bind; [by apply take_new_block_ids_kept|]. by intros; lstep.
Qed.

Lemma make_stats_kept s : km_ok s -> leaves make_prefix_cache_stats s (km_kept s).
Proof using.
  intros Hs. unfold make_prefix_cache_stats. apply km_get.
  destruct (negb _); [by apply km_ret|].
  unfold leaves. simpl. by apply km_kept_set_stats.
Qed.

(** ** The scheduler's calls *)

(** A call of one of the manager's methods, whether it returns or raises. *)
Inductive km_step (s : t) : t -> Prop :=
  | KMComputed request o s' :
      get_computed_blocks request s = Some o ->
      match o with Ret _ s1 | Raise _ s1 => s1 = s' end -> km_step s s'
  | KMCanFit request new_computed blocks ext enc s' :
      leaves (can_fit_full_sequence request new_computed blocks ext enc) s (eq s') -> km_step s s'
  | KMAllocate request new_tokens new_computed blocks lookahead ext delay enc s' :
      0 <= new_tokens -> blocks_ok s request new_computed ext blocks ->
      leaves (allocate_slots request new_tokens new_computed blocks lookahead ext delay enc) s (eq s') ->
      km_step s s'
  | KMFree request s' : leaves (free request) s (eq s') -> km_step s s'
  | KMRemoveSkipped rid total s' : leaves (remove_skipped_blocks rid total) s (eq s') -> km_step s s'
  | KMEvict ids s' :
      Forall (fun i => 0 <= i < Z.of_nat n) ids -> leaves (evict_blocks ids) s (eq s') -> km_step s s'
  | KMReset s' : leaves reset_prefix_cache s (eq s') -> km_step s s'
  | KMCommonPrefix rid s' : leaves (get_num_common_prefix_blocks rid) s (eq s') -> km_step s s'
  | KMTakeEvents s' : leaves take_events s (eq s') -> km_step s s'
  | KMGetBlocks rid s' : leaves (get_blocks rid) s (eq s') -> km_step s s'
  | KMCache request k s' : leaves (cache_blocks request k) s (eq s') -> km_step s s'
  | KMTakeNewIds s' : leaves take_new_block_ids s (eq s') -> km_step s s'
  | KMNewStep s' : leaves new_step_starts s (eq s') -> km_step s s'
  | KMStats s' : leaves make_prefix_cache_stats s (eq s') -> km_step s s'.

Lemma leaves_eq {A} (m : M t A) s s' (P : t -> Prop) : leaves m s (eq s') -> leaves m s P -> P s'.
Proof using. unfold leaves. destruct (m s); by intros <-. Qed.

Lemma km_step_kept s s' : km_ok s -> 0 <= max_model_len s -> km_step s s' -> km_kept s s'.
Proof using.
  intros Hs Hml Hstep. destruct Hstep; try (eapply leaves_eq; [eassumption|]).
  - pose proof (get_computed_kept _ _ _ Hs H0). by destruct o; subst.
  - by apply can_fit_kept.
  - by apply allocate_slots_kept.
  - by apply on_coordinator_kept, coord_free_kept.
  - by apply on_coordinator_kept, coord_remove_skipped_kept.
  - by apply evict_kept.
  - by apply reset_kept.
  - apply km_get. by apply on_coordinator_kept, coord_common_prefix_kept.
  - by apply take_events_kept.
  - by apply get_blocks_kept.
  - unfold cache_blocks. apply km_get. destruct (enable_caching s); [|by apply km_ret].
    by apply on_coordinator_kept, coord_cache_kept.
  - by apply take_new_block_ids_all_kept.
  - by apply on_coordinator_kept, coord_new_step_kept.
  - by apply make_stats_kept.
Qed.

Lemma km_trace_kept s s' : km_ok s -> 0 <= max_model_len s -> rtc km_step s s' -> km_kept s s'.
Proof using.
  intros Hs Hml Hr. induction Hr as [s|s1 s2 s3 Hstep _ IH]; [by apply km_kept_refl|].
  pose proof (km_step_kept _ _ Hs Hml Hstep) as Hk. eapply km_kept_trans; [exact Hk|].
  apply IH; [apply Hk|]. destruct Hk as (_ & _ & _ & -> & _). done.
Qed.
End trace.

Lemma km_init_ok `{HashEnv} config ml hs mb ec eagle log ev dcp pcp s :
  init config ml hs mb ec eagle log ev dcp pcp = inr s -> 0 < num_blocks config ->
  Forall (fun g => group_params_ok dcp pcp (kv_cache_spec g)) (kv_cache_groups config) ->
  km_ok (Z.to_nat (num_blocks config)) (all_sinks (managers s)) s /\ all_held (managers s) = [] /\
  length (managers s) = length (kv_cache_groups config) /\
  max_model_len s = ml /\ enable_caching s = ec /\ log_stats s = log /\
  prefix_cache_stats s = (if log then Some PrefixCacheStats.new else None) /\
  num_kv_cache_groups s = len (kv_cache_groups config).
Proof.
  intros Hinit Hnum Hg. unfold init, Coordinator.get_kv_cache_coordinator in Hinit.
  destruct (Coordinator.init _ _ _ _ _ _ _ _ _ _) as [e|[c cs]] eqn:E; [discriminate|].
  injection Hinit as <-. destruct (coord_init_ok _ _ _ _ _ _ _ _ _ _ _ _ E Hnum Hg) as (_ & _ & Hlen & Hok & Hheld).
  done.
Qed.

(** ** Allocation succeeds when the check passes *)

Section allocation.
Context `{HashEnv}.
Variable n : nat.
Variable reserved : list bref.

(** The request has room for [num_tokens] tokens in every group and the lists
    of the other requests are as before. *)
Definition room (request_id : string) (num_tokens : Z) (ms ms' : list Manager.t) : Prop :=
  forall k m m', ms !! k = Some m -> ms' !! k = Some m' ->
    num_tokens <= Manager.m_block_size m * len (blocks_of request_id m') /\
    forall rid, rid <> request_id -> blocks_of rid m' = blocks_of rid m.

(** The other requests are as before and no list of the request is longer. *)
Definition only_recycled (request_id : string) (ms ms' : list Manager.t) : Prop :=
  length ms' = length ms /\
  forall k m m', ms !! k = Some m -> ms' !! k = Some m' ->
    len (blocks_of request_id m') = len (blocks_of request_id m) /\
    forall rid, rid <> request_id -> blocks_of rid m' = blocks_of rid m.

Lemma lookup_of_length {A} (l l' : list A) j x :
  l !! j = Some x -> length l = length l' -> exists y, l' !! j = Some y.
Proof using. intros Hj Hl. apply lookup_lt_is_Some. rewrite <- Hl. by eapply lookup_lt_Some. Qed.

Lemma tables_blocks m m' rid :
  Manager.req_to_blocks m' !! rid = Manager.req_to_blocks m !! rid -> blocks_of rid m' = blocks_of rid m.
Proof using. unfold blocks_of. by intros ->. Qed.

Lemma recycled_only request_id ms ms' :
  length ms' = length ms -> (forall k m m', ms !! k = Some m -> ms' !! k = Some m' -> recycled request_id m m') ->
  only_recycled request_id ms ms'.
Proof using.
  intros Hl Hr. split; [done|]. intros k m m' Hk Hk'. destruct (Hr k m m' Hk Hk') as (_ & _ & Hlen & Ho).
  split; [done|]. intros rid Hne. by apply tables_blocks, Ho.
Qed.

(** Recycling keeps what a manager needs for the admission. *)
Lemma recycled_admissible request_id new local i m m' :
  recycled request_id m m' -> admissible n reserved request_id local new i m ->
  admissible n reserved request_id local new i m'.
Proof using.
  intros (Hc & Hn & Hl & _) [Hp Hf Hco]. constructor.
  - by eapply config_plain.
  - unfold request_fresh in *. rewrite Hn. destruct (Manager.num_cached_block m !! request_id); [done|].
    rewrite Hf in Hl. by apply len_zero_nil.
  - unfold computed_ok in *. apply config_eq in Hc as (_ & _ & -> & -> & _). done.
Qed.

Definition call_computed (b : KVCacheBlocks) : bool := negb (is_shared_empty b).

(** The stage after the check: taking over and allocating. *)
Lemma allocation_stage request_id num_tokens main enc local b k cs s1 :
  coord_ok n reserved cs -> 0 <= main -> length (kv_blocks b) = length cs.1 ->
  (forall j m, cs.1 !! j = Some m -> admissible n reserved request_id local (kv_blocks b) (Z.of_nat j) m) ->
  (call_computed b = false -> forall j m, cs.1 !! j = Some m ->
     blocks_at (kv_blocks b) (Z.of_nat j) = [] /\
     (Manager.num_cached_block m !! request_id = None -> local = 0)) ->
  Coordinator.get_num_blocks_to_allocate request_id num_tokens (kv_blocks b) enc local main false cs = Ret k s1 ->
  k <= BlockPool.get_num_free_blocks cs.2 ->
  s1 = cs /\ exists blocks s2,
    ((if call_computed b then Coordinator.allocate_new_computed_blocks request_id (kv_blocks b) local 0
      else ret tt) ;;; Coordinator.allocate_new_blocks request_id num_tokens main enc) cs = Ret blocks s2 /\
    coord_ok n reserved s2 /\ length s2.1 = length cs.1 /\ room request_id num_tokens cs.1 s2.1.
Proof using.
  intros [[free Hp] Hms] Hmain Hgroups Had Hno Hget Hk.
  assert (BlockPool.get_num_free_blocks cs.2 = len free) as Hfree.
  { apply (rep_num _ _ (pc_queue _ _ _ (pr_core _ _ _ _ _ Hp))). }
  rewrite Hfree in Hk. pose (new := kv_blocks b). fold new in Hgroups, Had, Hno, Hget |- *.
  unfold Coordinator.get_num_blocks_to_allocate, Coordinator.each in Hget.
  apply (predict_all_loop n reserved request_id num_tokens main enc local new (BlockPool.heap cs.2) cs.1 0 0
    cs.2 free [] k s1 eq_refl Hp Hms) in Hget as (Hs & _ & Hsum); [|intros j m Hj; by apply Had|done].
  rewrite <- surjective_pairing in Hs. split; [done|]. destruct Hsum as [Hlt|Hsum]; [lia|].
  set (needs := costs (need_at request_id num_tokens local new) 0 cs.1) in *.
  set (evs := costs (evict_at request_id local new (BlockPool.heap cs.2)) 0 cs.1) in *.
  assert (Forall (fun k => 0 <= k) needs) as Hneeds.
  { apply Forall_lookup. intros j c Hj. assert (is_Some (cs.1 !! j)) as [m Hm].
    { apply lookup_lt_is_Some. apply lookup_lt_Some in Hj. unfold needs in Hj. by rewrite costs_length in Hj. }
    unfold needs in Hj. rewrite (costs_lookup _ 0 _ _ _ Hm) in Hj. injection Hj as <-.
    unfold need_at, need. lia. }
  assert (0 <= sum evs) as Hevs.
  { apply sum_nonneg, Forall_lookup. intros j c Hj. assert (is_Some (cs.1 !! j)) as [m Hm].
    { apply lookup_lt_is_Some. apply lookup_lt_Some in Hj. unfold evs in Hj. by rewrite costs_length in Hj. }
    unfold evs in Hj. rewrite (costs_lookup _ 0 _ _ _ Hm) in Hj. injection Hj as <-. apply len_nonneg. }
  assert (forall ms1 p1 free1, pool_rep n p1 free1 (all_held ms1 ++ []) reserved -> Forall (manager_ok n) ms1 ->
    len free - sum evs <= len free1 -> length ms1 = length cs.1 ->
    (forall j m m1, cs.1 !! j = Some m -> ms1 !! j = Some m1 -> config m1 = config m /\
       len (blocks_of request_id m1) = taken_len m request_id (blocks_at new (Z.of_nat j)) local /\
       forall rid, rid <> request_id -> Manager.req_to_blocks m1 !! rid = Manager.req_to_blocks m !! rid) ->
    exists blocks s2, Coordinator.allocate_new_blocks request_id num_tokens main enc (ms1, p1) = Ret blocks s2 /\
      coord_ok n reserved s2 /\ length s2.1 = length cs.1 /\ room request_id num_tokens cs.1 s2.1) as Halloc.
  { intros ms1 p1 free1 Hp1 Hms1 Hf1 Hl1 Hrel.
    assert (forall j m1, ms1 !! j = Some m1 -> exists m, cs.1 !! j = Some m) as Hback.
    { intros j m1 Hj. apply lookup_lt_is_Some. rewrite <- Hl1. by eapply lookup_lt_Some. }
    destruct (allocate_all n reserved request_id num_tokens main enc (ms1, p1) free1 needs Hp1 Hms1)
      as (blocks & ms2 & p2 & free2 & Hrun & Hp2 & Hms2 & Hl2 & Hrel2); [|done|done| |lia|].
    - apply Forall_lookup. intros j m1 Hj. destruct (Hback _ _ Hj) as [m Hm].
      destruct (Hrel _ _ _ Hm Hj) as (Hc & _). eapply config_plain; [exact Hc|apply (Had j m Hm)].
    - intros j m1 Hj. cbn [fst] in Hj. destruct (Hback _ _ Hj) as [m Hm].
      destruct (Hrel _ _ _ Hm Hj) as (Hc & Hl & _). unfold needs. rewrite (costs_lookup _ 0 _ _ _ Hm).
      unfold need_at, need. rewrite (config_tokens _ _ _ Hc), Hl.
      apply config_eq in Hc as (_ & _ & -> & _). done.
    - exists blocks, (ms2, p2). split; [exact Hrun|]. split; [split; [by exists free2|done]|].
      split; [simpl in *; congruence|]. intros j m m2 Hj Hj2. cbn [fst] in *.
      destruct (ms1 !! j) as [m1|] eqn:Hj1.
      2: { apply lookup_ge_None in Hj1. apply lookup_lt_Some in Hj. lia. }
      destruct (Hrel _ _ _ Hj Hj1) as (Hc & _ & Ho1). destruct (Hrel2 _ _ _ Hj1 Hj2) as (_ & Hr & _ & Ho2).
      apply config_eq in Hc as (_ & _ & <- & _). split; [exact Hr|].
      intros rid Hne. apply tables_blocks. by rewrite Ho2, Ho1. }
  assert (forall j m, cs.1 !! j = Some m -> 0 <= taken_len m request_id (blocks_at new (Z.of_nat j)) local) as Htl.
  { intros j m _. unfold taken_len. destruct (Manager.num_cached_block m !! request_id); [apply len_nonneg|].
    pose proof (len_nonneg (blocks_at new (Z.of_nat j))). lia. }
  destruct (call_computed b) eqn:Ecall.
  - destruct (take_over_all n reserved request_id local new cs free Hp Hms) as
      (ms1 & p1 & free1 & Hrun & Hp1 & Hms1 & Hf1 & Hl1 & Hrel1); [intros j m Hj; by apply Had| |].
    { intros j m Hj. rewrite py_index_nonneg, Nat2Z.id by lia. apply lookup_lt_is_Some.
      rewrite Hgroups. by eapply lookup_lt_Some. }
    rewrite (bind_Ret _ _ _ _ _ Hrun). apply (Halloc _ _ _ Hp1 Hms1 Hf1 Hl1).
    intros j m m1 Hj Hj1. destruct (Hrel1 _ _ _ Hj Hj1) as (Hc & Hl & Ho). split; [done|]. split; [|done].
    rewrite Hl. specialize (Htl _ _ Hj). lia.
  - specialize (Hno eq_refl). rewrite (bind_Ret _ _ _ tt cs) by done. rewrite (surjective_pairing cs).
    apply (Halloc _ _ _ Hp Hms); [lia|done|].
    intros j m m1 Hj Hj1. rewrite Hj in Hj1. injection Hj1 as <-. split; [done|]. split; [|done].
    destruct (Hno _ _ Hj) as [Hnil H0]. pose proof (ad_fresh _ _ _ _ _ _ _ (Had _ _ Hj)) as Hfr.
    unfold taken_len, request_fresh in *. rewrite Hnil. change (len (@nil bref)) with 0.
    destruct (Manager.num_cached_block m !! request_id); [done|]. rewrite Hfr, (H0 eq_refl).
    change (len (@nil bref)) with 0.
    rewrite Forall_forall in Hms. pose proof (Hms m ltac:(by eapply list_elem_of_lookup_2)) as Hm.
    pose proof (skipped_le m 0 (mk_spec _ _ Hm) ltac:(lia)) as Hsk. pose proof (mk_bs _ _ Hm) as Hbs.
    pose proof (Z.div_le_mono _ 0 _ Hbs Hsk) as Hd. rewrite Z.div_0_l in Hd by lia. lia.
Qed.
(** Recycling and the check: neither fails, and the check changes nothing. *)
Lemma check_stage request_id num_tokens main enc local total new (cs : Coordinator.state) :
  coord_ok n reserved cs -> Forall plain cs.1 -> length new = length cs.1 ->
  (forall j m, cs.1 !! j = Some m -> admissible n reserved request_id local new (Z.of_nat j) m) ->
  exists cs1 k, Coordinator.remove_skipped_blocks request_id total cs = Ret tt cs1 /\
    Coordinator.get_num_blocks_to_allocate request_id num_tokens new enc local main false cs1 = Ret k cs1 /\
    coord_ok n reserved cs1 /\ length cs1.1 = length cs.1 /\
    (forall j m m', cs.1 !! j = Some m -> cs1.1 !! j = Some m' -> recycled request_id m m') /\
    (forall j m, cs1.1 !! j = Some m -> admissible n reserved request_id local new (Z.of_nat j) m).
Proof using.
  intros [[free Hp] Hms] Hpl Hgroups Had.
  destruct (recycle_all n reserved cs free request_id total Hp Hms Hpl)
    as (ms1 & p1 & free1 & Hrun1 & Hp1 & Hms1 & Hl1 & Hrec).
  assert (forall j m, ms1 !! j = Some m -> admissible n reserved request_id local new (Z.of_nat j) m) as Had1.
  { intros j m1 Hj. destruct (lookup_of_length _ _ _ _ Hj Hl1) as [m Hm].
    eapply recycled_admissible; [by eapply Hrec|by apply Had]. }
  destruct (predict_all_runs n reserved request_id num_tokens main enc local new ms1 0 0 p1)
    as (k & s2 & Hget); [intros j m Hj; by apply (Had1 j)| |].
  { intros j m Hj. rewrite Z.add_0_l, py_index_nonneg, Nat2Z.id by lia. apply lookup_lt_is_Some.
    rewrite Hgroups, <- Hl1. by eapply lookup_lt_Some. }
  assert (s2 = (ms1, p1)) as ->.
  { eapply (predict_all_loop n reserved request_id num_tokens main enc local new
      (BlockPool.heap p1) ms1 0 0 p1 free1 [] k) in Hget as [? _]; [done|done|exact Hp1|done| |lia].
    intros j m Hj. by apply (Had1 j). }
  exists (ms1, p1), k. split; [done|]. split; [exact Hget|]. split; [split; [by exists free1|done]|]. done.
Qed.

(** Recycling first does not matter for the room. *)
Lemma room_recycled request_id num_tokens ms ms1 ms2 :
  length ms1 = length ms -> (forall k m m', ms !! k = Some m -> ms1 !! k = Some m' -> recycled request_id m m') ->
  room request_id num_tokens ms1 ms2 -> room request_id num_tokens ms ms2.
Proof using.
  intros Hl1 Hrec Hroom j m m2 Hj Hj2. destruct (lookup_of_length _ _ _ _ Hj (eq_sym Hl1)) as [m1 Hj1].
  destruct (Hroom _ _ _ Hj1 Hj2) as [Hr Ho]. destruct (Hrec _ _ _ Hj Hj1) as (Hc & _ & _ & Ho1).
  apply config_eq in Hc as (_ & _ & <- & _). split; [done|].
  intros r Hne. rewrite (Ho r Hne). by apply tables_blocks, Ho1.
Qed.

(** Caching keeps the room, even if it raises. *)
Lemma cache_stage request_id num_tokens ms request k (cs : Coordinator.state) :
  coord_ok n reserved cs -> room request_id num_tokens ms cs.1 ->
  leaves (Coordinator.cache_blocks request k) cs (fun cs' =>
    coord_ok n reserved cs' /\ room request_id num_tokens ms cs'.1).
Proof using.
  intros Hok Hroom. eapply leaves_mono.
  { apply leaves_and; [by apply (coord_cache_kept n reserved)|apply cache_all_tables]. }
  intros cs4 [[Hok4 _] Hsame]. split; [done|]. intros j m m4 Hj Hj4.
  destruct (Forall2_lookup_r _ _ _ _ _ Hsame Hj4) as (m2 & Hj2 & Hst).
  destruct (Hroom j m m2 Hj Hj2) as [Hr Ho]. rewrite (Hst request_id). split; [done|].
  intros r Hne. rewrite (Hst r). by apply Ho.
Qed.
End allocation.

(** ** What the prefix-cache search returns can be allocated *)

Section prefix_hit.
Context `{HashEnv}.
Variable n : nat.

(** A manager with one full-attention group [g] and its manager [m]. *)
Record one_full_group (s : t) (m : Manager.t) (g : KVCacheGroupSpec) : Prop := {
  og_kind : Coordinator.c_kind (conf s) = Coordinator.UnitaryKVCacheCoordinator;
  og_groups : kv_cache_groups (Coordinator.kv_cache_config (conf s)) = [g];
  og_managers : managers s = [m];
  og_class : Manager.m_class m = FullAttentionManager;
  og_full : is_full (kv_cache_spec g) = true;
  og_bs : parallel_block_size (kv_cache_spec g) (Coordinator.c_dcp_world_size (conf s))
            (Coordinator.c_pcp_world_size (conf s)) = Coordinator.c_block_size (conf s);
  og_bs' : Manager.m_block_size m = Coordinator.c_block_size (conf s);
  og_caching : Manager.m_enable_caching m = true;
}.

(** Blocks that carry different hashes are different blocks. *)
Lemma carried_nodup p (hs : list bytes) (l : list bref) :
  NoDup hs -> (length l <= length hs)%nat ->
  (forall j h, (j < length l)%nat -> hs !! j = Some h -> exists r, l !! j = Some r /\ carries p h 0 r) ->
  NoDup l.
Proof using.
  intros Hnd Hlen Hc. apply NoDup_alt. intros i j r Hi Hj.
  pose proof (lookup_lt_Some _ _ _ Hi) as Hil. pose proof (lookup_lt_Some _ _ _ Hj) as Hjl.
  destruct (lookup_lt_is_Some_2 hs i) as [hi Hhi]; [lia|].
  destruct (lookup_lt_is_Some_2 hs j) as [hj Hhj]; [lia|].
  destruct (Hc i hi Hil Hhi) as (ri & Hri & ki & Hki & Hsi).
  destruct (Hc j hj Hjl Hhj) as (rj & Hrj & kj & Hkj & Hsj).
  simplify_eq. destruct (make_key_inj _ _ _ _ _ Hki Hkj) as [-> _].
  by eapply NoDup_lookup.
Qed.

(** The search of the unitary coordinator over full attention. *)
Lemma unitary_full_hit s m g request free held :
  one_full_group s m g -> pool_rep n (block_pool s) free held [] -> 0 < Manager.m_block_size m ->
  1 <= num_tokens request ->
  exists l, Coordinator.find_longest_cache_hit (conf s) (block_hashes request) (num_tokens request - 1)
      (coordinator s) = Some (inr ([l], len l * Manager.m_block_size m)) /\
    len l * Manager.m_block_size m <= num_tokens request - 1 /\ (length l <= length (block_hashes request))%nat /\
    (forall j h, (j < length l)%nat -> block_hashes request !! j = Some h ->
       exists r, l !! j = Some r /\ carries (block_pool s) h 0 r).
Proof using.
  intros [Hk Hg Hms Hcls Hfull Hb Hb' _] Hp Hbs Hnt.
  destruct (full_hit_spec (block_pool s) n free [0] (HashList (block_hashes request)) (num_tokens request - 1)
    (kv_cache_spec g) (bool_decide (0 ∈ Coordinator.eagle_group_ids (conf s))) (Coordinator.c_block_size (conf s))
    (Coordinator.c_dcp_world_size (conf s)) (Coordinator.c_pcp_world_size (conf s)))
    as (k & cols & Hrun & [Hl Hc] & Hle & _ & Hlen & Hhit & _);
    [apply Hp|by repeat constructor|done|done|lia|lia|lia|].
  rewrite Hb, <- Hb' in Hle. destruct cols as [|l [|]]; try done. apply Forall_cons in Hc as [Hc _].
  exists l. split.
  - unfold Coordinator.find_longest_cache_hit. rewrite Hk. fold (managers s). rewrite Hms.
    unfold Coordinator.unitary_find_longest_cache_hit. rewrite Hg, Hcls. fold (block_pool s).
    cbn [PrefixHit.find_longest_cache_hit]. rewrite Hrun. simpl. by rewrite Hb'.
  - unfold len. rewrite Hc. split; [lia|]. split; [exact Hlen|]. intros j h Hj Hh.
    by apply (Hhit j h Hj Hh 0%nat 0 l).
Qed.
End prefix_hit.

(** ** Main theorems *)

Section theorems.
Context `{HashEnv}.

(** C5. The accounting of the whole stack: from a new manager on, whatever
    calls the scheduler makes, also calls that raise half-way, each usable
    block is either free, or held by requests with a reference count that is
    the number of their references, or a sink block; a request holds no block
    twice; the cache maps a key to exactly the blocks that carry it; and once
    no request holds a block all blocks but the null and sink blocks are free. *)
Theorem kv_manager_trace_invariant config ml hs mb ec eagle log ev dcp pcp s0 s
    (Hinit : init config ml hs mb ec eagle log ev dcp pcp = inr s0)
    (Hnum : 0 < num_blocks config) (Hml : 0 <= ml)
    (Hg : Forall (fun g => group_params_ok dcp pcp (kv_cache_spec g)) (kv_cache_groups config))
    (Hr : rtc (km_step (Z.to_nat (num_blocks config)) (all_sinks (managers s0))) s0 s) :
  let n := Z.to_nat (num_blocks config) in
  let held := all_held (managers s) in
  let sinks := all_sinks (managers s) in
  let pool := block_pool s in
  (exists free, free ++ remove_dups held ++ sinks ≡ₚ usable n /\
     BlockPool.get_num_free_blocks pool = len free) /\
  (forall r, r ∈ usable n -> refc (BlockPool.heap pool) r = Some (occ r held)) /\
  (forall m rid l, m ∈ managers s -> Manager.req_to_blocks m !! rid = Some l -> NoDup (real_blocks l)) /\
  (forall k r, r ∈ cached_at (BlockPool.cached_block_hash_to_block pool) k
               <-> hashof (BlockPool.heap pool) r = Some k) /\
  (held = [] -> BlockPool.get_num_free_blocks pool = num_blocks config - 1 - len sinks).
Proof.
  intros n held sinks pool.
  destruct (km_init_ok _ _ _ _ _ _ _ _ _ _ _ Hinit Hnum Hg) as (Hok0 & _ & _ & Hml0 & _).
  rewrite <- Hml0 in Hml. pose proof (km_trace_kept _ _ _ _ Hok0 Hml Hr) as (Hok & Hcfg & _).
  rewrite (config_sinks _ _ (eq_sym Hcfg)) in Hok. destruct Hok as [[free Hp] Hms].
  rewrite app_nil_r in Hp. fold n held sinks pool in Hp, Hms.
  pose proof (pr_core _ _ _ _ _ Hp) as Hc.
  assert (free ++ remove_dups held ++ sinks ≡ₚ usable n) as Hpart by (by eapply pool_partition).
  assert (BlockPool.get_num_free_blocks pool = len free) as Hfree.
  { apply (rep_num _ _ (pc_queue _ _ _ Hc)). }
  split; [by exists free|]. split; [|split; [|split]].
  - intros r (i & -> & Hi & Hlt)%elem_of_usable.
    apply (pr_refs _ _ _ _ _ Hp); [congruence|by eexists|by apply (pc_store _ _ _ Hc)].
  - intros m rid l Hm Hl. rewrite Forall_forall in Hms. by apply (mk_lists _ _ (Hms m Hm) rid).
  - apply (pc_cache _ _ _ Hc).
  - intros Hheld. rewrite Hfree. rewrite Hheld in Hpart. simpl in Hpart.
    assert (len (free ++ sinks) = len (usable n)) as Hlen by (by rewrite Hpart).
    rewrite len_app, len_usable in Hlen by lia. lia.
Qed.


End theorems.

(** ** Witnesses *)

#[local] Existing Instance demo_env.

Definition state_of {S A} (o : outcome S A) : S := match o with Ret _ s | Raise _ s => s end.

Lemma leaves_state_of {S A} (m : M S A) s : leaves m s (eq (state_of (m s))).
Proof. unfold leaves, state_of. by destruct (m s). Qed.

(** A manager of 16 blocks of two tokens, with caching and statistics. *)
Definition demo_km (specs : list KVCacheSpec) : t :=
  match init (demo_config specs) 32 2 None true false true false 1 1 with
  | inr s => s
  | inl _ => Mk 0 false false false None demo_conf ([], demo_pool) 0
  end.

(** After request [demo_req] was scheduled, and after it was freed again. *)
Definition demo_scheduled (specs : list KVCacheSpec) : t :=
  state_of (allocate_slots demo_req 5 0 None 0 0 false 0 (demo_km specs)).
Definition demo_freed (specs : list KVCacheSpec) : t := state_of (free demo_req (demo_scheduled specs)).

Definition demo_params : list KVCacheSpec -> Prop :=
  fun specs => Forall (fun g => group_params_ok 1 1 (kv_cache_spec g)) (kv_cache_groups (demo_config specs)).

Lemma demo_params_full : demo_params [demo_full_spec 8].
Proof. apply Forall_cons. split; [split; [split; [reflexivity|exact I]|exact I]|apply Forall_nil; exact I]. Qed.

Lemma demo_params_hybrid : demo_params demo_specs.
Proof.
  apply Forall_cons. split; [split; [split; [reflexivity|exact I]|exact I]|].
  apply Forall_cons. split; [split; [split; [reflexivity|vm_compute; discriminate]|exact I]|apply Forall_nil; exact I].
Qed.

Lemma demo_step_allocate specs :
  demo_params specs -> init (demo_config specs) 32 2 None true false true false 1 1 = inr (demo_km specs) ->
  km_step 16 [] (demo_km specs) (demo_scheduled specs).
Proof.
  intros Hp Hi. assert (num_computed_tokens demo_req = 0) as H0 by (vm_compute; reflexivity).
  apply (KMAllocate 16 [] _ demo_req 5 0 None 0 0 false 0); [lia| |].
  - unfold blocks_ok. rewrite H0. split; [lia|]. split; [lia|]. intros blocks [=].
  - apply leaves_state_of.
Qed.

Lemma demo_step_free specs : km_step 16 [] (demo_scheduled specs) (demo_freed specs).
Proof. apply (KMFree 16 [] _ demo_req). apply leaves_state_of. Qed.

Lemma demo_init_full : init (demo_config [demo_full_spec 8]) 32 2 None true false true false 1 1 = inr (demo_km [demo_full_spec 8]).
Proof. vm_compute. reflexivity. Qed.

Lemma demo_init_hybrid : init (demo_config demo_specs) 32 2 None true false true false 1 1 = inr (demo_km demo_specs).
Proof. vm_compute. reflexivity. Qed.

Lemma demo_km_ok specs :
  demo_params specs -> init (demo_config specs) 32 2 None true false true false 1 1 = inr (demo_km specs) ->
  all_sinks (managers (demo_km specs)) = [] -> km_ok 16 [] (demo_km specs).
Proof.
  intros Hp Hi Hs. destruct (km_init_ok _ _ _ _ _ _ _ _ _ _ _ Hi ltac:(vm_compute; reflexivity) Hp) as (Hok & _).
  by rewrite Hs in Hok.
Qed.

Lemma demo_freed_ok specs :
  demo_params specs -> init (demo_config specs) 32 2 None true false true false 1 1 = inr (demo_km specs) ->
  all_sinks (managers (demo_km specs)) = [] -> km_ok 16 [] (demo_freed specs).
Proof.
  intros Hp Hi Hs. pose proof (demo_km_ok specs Hp Hi Hs) as Hok.
  destruct (km_init_ok _ _ _ _ _ _ _ _ _ _ _ Hi ltac:(vm_compute; reflexivity) Hp) as (_ & _ & _ & Hml & _).
  apply (km_trace_kept 16 [] (demo_km specs)); [done|rewrite Hml; lia|].
  eapply rtc_l; [by apply demo_step_allocate|]. eapply rtc_l; [apply demo_step_free|apply rtc_refl].
Qed.

Lemma kv_manager_trace_invariant_witness :
  let s := demo_freed [demo_full_spec 8] in
  all_held (managers (demo_scheduled [demo_full_spec 8])) = [Blk 1; Blk 2; Blk 3] /\
  all_held (managers s) = [] /\ BlockPool.get_num_free_blocks (block_pool s) = 15.
Proof.
  cbv zeta. split; [vm_compute; reflexivity|].
  assert (rtc (km_step 16 []) (demo_km [demo_full_spec 8]) (demo_freed [demo_full_spec 8])) as Hr.
  { eapply rtc_l; [exact (demo_step_allocate _ demo_params_full demo_init_full)|].
    eapply rtc_l; [apply demo_step_free|apply rtc_refl]. }
  assert (all_sinks (managers (demo_km [demo_full_spec 8])) = []) as Hs by (vm_compute; reflexivity).
  rewrite <- Hs in Hr.
  destruct (kv_manager_trace_invariant _ _ _ _ _ _ _ _ _ _ _ _ demo_init_full
    ltac:(vm_compute; reflexivity) ltac:(lia) demo_params_full Hr) as (_ & _ & _ & _ & Hnone).
  assert (all_held (managers (demo_freed [demo_full_spec 8])) = []) as Hheld by (vm_compute; reflexivity).
  split; [exact Hheld|]. rewrite (Hnone Hheld).
  assert (all_sinks (managers (demo_freed [demo_full_spec 8])) = []) as -> by (vm_compute; reflexivity).
  reflexivity.
Defined.


