(* ===== verification/EncoderCache.v ===== *)
(** * The encoder cache of multi-modal models

    Models vllm/v1/core/encoder_cache_manager.py: [EncoderCacheManager], which
    shares the encoder outputs of multi-modal items between requests and evicts
    the oldest unreferenced entry first, [EncoderDecoderCacheManager], which only
    counts, and [compute_mm_encoder_budget].  [EncoderCache] is the interface the
    scheduler uses, [EncoderCacheLaws] what both managers promise to it
    (EncoderSched.v builds on the promise only). *)

From S2P Require Import Prelude Request.
From stdpp Require Import options.

(** [mm_feature.identifier], the [mm_hash] of the item. *)
Abbreviation mm_key := (option string).

(** [request.mm_features[input_id].identifier]; [None] where Python raises [IndexError]. *)
Definition mm_hash_of (request : Request) (input_id : Z) : option mm_key :=
  identifier <$> py_index (mm_features request) input_id.

(** The order in which Python iterates over a set of integers: unspecified, every
    element once. *)
Class SetIter := {
  set_iter : gset Z -> list Z;
  set_iter_perm : forall X, set_iter X ≡ₚ elements X;
}.

Definition some_iter : SetIter := {| set_iter := elements; set_iter_perm X := reflexivity _ |}.

Lemma elem_of_set_iter `{SetIter} i X : i ∈ set_iter X <-> i ∈ X.
Proof. rewrite set_iter_perm. apply elem_of_elements. Qed.

(** ** The interface of the two managers *)

Class EncoderCache (S : Type) := {
  ec_check_and_update_cache : Request -> Z -> M S bool;
  ec_can_allocate : Request -> Z -> Z -> Z -> M S bool;
  ec_allocate : Request -> Z -> M S unit;
  ec_get_cached_input_ids : Request -> M S (gset Z);
  ec_free_encoder_input : Request -> Z -> M S unit;
  ec_free : Request -> M S unit;
  ec_get_freed_mm_hashes : M S (list mm_key);
  ec_reset : M S unit;
}.

(** ** [EncoderCacheManager] *)
Module EncoderCacheManager.

Record t := {
  cache_size : Z;
  num_free_slots : Z;
  num_freeable_slots : Z;
  cached : gmap mm_key (gset string);
  freeable : list (mm_key * Z);  (** an [OrderedDict] *)
  freed : list mm_key;
}.

Definition init (size : Z) : t :=
  {| cache_size := size; num_free_slots := size; num_freeable_slots := size;
     cached := ∅; freeable := []; freed := [] |}.

Definition add_free (n : Z) (s : t) : t :=
  {| cache_size := cache_size s; num_free_slots := num_free_slots s + n;
     num_freeable_slots := num_freeable_slots s; cached := cached s;
     freeable := freeable s; freed := freed s |}.

Definition add_freeable (n : Z) (s : t) : t :=
  {| cache_size := cache_size s; num_free_slots := num_free_slots s;
     num_freeable_slots := num_freeable_slots s + n; cached := cached s;
     freeable := freeable s; freed := freed s |}.

Definition set_cached (c : gmap mm_key (gset string)) (s : t) : t :=
  {| cache_size := cache_size s; num_free_slots := num_free_slots s;
     num_freeable_slots := num_freeable_slots s; cached := c;
     freeable := freeable s; freed := freed s |}.

Definition set_freeable (q : list (mm_key * Z)) (s : t) : t :=
  {| cache_size := cache_size s; num_free_slots := num_free_slots s;
     num_freeable_slots := num_freeable_slots s; cached := cached s;
     freeable := q; freed := freed s |}.

Definition set_freed (l : list mm_key) (s : t) : t :=
  {| cache_size := cache_size s; num_free_slots := num_free_slots s;
     num_freeable_slots := num_freeable_slots s; cached := cached s;
     freeable := freeable s; freed := l |}.

(** [self.cached[mm_hash].add(request_id)] and [.discard(request_id)]. *)
Definition add_ref (h : mm_key) (rid : string) : M t unit :=
  s <- get ;;
  ids <- of_option KeyError (cached s !! h) ;;
  put (set_cached (<[h := ids ∪ {[rid]}]> (cached s)) s).

Definition discard_ref (h : mm_key) (rid : string) : M t unit :=
  s <- get ;;
  ids <- of_option KeyError (cached s !! h) ;;
  put (set_cached (<[h := ids ∖ {[rid]}]> (cached s)) s).

Definition reset : M t unit :=
  modify (fun s => init (cache_size s)).

Definition check_and_update_cache (request : Request) (input_id : Z) : M t bool :=
  mm_hash <- of_option IndexError (mm_hash_of request input_id) ;;
  s <- get ;;
  match cached s !! mm_hash with
  | None => ret false
  | Some ids =>
      (if decide (ids = ∅) then
         num_encoder_embeds <- of_option KeyError (dict_get mm_hash (freeable s)) ;;
         put (set_freeable (dict_del mm_hash (freeable s)) s) ;;;
         modify (add_freeable (- num_encoder_embeds))
       else ret tt) ;;;
      add_ref mm_hash (request_id request) ;;;
      ret true
  end.

(** [while num_embeds > self.num_free_slots: ...]; [entries] is [self.freeable]. *)
Fixpoint evict_loop (num_embeds : Z) (entries : list (mm_key * Z)) : M t unit :=
  free <- gets num_free_slots ;;
  if num_embeds <=? free then ret tt
  else
    match entries with
    | [] => raise KeyError
    | (mm_hash, num_free_embeds) :: entries =>
        modify (set_freeable entries) ;;;
        s <- get ;;
        _ <- of_option KeyError (cached s !! mm_hash) ;;
        put (set_cached (delete mm_hash (cached s)) s) ;;;
        modify (fun s => set_freed (freed s ++ [mm_hash]) s) ;;;
        modify (add_free num_free_embeds) ;;;
        evict_loop num_embeds entries
    end.

Definition can_allocate (request : Request) (input_id : Z)
    (encoder_compute_budget num_embeds_to_schedule : Z) : M t bool :=
  num_embeds <- of_result (get_num_encoder_embeds request input_id) ;;
  if encoder_compute_budget <? num_embeds then ret false
  else
    let num_embeds := num_embeds + num_embeds_to_schedule in
    s <- get ;;
    if num_embeds <=? num_free_slots s then ret true
    else if num_freeable_slots s <? num_embeds then ret false
    else evict_loop num_embeds (freeable s) ;;; ret true.

Definition allocate (request : Request) (input_id : Z) : M t unit :=
  mm_hash <- of_option IndexError (mm_hash_of request input_id) ;;
  modify (fun s =>
    match cached s !! mm_hash with
    | None => set_cached (<[mm_hash := ∅]> (cached s)) s
    | Some _ => s
    end) ;;;
  num_encoder_embeds <- of_result (get_num_encoder_embeds request input_id) ;;
  s <- get ;;
  assert (num_encoder_embeds <=? num_free_slots s) ;;;
  assert (num_encoder_embeds <=? num_freeable_slots s) ;;;
  add_ref mm_hash (request_id request) ;;;
  modify (add_free (- num_encoder_embeds)) ;;;
  modify (add_freeable (- num_encoder_embeds)).

Definition input_cached (request : Request) (s : t) (input_id : Z) : bool :=
  match mm_hash_of request input_id with
  | Some mm_hash => is_some (cached s !! mm_hash)
  | None => false
  end.

Definition get_cached_input_ids (request : Request) (s : t) : gset Z :=
  list_to_set (filter (fun i => input_cached request s i = true)
                 (py_range 0 (len (mm_features request)))).

Definition free_encoder_input (request : Request) (input_id : Z) : M t unit :=
  mm_hash <- of_option IndexError (mm_hash_of request input_id) ;;
  s <- get ;;
  if decide (default ∅ (cached s !! mm_hash) = ∅) then ret tt
  else
    discard_ref mm_hash (request_id request) ;;;
    s <- get ;;
    if decide (cached s !! mm_hash = Some ∅) then
      num_encoder_embeds <- of_result (get_num_encoder_embeds request input_id) ;;
      put (set_freeable (dict_set mm_hash num_encoder_embeds (freeable s)) s) ;;;
      modify (add_freeable num_encoder_embeds)
    else ret tt.

Definition free `{SetIter} (request : Request) : M t unit :=
  input_ids <- gets (get_cached_input_ids request) ;;
  mfor (set_iter input_ids) (free_encoder_input request).

Definition get_freed_mm_hashes : M t (list mm_key) :=
  s <- get ;;
  put (set_freed [] s) ;;;
  ret (freed s).

End EncoderCacheManager.

(** ** [EncoderDecoderCacheManager] *)
Module EncoderDecoderCacheManager.

Record t := {
  cache_size : Z;
  num_free_slots : Z;
  allocated : list mm_key;
  to_free : list mm_key;
}.

Definition init (size : Z) : t :=
  {| cache_size := size; num_free_slots := size; allocated := []; to_free := [] |}.

Definition add_free (n : Z) (s : t) : t :=
  {| cache_size := cache_size s; num_free_slots := num_free_slots s + n;
     allocated := allocated s; to_free := to_free s |}.

Definition set_lists (a f : list mm_key) (s : t) : t :=
  {| cache_size := cache_size s; num_free_slots := num_free_slots s;
     allocated := a; to_free := f |}.

Definition reset : M t unit := modify (fun s => init (cache_size s)).

Definition check_and_update_cache (request : Request) (input_id : Z) : M t bool := ret false.

Definition can_allocate (request : Request) (input_id : Z)
    (encoder_compute_budget num_embeds_to_schedule : Z) : M t bool :=
  num_encoder_embeds <- of_result (get_num_encoder_embeds request input_id) ;;
  if encoder_compute_budget <? num_encoder_embeds then ret false
  else
    s <- get ;;
    ret (num_encoder_embeds + num_embeds_to_schedule <=? num_free_slots s).

Definition allocate (request : Request) (input_id : Z) : M t unit :=
  num_encoder_embeds <- of_result (get_num_encoder_embeds request input_id) ;;
  modify (add_free (- num_encoder_embeds)) ;;;
  mm_hash <- of_option IndexError (mm_hash_of request input_id) ;;
  modify (fun s => set_lists (allocated s ++ [mm_hash]) (to_free s) s).

Definition free_encoder_input (request : Request) (input_id : Z) : M t unit :=
  num_encoder_embeds <- of_result (get_num_encoder_embeds request input_id) ;;
  modify (add_free num_encoder_embeds).

Definition free (request : Request) : M t unit :=
  mfor (py_range 0 (len (mm_features request))) (free_encoder_input request).

Definition get_cached_input_ids (request : Request) : gset Z :=
  list_to_set (py_range 0 (len (mm_features request))).

Definition get_freed_mm_hashes : M t (list mm_key) :=
  s <- get ;;
  put (set_lists [] (allocated s) s) ;;;
  ret (to_free s).

End EncoderDecoderCacheManager.

(** ** The budgets *)

Record SchedulerConfig := {
  max_num_encoder_input_tokens : Z;
  encoder_cache_size : Z;
  max_num_batched_tokens : Z;
  disable_chunked_mm_input : bool;
}.

(** [max] of a non-empty list. *)
Definition max_of (x : Z) (l : list Z) : Z := foldl Z.max x l.

(** [mm_max_toks_per_item] maps a modality to its largest number of tokens per item. *)
Definition compute_mm_encoder_budget (config : SchedulerConfig)
    (mm_max_toks_per_item : list (string * Z)) : exn + (Z * Z) :=
  match mm_max_toks_per_item.*2 with
  | [] => inr (0, 0)
  | x :: l =>
      let max_tokens_per_mm_item := max_of x l in
      if (disable_chunked_mm_input config
          && (max_num_batched_tokens config <? max_tokens_per_mm_item))%bool
      then inl ValueError
      else inr (Z.max (max_num_encoder_input_tokens config) max_tokens_per_mm_item,
                Z.max (encoder_cache_size config) max_tokens_per_mm_item)
  end.

(** ** What the scheduler relies on

    [size h] is the number of embeddings of the item with hash [h]: the hash
    identifies the data, so equal identifiers have equal sizes. *)
Definition consistent (size : mm_key -> Z) (request : Request) : Prop :=
  Forall (fun f => get_num_embeds (mm_position f) = size (identifier f)
                   /\ 0 <= size (identifier f)) (mm_features request).

(** Input [i] of the request is an item with hash [h]. *)
Definition has_input (size : mm_key -> Z) (request : Request) (i : Z) (h : mm_key) : Prop :=
  mm_hash_of request i = Some h /\ get_num_encoder_embeds request i = inr (size h)
  /\ 0 <= size h.

Lemma consistent_input size request i f :
  consistent size request -> 0 <= i -> mm_features request !! Z.to_nat i = Some f ->
  has_input size request i (identifier f).
Proof.
  intros Hc Hi Hf. destruct (Forall_lookup_1 _ _ _ _ Hc Hf) as [Hs Hn].
  assert (i < len (mm_features request)) by (apply lookup_lt_Some in Hf; unfold len; lia).
  unfold has_input, mm_hash_of, get_num_encoder_embeds.
  rewrite (proj2 (Z.ltb_lt _ _)) by done. rewrite py_index_nonneg by done.
  rewrite Hf. simpl. by rewrite Hs.
Qed.

Lemma consistent_range size request i :
  consistent size request -> 0 <= i < len (mm_features request) ->
  exists h, has_input size request i h.
Proof.
  intros Hc Hi. destruct (lookup_lt_is_Some_2 (mm_features request) (Z.to_nat i)) as [f Hf];
    [unfold len in *; lia|].
  exists (identifier f). apply consistent_input; [done|lia|done].
Qed.

Class EncoderCacheLaws (S : Type) `{EncoderCache S} (size : mm_key -> Z) := {
  ec_ok : S -> Prop;
  ec_room : S -> Z;  (** free slots *)
  ec_absent : S -> mm_key -> Prop;  (** may be allocated *)
  ec_holds : S -> string -> mm_key -> Prop;  (** the request references the entry *)
  ec_room_nonneg : forall s, ec_ok s -> 0 <= ec_room s;
  ec_check_spec : forall request i h s,
    ec_ok s -> has_input size request i h ->
    succeeds (ec_check_and_update_cache request i) s (fun b s' =>
      ec_ok s' /\ ec_room s' = ec_room s
      /\ (forall h', ec_absent s h' -> ec_absent s' h')
      /\ (forall rid h', ec_holds s rid h' -> ec_holds s' rid h')
      /\ if b : bool then ec_holds s' (request_id request) h else ec_absent s' h);
  ec_can_allocate_spec : forall request i h budget k s,
    ec_ok s -> has_input size request i h ->
    succeeds (ec_can_allocate request i budget k) s (fun b s' =>
      ec_ok s' /\ ec_room s <= ec_room s'
      /\ (forall h', ec_absent s h' -> ec_absent s' h')
      /\ (forall rid h', ec_holds s rid h' -> ec_holds s' rid h')
      /\ (b = true -> size h <= budget /\ size h + k <= ec_room s'));
  ec_allocate_spec : forall request i h s,
    ec_ok s -> has_input size request i h -> ec_absent s h -> size h <= ec_room s ->
    succeeds (ec_allocate request i) s (fun _ s' =>
      ec_ok s' /\ ec_room s' = ec_room s - size h
      /\ (forall h', h' <> h -> ec_absent s h' -> ec_absent s' h')
      /\ (forall rid h', ec_holds s rid h' -> ec_holds s' rid h')
      /\ ec_holds s' (request_id request) h);
  ec_free_input_spec : forall request i h s,
    ec_ok s -> has_input size request i h ->
    succeeds (ec_free_encoder_input request i) s (fun _ s' =>
      ec_ok s' /\ ec_room s <= ec_room s'
      /\ (forall h', ec_absent s h' -> ec_absent s' h')
      /\ (forall rid h', rid <> request_id request -> ec_holds s rid h' -> ec_holds s' rid h'));
  ec_cached_spec : forall request s,
    succeeds (ec_get_cached_input_ids request) s (fun ids s' =>
      s' = s /\ forall i, i ∈ ids -> 0 <= i < len (mm_features request));
  ec_free_spec : forall request s,
    ec_ok s -> consistent size request ->
    succeeds (ec_free request) s (fun _ s' =>
      ec_ok s' /\ ec_room s <= ec_room s'
      /\ (forall h', ec_absent s h' -> ec_absent s' h')
      /\ (forall rid h', rid <> request_id request -> ec_holds s rid h' -> ec_holds s' rid h'));
  ec_freed_spec : forall s, ec_ok s ->
    succeeds ec_get_freed_mm_hashes s (fun _ s' => ec_ok s' /\ ec_room s' = ec_room s
      /\ (forall rid h', ec_holds s rid h' -> ec_holds s' rid h'));
  ec_reset_spec : forall s, ec_ok s -> succeeds ec_reset s (fun _ s' => ec_ok s');
}.

(** ** The encoder-decoder manager keeps the promise *)

#[export] Instance encdec_ops : EncoderCache EncoderDecoderCacheManager.t := {
  ec_check_and_update_cache := EncoderDecoderCacheManager.check_and_update_cache;
  ec_can_allocate := EncoderDecoderCacheManager.can_allocate;
  ec_allocate := EncoderDecoderCacheManager.allocate;
  ec_get_cached_input_ids r := gets (fun _ => EncoderDecoderCacheManager.get_cached_input_ids r);
  ec_free_encoder_input := EncoderDecoderCacheManager.free_encoder_input;
  ec_free := EncoderDecoderCacheManager.free;
  ec_get_freed_mm_hashes := EncoderDecoderCacheManager.get_freed_mm_hashes;
  ec_reset := EncoderDecoderCacheManager.reset;
}.

Lemma encdec_free_input size request i h s :
  has_input size request i h ->
  EncoderDecoderCacheManager.free_encoder_input request i s
  = Ret tt (EncoderDecoderCacheManager.add_free (size h) s).
Proof.
  intros (_ & Hn & _). unfold EncoderDecoderCacheManager.free_encoder_input. by rewrite Hn.
Qed.

#[export] Program Instance encdec_laws size : EncoderCacheLaws EncoderDecoderCacheManager.t size := {
  ec_ok s := 0 <= EncoderDecoderCacheManager.num_free_slots s
             /\ 0 <= EncoderDecoderCacheManager.cache_size s;
  ec_room := EncoderDecoderCacheManager.num_free_slots;
  ec_absent _ _ := True;
  ec_holds _ _ _ := True;
}.
Next Obligation. intros ? s [? ?]. done. Qed.
Next Obligation. done. Qed.
Next Obligation.
  intros size request i h budget k s [Hok Hcap] (_ & Hn & _). simpl in *.
  unfold EncoderDecoderCacheManager.can_allocate. rewrite Hn. repeat sstep.
  eapply (succeeds_of_result (inr (size h))); [done|].
  destruct (Z.ltb_spec budget (size h)); repeat sstep; (split_and!; [done..|]); [done|].
  intros Hle. bool_to_prop. done.
Qed.
Next Obligation.
  intros size request i h s [Hok Hcap] (Hh & Hn & _) _ Hroom. simpl in *.
  unfold EncoderDecoderCacheManager.allocate. rewrite Hn, Hh. repeat sstep.
  eapply succeeds_of_result; [done|]. repeat sstep.
  eapply succeeds_of_option; [done|]. repeat sstep. simpl. split_and!; try done. lia.
Qed.
Next Obligation.
  intros size request i h s [Hok Hcap] Hi. simpl in *.
  eapply succeeds_eq; [by eapply encdec_free_input|].
  destruct Hi as (_ & _ & ?). simpl. split_and!; try done; lia.
Qed.
Next Obligation.
  intros size request s. simpl. repeat sstep. split; [done|]. intros i.
  unfold EncoderDecoderCacheManager.get_cached_input_ids.
  rewrite elem_of_list_to_set, elem_of_py_range. lia.
Qed.
Next Obligation.
  intros size request s [Hok Hcap] Hc. simpl in *. unfold EncoderDecoderCacheManager.free.
  eapply succeeds_mono; [apply (succeeds_mfor _ (fun _ _ s' =>
    EncoderDecoderCacheManager.num_free_slots s <= EncoderDecoderCacheManager.num_free_slots s'
    /\ 0 <= EncoderDecoderCacheManager.cache_size s'))|].
  - lia.
  - intros pre i todo s1 Hl [Hle Hc1].
    destruct (consistent_range size request i Hc) as [h Hi].
    { apply elem_of_py_range. rewrite Hl. set_solver. }
    eapply succeeds_eq; [by eapply encdec_free_input|]. destruct Hi as (_ & _ & ?). simpl. lia.
  - intros [] s1 [Hle Hc1]. split_and!; [lia|done..].
Qed.
Next Obligation.
  intros size s Hok. simpl in *. unfold EncoderDecoderCacheManager.get_freed_mm_hashes.
  repeat sstep. done.
Qed.
Next Obligation.
  intros size s [? ?]. simpl in *. unfold EncoderDecoderCacheManager.reset. by sstep.
Qed.

(** ** The invariant of [EncoderCacheManager] *)

(** The embeddings of the entries of a cache. *)
Definition total (size : mm_key -> Z) (m : gmap mm_key (gset string)) : Z :=
  map_fold (fun h _ acc => size h + acc) 0 m.

Definition sum_of (l : list Z) : Z := foldr Z.add 0 l.

(** The entries some request references. *)
Definition referenced (m : gmap mm_key (gset string)) : gmap mm_key (gset string) :=
  filter (fun e => e.2 <> ∅) m.

Lemma referenced_insert (m : gmap mm_key (gset string)) (h : mm_key) ids :
  ids <> ∅ -> referenced (<[h := ids]> m) = <[h := ids]> (referenced m).
Proof. intros Hids. unfold referenced. by rewrite map_filter_insert_True. Qed.

Lemma referenced_insert_empty (m : gmap mm_key (gset string)) (h : mm_key) :
  referenced (<[h := ∅]> m) = delete h (referenced m).
Proof.
  unfold referenced. rewrite map_filter_insert_False by (simpl; tauto). apply map_filter_delete.
Qed.

Lemma referenced_lookup (m : gmap mm_key (gset string)) (h : mm_key) :
  referenced m !! h = match m !! h with
                      | Some ids => if decide (ids = ∅) then None else Some ids
                      | None => None
                      end.
Proof.
  unfold referenced. rewrite map_lookup_filter. destruct (m !! h) as [ids|]; simpl; [|done].
  case_guard; case_decide; simpl in *; tauto.
Qed.

Lemma referenced_delete_unreferenced (m : gmap mm_key (gset string)) (h : mm_key) :
  m !! h = Some ∅ -> referenced (delete h m) = referenced m.
Proof.
  intros Hh. apply map_eq. intros h'. rewrite !referenced_lookup.
  destruct (decide (h = h')) as [<-|].
  - by rewrite lookup_delete_eq, Hh, decide_True.
  - by rewrite lookup_delete_ne.
Qed.

Section totals.
Context (size : mm_key -> Z).
Implicit Types (m : gmap mm_key (gset string)) (h : mm_key).

Lemma total_empty : total size ∅ = 0.
Proof. apply map_fold_empty. Qed.

Lemma total_insert m h ids : m !! h = None -> total size (<[h := ids]> m) = size h + total size m.
Proof. intros Hm. unfold total. rewrite map_fold_insert_L; [done|intros; lia|done]. Qed.

Lemma total_delete m h : is_Some (m !! h) -> total size (delete h m) = total size m - size h.
Proof.
  intros [ids Hm]. rewrite <- (insert_delete_id m h ids) at 2 by done.
  rewrite total_insert by apply lookup_delete_eq. lia.
Qed.

Lemma total_update m h ids : is_Some (m !! h) -> total size (<[h := ids]> m) = total size m.
Proof.
  intros Hm. rewrite <- insert_delete_eq, total_insert by apply lookup_delete_eq.
  rewrite total_delete by done. lia.
Qed.

Lemma total_nonneg m : (forall h, is_Some (m !! h) -> 0 <= size h) -> 0 <= total size m.
Proof.
  induction m as [|h ids m Hm IH] using map_ind; intros Hs; [by rewrite total_empty|].
  rewrite total_insert by done. assert (0 <= size h) by (apply Hs; rewrite lookup_insert_eq; eauto).
  assert (0 <= total size m); [|lia]. apply IH. intros h' [ids' Hh']. apply Hs.
  rewrite lookup_insert_ne; [eauto|]. intros ->. congruence.
Qed.

Lemma total_referenced m :
  (forall h, is_Some (m !! h) -> 0 <= size h) -> total size (referenced m) <= total size m.
Proof.
  induction m as [|h ids m Hm IH] using map_ind; intros Hs; [done|].
  assert (0 <= size h) by (apply Hs; rewrite lookup_insert_eq; eauto).
  assert (total size (referenced m) <= total size m).
  { apply IH. intros h' [ids' Hh']. apply Hs. rewrite lookup_insert_ne; [eauto|].
    intros ->. congruence. }
  rewrite total_insert by done. destruct (decide (ids = ∅)) as [->|Hne].
  - rewrite referenced_insert_empty, delete_id; [lia|]. by rewrite referenced_lookup, Hm.
  - rewrite referenced_insert, total_insert; [lia| |done]. by rewrite referenced_lookup, Hm.
Qed.
End totals.

Lemma sum_of_cons x l : sum_of (x :: l) = x + sum_of l.
Proof. done. Qed.

Lemma sum_of_app l1 l2 : sum_of (l1 ++ l2) = sum_of l1 + sum_of l2.
Proof. induction l1 as [|x l IH]; simpl; [done|]. rewrite IH. lia. Qed.

Lemma sum_of_nonneg l : Forall (Z.le 0) l -> 0 <= sum_of l.
Proof. induction 1; simpl; lia. Qed.

Lemma dict_del_keys {K V} `{EqDecision K} (k : K) (d : list (K * V)) k' :
  NoDup d.*1 -> k' ∈ (dict_del k d).*1 <-> k' ∈ d.*1 /\ k' <> k.
Proof.
  intros Hd. rewrite dict_del_filter by done. rewrite !list_elem_of_fmap.
  setoid_rewrite list_elem_of_filter. naive_solver.
Qed.

Lemma dict_del_NoDup {K V} `{EqDecision K} (k : K) (d : list (K * V)) :
  NoDup d.*1 -> NoDup (dict_del k d).*1.
Proof.
  induction d as [|[k' v] d IH]; simpl; [done|]. intros [Hk Hd]%NoDup_cons.
  case_decide; [done|]. simpl. apply NoDup_cons. split; [|by apply IH].
  rewrite dict_del_keys by done. tauto.
Qed.

Lemma dict_del_sum {K} `{EqDecision K} (k : K) (v : Z) (d : list (K * Z)) :
  dict_get k d = Some v -> sum_of (dict_del k d).*2 = sum_of d.*2 - v.
Proof.
  induction d as [|[k' v'] d IH]; [done|]. cbn [dict_get dict_del]. case_decide.
  - intros [= ->]. rewrite fmap_cons, sum_of_cons. cbn. lia.
  - intros Hd. rewrite !fmap_cons, !sum_of_cons, (IH Hd). simpl. lia.
Qed.

Lemma dict_del_Forall {K V} `{EqDecision K} (P : K * V -> Prop) (k : K) d :
  Forall P d -> Forall P (dict_del k d).
Proof.
  induction 1 as [|[k' v] d Hp Hd IH]; simpl; [done|]. case_decide; [done|]. by constructor.
Qed.

Module CacheInv.
Import EncoderCacheManager.

Section inv.
Context (cap : Z).

(** The accounting: [freeable] lists the unreferenced entries with their
    sizes, the free slots are what the entries leave of the capacity and the
    freeable slots what the referenced ones leave. *)
Record ok (size : mm_key -> Z) (s : t) : Prop := {
  ok_nodup : NoDup (freeable s).*1;
  ok_freeable : forall h, h ∈ (freeable s).*1 <-> cached s !! h = Some ∅;
  ok_sizes : Forall (fun e => e.2 = size e.1) (freeable s);
  ok_nonneg : forall h, is_Some (cached s !! h) -> 0 <= size h;
  ok_free : num_free_slots s + total size (cached s) = cache_size s;
  ok_held : num_freeable_slots s + total size (referenced (cached s)) = cache_size s;
  ok_sum : num_freeable_slots s = num_free_slots s + sum_of (freeable s).*2;
  ok_pos : 0 <= num_free_slots s;
  ok_cap : cache_size s = cap;
}.

Definition absent (s : t) (h : mm_key) : Prop := cached s !! h = None.

Definition holds (s : t) (rid : string) (h : mm_key) : Prop :=
  exists ids, cached s !! h = Some ids /\ rid ∈ ids.

Lemma ok_init size : 0 <= cap -> ok size (init cap).
Proof.
  intros Hn. split; simpl; [apply NoDup_nil_2| |done| |rewrite total_empty; lia| |simpl; lia|done|done].
  - intros h. rewrite lookup_empty. set_solver.
  - intros h [? Hh]. by rewrite lookup_empty in Hh.
  - change (referenced ∅) with (∅ : gmap mm_key (gset string)). rewrite total_empty. lia.
Qed.

(** What every state the invariant holds in looks like from outside. *)
Lemma ok_bounds size s :
  ok size s ->
  0 <= num_free_slots s <= num_freeable_slots s /\ num_freeable_slots s <= cache_size s.
Proof.
  intros [].
  assert (0 <= total size (referenced (cached s))).
  { apply total_nonneg. intros h [ids Hh]. rewrite referenced_lookup in Hh.
    apply ok_nonneg0. destruct (cached s !! h); [eauto|done]. }
  pose proof (total_referenced size (cached s) ok_nonneg0). lia.
Qed.

Lemma freeable_get size s h :
  ok size s -> cached s !! h = Some ∅ -> dict_get h (freeable s) = Some (size h).
Proof.
  intros [] Hh. apply ok_freeable0, dict_get_elem in Hh as [n Hn].
  pose proof (dict_get_Some _ _ _ Hn) as Hin.
  rewrite Forall_forall in ok_sizes0. specialize (ok_sizes0 _ Hin). simpl in *. congruence.
Qed.

(** A reference to an entry that has one already only changes who holds it. *)
Lemma ok_hold size s h ids ids' :
  ok size s -> cached s !! h = Some ids -> ids <> ∅ -> ids' <> ∅ ->
  ok size (set_cached (<[h := ids']> (cached s)) s).
Proof.
  intros [] Hh Hne Hne'. split; simpl; try done.
  - intros h'. rewrite ok_freeable0. destruct (decide (h = h')) as [<-|].
    + rewrite lookup_insert_eq, Hh. naive_solver.
    + by rewrite lookup_insert_ne.
  - intros h'. destruct (decide (h = h')) as [<-|]; [eauto|].
    rewrite lookup_insert_ne by done. auto.
  - rewrite total_update by eauto. done.
  - rewrite referenced_insert by done. rewrite total_update; [done|].
    rewrite referenced_lookup, Hh, decide_False by done. eauto.
Qed.

(** The first reference to an unreferenced entry takes it out of [freeable]. *)
Lemma ok_revive size s h ids :
  ok size s -> cached s !! h = Some ∅ -> ids <> ∅ ->
  ok size (set_cached (<[h := ids]> (cached s))
             (add_freeable (- size h) (set_freeable (dict_del h (freeable s)) s))).
Proof.
  intros Hok Hh Hne. pose proof (freeable_get _ _ _ Hok Hh) as Hget. destruct Hok.
  split; simpl; try done.
  - by apply dict_del_NoDup.
  - intros h'. rewrite dict_del_keys, ok_freeable0 by done. destruct (decide (h = h')) as [<-|].
    + rewrite lookup_insert_eq. naive_solver.
    + rewrite lookup_insert_ne by done. naive_solver.
  - by apply dict_del_Forall.
  - intros h'. destruct (decide (h = h')) as [<-|]; [eauto|].
    rewrite lookup_insert_ne by done. auto.
  - rewrite total_update by eauto. done.
  - rewrite referenced_insert, total_insert; [lia| |done].
    by rewrite referenced_lookup, Hh, decide_True.
  - rewrite (dict_del_sum _ _ _ Hget). lia.
Qed.

(** Dropping the last reference appends the entry to [freeable]. *)
Lemma ok_release size s h ids :
  ok size s -> cached s !! h = Some ids -> ids <> ∅ ->
  ok size (add_freeable (size h)
             (set_freeable (dict_set h (size h) (freeable s))
                (set_cached (<[h := ∅]> (cached s)) s))).
Proof.
  intros [] Hh Hne.
  assert (h ∉ (freeable s).*1) as Hnin by (rewrite ok_freeable0; congruence).
  split; simpl; rewrite ?dict_set_new by done; rewrite ?fmap_app; simpl; try done.
  - apply NoDup_app. split_and!; [done|set_solver|apply NoDup_singleton].
  - intros h'. rewrite elem_of_app, ok_freeable0, list_elem_of_singleton.
    destruct (decide (h = h')) as [<-|].
    + rewrite lookup_insert_eq. naive_solver.
    + rewrite lookup_insert_ne by done. naive_solver.
  - apply Forall_app. split; [done|]. by constructor.
  - intros h'. destruct (decide (h = h')) as [<-|]; [eauto|].
    rewrite lookup_insert_ne by done. auto.
  - rewrite total_update by eauto. done.
  - rewrite referenced_insert_empty, total_delete; [lia|].
    rewrite referenced_lookup, Hh, decide_False by done. eauto.
  - rewrite sum_of_app. simpl. lia.
Qed.

(** Evicting the oldest unreferenced entry. *)
Lemma ok_evict size s h n rest l :
  ok size s -> freeable s = (h, n) :: rest ->
  ok size (add_free n (set_freed l (set_cached (delete h (cached s)) (set_freeable rest s)))).
Proof.
  intros [] Hq. rewrite Hq, ?fmap_cons, ?sum_of_cons in *. cbn [fst snd] in *.
  apply NoDup_cons in ok_nodup0 as [Hnin Hnd].
  apply Forall_cons in ok_sizes0 as [Hn Hs]. cbn [fst snd] in Hn. subst n.
  assert (cached s !! h = Some ∅) as Hh by (apply ok_freeable0; left).
  assert (0 <= size h) by (apply ok_nonneg0; eauto).
  split; simpl; try done.
  - intros h'. destruct (decide (h = h')) as [<-|].
    + rewrite lookup_delete_eq. split; [done|congruence].
    + rewrite lookup_delete_ne, <- ok_freeable0, elem_of_cons by done. naive_solver.
  - intros h' [ids Hids]. apply lookup_delete_Some in Hids as [? ?]. eauto.
  - rewrite total_delete by eauto. lia.
  - by rewrite referenced_delete_unreferenced.
  - lia.
  - lia.
Qed.

(** A new entry. *)
Lemma ok_insert size s h ids :
  ok size s -> cached s !! h = None -> ids <> ∅ -> 0 <= size h <= num_free_slots s ->
  ok size (add_freeable (- size h) (add_free (- size h)
             (set_cached (<[h := ids]> (cached s)) s))).
Proof.
  intros [] Hh Hne Hs. split; simpl; try done.
  - intros h'. rewrite ok_freeable0. destruct (decide (h = h')) as [<-|].
    + rewrite lookup_insert_eq, Hh. naive_solver.
    + by rewrite lookup_insert_ne.
  - intros h'. destruct (decide (h = h')) as [<-|]; [lia|].
    rewrite lookup_insert_ne by done. auto.
  - rewrite total_insert by done. lia.
  - rewrite referenced_insert, total_insert; [lia| |done]. by rewrite referenced_lookup, Hh.
  - lia.
  - lia.
Qed.

(** ** The operations *)

Lemma add_ref_run s h rid ids :
  cached s !! h = Some ids ->
  add_ref h rid s = Ret tt (set_cached (<[h := ids ∪ {[rid]}]> (cached s)) s).
Proof. intros Hh. unfold add_ref, bind, get, put; simpl. by rewrite Hh. Qed.

Lemma discard_ref_run s h rid ids :
  cached s !! h = Some ids ->
  discard_ref h rid s = Ret tt (set_cached (<[h := ids ∖ {[rid]}]> (cached s)) s).
Proof. intros Hh. unfold discard_ref, bind, get, put; simpl. by rewrite Hh. Qed.

Lemma holds_hold s h rid rid' h' ids :
  cached s !! h = Some ids -> holds s rid' h' ->
  holds (set_cached (<[h := ids ∪ {[rid]}]> (cached s)) s) rid' h'.
Proof.
  intros Hh (ids' & Hi & Hin). unfold holds; simpl. destruct (decide (h = h')) as [<-|].
  - rewrite lookup_insert_eq. simplify_eq. eexists. split; [done|]. set_solver.
  - rewrite lookup_insert_ne by done. eauto.
Qed.

Lemma check_run size request i h s :
  ok size s -> has_input size request i h ->
  succeeds (check_and_update_cache request i) s (fun b s' =>
    ok size s' /\ num_free_slots s' = num_free_slots s
    /\ (forall h', absent s h' -> absent s' h')
    /\ (forall rid h', holds s rid h' -> holds s' rid h')
    /\ if b then holds s' (request_id request) h else absent s' h).
Proof.
  intros Hok (Hh & _ & _). unfold check_and_update_cache. rewrite Hh. repeat sstep.
  eapply succeeds_of_option; [done|]. repeat sstep.
  destruct (cached s !! h) as [ids|] eqn:Hc; [|by repeat sstep].
  assert (forall h', absent s h' -> <[h := ids ∪ {[request_id request]}]> (cached s) !! h' = None)
    as Habs.
  { intros h' Hh'. rewrite lookup_insert_ne; [done|]. intros ->. unfold absent in Hh'. congruence. }
  sstep. case_decide as Hids.
  - subst ids. repeat sstep. eapply succeeds_of_option; [by apply (freeable_get size)|].
    repeat sstep. eapply succeeds_eq; [by apply add_ref_run|]. repeat sstep. simpl. split_and!; [|done|done|..].
    + apply ok_revive; [done|done|set_solver].
    + intros rid h' Hold. by apply (holds_hold s h (request_id request) rid h' ∅).
    + eexists. simpl. rewrite lookup_insert_eq. split; [done|]. set_solver.
  - repeat sstep. eapply succeeds_eq; [by apply add_ref_run|]. repeat sstep. simpl. split_and!; [|done|done|..].
    + by eapply ok_hold; [| |exact Hids|set_solver].
    + intros rid h' Hold. by apply holds_hold.
    + eexists. simpl. rewrite lookup_insert_eq. split; [done|]. set_solver.
Qed.

(** [s'] is [s] after evicting [old], the oldest unreferenced entries. *)
Record evicted (old : list (mm_key * Z)) (s s' : t) : Prop := {
  ev_freeable : freeable s = old ++ freeable s';
  ev_freed : freed s' = freed s ++ old.*1;
  ev_cached : cached s' = foldl (fun m h => delete h m) (cached s) old.*1;
  ev_free : num_free_slots s' = num_free_slots s + sum_of old.*2;
  ev_room : num_freeable_slots s' = num_freeable_slots s;
  ev_size : cache_size s' = cache_size s;
}.

Lemma evicted_nil s : evicted [] s s.
Proof. split; rewrite ?app_nil_r; simpl; try done. lia. Qed.

Lemma deleted_lookup (l : list mm_key) (m : gmap mm_key (gset string)) h :
  foldl (fun m h => delete h m) m l !! h = if decide (h ∈ l) then None else m !! h.
Proof.
  revert m. induction l as [|k l IH]; intros m; simpl; [done|]. rewrite IH.
  destruct (decide (h = k)) as [->|].
  - rewrite lookup_delete_eq. repeat case_decide; set_solver.
  - rewrite lookup_delete_ne by done. repeat case_decide; set_solver.
Qed.

Lemma evict_run size num_embeds s :
  ok size s -> num_embeds <= num_freeable_slots s ->
  succeeds (evict_loop num_embeds (freeable s)) s (fun _ s' =>
    ok size s' /\ num_embeds <= num_free_slots s'
    /\ exists old, evicted old s s'
       /\ (forall pre x, old = pre ++ [x] -> num_free_slots s + sum_of pre.*2 < num_embeds)).
Proof.
  remember (freeable s) as q eqn:Hq. revert s Hq.
  induction q as [|[h n] q IH]; intros s Hq Hok Hroom; simpl; repeat sstep.
  all: destruct (Z.leb_spec num_embeds (num_free_slots s)) as [Hle|Hgt]; repeat sstep.
  1, 3: (split_and!; [done|done|]; exists []; split; [apply evicted_nil|];
         intros pre x Hx; by destruct pre).
  - destruct Hok. rewrite <- Hq in *. simpl in *. lia.
  - symmetry in Hq.
    assert (cached s !! h = Some ∅) as Hh.
    { apply (ok_freeable _ _ Hok). rewrite Hq. left. }
    eapply succeeds_of_option; [exact Hh|]. repeat sstep.
    set (s1 := add_free n _). pose proof (ok_evict _ _ _ _ _ (freed s ++ [h]) Hok Hq) as Hok1.
    eapply succeeds_mono; [apply (IH s1); [done|exact Hok1|done]|].
    intros [] s2 (Hok2 & Hfit & old & Hev & Hmin). split_and!; [done|done|].
    exists ((h, n) :: old). split.
    + destruct Hev as [Hf Hfd Hca Hfr Hro Hsi].
      split; rewrite ?fmap_cons, ?sum_of_cons in *; cbn [fst snd foldl] in *; try done.
      * change (freeable s1) with q in Hf. by rewrite Hq, Hf.
      * rewrite Hfd. simpl. by rewrite <- app_assoc.
      * rewrite Hfr. simpl. lia.
    + intros pre x Hpre. destruct pre as [|y pre]; simplify_eq/=; [lia|].
      specialize (Hmin _ _ eq_refl). simpl in Hmin. change (list_fmap _ _ snd pre) with (pre.*2). lia.
Qed.

(** [can_allocate] answers exactly whether the item fits: its own size within the
    compute budget, and with what is already scheduled within the freeable slots. *)
Definition fits (size : mm_key -> Z) (h : mm_key) (budget k : Z) (s : t) : Prop :=
  size h <= budget /\ size h + k <= num_freeable_slots s.

Lemma can_allocate_run size request i h budget k s :
  ok size s -> has_input size request i h ->
  succeeds (can_allocate request i budget k) s (fun b s' =>
    ok size s' /\ (b = true <-> fits size h budget k s)
    /\ (b = true -> size h + k <= num_free_slots s')
    /\ exists old, evicted old s s'
       /\ (forall pre x, old = pre ++ [x] ->
            b = true /\ num_free_slots s + sum_of pre.*2 < size h + k)).
Proof.
  intros Hok (_ & Hn & _). unfold can_allocate, fits. rewrite Hn. repeat sstep.
  eapply succeeds_of_result; [done|]. pose proof (ok_bounds _ _ Hok).
  assert (forall b : bool, exists old, evicted old s s /\ (forall pre x, old = pre ++ [x] ->
            b = true /\ num_free_slots s + sum_of pre.*2 < size h + k)) as Hnone.
  { intros b. exists []. split; [apply evicted_nil|]. intros pre x Hx. by destruct pre. }
  destruct (Z.ltb_spec budget (size h)).
  { repeat sstep. split_and!; [done| |done|apply Hnone]. split; [done|lia]. }
  repeat sstep. destruct (Z.leb_spec (size h + k) (num_free_slots s)).
  { repeat sstep. split_and!; [done| |done|apply Hnone]. split; [lia|done]. }
  destruct (Z.ltb_spec (num_freeable_slots s) (size h + k)).
  { repeat sstep. split_and!; [done| |done|apply Hnone]. split; [done|lia]. }
  sstep. eapply succeeds_mono; [by apply (evict_run size)|].
  intros [] s' (Hok' & Hfit & old & Hev & Hmin). sstep. split_and!; [done|by split; [lia|]|done|].
  exists old. split; [done|]. intros pre x Hx. split; [done|]. by eapply Hmin.
Qed.

Lemma evicted_absent old s s' h : evicted old s s' -> absent s h -> absent s' h.
Proof.
  intros [] Hh. unfold absent. rewrite ev_cached0, deleted_lookup. by case_decide.
Qed.

(** Eviction never takes an entry that is referenced. *)
Lemma evicted_holds size old s s' rid h :
  ok size s -> evicted old s s' -> holds s rid h -> holds s' rid h.
Proof.
  intros Hok [] (ids & Hh & Hin). exists ids. split; [|done].
  rewrite ev_cached0, deleted_lookup, decide_False; [done|]. intros Hold.
  assert (h ∈ (freeable s).*1) as Hf by (rewrite ev_freeable0, fmap_app; set_solver).
  apply (ok_freeable _ _ Hok) in Hf. rewrite Hh in Hf. set_solver.
Qed.

Lemma allocate_run size request i h s :
  ok size s -> has_input size request i h -> absent s h -> size h <= num_free_slots s ->
  allocate request i s
  = Ret tt (add_freeable (- size h) (add_free (- size h)
       (set_cached (<[h := {[request_id request]}]> (cached s)) s))).
Proof.
  intros Hok (Hh & Hn & Hpos) Habs Hroom. unfold allocate. rewrite Hh, Hn.
  pose proof (ok_bounds _ _ Hok) as Hb. unfold absent in Habs.
  cbn [of_option of_result bind ret modify get]. rewrite Habs.
  unfold bind at 1 2 3 4. cbn [ret modify of_result get].
  unfold bind, modify, get. cbn [num_free_slots num_freeable_slots set_cached].
  rewrite !(proj2 (Z.leb_le _ _)) by lia. cbn [assert ret].
  rewrite (add_ref_run _ _ _ ∅) by apply lookup_insert_eq. cbn [cached set_cached].
  rewrite insert_insert_eq, left_id_L by apply _. done.
Qed.

Lemma free_input_run size request i h s :
  ok size s -> has_input size request i h ->
  succeeds (free_encoder_input request i) s (fun _ s' =>
    ok size s' /\ num_free_slots s' = num_free_slots s
    /\ (forall h', absent s h' -> absent s' h')
    /\ (forall rid h', rid <> request_id request -> holds s rid h' -> holds s' rid h')
    /\ (forall rid h', holds s' rid h' -> holds s rid h')
    /\ ~ holds s' (request_id request) h).
Proof.
  intros Hok (Hh & Hn & _). unfold free_encoder_input. rewrite Hh, Hn. repeat sstep.
  eapply succeeds_of_option; [done|]. repeat sstep.
  case_decide as Hd.
  { repeat sstep. split_and!; try done. intros (ids & Hids & Hin). rewrite Hids in Hd.
    simpl in Hd. set_solver. }
  destruct (cached s !! h) as [ids|] eqn:Hc; [|done]. simpl in Hd. sstep.
  eapply succeeds_eq; [by apply discard_ref_run|]. repeat sstep. simpl. rewrite lookup_insert_eq.
  set (ids' := ids ∖ {[request_id request]}).
  assert (forall s', cached s' = <[h := ids']> (cached s) ->
    (forall h', absent s h' -> absent s' h')
    /\ (forall rid h', rid <> request_id request -> holds s rid h' -> holds s' rid h')
    /\ (forall rid h', holds s' rid h' -> holds s rid h')
    /\ ~ holds s' (request_id request) h) as Hrest.
  { intros s' Hs'. unfold absent, holds. rewrite Hs'. split_and!.
    - intros h' Hh'. rewrite lookup_insert_ne; [done|]. congruence.
    - intros rid h' Hr (x & Hx & Hin). destruct (decide (h = h')) as [<-|].
      + rewrite lookup_insert_eq. simplify_eq. exists ids'. set_solver.
      + rewrite lookup_insert_ne by done. eauto.
    - intros rid h' (x & Hx & Hin). destruct (decide (h = h')) as [<-|].
      + rewrite lookup_insert_eq in Hx. simplify_eq. exists ids. set_solver.
      + rewrite lookup_insert_ne in Hx by done. eauto.
    - rewrite lookup_insert_eq. intros (x & [= <-] & Hin). set_solver. }
  case_decide as Hd'; repeat sstep.
  - split_and!; [|done|by apply Hrest..]. apply (inj Some) in Hd'. rewrite Hd'.
    by eapply ok_release.
  - split_and!; [|done|by apply Hrest..]. eapply ok_hold; [done|done|done|congruence].
Qed.

Lemma elem_of_cached_ids request s i :
  i ∈ get_cached_input_ids request s
  <-> 0 <= i < len (mm_features request) /\ input_cached request s i = true.
Proof.
  unfold get_cached_input_ids.
  rewrite elem_of_list_to_set, list_elem_of_filter, elem_of_py_range. tauto.
Qed.

(** After [free] no item of the request is referenced by it. *)
Lemma free_run `{SetIter} size request s :
  ok size s -> consistent size request ->
  succeeds (free request) s (fun _ s' =>
    ok size s' /\ num_free_slots s' = num_free_slots s
    /\ (forall h', absent s h' -> absent s' h')
    /\ (forall rid h', rid <> request_id request -> holds s rid h' -> holds s' rid h')
    /\ (forall i h, has_input size request i h -> 0 <= i -> ~ holds s' (request_id request) h)).
Proof.
  intros Hok Hc. unfold free. sstep. sstep.
  set (l := set_iter _).
  eapply succeeds_mono; [apply (succeeds_mfor _ (fun pre _ s' =>
    ok size s' /\ num_free_slots s' = num_free_slots s
    /\ (forall h', absent s h' -> absent s' h')
    /\ (forall rid h', rid <> request_id request -> holds s rid h' -> holds s' rid h')
    /\ (forall h', ~ holds s (request_id request) h' -> ~ holds s' (request_id request) h')
    /\ (forall i h, i ∈ pre -> has_input size request i h -> ~ holds s' (request_id request) h)))|].
  - split_and!; try done. intros i h Hi. by apply not_elem_of_nil in Hi.
  - intros pre i todo s1 Hl (Hok1 & Hf1 & Ha1 & Hh1 & Hn1 & Hp1).
    assert (i ∈ l) as Hi by (rewrite Hl; set_solver).
    apply elem_of_set_iter, elem_of_cached_ids in Hi as [Hi _].
    destruct (consistent_range size request i Hc Hi) as [h Hin].
    eapply succeeds_mono; [by apply (free_input_run size)|].
    intros [] s2 (Hok2 & Hf2 & Ha2 & Hh2 & Hb2 & Hn2).
    split_and!; [done|congruence|by auto|by auto|naive_solver|].
    intros j h' Hj Hj'. apply elem_of_app in Hj as [Hj|Hj%list_elem_of_singleton]; [naive_solver|].
    subst j. destruct Hin as [E _], Hj' as [E' _]. congruence.
  - intros [] s1 (Hok1 & Hf1 & Ha1 & Hh1 & Hn1 & Hp1). split_and!; try done.
    intros i h Hin Hi. assert (i < len (mm_features request)).
    { destruct Hin as (E & _). unfold mm_hash_of in E. rewrite py_index_nonneg in E by done.
      destruct (mm_features request !! Z.to_nat i) eqn:Ef; [|done].
      apply lookup_lt_Some in Ef. unfold len. lia. }
    destruct (input_cached request s i) eqn:E.
    + eapply Hp1; [|done]. apply elem_of_set_iter, elem_of_cached_ids. done.
    + apply Hn1. intros (ids & Hids & _). unfold input_cached in E. destruct Hin as [Eh _].
      rewrite Eh, Hids in E. done.
Qed.
End inv.
End CacheInv.

(** ** [EncoderCacheManager] keeps the promise *)

#[export] Instance manager_ops `{SetIter} : EncoderCache EncoderCacheManager.t := {
  ec_check_and_update_cache := EncoderCacheManager.check_and_update_cache;
  ec_can_allocate := EncoderCacheManager.can_allocate;
  ec_allocate := EncoderCacheManager.allocate;
  ec_get_cached_input_ids r := gets (EncoderCacheManager.get_cached_input_ids r);
  ec_free_encoder_input := EncoderCacheManager.free_encoder_input;
  ec_free := EncoderCacheManager.free;
  ec_get_freed_mm_hashes := EncoderCacheManager.get_freed_mm_hashes;
  ec_reset := EncoderCacheManager.reset;
}.

#[export] Program Instance manager_laws `{SetIter} cap size :
  EncoderCacheLaws EncoderCacheManager.t size := {
  ec_ok := CacheInv.ok cap size;
  ec_room := EncoderCacheManager.num_free_slots;
  ec_absent := CacheInv.absent;
  ec_holds := CacheInv.holds;
}.
Next Obligation. intros ? cap size s Hok. by apply (CacheInv.ok_bounds cap size). Qed.
Next Obligation. intros. by eapply CacheInv.check_run. Qed.
Next Obligation.
  intros ? cap size request i h budget k s Hok Hin. simpl.
  eapply succeeds_mono; [by apply (CacheInv.can_allocate_run cap size _ _ h)|].
  intros b s' (Hok' & Hb & Hfit & old & Hev & Hmin). split_and!; [done|..].
  - rewrite (CacheInv.ev_free _ _ _ Hev).
    assert (0 <= sum_of old.*2); [|lia].
    apply sum_of_nonneg, Forall_fmap, Forall_forall. intros [h' n] Hin'.
    assert ((h', n) ∈ EncoderCacheManager.freeable s) as Hf.
    { rewrite (CacheInv.ev_freeable _ _ _ Hev). set_solver. }
    pose proof (CacheInv.ok_sizes _ _ _ Hok) as Hs. rewrite Forall_forall in Hs.
    specialize (Hs _ Hf). simpl in *. subst n. apply (CacheInv.ok_nonneg _ _ _ Hok).
    exists ∅. apply (CacheInv.ok_freeable _ _ _ Hok). apply list_elem_of_fmap.
    by exists (h', size h').
  - intros h'. by eapply CacheInv.evicted_absent.
  - intros rid h'. by eapply CacheInv.evicted_holds.
  - intros ->. split; [|by auto]. by apply Hb.
Qed.
Next Obligation.
  intros ? cap size request i h s Hok Hin Habs Hroom. simpl in *.
  eapply succeeds_eq; [by eapply CacheInv.allocate_run|].
  split_and!; [|done|..].
  - apply CacheInv.ok_insert; [done|done|set_solver|]. destruct Hin as (_ & _ & ?). lia.
  - intros h' Hne Hh'. unfold CacheInv.absent in *. simpl. by rewrite lookup_insert_ne.
  - intros rid h' (ids & Hh' & Hr). exists ids. split; [|done]. simpl.
    rewrite lookup_insert_ne; [done|]. unfold CacheInv.absent in *. congruence.
  - eexists. simpl. rewrite lookup_insert_eq. split; [done|]. set_solver.
Qed.
Next Obligation.
  intros. simpl. eapply succeeds_mono; [by eapply CacheInv.free_input_run|].
  intros [] s' (? & Hf & ? & ? & _). rewrite Hf. by split_and!.
Qed.
Next Obligation.
  intros. simpl. repeat sstep. split; [done|].
  intros i Hi. by apply CacheInv.elem_of_cached_ids in Hi as [? _].
Qed.
Next Obligation.
  intros. simpl. eapply succeeds_mono; [by eapply CacheInv.free_run|].
  intros [] s' (? & Hf & ? & ? & _). rewrite Hf. by split_and!.
Qed.
Next Obligation.
  intros. simpl in *. unfold EncoderCacheManager.get_freed_mm_hashes. repeat sstep.
  by split_and!; [destruct H0|..].
Qed.
Next Obligation.
  intros ? cap size s Hok. simpl in *. unfold EncoderCacheManager.reset. sstep.
  rewrite (CacheInv.ok_cap _ _ _ Hok). apply CacheInv.ok_init.
  rewrite <- (CacheInv.ok_cap _ _ _ Hok). pose proof (CacheInv.ok_bounds cap size s Hok). lia.
Qed.

(** [can_allocate] and eviction.  The call never raises.  It answers [true]
    exactly if the item is within the compute budget and, with what is already
    scheduled, within the slots that are free or can be freed; it then has made
    that many slots free by evicting the oldest unreferenced entries, reported in
    [freed], and no more of them than needed.  Answering [false] changes nothing. *)
Theorem can_allocate_evicts_oldest cap size request i h budget k s :
  CacheInv.ok cap size s -> has_input size request i h ->
  exists b s', EncoderCacheManager.can_allocate request i budget k s = Ret b s'
    /\ (b = true <-> size h <= budget
                     /\ size h + k <= EncoderCacheManager.num_freeable_slots s)
    /\ (b = false -> s' = s)
    /\ (b = true -> size h + k <= EncoderCacheManager.num_free_slots s')
    /\ exists old,
         EncoderCacheManager.freeable s = old ++ EncoderCacheManager.freeable s'
         /\ EncoderCacheManager.freed s' = EncoderCacheManager.freed s ++ old.*1
         /\ (forall h', EncoderCacheManager.cached s' !! h'
              = if decide (h' ∈ old.*1) then None else EncoderCacheManager.cached s !! h')
         /\ EncoderCacheManager.num_free_slots s'
            = EncoderCacheManager.num_free_slots s + sum_of old.*2
         /\ (forall pre x, old = pre ++ [x] ->
              EncoderCacheManager.num_free_slots s + sum_of pre.*2 < size h + k).
Proof.
  intros Hok Hin.
  destruct (succeeds_inv _ _ _ (CacheInv.can_allocate_run cap size _ _ h budget k s Hok Hin))
    as (b & s' & Hrun & _ & Hb & Hfit & old & Hev & Hmin).
  exists b, s'. do 2 (split; [done|]). split; [|split; [done|]].
  - intros ->. destruct old as [|x old _] using rev_ind.
    + destruct Hev as [H1 H2 H3 H4 H5 H6], s, s'. simpl in *. rewrite app_nil_r in H2.
      f_equal; congruence || lia.
    + by destruct (Hmin old x eq_refl).
  - exists old. destruct Hev as [Hf Hfr Hc Hn _ _]. split_and!; [done|done| |done|].
    + intros h'. by rewrite Hc, CacheInv.deleted_lookup.
    + intros pre x Hx. by destruct (Hmin pre x Hx).
Qed.

(** ** A concrete cache: capacity 6, one unreferenced image of 4 embeddings *)

Definition demo_image (h : string) (start : Z) : MultiModalFeature :=
  {| identifier := Some h;
     mm_position := {| offset := start; length_ := 4; is_embed := None |} |}.

Definition demo_encoder_request (rid : string) (computed : Z) (images : list MultiModalFeature)
  : Request :=
  {| request_id := rid; obj_id := 0; priority := 0; arrival_time := 0; sampling_params := None;
     pooling_params := None; lora_request := None; use_structured_output := false;
     status := RUNNING; stop_reason := None; max_tokens := 16; prompt_token_ids := None;
     prompt_embeds := None; prompt_embeds_per_block_hashes := ∅; num_prompt_tokens := 16;
     output_token_ids := []; all_token_ids := replicate 16 0; spec_token_ids := [];
     num_computed_tokens := computed; num_preemptions := 0; cache_salt := None;
     mm_features := images; block_hashes := []; skip_reading_prefix_cache := false;
     num_output_placeholders := 0; is_prefill_chunk := false; discard_latest_async_tokens := false |}.

Definition demo_size (h : mm_key) : Z := 4.

Definition demo_cache : EncoderCacheManager.t :=
  {| EncoderCacheManager.cache_size := 6; EncoderCacheManager.num_free_slots := 2;
     EncoderCacheManager.num_freeable_slots := 6;
     EncoderCacheManager.cached := {[Some "cat" := ∅]};
     EncoderCacheManager.freeable := [(Some "cat", 4)]; EncoderCacheManager.freed := [] |}.

Lemma demo_cache_ok : CacheInv.ok 6 demo_size demo_cache.
Proof.
  split; try done.
  - apply NoDup_singleton.
  - intros h. simpl. rewrite list_elem_of_singleton, lookup_singleton_Some. naive_solver.
  - by constructor.
Qed.

Lemma can_allocate_evicts_oldest_witness :
  has_input demo_size (demo_encoder_request "r" 0 [demo_image "dog" 0]) 0 (Some "dog")
  /\ exists s', EncoderCacheManager.can_allocate
                  (demo_encoder_request "r" 0 [demo_image "dog" 0]) 0 8 0 demo_cache = Ret true s'
       /\ EncoderCacheManager.freed s' = [Some "cat"].
Proof.
  assert (has_input demo_size (demo_encoder_request "r" 0 [demo_image "dog" 0]) 0 (Some "dog"))
    as Hin by (split_and!; done).
  split; [exact Hin|].
  destruct (can_allocate_evicts_oldest 6 demo_size _ _ _ 8 0 demo_cache demo_cache_ok Hin)
    as (b & s' & Hrun & Hb & _ & _ & _).
  assert (b = true) as -> by (apply Hb; split; done).
  exists s'. split; [exact Hrun|].
  assert (match EncoderCacheManager.can_allocate
                  (demo_encoder_request "r" 0 [demo_image "dog" 0]) 0 8 0 demo_cache with
          | Ret _ s => EncoderCacheManager.freed s = [Some "cat"] | Raise _ _ => False end)
    as Hc by (vm_compute; reflexivity).
  rewrite Hrun in Hc. exact Hc.
Defined.
