(* ===== verification/EncoderSched.v ===== *)
(** * Scheduling encoder inputs

    Models the part of vllm/v1/core/sched/scheduler.py that decides which
    multi-modal items are encoded in a step: [_try_schedule_encoder_inputs], the
    allocation of the inputs it returns, and [_free_encoder_inputs].  The model is
    written against the interface [EncoderCache], so it runs with either manager,
    as [Scheduler.encoder_cache_manager] does. *)

From S2P Require Import Prelude Request EncoderCache.
From stdpp Require Import options.

(** The fields of [Scheduler] this part reads.  [ec_has_cache_item] is
    [ec_connector.has_cache_item], [None] when there is no connector. *)
Record EncoderSchedConfig := {
  is_encoder_decoder : bool;
  no_chunked_mm_input : bool;  (** [scheduler_config.disable_chunked_mm_input] *)
  ec_has_cache_item : option (mm_key -> bool);
}.

(** The local variables of [_try_schedule_encoder_inputs]. *)
Record enc_locals := {
  encoder_inputs_to_schedule : list Z;
  num_new_tokens : Z;
  encoder_compute_budget : Z;
  external_load_encoder_input : list Z;
  mm_hashes_to_schedule : gset mm_key;
  num_embeds_to_schedule : Z;
}.

Definition enc_start (num_new_tokens budget : Z) : enc_locals :=
  {| encoder_inputs_to_schedule := []; num_new_tokens := num_new_tokens;
     encoder_compute_budget := budget; external_load_encoder_input := [];
     mm_hashes_to_schedule := ∅; num_embeds_to_schedule := 0 |}.

Definition set_new_tokens (n : Z) (v : enc_locals) : enc_locals :=
  {| encoder_inputs_to_schedule := encoder_inputs_to_schedule v; num_new_tokens := n;
     encoder_compute_budget := encoder_compute_budget v;
     external_load_encoder_input := external_load_encoder_input v;
     mm_hashes_to_schedule := mm_hashes_to_schedule v;
     num_embeds_to_schedule := num_embeds_to_schedule v |}.

Definition schedule_input (i : Z) (h : mm_key) (n : Z) (v : enc_locals) : enc_locals :=
  {| encoder_inputs_to_schedule := encoder_inputs_to_schedule v ++ [i];
     num_new_tokens := num_new_tokens v;
     encoder_compute_budget := encoder_compute_budget v - n;
     external_load_encoder_input := external_load_encoder_input v;
     mm_hashes_to_schedule := mm_hashes_to_schedule v ∪ {[h]};
     num_embeds_to_schedule := num_embeds_to_schedule v + n |}.

Definition load_external (i : Z) (h : mm_key) (n : Z) (v : enc_locals) : enc_locals :=
  {| encoder_inputs_to_schedule := encoder_inputs_to_schedule v;
     num_new_tokens := num_new_tokens v;
     encoder_compute_budget := encoder_compute_budget v;
     external_load_encoder_input := external_load_encoder_input v ++ [i];
     mm_hashes_to_schedule := mm_hashes_to_schedule v ∪ {[h]};
     num_embeds_to_schedule := num_embeds_to_schedule v + n |}.

Section sched.
Context {S : Type} `{EncoderCache S} (config : EncoderSchedConfig).

Section loop.
Context (request : Request) (num_computed_tokens shift_computed_tokens : Z).

(** [for i, mm_feature in enumerate(mm_features)]; [ret v] is [break]. *)
Fixpoint enc_loop (features : list MultiModalFeature) (i : Z) (v : enc_locals)
  : M S enc_locals :=
  match features with
  | [] => ret v
  | mm_feature :: features =>
      let pos := mm_position mm_feature in
      let start_pos := offset pos in
      let num_encoder_tokens := length_ pos in
      let num_encoder_embeds := get_num_embeds pos in
      let item_identifier := identifier mm_feature in
      if num_computed_tokens + num_new_tokens v + shift_computed_tokens <=? start_pos then ret v
      else if (is_encoder_decoder config && (0 <? num_computed_tokens))%bool then
        assert (start_pos =? 0) ;;; enc_loop features (i + 1) v
      else if start_pos + num_encoder_tokens <=? num_computed_tokens then
        enc_loop features (i + 1) v
      else
        have <- (if is_encoder_decoder config then ret false
                 else if decide (item_identifier ∈ mm_hashes_to_schedule v) then ret true
                 else ec_check_and_update_cache request i) ;;
        if have : bool then enc_loop features (i + 1) v
        else if (no_chunked_mm_input config && (num_computed_tokens <? start_pos)
                 && (num_computed_tokens + num_new_tokens v
                     <? start_pos + num_encoder_tokens))%bool then
          ret (set_new_tokens
                 (Z.max 0 (start_pos - (num_computed_tokens + shift_computed_tokens))) v)
        else
          fits <- ec_can_allocate request i (encoder_compute_budget v) (num_embeds_to_schedule v) ;;
          if negb fits then
            ret (set_new_tokens
                   (if num_computed_tokens + shift_computed_tokens <? start_pos
                    then start_pos - (num_computed_tokens + shift_computed_tokens) else 0) v)
          else
            let start_idx_rel := Z.max 0 (num_computed_tokens - start_pos) in
            let end_idx_rel :=
              Z.min num_encoder_tokens (num_computed_tokens + num_new_tokens v - start_pos) in
            curr <- of_option IndexError
                      (get_embeds_indices_in_range pos start_idx_rel end_idx_rel) ;;
            if curr.2 - curr.1 =? 0 then enc_loop features (i + 1) v
            else if (match ec_has_cache_item config with
                     | Some has => has item_identifier
                     | None => false
                     end)
            then enc_loop features (i + 1) (load_external i item_identifier num_encoder_embeds v)
            else enc_loop features (i + 1) (schedule_input i item_identifier num_encoder_embeds v)
  end.

Definition _try_schedule_encoder_inputs (new_tokens budget : Z) : M S enc_locals :=
  if ((new_tokens =? 0) || negb (has_encoder_inputs request))%bool
  then ret (enc_start new_tokens budget)
  else enc_loop (mm_features request) 0 (enc_start new_tokens budget).
End loop.

(** [for i in encoder_inputs_to_schedule: allocate(request, i)], then the same for
    [external_load_encoder_input]. *)
Definition allocate_encoder_inputs (request : Request) (v : enc_locals) : M S unit :=
  mfor (encoder_inputs_to_schedule v) (ec_allocate request) ;;;
  mfor (external_load_encoder_input v) (ec_allocate request).

(** Whether [_free_encoder_inputs] frees the input. *)
Definition input_done (request : Request) (f : MultiModalFeature) : bool :=
  ((is_encoder_decoder config && (0 <? num_computed_tokens request))
   || (offset (mm_position f) + length_ (mm_position f) <=? num_computed_tokens request))%bool.

Definition _free_encoder_inputs `{SetIter} (request : Request) : M S unit :=
  cached_encoder_input_ids <- ec_get_cached_input_ids request ;;
  mfor (set_iter cached_encoder_input_ids) (fun input_id =>
    mm_feature <- of_option IndexError (py_index (mm_features request) input_id) ;;
    if input_done request mm_feature then ec_free_encoder_input request input_id else ret tt).

(** What becomes of a request after its encoder inputs were planned. *)
Inductive fate :=
  | Scheduled  (** it got its KV-cache blocks *)
  | NoBlocks   (** it did not: its references are given up *)
  | NoTokens.  (** no token can be scheduled: it waits *)

(** One request in [schedule()]: its inputs are planned, other requests may be
    preempted to make room for its blocks, then the planned inputs are allocated. *)
Definition schedule_request (request : Request) (computed shift new_tokens budget : Z)
    (preempted : list Request) (outcome : fate) : M S enc_locals :=
  v <- _try_schedule_encoder_inputs request computed shift new_tokens budget ;;
  mfor preempted ec_free ;;;
  match outcome with
  | Scheduled => allocate_encoder_inputs request v
  | NoBlocks => ec_free request
  | NoTokens => ret tt
  end ;;;
  ret v.

End sched.

(** ** Placeholders *)

(** The mask of a placeholder, if any, has one bit per token. *)
Definition well_placed (f : MultiModalFeature) : Prop :=
  0 <= offset (mm_position f) /\ 0 <= length_ (mm_position f)
  /\ match is_embed (mm_position f) with
     | Some m => len m = length_ (mm_position f)
     | None => True
     end.

(** The model runner reads the item when it computes [n] tokens from [computed] on
    ([_gather_mm_embeddings] of gpu_model_runner.py): the ranges overlap and the
    overlap has embeddings. *)
Definition needed (f : MultiModalFeature) (computed n : Z) : Prop :=
  let pos := mm_position f in
  offset pos < computed + n /\ computed < offset pos + length_ pos
  /\ exists a b, get_embeds_indices_in_range pos (Z.max (computed - offset pos) 0)
                   (Z.min (computed - offset pos + n) (length_ pos)) = Some (a, b)
       /\ a <> b.

(** Number of embeddings before position [i]. *)
Definition embeds_before (m : list bool) (i : Z) : Z :=
  len (filter (fun b : bool => b = true) (take (Z.to_nat i) m)).

Lemma cumsum_lookup acc l i :
  (i < length l)%nat ->
  cumsum acc l !! i = Some (acc + len (filter (fun b : bool => b = true) (take (S i) l))).
Proof.
  revert acc i. induction l as [|b l IH]; intros acc i Hi; simpl in Hi; [lia|].
  assert (len (filter (fun b : bool => b = true) (take (S i) (b :: l)))
          = (if b then 1 else 0) + len (filter (fun b : bool => b = true) (take i l))) as ->.
  { simpl. rewrite filter_cons. destruct b; case_decide; try done. rewrite len_cons. lia. }
  destruct i as [|i]; [simpl; rewrite take_0; simpl; f_equal; unfold len; simpl; lia|].
  change (cumsum acc (b :: l) !! S i) with (cumsum (acc + (if b then 1 else 0)) l !! i).
  rewrite IH by lia. f_equal. lia.
Qed.

Lemma embeds_range f a b :
  well_placed f -> 0 <= a -> 0 <= b -> a <= length_ (mm_position f) ->
  b <= length_ (mm_position f) ->
  get_embeds_indices_in_range (mm_position f) a b
  = Some (match is_embed (mm_position f) with
          | Some m => (embeds_before m a, embeds_before m b)
          | None => (a, b)
          end).
Proof.
  intros (_ & _ & Hm) Ha Hb Hal Hbl. unfold get_embeds_indices_in_range, embeds_cumsum.
  destruct (is_embed (mm_position f)) as [m|]; [simpl|done].
  assert (forall x, 0 <= x <= length_ (mm_position f) ->
    (if 0 <? x then py_index (cumsum 0 m) (x - 1) else Some 0) = Some (embeds_before m x)) as Hx.
  { intros x Hx. unfold embeds_before. destruct (Z.ltb_spec 0 x).
    - rewrite py_index_nonneg, cumsum_lookup by (unfold len in *; lia).
      by replace (S (Z.to_nat (x - 1))) with (Z.to_nat x) by lia.
    - replace x with 0 by lia. by rewrite take_0. }
  by rewrite !Hx by lia.
Qed.

Lemma embeds_before_mono m a b : a <= b -> embeds_before m a <= embeds_before m b.
Proof.
  intros Hab. unfold embeds_before.
  rewrite <- (take_drop (Z.to_nat a) (take (Z.to_nat b) m)), filter_app, len_app, take_take.
  rewrite Nat.min_l by lia. pose proof (len_nonneg (filter (fun x : bool => x = true)
    (drop (Z.to_nat a) (take (Z.to_nat b) m)))). lia.
Qed.

(** The test of the loop decides whether the item is needed. *)
Lemma needed_iff f c n :
  well_placed f -> 0 <= n -> c < offset (mm_position f) + length_ (mm_position f) ->
  offset (mm_position f) < c + n ->
  exists a b,
    get_embeds_indices_in_range (mm_position f) (Z.max 0 (c - offset (mm_position f)))
      (Z.min (length_ (mm_position f)) (c + n - offset (mm_position f))) = Some (a, b)
    /\ a <= b /\ (needed f c n <-> a <> b).
Proof.
  intros Hw Hn Hc Ho. destruct (Hw) as (Hoff & Hlen & _). unfold needed.
  rewrite (Z.max_comm _ 0), (Z.min_comm _ (length_ _)).
  replace (c - offset (mm_position f) + n) with (c + n - offset (mm_position f)) by lia.
  rewrite embeds_range by (done || lia).
  destruct (is_embed (mm_position f)) as [m|]; do 2 eexists; (split; [done|]).
  - split; [apply embeds_before_mono; lia|]. naive_solver.
  - split; [lia|]. naive_solver lia.
Qed.

Lemma needed_mono f c n n' :
  well_placed f -> 0 <= n <= n' -> needed f c n -> needed f c n'.
Proof.
  intros Hw Hn Hneed. destruct (Hw) as (Hoff & Hlen & _). assert (Hneed' := Hneed). destruct Hneed' as (Ho & Hc & _).
  destruct (needed_iff f c n) as (a & b & E & Hab & Hiff); [done|lia..|].
  destruct (needed_iff f c n') as (a' & b' & E' & Hab' & Hiff'); [done|lia..|].
  apply Hiff in Hneed. apply Hiff'.
  rewrite embeds_range in E, E' by (done || lia).
  destruct (is_embed (mm_position f)) as [m|]; simplify_eq; [|lia].
  pose proof (embeds_before_mono m (Z.min (length_ (mm_position f)) (c + n - offset (mm_position f)))
    (Z.min (length_ (mm_position f)) (c + n' - offset (mm_position f)))). lia.
Qed.

Lemma not_needed_after f c n : 0 <= n -> c + n <= offset (mm_position f) -> ~ needed f c n.
Proof. intros Hn Ho (? & _). lia. Qed.

(** The range the loop looks at; one token of lookahead does not extend it. *)
Lemma curr_range f c n :
  well_placed f -> 0 <= n -> c < offset (mm_position f) + length_ (mm_position f) ->
  offset (mm_position f) <= c + n ->
  exists a b,
    get_embeds_indices_in_range (mm_position f) (Z.max 0 (c - offset (mm_position f)))
      (Z.min (length_ (mm_position f)) (c + n - offset (mm_position f))) = Some (a, b)
    /\ (b - a = 0 -> ~ needed f c n).
Proof.
  intros Hw Hn Hc Ho. destruct (decide (offset (mm_position f) < c + n)) as [Hlt|Hge].
  - destruct (needed_iff f c n) as (a & b & E & _ & Hiff); [done..|].
    exists a, b. split; [done|]. intros Hab. rewrite Hiff. lia.
  - destruct (Hw) as (_ & Hlen & _). rewrite embeds_range by (done || lia).
    destruct (is_embed (mm_position f)); do 2 eexists; (split; [done|]);
      intros _; apply not_needed_after; lia.
Qed.

Lemma not_needed_zero f c : ~ needed f c 0.
Proof.
  intros (Ho & Hc & a & b & E & Hne). apply Hne.
  replace (Z.min (c - offset (mm_position f) + 0) (length_ (mm_position f)))
    with (Z.max (c - offset (mm_position f)) 0) in E by lia.
  revert E. unfold get_embeds_indices_in_range. destruct (embeds_cumsum _); simpl.
  - destruct (if 0 <? _ then _ else _); simpl; congruence.
  - congruence.
Qed.

(** ** The loop *)

(** The number of embeddings of the inputs in a list. *)
Definition embeds_of (request : Request) (i : Z) : Z :=
  match get_num_encoder_embeds request i with inr n => n | inl _ => 0 end.

Definition sum_embeds (request : Request) (l : list Z) : Z := sum_of (embeds_of request <$> l).

Lemma sum_of_perm (l1 l2 : list Z) : l1 ≡ₚ l2 -> sum_of l1 = sum_of l2.
Proof. induction 1; simpl; lia. Qed.

(** Requests the engine hands to the scheduler: the items in the order of their
    positions, masks of the right length, and for an encoder-decoder model every
    item at the start. *)
Record encodable (size : mm_key -> Z) (config : EncoderSchedConfig) (request : Request) : Prop := {
  enc_consistent : consistent size request;
  enc_placed : Forall well_placed (mm_features request);
  enc_sorted : forall i j f g, (i <= j)%nat -> mm_features request !! i = Some f ->
    mm_features request !! j = Some g -> offset (mm_position f) <= offset (mm_position g);
  enc_at_start : is_encoder_decoder config = true ->
    Forall (fun f => offset (mm_position f) = 0) (mm_features request);
}.

Section sched_spec.
Context {S : Type} `{Hops : EncoderCache S} (size : mm_key -> Z) `{!EncoderCacheLaws S size}.
Context (config : EncoderSchedConfig) (request : Request) (c shift N budget : Z).
(** What is planned so far: [js] pairs the planned inputs with their hashes. *)
Record plan_ok (s : S) (v : enc_locals) (js : list (Z * mm_key)) : Prop := {
  plan_ids : encoder_inputs_to_schedule v ++ external_load_encoder_input v ≡ₚ js.*1;
  plan_hashes : mm_hashes_to_schedule v = list_to_set js.*2;
  plan_distinct : is_encoder_decoder config = false -> NoDup js.*2;
  plan_inputs : Forall (fun x => has_input size request x.1 x.2) js;
  plan_absent : Forall (ec_absent s) js.*2;
  plan_embeds : num_embeds_to_schedule v = sum_of (size <$> js.*2);
  plan_room : num_embeds_to_schedule v <= ec_room s;
  plan_budget :
    encoder_compute_budget v + sum_embeds request (encoder_inputs_to_schedule v) = budget;
  plan_left : Z.min 0 budget <= encoder_compute_budget v;
}.

(** The item will be there when the model runner reads it. *)
Definition covered (s : S) (v : enc_locals) (f : MultiModalFeature) : Prop :=
  is_encoder_decoder config = false -> needed f c (num_new_tokens v) ->
  ec_holds s (request_id request) (identifier f) \/ identifier f ∈ mm_hashes_to_schedule v.

Lemma covered_mono s s' v v' f :
  well_placed f -> covered s v f ->
  0 <= num_new_tokens v' <= num_new_tokens v ->
  (forall rid h, ec_holds s rid h -> ec_holds s' rid h) ->
  mm_hashes_to_schedule v ⊆ mm_hashes_to_schedule v' ->
  covered s' v' f.
Proof.
  intros Hw Hcov Hn Hh Hs He Hneed.
  destruct (Hcov He) as [?|?]; [by eapply needed_mono|by auto|by auto].
Qed.

Lemma plan_ok_state s s' v js :
  plan_ok s v js -> ec_room s <= ec_room s' ->
  (forall h, ec_absent s h -> ec_absent s' h) -> plan_ok s' v js.
Proof.
  intros [] Hr Ha. split; try done; [|lia]. eapply Forall_impl; [done|]. intros h. apply Ha.
Qed.

Lemma plan_ok_tokens s v js n : plan_ok s v js -> plan_ok s (set_new_tokens n v) js.
Proof. intros []. by split. Qed.

Lemma has_input_embeds i h : has_input size request i h -> embeds_of request i = size h.
Proof. intros (_ & E & _). unfold embeds_of. by rewrite E. Qed.

Lemma plan_ok_schedule s v js i h :
  plan_ok s v js -> has_input size request i h -> ec_absent s h ->
  (is_encoder_decoder config = false -> h ∉ mm_hashes_to_schedule v) ->
  size h <= encoder_compute_budget v -> size h + num_embeds_to_schedule v <= ec_room s ->
  plan_ok s (schedule_input i h (size h) v) (js ++ [(i, h)]).
Proof.
  intros [] Hi Ha Hnew Hb Hr. assert (0 <= size h) by (destruct Hi as (_ & _ & ?); done).
  split; simpl; rewrite ?fmap_app; simpl; try lia.
  - rewrite <- plan_ids0, <- !app_assoc. apply Permutation_app_head, Permutation_app_comm.
  - rewrite plan_hashes0, list_to_set_app_L. set_solver.
  - intros He. apply NoDup_app. split_and!; [auto| |apply NoDup_singleton].
    intros x Hx Hx'. apply list_elem_of_singleton in Hx' as ->. apply (Hnew He).
    rewrite plan_hashes0. by apply elem_of_list_to_set.
  - apply Forall_app. split; [done|]. by constructor.
  - apply Forall_app. split; [done|]. by constructor.
  - rewrite sum_of_app. simpl. lia.
  - unfold sum_embeds. rewrite fmap_app, sum_of_app. simpl. rewrite (has_input_embeds _ _ Hi).
    unfold sum_embeds in *. lia.
Qed.

Lemma plan_ok_external s v js i h :
  plan_ok s v js -> has_input size request i h -> ec_absent s h ->
  (is_encoder_decoder config = false -> h ∉ mm_hashes_to_schedule v) ->
  size h + num_embeds_to_schedule v <= ec_room s ->
  plan_ok s (load_external i h (size h) v) (js ++ [(i, h)]).
Proof.
  intros [] Hi Ha Hnew Hr.
  split; simpl; rewrite ?fmap_app; simpl; try lia; try done.
  - by rewrite app_assoc, plan_ids0.
  - rewrite plan_hashes0, list_to_set_app_L. set_solver.
  - intros He. apply NoDup_app. split_and!; [auto| |apply NoDup_singleton].
    intros x Hx Hx'. apply list_elem_of_singleton in Hx' as ->. apply (Hnew He).
    rewrite plan_hashes0. by apply elem_of_list_to_set.
  - apply Forall_app. split; [done|]. by constructor.
  - apply Forall_app. split; [done|]. by constructor.
  - rewrite sum_of_app. simpl. lia.
Qed.

(** What planning the inputs of a request guarantees. *)
Definition planned (s : S) (v : enc_locals) (s' : S) : Prop :=
  ec_ok s' /\ (exists js, plan_ok s' v js) /\ 0 <= num_new_tokens v <= N
  /\ Forall (covered s' v) (mm_features request)
  /\ (forall rid h, ec_holds s rid h -> ec_holds s' rid h).

(** Between two iterations: the items in [done] are dealt with. *)
Record progress (s0 s : S) (done : list MultiModalFeature) (v : enc_locals)
    (js : list (Z * mm_key)) : Prop := {
  pr_ok : ec_ok s;
  pr_plan : plan_ok s v js;
  pr_tokens : num_new_tokens v = N;
  pr_covered : Forall (covered s v) done;
  pr_holds : forall rid h, ec_holds s0 rid h -> ec_holds s rid h;
}.

(** The loop stops at the item [f]: nothing from it on is computed. *)
Lemma progress_stop s0 s done f todo v js n :
  encodable size config request -> mm_features request = done ++ f :: todo ->
  progress s0 s done v js -> 0 <= n <= N -> n = 0 \/ c + n <= offset (mm_position f) ->
  planned s0 (set_new_tokens n v) s.
Proof.
  intros [_ Hplaced Hsorted _] Hfs [] Hn Hstop.
  split_and!; [done|exists js; by apply plan_ok_tokens|simpl; lia|simpl; lia| |done].
  rewrite Hfs in Hplaced |- *. apply Forall_app in Hplaced as [Hp1 Hp2]. apply Forall_app. split.
  - rewrite Forall_forall in pr_covered0, Hp1 |- *. intros g Hg.
    eapply covered_mono; [by apply Hp1|by apply pr_covered0|simpl; lia|done|done].
  - apply Forall_forall. intros g Hg _ Hneed. exfalso. simpl in Hneed.
    destruct Hstop as [-> |Hstop]; [by apply not_needed_zero in Hneed|].
    apply list_elem_of_lookup in Hg as [k Hk].
    revert Hneed. apply not_needed_after; [lia|].
    assert (offset (mm_position f) <= offset (mm_position g)); [|lia].
    apply (Hsorted (length done) (length done + k)%nat); [lia|..]; rewrite Hfs.
    + by rewrite list_lookup_middle.
    + by rewrite lookup_app_r, Nat.add_comm, Nat.add_sub by lia.
Qed.

Lemma progress_next s0 s s' done f v v' js js' :
  Forall well_placed done -> progress s0 s done v js ->
  ec_ok s' -> plan_ok s' v' js' -> num_new_tokens v' = N ->
  (forall rid h, ec_holds s rid h -> ec_holds s' rid h) ->
  mm_hashes_to_schedule v ⊆ mm_hashes_to_schedule v' -> covered s' v' f -> 0 <= N ->
  progress s0 s' (done ++ [f]) v' js'.
Proof.
  intros Hp [] Hok Hplan Hn Hh Hsub Hf HN. split; try done; [|by auto].
  apply Forall_app. split; [|by constructor].
  rewrite Forall_forall in pr_covered0, Hp |- *. intros g Hg.
  eapply covered_mono; [by apply Hp|by apply pr_covered0|lia|done|done].
Qed.

Lemma set_new_tokens_same v n : num_new_tokens v = n -> set_new_tokens n v = v.
Proof. by destruct v; intros <-. Qed.

Lemma progress_end s0 s v js :
  0 <= N -> progress s0 s (mm_features request) v js -> planned s0 v s.
Proof. intros HN []. split_and!; [done|by eexists|lia|lia|done|done]. Qed.

(** The question whether the item is there already. *)
Lemma have_spec s f i v :
  ec_ok s -> has_input size request i (identifier f) ->
  (is_encoder_decoder config = true -> forall (s : S) h, ec_absent s h) ->
  succeeds (if is_encoder_decoder config then ret false
            else if decide (identifier f ∈ mm_hashes_to_schedule v) then ret true
            else ec_check_and_update_cache request i) s
    (fun b s' => ec_ok s' /\ ec_room s' = ec_room s
       /\ (forall h, ec_absent s h -> ec_absent s' h)
       /\ (forall rid h, ec_holds s rid h -> ec_holds s' rid h)
       /\ if b : bool then covered s' v f
          else ec_absent s' (identifier f)
               /\ (is_encoder_decoder config = false ->
                   identifier f ∉ mm_hashes_to_schedule v)).
Proof.
  intros Hok Hi Hflag. unfold covered. destruct (is_encoder_decoder config) eqn:He.
  { sstep. split_and!; try done. by apply Hflag. }
  case_decide as Hd; [sstep; split_and!; by auto|].
  eapply succeeds_mono; [by apply ec_check_spec|].
  intros b s' (? & ? & ? & ? & Hb). split_and!; try done. destruct b; [by auto|done].
Qed.

Lemma enc_loop_spec s0 s done todo v js :
  encodable size config request ->
  (is_encoder_decoder config = true -> forall (s : S) h, ec_absent s h) ->
  0 <= N -> 0 <= shift <= 1 -> mm_features request = done ++ todo ->
  progress s0 s done v js ->
  succeeds (enc_loop config request c shift todo (len done) v) s (fun v' s' => planned s0 v' s').
Proof.
  intros Henc Hflag HN Hshift. revert s done v js.
  induction todo as [|f todo IH]; intros s done v js Hfs Hpr; simpl.
  { sstep. rewrite app_nil_r in Hfs. subst done. by eapply progress_end. }
  assert (forall s' v' js', progress s0 s' (done ++ [f]) v' js' ->
    succeeds (enc_loop config request c shift todo (len done + 1) v') s'
      (fun v' s' => planned s0 v' s')) as Hgo.
  { intros s' v' js' Hpr'. specialize (IH s' (done ++ [f]) v' js').
    rewrite len_app in IH. apply IH; [by rewrite <- app_assoc|done]. }
  clear IH.
  assert (mm_features request !! Z.to_nat (len done) = Some f) as Hlook.
  { rewrite Hfs. apply list_lookup_middle. unfold len. lia. }
  pose proof (consistent_input _ _ _ _ (enc_consistent _ _ _ Henc) (len_nonneg done) Hlook) as Hin.
  assert (get_num_embeds (mm_position f) = size (identifier f)) as ->.
  { pose proof (enc_consistent _ _ _ Henc) as Hc. by eapply Forall_lookup_1 in Hc as [? _]. }
  pose proof (enc_placed _ _ _ Henc) as Hplaced. pose proof Hplaced as Hall.
  rewrite Hfs in Hplaced. apply Forall_app in Hplaced as [Hpd [Hpf Hpt]%Forall_cons].
  pose proof (pr_tokens _ _ _ _ _ Hpr) as HvN. rewrite HvN.
  assert (forall s' , ec_ok s' -> ec_room s <= ec_room s' ->
    (forall h, ec_absent s h -> ec_absent s' h) ->
    (forall rid h, ec_holds s rid h -> ec_holds s' rid h) -> progress s0 s' done v js) as Hstay.
  { intros s' Hok Hr Ha Hh. destruct Hpr. split; try done; [by eapply plan_ok_state| |by auto].
    rewrite Forall_forall in pr_covered0, Hpd |- *. intros g Hg.
    eapply covered_mono; [by apply Hpd|by apply pr_covered0|lia|done|done]. }
  assert (forall s', progress s0 s' done v js -> covered s' v f ->
    succeeds (enc_loop config request c shift todo (len done + 1) v) s'
      (fun v' s' => planned s0 v' s')) as Hskip.
  { intros s' Hpr' Hf. apply (Hgo s' v js).
    eapply progress_next; [done|exact Hpr'|apply Hpr'|apply Hpr'|done|done|done|done|done]. }
  destruct (Z.leb_spec (c + N + shift) (offset (mm_position f))).
  { sstep. rewrite <- (set_new_tokens_same v N) by done.
    eapply progress_stop; [done|done|done|lia|right; lia]. }
  destruct (is_encoder_decoder config && (0 <? c))%bool eqn:Hed.
  { bool_to_prop. sstep. apply succeeds_assert.
    - pose proof (enc_at_start _ _ _ Henc ltac:(done)) as Hs.
      eapply Forall_lookup_1 in Hs; [|done]. simpl in Hs. lia.
    - apply Hskip; [done|]. intros He. congruence. }
  destruct (Z.leb_spec (offset (mm_position f) + length_ (mm_position f)) c).
  { apply Hskip; [done|]. intros _ (_ & ? & _). lia. }
  sstep. eapply succeeds_mono; [apply (have_spec s f (len done) v); [apply Hpr|done|done]|].
  intros b s1 (Hok1 & Hr1 & Ha1 & Hh1 & Hb).
  pose proof (Hstay s1 Hok1 ltac:(lia) Ha1 Hh1) as Hpr1.
  destruct b; [by apply Hskip|]. destruct Hb as [Habs Hnew].
  destruct (no_chunked_mm_input config && _ && _)%bool.
  { sstep. eapply progress_stop; [done|done|exact Hpr1|lia|lia]. }
  sstep. eapply succeeds_mono; [by apply (ec_can_allocate_spec _ _ (identifier f))|].
  intros b s2 (Hok2 & Hr2 & Ha2 & Hh2 & Hfit).
  assert (progress s0 s2 done v js) as Hpr2 by (apply Hstay; [done|lia|auto|auto]).
  destruct b; simpl.
  2: { sstep. eapply progress_stop; [done|done|exact Hpr2|..];
       destruct (Z.ltb_spec (c + shift) (offset (mm_position f))); lia. }
  destruct (Hfit eq_refl) as [Hbud Hroom].
  destruct (curr_range f c N) as (a & b & E & Hneed); [done|lia..|].
  sstep. eapply succeeds_of_option; [exact E|]. simpl.
  destruct (Z.eqb_spec (b - a) 0) as [Hz|Hz].
  { apply Hskip; [done|]. intros _ Hn. rewrite HvN in Hn. by apply Hneed in Hn. }
  destruct (match ec_has_cache_item config with Some _ => _ | None => _ end).
  - apply (Hgo s2 _ (js ++ [(len done, identifier f)])).
    eapply progress_next; [done|exact Hpr2|done| |done|done|simpl; set_solver| |done].
    + apply plan_ok_external; [apply Hpr2|done|by apply Ha2|done|done].
    + intros _ _. right. simpl. set_solver.
  - apply (Hgo s2 _ (js ++ [(len done, identifier f)])).
    eapply progress_next; [done|exact Hpr2|done| |done|done|simpl; set_solver| |done].
    + apply plan_ok_schedule; [apply Hpr2|done|by apply Ha2|done|done|done].
    + intros _ _. right. simpl. set_solver.
Qed.
End sched_spec.

(** ** Allocating what was planned *)

Lemma mfor_app {S A} (f : A -> M S unit) l1 l2 s :
  mfor (l1 ++ l2) f s = (mfor l1 f ;;; mfor l2 f) s.
Proof.
  revert s. induction l1 as [|x l1 IH]; intros s; simpl; [done|].
  unfold bind in *. destruct (f x s); [apply IH|done].
Qed.

Section alloc_spec.
Context {S : Type} `{Hops : EncoderCache S} (size : mm_key -> Z) `{!EncoderCacheLaws S size}.
Implicit Types (s : S) (js : list (Z * mm_key)).

Lemma allocate_inputs_all request js s :
  ec_ok s -> Forall (fun x => has_input size request x.1 x.2) js ->
  Forall (ec_absent s) js.*2 -> NoDup js.*2 \/ (forall s h, ec_absent s h) ->
  sum_of (size <$> js.*2) <= ec_room s ->
  succeeds (mfor js.*1 (ec_allocate request)) s (fun _ s' =>
    ec_ok s' /\ ec_room s' = ec_room s - sum_of (size <$> js.*2)
    /\ (forall rid h, ec_holds s rid h -> ec_holds s' rid h)
    /\ Forall (ec_holds s' (request_id request)) js.*2).
Proof.
  intros Hok Hin Habs Hdup Hroom. revert s Hok Habs Hroom.
  induction js as [|[i h] js IH]; intros s Hok Habs Hroom.
  { simpl. sstep. split_and!; [done|lia|done|constructor]. }
  rewrite !fmap_cons in *. rewrite sum_of_cons in *. cbn [fst snd mfor] in *.
  apply Forall_cons in Hin as [Hi Hin]. apply Forall_cons in Habs as [Ha Habs].
  cbn [fst snd] in *.
  assert (0 <= sum_of (size <$> js.*2)).
  { apply sum_of_nonneg, Forall_fmap, Forall_fmap. eapply Forall_impl; [exact Hin|].
    intros [i' h'] (_ & _ & ?). done. }
  sstep. eapply succeeds_mono; [apply (ec_allocate_spec request i h s); [done..|lia]|].
  intros [] s1 (Hok1 & Hr1 & Ha1 & Hh1 & Hheld).
  assert (NoDup js.*2 \/ (forall (s : S) h, ec_absent s h)) as Hdup'.
  { destruct Hdup as [Hdup|]; [left|by right]. by apply NoDup_cons in Hdup as [_ ?]. }
  eapply succeeds_mono; [apply (IH Hin Hdup' s1); [done| |lia]|].
  - rewrite Forall_forall in Habs |- *. intros h' Hh'. destruct Hdup as [Hdup|Hall]; [|by apply Hall].
    apply NoDup_cons in Hdup as [Hnin _]. apply Ha1; [|by apply Habs]. intros ->. done.
  - intros [] s2 (Hok2 & Hr2 & Hh2 & Hheld2). split_and!; [done|lia|by auto|].
    constructor; [by apply Hh2|done].
Qed.

Lemma allocate_planned config request budget s v js :
  ec_ok s -> plan_ok size config request budget s v js ->
  (is_encoder_decoder config = true -> forall (s : S) h, ec_absent s h) ->
  succeeds (allocate_encoder_inputs request v) s (fun _ s' =>
    ec_ok s' /\ ec_room s' = ec_room s - num_embeds_to_schedule v
    /\ (forall rid h, ec_holds s rid h -> ec_holds s' rid h)
    /\ (forall h, h ∈ mm_hashes_to_schedule v -> ec_holds s' (request_id request) h)).
Proof.
  intros Hok [] Hflag. unfold allocate_encoder_inputs, succeeds.
  rewrite <- mfor_app.
  destruct (Permutation_map_inv _ _ plan_ids0) as (js' & Hids & Hperm).
  change (map fst js') with (js'.*1) in Hids. rewrite Hids.
  fold (succeeds (mfor js'.*1 (ec_allocate request)) s).
  assert (sum_of (size <$> js.*2) = sum_of (size <$> js'.*2)) as Hsum
    by (apply sum_of_perm; by rewrite Hperm).
  eapply succeeds_mono; [apply allocate_inputs_all; [done|by rewrite <- Hperm|by rewrite <- Hperm| |lia]|].
  - destruct (is_encoder_decoder config); [right; by auto|left]. rewrite <- Hperm. by auto.
  - intros [] s' (? & ? & ? & Hheld). split_and!; [done|lia|done|].
    intros h. rewrite plan_hashes0, elem_of_list_to_set, Hperm. by apply Forall_forall.
Qed.

Lemma free_all (l : list Request) s :
  ec_ok s -> Forall (consistent size) l ->
  succeeds (mfor l ec_free) s (fun _ s' =>
    ec_ok s' /\ ec_room s <= ec_room s'
    /\ (forall h, ec_absent s h -> ec_absent s' h)
    /\ (forall rid h, rid ∉ request_id <$> l -> ec_holds s rid h -> ec_holds s' rid h)).
Proof.
  intros Hok Hl. revert s Hok. induction Hl as [|r l Hr Hl IH]; intros s Hok; simpl.
  { sstep. by split_and!. }
  sstep. eapply succeeds_mono; [by apply ec_free_spec|].
  intros [] s1 (Hok1 & Hr1 & Ha1 & Hh1). eapply succeeds_mono; [by apply IH|].
  intros [] s2 (Hok2 & Hr2 & Ha2 & Hh2). split_and!; [done|lia|auto|].
  intros rid h Hrid. apply not_elem_of_cons in Hrid as [??]. auto.
Qed.

Lemma try_schedule_spec config request c shift N budget s :
  encodable size config request ->
  (is_encoder_decoder config = true -> forall (s : S) h, ec_absent s h) ->
  ec_ok s -> 0 <= N -> 0 <= shift <= 1 ->
  succeeds (_try_schedule_encoder_inputs config request c shift N budget) s
    (planned size config request c N budget s).
Proof.
  intros Henc Hflag Hok HN Hshift. unfold _try_schedule_encoder_inputs.
  assert (progress size config request c N budget s s [] (enc_start N budget) []) as Hpr.
  { pose proof (ec_room_nonneg s Hok).
    split; try done. split; simpl; try done; [constructor|unfold sum_embeds; simpl; lia|lia]. }
  destruct (Z.eqb_spec N 0) as [->|Hne]; simpl.
  - sstep. destruct Hpr. split_and!; [done|by eexists|done..| |done].
    apply Forall_forall. intros f _ _ Hn. by apply not_needed_zero in Hn.
  - destruct (has_encoder_inputs request) eqn:Hhas; simpl.
    + by apply (enc_loop_spec size config request c shift N budget s s [] _ _ []).
    + sstep. unfold has_encoder_inputs, num_encoder_inputs in Hhas. apply Z.ltb_ge in Hhas.
      assert (mm_features request = []) as Hnil.
      { apply len_zero_nil. pose proof (len_nonneg (mm_features request)). lia. }
      eapply progress_end; [done|]. rewrite Hnil. exact Hpr.
Qed.

(** One request in [schedule()] never raises; a scheduled request holds every item
    the model runner reads for it. *)
Lemma schedule_request_run config request c shift N budget preempted outcome s :
  encodable size config request ->
  (is_encoder_decoder config = true -> forall (s : S) h, ec_absent s h) ->
  Forall (consistent size) preempted -> request_id request ∉ request_id <$> preempted ->
  ec_ok s -> 0 <= N -> 0 <= shift <= 1 ->
  succeeds (schedule_request config request c shift N budget preempted outcome) s (fun v s' =>
    ec_ok s' /\ 0 <= num_new_tokens v <= N
    /\ encoder_compute_budget v + sum_embeds request (encoder_inputs_to_schedule v) = budget
    /\ Z.min 0 budget <= encoder_compute_budget v
    /\ (forall rid h, rid ∉ request_id <$> request :: preempted ->
          ec_holds s rid h -> ec_holds s' rid h)
    /\ (outcome = Scheduled -> is_encoder_decoder config = false ->
        forall f, f ∈ mm_features request -> needed f c (num_new_tokens v) ->
          ec_holds s' (request_id request) (identifier f))).
Proof.
  intros Henc Hflag Hpre Hother Hok HN Hshift. unfold schedule_request.
  sstep. eapply succeeds_mono; [by apply try_schedule_spec|].
  intros v s1 (Hok1 & [js Hplan] & Hn & Hcov & Hh1).
  sstep. eapply succeeds_mono; [by apply free_all|].
  intros [] s2 (Hok2 & Hr2 & Ha2 & Hh2).
  assert (plan_ok size config request budget s2 v js) as Hplan2 by (by eapply plan_ok_state).
  pose proof (plan_budget _ _ _ _ _ _ _ Hplan). pose proof (plan_left _ _ _ _ _ _ _ Hplan).
  assert (forall rid h, rid ∉ request_id <$> request :: preempted ->
    ec_holds s rid h -> ec_holds s2 rid h) as Hkeep.
  { intros rid h Hrid Hh. apply not_elem_of_cons in Hrid as [_ Hrid]. by apply Hh2, Hh1. }
  sstep. destruct outcome.
  - eapply succeeds_mono; [by eapply allocate_planned|].
    intros [] s3 (Hok3 & _ & Hh3 & Hheld). sstep. split_and!; [done|lia|lia|done|done|by auto|].
    intros _ He f Hf Hneed. rewrite Forall_forall in Hcov.
    destruct (Hcov f Hf He Hneed) as [Hold|Hnew]; [by apply Hh3, Hh2|by apply Hheld].
  - eapply succeeds_mono; [by eapply ec_free_spec, enc_consistent|].
    intros [] s3 (Hok3 & _ & _ & Hh3). sstep. split_and!; [done|lia|lia|done|done| |done].
    intros rid h Hrid Hh. apply Hh3; [|by apply Hkeep].
    by apply not_elem_of_cons in Hrid as [? _].
  - sstep. sstep. split_and!; [done|lia|lia|done|done|done|done].
Qed.

Lemma free_inputs_run `{SetIter} config request s :
  ec_ok s -> consistent size request ->
  succeeds (_free_encoder_inputs config request) s (fun _ s' =>
    ec_ok s' /\ (forall rid h, rid <> request_id request -> ec_holds s rid h -> ec_holds s' rid h)).
Proof.
  intros Hok Hc. unfold _free_encoder_inputs. sstep.
  eapply succeeds_mono; [apply ec_cached_spec|]. intros ids s1 [-> Hids].
  eapply succeeds_mono; [apply (succeeds_mfor _ (fun _ _ s' => ec_ok s'
    /\ (forall rid h, rid <> request_id request -> ec_holds s rid h -> ec_holds s' rid h)))|].
  - done.
  - intros pre i todo s1 Hl [Hok1 Hh1].
    assert (0 <= i < len (mm_features request)) as Hi.
    { apply Hids, elem_of_set_iter. rewrite Hl. set_solver. }
    destruct (lookup_lt_is_Some_2 (mm_features request) (Z.to_nat i)) as [f Hf];
      [unfold len in *; lia|].
    sstep. eapply succeeds_of_option; [rewrite py_index_nonneg by lia; exact Hf|].
    destruct (input_done config request f); [|by sstep].
    eapply succeeds_mono; [apply (ec_free_input_spec request i (identifier f)); [done|]|].
    + by apply consistent_input; [|lia|].
    + intros [] s2 (? & _ & _ & ?). auto.
  - intros [] s1 Hs1. done.
Qed.
End alloc_spec.

(** ** Sequences of scheduler calls on [EncoderCacheManager] *)

Inductive encoder_op :=
  | Plan (request : Request) (computed shift new_tokens budget : Z)
      (preempted : list Request) (outcome : fate)  (** one request in [schedule()] *)
  | StepDone (request : Request)  (** [_free_encoder_inputs], after the step ran *)
  | Finish (request : Request)    (** the request ends or is preempted *)
  | ReportFreed                   (** [get_freed_mm_hashes] *)
  | ResetCache.

Section trace.
Context `{SetIter} (config : EncoderSchedConfig).

Definition encoder_step (op : encoder_op) : M EncoderCacheManager.t unit :=
  match op with
  | Plan request computed shift new_tokens budget preempted outcome =>
      schedule_request config request computed shift new_tokens budget preempted outcome ;;;
      ret tt
  | StepDone request => _free_encoder_inputs config request
  | Finish request => EncoderCacheManager.free request
  | ReportFreed => EncoderCacheManager.get_freed_mm_hashes ;;; ret tt
  | ResetCache => EncoderCacheManager.reset
  end.

(** The requests are well formed, a request is not preempted in favour of itself,
    and EAGLE looks one token ahead. *)
Definition encoder_op_ok (size : mm_key -> Z) (op : encoder_op) : Prop :=
  match op with
  | Plan request _ shift new_tokens _ preempted _ =>
      encodable size config request /\ Forall (consistent size) preempted
      /\ (request_id request ∉ request_id <$> preempted) /\ 0 <= new_tokens /\ 0 <= shift <= 1
  | StepDone request | Finish request => consistent size request
  | ReportFreed | ResetCache => True
  end.

Lemma encoder_step_ok cap size op s :
  is_encoder_decoder config = false -> 0 <= cap ->
  CacheInv.ok cap size s -> encoder_op_ok size op ->
  succeeds (encoder_step op) s (fun _ s' => CacheInv.ok cap size s').
Proof.
  intros He Hcap Hok Hop. destruct op as [r c shift N budget pre out|r|r| |]; simpl in *.
  - destruct Hop as (? & ? & ? & ? & ?). sstep. eapply succeeds_mono;
      [apply (schedule_request_run (S := EncoderCacheManager.t) (EncoderCacheLaws0 := manager_laws cap size) size);
       try done; congruence|].
    intros v s' (? & _). by sstep.
  - eapply succeeds_mono; [by apply (free_inputs_run (EncoderCacheLaws0 := manager_laws cap size) size)|].
    by intros [] s' [? _].
  - eapply succeeds_mono; [by apply (CacheInv.free_run cap size)|]. by intros [] s' [? _].
  - unfold EncoderCacheManager.get_freed_mm_hashes. repeat sstep. by destruct Hok.
  - unfold EncoderCacheManager.reset. sstep.
    rewrite (CacheInv.ok_cap _ _ _ Hok). by apply CacheInv.ok_init.
Qed.

Lemma encoder_trace_ok cap size ops :
  is_encoder_decoder config = false -> 0 <= cap -> Forall (encoder_op_ok size) ops ->
  succeeds (mfor ops encoder_step) (EncoderCacheManager.init cap)
    (fun _ s => CacheInv.ok cap size s).
Proof.
  intros He Hcap Hops. rewrite Forall_forall in Hops.
  eapply succeeds_mono; [apply (succeeds_mfor _ (fun _ _ s => CacheInv.ok cap size s))|].
  - by apply CacheInv.ok_init.
  - intros pre op todo s Heq Hok. apply encoder_step_ok; [done..|]. apply Hops. rewrite Heq. set_solver.
  - done.
Qed.
End trace.

(** C15. The encoder cache's books are right along every sequence of scheduler calls.
    No call ever raises - neither [allocate]'s assertions nor an eviction of a
    missing entry - and afterwards the free slots are the capacity minus the sizes
    of all entries, the freeable slots the capacity minus the sizes of the
    referenced ones, and [freeable] lists exactly the unreferenced entries with
    their sizes. *)
Theorem encoder_cache_trace `{SetIter} config cap size ops :
  is_encoder_decoder config = false -> 0 <= cap ->
  Forall (encoder_op_ok config size) ops ->
  exists s, mfor ops (encoder_step config) (EncoderCacheManager.init cap) = Ret tt s
    /\ 0 <= EncoderCacheManager.num_free_slots s
         <= EncoderCacheManager.num_freeable_slots s
    /\ EncoderCacheManager.num_freeable_slots s <= cap
    /\ EncoderCacheManager.num_free_slots s
       = cap - total size (EncoderCacheManager.cached s)
    /\ EncoderCacheManager.num_freeable_slots s
       = cap - total size (referenced (EncoderCacheManager.cached s))
    /\ NoDup (EncoderCacheManager.freeable s).*1
    /\ forall h n, (h, n) ∈ EncoderCacheManager.freeable s
         <-> EncoderCacheManager.cached s !! h = Some ∅ /\ n = size h.
Proof.
  intros He Hcap Hops.
  destruct (succeeds_inv _ _ _ (encoder_trace_ok config cap size ops He Hcap Hops))
    as ([] & s & Hs & Hok).
  exists s. split; [done|]. pose proof (CacheInv.ok_bounds _ _ _ Hok) as Hb.
  assert (Hok' := Hok). destruct Hok' as [Hnd Hf Hsz Hnn Hfree Hheld Hsum Hpos Hc].
  split_and!; [lia|lia|lia|lia|lia|done|]. intros h n. split.
  - intros Hin. rewrite Forall_forall in Hsz. pose proof (Hsz _ Hin) as Hn. simpl in Hn.
    split; [|done]. apply Hf, list_elem_of_fmap. by exists (h, n).
  - intros [Hh ->]. by eapply dict_get_Some, CacheInv.freeable_get.
Qed.

(** C16. What is scheduled can be computed.  From any state the scheduler can reach,
    planning a request and, if it gets its blocks, allocating what was planned
    does not raise; it never schedules more tokens than asked nor exceeds the
    compute budget; and for every item of which the model runner reads embeddings
    in this step the scheduled request then holds a cache entry, which eviction
    cannot take, so that the runner finds it. *)
Theorem scheduled_inputs_present `{SetIter} config cap size ops s request computed shift
    new_tokens budget preempted :
  is_encoder_decoder config = false -> 0 <= cap ->
  Forall (encoder_op_ok config size) ops ->
  mfor ops (encoder_step config) (EncoderCacheManager.init cap) = Ret tt s ->
  encoder_op_ok config size
    (Plan request computed shift new_tokens budget preempted Scheduled) ->
  exists v s',
    schedule_request config request computed shift new_tokens budget preempted Scheduled s
      = Ret v s'
    /\ 0 <= num_new_tokens v <= new_tokens
    /\ encoder_compute_budget v
       = budget - sum_embeds request (encoder_inputs_to_schedule v)
    /\ (0 <= budget -> 0 <= encoder_compute_budget v)
    /\ forall f, f ∈ mm_features request -> needed f computed (num_new_tokens v) ->
         exists ids, EncoderCacheManager.cached s' !! identifier f = Some ids
           /\ request_id request ∈ ids
           /\ identifier f ∉ (EncoderCacheManager.freeable s').*1.
Proof.
  intros He Hcap Hops Hs (Henc & Hpre & Hother & Hn & Hsh).
  pose proof (encoder_trace_ok config cap size ops He Hcap Hops) as Hok.
  unfold succeeds in Hok. rewrite Hs in Hok.
  destruct (succeeds_inv _ _ _ (schedule_request_run (EncoderCacheLaws0 := manager_laws cap size) size config
    request computed shift new_tokens budget preempted Scheduled s Henc ltac:(congruence)
    Hpre Hother Hok Hn Hsh)) as (v & s' & Hrun & Hok' & Htok & Hbud & Hleft & _ & Hneed).
  exists v, s'. split_and!; [done|lia|lia|lia|lia|].
  intros f Hf Hnf. destruct (Hneed eq_refl He f Hf Hnf) as (ids & Hids & Hin).
  exists ids. split_and!; [done|done|]. rewrite (CacheInv.ok_freeable _ _ _ Hok'), Hids.
  intros [= ->]. set_solver.
Qed.

(** ** Concrete executions *)

Definition demo_sched : EncoderSchedConfig :=
  {| is_encoder_decoder := false; no_chunked_mm_input := false; ec_has_cache_item := None |}.

(** A request with a cat picture after its first token, one with two dogs. *)
Definition demo_cat : Request := demo_encoder_request "r1" 0 [demo_image "cat" 1].
Definition demo_dogs : Request :=
  demo_encoder_request "r2" 0 [demo_image "dog" 0; demo_image "dog" 6].

(** The cat is encoded and used; then the dogs evict it. *)
Definition demo_encoder_ops : list encoder_op :=
  [Plan demo_cat 0 0 8 10 [] Scheduled; StepDone (demo_encoder_request "r1" 8 [demo_image "cat" 1]);
   Plan demo_dogs 0 0 8 10 [demo_cat] Scheduled; ReportFreed;
   Finish demo_dogs].

Lemma demo_encodable rid computed images :
  images ∈ [[demo_image "cat" 1]; [demo_image "dog" 0; demo_image "dog" 6]] ->
  encodable demo_size demo_sched (demo_encoder_request rid computed images).
Proof.
  intros Hi. repeat (apply elem_of_cons in Hi as [-> |Hi]); [..|by apply not_elem_of_nil in Hi].
  - split; [by repeat constructor|by repeat constructor| |done].
    intros [|i] [|j] f g Hij Hf Hg; simplify_eq/=; lia || done.
  - split; [by repeat constructor|by repeat constructor| |done].
    intros [|[|i]] [|[|j]] f g Hij Hf Hg; simplify_eq/=; lia || done.
Qed.

Lemma demo_encoder_ops_ok : Forall (encoder_op_ok demo_sched demo_size) demo_encoder_ops.
Proof.
  assert (forall rid computed images,
    images ∈ [[demo_image "cat" 1]; [demo_image "dog" 0; demo_image "dog" 6]] ->
    consistent demo_size (demo_encoder_request rid computed images)) as Hc
    by (intros; by eapply enc_consistent, demo_encodable).
  unfold demo_encoder_ops. rewrite !Forall_cons. cbn [encoder_op_ok].
  split_and!; try lia; try done; try (apply demo_encodable; set_solver);
    try (apply Hc; set_solver); try (apply Forall_singleton, Hc; set_solver); set_solver.
Qed.

Definition demo_encoder_state : EncoderCacheManager.t :=
  match mfor demo_encoder_ops (encoder_step (H := some_iter) demo_sched)
          (EncoderCacheManager.init 6) with
  | Ret _ s => s
  | Raise _ s => s
  end.

Lemma encoder_cache_trace_witness :
  exists s, mfor demo_encoder_ops (encoder_step (H := some_iter) demo_sched)
              (EncoderCacheManager.init 6) = Ret tt s
    /\ EncoderCacheManager.num_free_slots s = 2
    /\ EncoderCacheManager.num_freeable_slots s = 6.
Proof.
  destruct (encoder_cache_trace (H := some_iter) demo_sched 6 demo_size demo_encoder_ops eq_refl
    ltac:(lia) demo_encoder_ops_ok) as (s & Hs & _ & _ & _).
  exists s. split; [exact Hs|].
  assert (s = demo_encoder_state) as -> by (unfold demo_encoder_state; rewrite Hs; reflexivity).
  split; vm_compute; reflexivity.
Defined.

Lemma scheduled_inputs_present_witness :
  exists v s', schedule_request (H := manager_ops (H := some_iter)) demo_sched demo_cat 0 0 8 10
                 [] Scheduled demo_encoder_state = Ret v s'
    /\ num_new_tokens v = 8
    /\ exists ids, EncoderCacheManager.cached s' !! Some "cat" = Some ids /\ "r1" ∈ ids.
Proof.
  assert (mfor demo_encoder_ops (encoder_step (H := some_iter) demo_sched)
            (EncoderCacheManager.init 6) = Ret tt demo_encoder_state) as Hs
    by (vm_compute; reflexivity).
  assert (encoder_op_ok demo_sched demo_size (Plan demo_cat 0 0 8 10 [] Scheduled)) as Hop
    by (apply Forall_inv with (l := tail demo_encoder_ops); exact demo_encoder_ops_ok).
  destruct (scheduled_inputs_present (H := some_iter) demo_sched 6 demo_size demo_encoder_ops
    demo_encoder_state demo_cat 0 0 8 10 [] eq_refl ltac:(lia) demo_encoder_ops_ok Hs Hop)
    as (v & s' & Hrun & _ & _ & _ & Hneed).
  exists v, s'. split; [exact Hrun|].
  assert (num_new_tokens v = 8) as Hv.
  { assert (match schedule_request (H := manager_ops (H := some_iter)) demo_sched demo_cat 0 0 8 10
              [] Scheduled demo_encoder_state with
            | Ret v _ => num_new_tokens v = 8 | Raise _ _ => False end) as Hc
      by (vm_compute; reflexivity).
    rewrite Hrun in Hc. exact Hc. }
  split; [exact Hv|]. rewrite Hv in Hneed.
  destruct (Hneed (demo_image "cat" 1)) as (ids & Hids & Hin & _); [left| |by exists ids].
  split_and!; [done|done|]. exists 0, 4. split; [reflexivity|done].
Defined.

(** ** Where the code does not do what it means to *)

Definition planned_inputs {S} (o : outcome S enc_locals) : option (list Z * list Z * Z) :=
  match o with
  | Ret v _ => Some (encoder_inputs_to_schedule v, external_load_encoder_input v, num_new_tokens v)
  | Raise _ _ => None
  end.

(** With EAGLE the drafter reads one token further than the model.  An item that
    starts right after the scheduled tokens passes the overlap test, which counts
    that token, but not the test for embeddings, which does not: it is not planned
    although the drafter needs it. *)
Lemma eagle_item_not_planned :
  let request := demo_encoder_request "r" 0 [demo_image "cat" 8] in
  planned_inputs (schedule_request (H := manager_ops (H := some_iter)) demo_sched request 0 1 8 10
                    [] Scheduled (EncoderCacheManager.init 6)) = Some ([], [], 8)
  /\ needed (demo_image "cat" 8) (0 + 1) 8.
Proof.
  split; [vm_compute; reflexivity|]. split_and!; [done|done|].
  exists 0, 1. split; [reflexivity|done].
Qed.

(** A request that is scheduled and then preempted in the same step (priority
    scheduling): its items were not encoded, but its entries stay in the cache. *)
Definition preempted_then_replanned (request : Request) : M EncoderCacheManager.t enc_locals :=
  schedule_request (H := manager_ops (H := some_iter)) demo_sched request 0 0 8 10 [] Scheduled ;;;
  EncoderCacheManager.free (H := some_iter) request ;;;
  schedule_request (H := manager_ops (H := some_iter)) demo_sched request 0 0 8 10 [] Scheduled.

Lemma preempted_input_not_replanned :
  planned_inputs (schedule_request (H := manager_ops (H := some_iter)) demo_sched demo_cat 0 0 8 10
                    [] Scheduled (EncoderCacheManager.init 6)) = Some ([0], [], 8)
  /\ planned_inputs (preempted_then_replanned demo_cat (EncoderCacheManager.init 6))
     = Some ([], [], 8).
Proof. split; vm_compute; reflexivity. Qed.

(** One step of a running request of an encoder-decoder model gives its slots back. *)
Lemma encdec_step_done `{SetIter} config request f s :
  is_encoder_decoder config = true -> mm_features request = [f] ->
  0 < num_computed_tokens request ->
  _free_encoder_inputs config request s
  = Ret tt (EncoderDecoderCacheManager.add_free (get_num_embeds (mm_position f)) s).
Proof.
  intros He Hf Hn. unfold _free_encoder_inputs, bind. simpl. unfold gets.
  unfold EncoderDecoderCacheManager.get_cached_input_ids. rewrite Hf.
  change (py_range 0 (len [f])) with [0].
  assert (set_iter (list_to_set [0]) = [0]) as ->.
  { apply Permutation_singleton_r. rewrite set_iter_perm. simpl.
    by rewrite right_id_L, elements_singleton by apply _. }
  cbn. unfold bind, input_done. cbn. rewrite He, (proj2 (Z.ltb_lt _ _)) by done.
  simpl. unfold EncoderDecoderCacheManager.free_encoder_input, get_num_encoder_embeds.
  rewrite Hf. reflexivity.
Qed.

(** The slots of an encoder-decoder model drift.  [_free_encoder_inputs] runs
    after every step of a request, and [EncoderDecoderCacheManager] counts each call
    as slots given back: after [k] steps of one request whose input was allocated
    once, the free slots are the capacity plus [k - 1] times the input's size. *)
Theorem encdec_slots_drift `{SetIter} config request f cap k :
  is_encoder_decoder config = true -> mm_features request = [f] ->
  0 < num_computed_tokens request ->
  exists s, (EncoderDecoderCacheManager.allocate request 0 ;;;
             mfor (replicate k request) (_free_encoder_inputs config))
              (EncoderDecoderCacheManager.init cap) = Ret tt s
    /\ EncoderDecoderCacheManager.cache_size s = cap
    /\ EncoderDecoderCacheManager.num_free_slots s
       = cap + (Z.of_nat k - 1) * get_num_embeds (mm_position f).
Proof.
  intros He Hf Hn. set (n := get_num_embeds (mm_position f)).
  assert (forall s, mfor (replicate k request) (_free_encoder_inputs config) s
    = Ret tt (EncoderDecoderCacheManager.add_free (Z.of_nat k * n) s)) as Hloop.
  { induction k as [|k IH]; intros s; simpl.
    - unfold ret. f_equal. destruct s. unfold EncoderDecoderCacheManager.add_free. simpl.
      f_equal. lia.
    - rewrite (bind_Ret _ _ _ _ _ (encdec_step_done config request f s He Hf Hn)), IH.
      f_equal. unfold EncoderDecoderCacheManager.add_free. simpl. f_equal. unfold n. lia. }
  set (loop := mfor (replicate k request) _) in *. clearbody loop.
  unfold EncoderDecoderCacheManager.allocate, get_num_encoder_embeds, mm_hash_of, bind.
  rewrite Hf. unfold of_result, of_option, ret, modify. simpl. rewrite Hloop. eexists. split; [done|]. split; [done|]. simpl. unfold n. lia.
Qed.

Lemma encdec_slots_drift_witness :
  exists s, (EncoderDecoderCacheManager.allocate (demo_encoder_request "r" 3 [demo_image "a" 0]) 0 ;;;
             mfor (replicate 5 (demo_encoder_request "r" 3 [demo_image "a" 0]))
               (_free_encoder_inputs (H0 := some_iter) {| is_encoder_decoder := true;
                  no_chunked_mm_input := false; ec_has_cache_item := None |}))
              (EncoderDecoderCacheManager.init 10) = Ret tt s
    /\ EncoderDecoderCacheManager.num_free_slots s = 26.
Proof.
  destruct (encdec_slots_drift (H := some_iter) {| is_encoder_decoder := true;
      no_chunked_mm_input := false; ec_has_cache_item := None |}
    (demo_encoder_request "r" 3 [demo_image "a" 0]) (demo_image "a" 0) 10 5)
    as (s & Hs & _ & Hn); [reflexivity|reflexivity|reflexivity|].
  exists s. split; [exact Hs|exact Hn].
Defined.
