(* ===== verification/Heap.v ===== *)
(** * Python's heapq

    The binary-heap functions of the Python standard library that
    vllm/v1/core/sched/request_queue.py calls, over an arbitrary strict weak order
    [lt] ([__lt__] of the elements), following Lib/heapq.py: [_siftdown] moves an
    item towards the root, [_siftup] moves the smaller child up until the hole is a
    leaf and then sifts the item back.  The theorems are the contract the queues
    rely on: the heap keeps its elements and its smallest one is in front. *)

From S2P Require Import Prelude.
From Stdlib Require Import Sorting.Sorted.
From stdpp Require Import options.

(** The index of the parent, [(i - 1) >> 1]. *)
Definition parent_of (i : nat) : nat := ((i - 1) / 2)%nat.

Section heapq.
Context {A : Type} (lt : A -> A -> bool).

(** The loop of [_siftdown]; [pos] is the hole, [fuel] is at least [pos]. *)
Fixpoint _siftdown (fuel : nat) (heap : list A) (startpos pos : nat) (newitem : A) : list A :=
  match fuel with
  | O => <[pos := newitem]> heap
  | S fuel =>
      if (startpos <? pos)%nat then
        match heap !! parent_of pos with
        | Some parent =>
            if lt newitem parent
            then _siftdown fuel (<[pos := parent]> heap) startpos (parent_of pos) newitem
            else <[pos := newitem]> heap
        | None => <[pos := newitem]> heap
        end
      else <[pos := newitem]> heap
  end.

(** The child that moves up: the right one unless the left one is smaller. *)
Definition smaller_child (heap : list A) (pos : nat) : option (nat * A) :=
  l ← heap !! (2 * pos + 1)%nat;
  match heap !! (2 * pos + 2)%nat with
  | Some r => if lt l r then Some ((2 * pos + 1)%nat, l) else Some ((2 * pos + 2)%nat, r)
  | None => Some ((2 * pos + 1)%nat, l)
  end.

(** The loop of [_siftup]; [fuel] is at least the number of indices after [pos]. *)
Fixpoint siftup_loop (fuel : nat) (heap : list A) (pos : nat) : list A * nat :=
  match fuel with
  | O => (heap, pos)
  | S fuel =>
      match smaller_child heap pos with
      | Some (childpos, child) => siftup_loop fuel (<[pos := child]> heap) childpos
      | None => (heap, pos)
      end
  end.

Definition _siftup (heap : list A) (pos : nat) : list A :=
  match heap !! pos with
  | Some newitem =>
      let '(heap, leaf) := siftup_loop (length heap) heap pos in
      _siftdown leaf heap pos leaf newitem
  | None => heap
  end.

Definition heappush (heap : list A) (item : A) : list A :=
  _siftdown (length heap) (heap ++ [item]) 0 (length heap) item.

(** [heappop]: [None] where Python raises [IndexError]. *)
Definition heappop (heap : list A) : option (A * list A) :=
  match heap with
  | [] => None
  | returnitem :: _ =>
      let lastelt := List.last heap returnitem in
      match removelast heap with
      | [] => Some (lastelt, [])
      | rest => Some (returnitem, _siftup (<[0%nat := lastelt]> rest) 0)
      end
  end.

Definition heapify (x : list A) : list A :=
  foldl (fun heap i => _siftup heap i) x (reverse (seq 0 (length x / 2))).

(** [while heap: yield heappop(heap)]; [fuel] is at least the number of elements. *)
Fixpoint pop_all (fuel : nat) (heap : list A) : list A :=
  match fuel with
  | O => []
  | S fuel =>
      match heappop heap with
      | Some (item, heap) => item :: pop_all fuel heap
      | None => []
      end
  end.

(** ** The heap invariant *)

(** [a] may be above [b]. *)
Definition le (a b : A) : Prop := lt b a = false.

(** Every element whose parent is at [start] or later is not smaller than it. *)
Definition heap_from (start : nat) (heap : list A) : Prop :=
  forall i a b, (0 < i)%nat -> (start <= parent_of i)%nat ->
    heap !! parent_of i = Some a -> heap !! i = Some b -> le a b.

Abbreviation is_heap := (heap_from 0).

(** The same but for the element at [hole], whose children are not smaller than
    its parent. *)
Record hole_from (start hole : nat) (heap : list A) : Prop := {
  hole_other : forall i a b, (0 < i)%nat -> (start <= parent_of i)%nat ->
    i <> hole -> parent_of i <> hole ->
    heap !! parent_of i = Some a -> heap !! i = Some b -> le a b;
  hole_across : forall i a b, (0 < hole)%nat -> (start <= parent_of hole)%nat ->
    (0 < i)%nat -> parent_of i = hole ->
    heap !! parent_of hole = Some a -> heap !! i = Some b -> le a b;
}.

(** [pos] is in the subtree of [start]. *)
Inductive below (start : nat) : nat -> Prop :=
  | below_here : below start start
  | below_step i : (0 < i)%nat -> below start (parent_of i) -> below start i.

Class StrictWeakOrder : Prop := {
  lt_asym : forall a b, lt a b = true -> lt b a = false;
  le_trans : forall a b c, le a b -> le b c -> le a c;
}.

Context `{!StrictWeakOrder}.
#[local] Set Default Proof Using "Type*".

Lemma parent_lt i : (0 < i)%nat -> (parent_of i < i)%nat.
Proof. intros Hi. unfold parent_of. apply Nat.Div0.div_lt_upper_bound; lia. Qed.

Lemma parent_child i p :
  (0 < i)%nat -> parent_of i = p <-> i = (2 * p + 1)%nat \/ i = (2 * p + 2)%nat.
Proof.
  intros Hi. unfold parent_of. pose proof (Nat.div_mod (i - 1) 2).
  pose proof (Nat.mod_upper_bound (i - 1) 2). lia.
Qed.

Lemma below_le start i : below start i -> (start <= i)%nat.
Proof. induction 1 as [|i Hi Hb IH]; [lia|]. pose proof (parent_lt i Hi). lia. Qed.

Lemma below_parent start i : below start i -> (start < i)%nat -> below start (parent_of i).
Proof. intros [] ?; [lia|done]. Qed.

Lemma insert_perm (l : list A) i x y : l !! i = Some y -> y :: <[i := x]> l ≡ₚ x :: l.
Proof.
  intros Hi. rewrite <- (take_drop_middle l i y Hi) at 2.
  rewrite insert_take_drop by (by eapply lookup_lt_Some).
  rewrite <- !Permutation_middle. apply Permutation_swap.
Qed.

(** Moving the item of [j] into the hole [i] makes [j] the hole. *)
Lemma move_hole (l : list A) i j x y :
  l !! j = Some y -> is_Some (l !! i) -> i <> j ->
  <[j := x]> (<[i := y]> l) ≡ₚ <[i := x]> l.
Proof.
  intros Hj [z Hi] Hne.
  assert (<[i := y]> l !! j = Some y) as Hj' by (by rewrite list_lookup_insert_ne).
  pose proof (insert_perm _ _ x _ Hj') as H1. pose proof (insert_perm l i y z Hi) as H2.
  pose proof (insert_perm l i x z Hi) as H3.
  apply (Permutation_cons_inv (a := y)), (Permutation_cons_inv (a := z)).
  rewrite H1, (Permutation_swap x z), H2, (Permutation_swap y x), <- H3.
  apply Permutation_swap.
Qed.

(** The new item is not larger than the children of the hole. *)
Definition above_children (heap : list A) (pos : nat) (item : A) : Prop :=
  forall i a, (0 < i)%nat -> parent_of i = pos -> heap !! i = Some a -> le item a.

Lemma place_item start pos heap item :
  below start pos -> hole_from start pos heap -> above_children heap pos item ->
  ((start < pos)%nat -> forall a, heap !! parent_of pos = Some a -> le a item) ->
  heap_from start (<[pos := item]> heap).
Proof.
  intros Hb [Ho Ha] Hc Hp i a b Hi Hs Hpa Hib. pose proof (parent_lt i Hi).
  destruct (decide (i = pos)) as [->|Hne].
  - rewrite list_lookup_insert_ne in Hpa by lia.
    apply list_lookup_insert_Some in Hib as [(_ & <- & _)|[? _]]; [|done].
    apply Hp; [lia|done].
  - rewrite list_lookup_insert_ne in Hib by done.
    destruct (decide (parent_of i = pos)) as [Hpe|Hpe].
    + rewrite Hpe in Hpa. apply list_lookup_insert_Some in Hpa as [(_ & <- & _)|[? _]]; [|done].
      by eapply Hc.
    + rewrite list_lookup_insert_ne in Hpa by done. by apply (Ho i).
Qed.

(** Moving the parent into the hole. *)
Lemma hole_up start pos heap parent item :
  (start < pos)%nat -> below start pos -> hole_from start pos heap ->
  above_children heap pos item -> heap !! parent_of pos = Some parent -> lt item parent = true ->
  (pos < length heap)%nat ->
  hole_from start (parent_of pos) (<[pos := parent]> heap)
  /\ above_children (<[pos := parent]> heap) (parent_of pos) item.
Proof.
  intros Hsp Hb [Ho Ha] Hc Hpar Hlt Hlen.
  assert (0 < pos)%nat as H0 by lia. pose proof (parent_lt pos H0) as Hpl.
  pose proof (below_le _ _ (below_parent _ _ Hb Hsp)) as Hsp'.
  assert (le item parent) as Hip by (apply lt_asym; done).
  split; [split|].
  - intros i a b Hi Hs Hne Hpne Hia Hib. pose proof (parent_lt i Hi).
    destruct (decide (i = pos)) as [->|Hip']; [done|].
    rewrite list_lookup_insert_ne in Hib by done.
    destruct (decide (parent_of i = pos)) as [Hpe|Hpe].
    + rewrite Hpe in Hia. apply list_lookup_insert_Some in Hia as [(_ & <- & _)|[? _]]; [|done].
      by apply (Ha i).
    + rewrite list_lookup_insert_ne in Hia by done. by apply (Ho i).
  - intros i a b Hp0 Hs Hi Hpi Hia Hib. pose proof (parent_lt _ Hp0).
    rewrite list_lookup_insert_ne in Hia by lia.
    assert (le a parent) as Hap by (apply (Ho (parent_of pos)); done || lia).
    destruct (decide (i = pos)) as [->|Hne].
    + apply list_lookup_insert_Some in Hib as [(_ & <- & _)|[? _]]; done.
    + rewrite list_lookup_insert_ne in Hib by done. apply (le_trans _ parent); [done|].
      apply (Ho i); [done|lia|done|lia|congruence|done].
  - intros i a Hi Hpi Hia. destruct (decide (i = pos)) as [->|Hne].
    + apply list_lookup_insert_Some in Hia as [(_ & <- & _)|[? _]]; done.
    + rewrite list_lookup_insert_ne in Hia by done. apply (le_trans _ parent); [done|].
      apply (Ho i); [done|lia|done|lia|congruence|done].
Qed.

Lemma siftdown_ok fuel heap start pos item :
  (pos <= fuel)%nat -> below start pos -> (pos < length heap)%nat ->
  hole_from start pos heap -> above_children heap pos item ->
  heap_from start (_siftdown fuel heap start pos item)
  /\ _siftdown fuel heap start pos item ≡ₚ <[pos := item]> heap.
Proof.
  revert heap pos. induction fuel as [|fuel IH]; intros heap pos Hf Hb Hlen Hh Hc; simpl.
  { split; [|done]. apply place_item; try done. lia. }
  destruct (Nat.ltb_spec start pos) as [Hsp|Hsp].
  2: { split; [|done]. apply place_item; try done. lia. }
  pose proof (parent_lt pos ltac:(lia)) as Hpl.
  destruct (heap !! parent_of pos) as [parent|] eqn:Hpar.
  2: { apply lookup_ge_None in Hpar. lia. }
  destruct (lt item parent) eqn:Hlt.
  2: { split; [|done]. apply place_item; try done. intros _ a Ha. by simplify_eq. }
  destruct (hole_up start pos heap parent item) as [Hh' Hc']; try done.
  destruct (IH (<[pos := parent]> heap) (parent_of pos)) as [IH1 IH2];
    [lia|by apply below_parent|rewrite length_insert; lia|done|done|].
  split; [done|]. rewrite IH2. apply move_hole; [done|by apply lookup_lt_is_Some_2|lia].
Qed.

Lemma smaller_child_Some heap pos c child :
  smaller_child heap pos = Some (c, child) ->
  (0 < c)%nat /\ parent_of c = pos /\ heap !! c = Some child
  /\ forall i a, (0 < i)%nat -> parent_of i = pos -> heap !! i = Some a -> le child a.
Proof.
  unfold smaller_child. intros Hc.
  destruct (heap !! (2 * pos + 1)%nat) as [l|] eqn:Hl; cbn [mbind option_bind] in Hc; [|done].
  assert (forall x, le x x) as Hrefl by (intros x; unfold le; destruct (lt x x) eqn:E;
    [pose proof (lt_asym _ _ E); congruence|done]).
  destruct (heap !! (2 * pos + 2)%nat) as [r|] eqn:Hr; [destruct (lt l r) eqn:Hlr|]; simplify_eq.
  all: (split; [lia|split; [apply parent_child; lia|split; [done|]]]).
  all: intros i a Hi Hpi Hia; apply parent_child in Hpi as [-> | ->]; simplify_eq; try done.
  by apply lt_asym.
Qed.

Lemma smaller_child_None heap pos :
  smaller_child heap pos = None -> forall i, (0 < i)%nat -> parent_of i = pos -> heap !! i = None.
Proof.
  unfold smaller_child. intros Hc i Hi Hpi.
  destruct (heap !! (2 * pos + 1)%nat) as [l|] eqn:Hl; cbn [mbind option_bind] in Hc.
  { destruct (heap !! (2 * pos + 2)%nat); [destruct (lt l a)|]; done. }
  apply lookup_ge_None in Hl. apply lookup_ge_None. apply parent_child in Hpi; lia.
Qed.

(** Moving the smaller child into the hole. *)
Lemma hole_down start pos heap c child :
  below start pos -> hole_from start pos heap -> smaller_child heap pos = Some (c, child) ->
  (pos < length heap)%nat ->
  hole_from start c (<[pos := child]> heap).
Proof.
  intros Hb [Ho Ha] Hsc Hlen.
  apply smaller_child_Some in Hsc as (Hc0 & Hpc & Hc & Hmin). pose proof (below_le _ _ Hb).
  pose proof (parent_lt c Hc0). split.
  - intros i a b Hi Hs Hne Hpne Hia Hib. pose proof (parent_lt i Hi).
    destruct (decide (i = pos)) as [->|Hip].
    + rewrite list_lookup_insert_ne in Hia by lia.
      apply list_lookup_insert_Some in Hib as [(_ & <- & _)|[? _]]; [|done]. by apply (Ha c).
    + rewrite list_lookup_insert_ne in Hib by done.
      destruct (decide (parent_of i = pos)) as [Hpe|Hpe].
      * rewrite Hpe in Hia. apply list_lookup_insert_Some in Hia as [(_ & <- & _)|[? _]]; [|done].
        by eapply Hmin.
      * rewrite list_lookup_insert_ne in Hia by done. by apply (Ho i).
  - intros i a b _ Hs Hi Hpi Hia Hib. pose proof (parent_lt i Hi).
    rewrite Hpc in Hia. apply list_lookup_insert_Some in Hia as [(_ & <- & _)|[? _]]; [|done].
    rewrite list_lookup_insert_ne in Hib by lia. apply (Ho i); [done|lia|lia|lia|congruence|done].
Qed.

Lemma siftup_loop_ok fuel heap start pos item heap' leaf :
  (length heap - pos <= fuel)%nat -> below start pos -> (pos < length heap)%nat ->
  hole_from start pos heap -> siftup_loop fuel heap pos = (heap', leaf) ->
  below start leaf /\ (leaf < length heap')%nat /\ hole_from start leaf heap'
  /\ (forall i, (0 < i)%nat -> parent_of i = leaf -> heap' !! i = None)
  /\ <[leaf := item]> heap' ≡ₚ <[pos := item]> heap.
Proof.
  revert heap pos. induction fuel as [|fuel IH]; intros heap pos Hf Hb Hlen Hh; simpl; [lia|].
  destruct (smaller_child heap pos) as [[c child]|] eqn:Hsc.
  - intros Hrun. pose proof (smaller_child_Some _ _ _ _ Hsc) as (Hc0 & Hpc & Hc & _).
    pose proof (lookup_lt_Some _ _ _ Hc). pose proof (parent_lt c Hc0).
    destruct (IH (<[pos := child]> heap) c) as (? & ? & ? & ? & Hperm); try done.
    + rewrite length_insert. lia.
    + apply below_step; [done|]. by rewrite Hpc.
    + by rewrite length_insert.
    + by eapply hole_down.
    + split_and!; try done. rewrite Hperm. apply move_hole; [done|by apply lookup_lt_is_Some_2|lia].
  - intros [= <- <-]. split_and!; try done. by apply smaller_child_None.
Qed.

Lemma siftup_ok heap start item :
  heap !! start = Some item -> hole_from start start heap ->
  heap_from start (_siftup heap start) /\ _siftup heap start ≡ₚ heap.
Proof.
  intros Hi Hh. pose proof (lookup_lt_Some _ _ _ Hi). unfold _siftup. rewrite Hi.
  destruct (siftup_loop (length heap) heap start) as [heap' leaf] eqn:Hrun.
  destruct (siftup_loop_ok (length heap) heap start start item heap' leaf)
    as (Hb & Hlen & Hh' & Hleaf & Hperm); try done; [lia|constructor|].
  destruct (siftdown_ok leaf heap' start leaf item) as [Hheap Hperm2]; try done.
  { intros i a Hi0 Hpi Ha. by rewrite (Hleaf i Hi0 Hpi) in Ha. }
  split; [done|]. rewrite Hperm2, Hperm. by rewrite list_insert_id.
Qed.

(** ** The contract *)

Lemma below_root i : below 0 i.
Proof.
  induction i as [i IH] using (well_founded_induction Nat.lt_wf_0).
  destruct (decide (i = 0)%nat) as [->|]; [constructor|].
  apply below_step; [lia|]. apply IH, parent_lt. lia.
Qed.

Lemma le_refl a : le a a.
Proof. unfold le. destruct (lt a a) eqn:E; [|done]. pose proof (lt_asym _ _ E). congruence. Qed.

Lemma root_min heap x i y :
  is_heap heap -> heap !! 0%nat = Some x -> heap !! i = Some y -> le x y.
Proof.
  intros Hh Hx. revert y. induction i as [i IH] using (well_founded_induction Nat.lt_wf_0).
  intros y Hy. destruct (decide (i = 0)%nat) as [->|Hne]; [simplify_eq; apply le_refl|].
  pose proof (parent_lt i ltac:(lia)) as Hpl.
  destruct (lookup_lt_is_Some_2 heap (parent_of i)) as [z Hz].
  { apply lookup_lt_Some in Hy. lia. }
  apply (le_trans _ z); [by apply (IH (parent_of i))|]. by apply (Hh i); [lia|lia|..].
Qed.

Lemma heappush_ok heap x :
  is_heap heap -> is_heap (heappush heap x) /\ heappush heap x ≡ₚ x :: heap.
Proof.
  intros Hh. unfold heappush.
  assert (forall i, (0 < i)%nat -> parent_of i = length heap -> (heap ++ [x]) !! i = None) as Hno.
  { intros i Hi Hpi. pose proof (parent_lt i Hi). apply lookup_ge_None. rewrite length_app. simpl. lia. }
  destruct (siftdown_ok (length heap) (heap ++ [x]) 0 (length heap) x) as [Hheap Hperm].
  - lia.
  - apply below_root.
  - rewrite length_app. simpl. lia.
  - split.
    + intros i a b Hi _ Hne Hpne Ha Hb. pose proof (parent_lt i Hi).
      apply lookup_snoc_Some in Hb as [[Hlt Hb]|[-> _]]; [|done].
      rewrite lookup_app_l in Ha by lia. by apply (Hh i); [|lia|..].
    + intros i a b _ _ Hi Hpi _ Hb. by rewrite Hno in Hb.
  - intros i a Hi Hpi Ha. by rewrite Hno in Ha.
  - split; [done|]. rewrite Hperm.
    replace (length heap) with (length heap + 0)%nat by lia. rewrite insert_app_r.
    simpl. symmetry. apply Permutation_cons_append.
Qed.

Lemma heappop_ok heap x rest :
  heap = x :: rest -> is_heap heap ->
  exists heap', heappop heap = Some (x, heap') /\ is_heap heap' /\ heap' ≡ₚ rest
    /\ Forall (le x) heap'.
Proof.
  intros Heq Hh. assert (Forall (le x) rest) as Hmin.
  { apply Forall_lookup_2. intros i y Hy. apply (root_min heap x (S i)); [done|by rewrite Heq..]. }
  destruct rest as [|l rest _] using rev_ind.
  { subst heap. exists []. split_and!; [done| |done|done]. by intros i a b _ _ _ ?. }
  unfold heappop. rewrite Heq.
  change (x :: rest ++ [l]) with ((x :: rest) ++ [l]) in *.
  rewrite List.last_last, removelast_last.
  change ((x :: rest) ++ [l]) with (x :: rest ++ [l]).
  assert (hole_from 0 0 (l :: rest)) as Hhole.
  { split; [|lia]. intros i a b Hi _ Hne Hpne Ha Hb. apply (Hh i); [done|lia|..]; subst heap.
    - destruct (parent_of i); [done|]. simpl in *. by apply lookup_app_l_Some.
    - destruct i; [done|]. simpl in *. by apply lookup_app_l_Some. }
  destruct (siftup_ok (l :: rest) 0 l eq_refl Hhole) as [Hheap Hperm].
  exists (_siftup (l :: rest) 0). split_and!; [done|done| |].
  - rewrite Hperm. apply Permutation_cons_append.
  - rewrite Hperm, Permutation_cons_append. done.
Qed.

Lemma heappop_nil : heappop [] = None.
Proof. done. Qed.

Lemma heapify_ok x : is_heap (heapify x) /\ heapify x ≡ₚ x.
Proof.
  unfold heapify.
  assert (forall k h, (k <= length h / 2)%nat -> heap_from k h ->
    heap_from 0 (foldl (fun heap i => _siftup heap i) h (reverse (seq 0 k)))
    /\ foldl (fun heap i => _siftup heap i) h (reverse (seq 0 k)) ≡ₚ h) as Hloop.
  { induction k as [|k IH]; intros h Hk Hh; [done|].
    rewrite seq_S, reverse_snoc. simpl.
    assert (k < length h)%nat as Hlt.
    { pose proof (Nat.div_mod (length h) 2). lia. }
    destruct (lookup_lt_is_Some_2 h k Hlt) as [item Hi].
    destruct (siftup_ok h k item Hi) as [Hheap Hperm].
    - split; [|intros ? ? ? H0 Hs; pose proof (parent_lt k H0); lia].
      intros i a b Hi0 Hs Hne Hpne. apply Hh; lia.
    - destruct (IH (_siftup h k)) as [IH1 IH2]; [rewrite Hperm; lia|done|].
      split; [done|]. by rewrite IH2. }
  apply Hloop; [done|]. intros i a b Hi Hs _ Hb. exfalso.
  apply lookup_lt_Some in Hb. unfold parent_of in Hs.
  pose proof (Nat.div_mod (length x) 2). pose proof (Nat.mod_upper_bound (length x) 2).
  pose proof (Nat.div_mod (i - 1) 2). lia.
Qed.

(** Popping everything lists the elements from the smallest on. *)
Lemma pop_all_ok fuel heap :
  is_heap heap -> (length heap <= fuel)%nat ->
  pop_all fuel heap ≡ₚ heap /\ StronglySorted le (pop_all fuel heap).
Proof.
  revert heap. induction fuel as [|fuel IH]; intros heap Hh Hlen; simpl.
  { destruct heap; simpl in Hlen; [|lia]. split; [done|constructor]. }
  destruct heap as [|x rest]; [split; [done|constructor]|].
  destruct (heappop_ok (x :: rest) x rest eq_refl Hh) as (heap' & -> & Hh' & Hperm & Hmin).
  destruct (IH heap' Hh') as [IH1 IH2]; [rewrite Hperm; simpl in Hlen; lia|].
  split; [by rewrite IH1, Hperm|]. constructor; [done|]. by rewrite IH1.
Qed.
End heapq.
