(* ===== verification/RequestQueue.v ===== *)
(** * Request queues

    Models vllm/v1/core/sched/request_queue.py: [FCFSRequestQueue], a deque, and
    [PriorityRequestQueue], a heap ordered by [Request.__lt__] (Heap.v).  Their
    contract is a list in service order; [request_queue_refines] shows that both
    classes give the same answers as that list.  Requests are compared by identity,
    [obj_id] ([Request] defines no [__eq__]). *)

From stdpp Require Import sorting.
From S2P Require Import Prelude Request Heap.

From stdpp Require Import options.

Inductive SchedulingPolicy := FCFS | PRIORITY.

Inductive RequestQueue :=
  | FCFSRequestQueue (q : list Request)
  | PriorityRequestQueue (_heap : list Request).

Definition create_request_queue (policy : SchedulingPolicy) : RequestQueue :=
  match policy with
  | PRIORITY => PriorityRequestQueue []
  | FCFS => FCFSRequestQueue []
  end.

(** [a is b] *)
Definition same_object (a b : Request) : bool := obj_id a =? obj_id b.

(** [r in requests] *)
Definition in_requests (r : Request) (requests : list Request) : bool :=
  existsb (same_object r) requests.

(** [l.remove(r)]; [None] where Python raises [ValueError]. *)
Fixpoint list_remove (r : Request) (l : list Request) : option (list Request) :=
  match l with
  | [] => None
  | x :: l => if same_object x r then Some l else cons x <$> list_remove r l
  end.

(** [__iter__] *)
Definition queue_iter (q : RequestQueue) : list Request :=
  match q with
  | FCFSRequestQueue q => q
  | PriorityRequestQueue h => pop_all Request_lt (length h) h
  end.

Definition queue_len (q : RequestQueue) : Z :=
  match q with FCFSRequestQueue q => len q | PriorityRequestQueue h => len h end.

Definition add_request (request : Request) : M RequestQueue unit :=
  modify (fun q =>
    match q with
    | FCFSRequestQueue q => FCFSRequestQueue (q ++ [request])
    | PriorityRequestQueue h => PriorityRequestQueue (heappush Request_lt h request)
    end).

Definition pop_request : M RequestQueue Request :=
  q <- get ;;
  match q with
  | FCFSRequestQueue [] => raise IndexError
  | FCFSRequestQueue (r :: q) => put (FCFSRequestQueue q) ;;; ret r
  | PriorityRequestQueue h =>
      match heappop Request_lt h with
      | None => raise IndexError
      | Some (r, h) => put (PriorityRequestQueue h) ;;; ret r
      end
  end.

Definition peek_request : M RequestQueue Request :=
  q <- get ;;
  match q with
  | FCFSRequestQueue l | PriorityRequestQueue l => of_option IndexError (l !! 0%nat)
  end.

Definition prepend_request (request : Request) : M RequestQueue unit :=
  q <- get ;;
  match q with
  | FCFSRequestQueue q => put (FCFSRequestQueue (request :: q))
  | PriorityRequestQueue _ => add_request request
  end.

Definition prepend_requests (requests : RequestQueue) : M RequestQueue unit :=
  q <- get ;;
  match q with
  | FCFSRequestQueue q =>
      put (FCFSRequestQueue (foldl (fun q r => r :: q) q (queue_iter requests)))
  | PriorityRequestQueue _ => mfor (queue_iter requests) add_request
  end.

Definition remove_request (request : Request) : M RequestQueue unit :=
  q <- get ;;
  match q with
  | FCFSRequestQueue q =>
      q <- of_option ValueError (list_remove request q) ;; put (FCFSRequestQueue q)
  | PriorityRequestQueue h =>
      h <- of_option ValueError (list_remove request h) ;;
      put (PriorityRequestQueue (heapify Request_lt h))
  end.

Definition remove_requests (requests : list Request) : M RequestQueue unit :=
  modify (fun q =>
    match q with
    | FCFSRequestQueue q =>
        FCFSRequestQueue (filter (fun r => in_requests r requests = false) q)
    | PriorityRequestQueue h =>
        PriorityRequestQueue (heapify Request_lt (filter (fun r => in_requests r requests = false) h))
    end).

(** ** The order of requests *)

(** [Request_lt] is the lexicographic order on priority, arrival, id and identity. *)
Definition request_before (a b : Request) : Prop :=
  priority a < priority b \/ priority a = priority b /\
  (arrival_time a < arrival_time b \/ arrival_time a = arrival_time b /\
   (string_ltb (request_id a) (request_id b) = true \/ request_id a = request_id b /\
    obj_id a < obj_id b)).

Definition same_rank (a b : Request) : Prop :=
  priority a = priority b /\ arrival_time a = arrival_time b
  /\ request_id a = request_id b /\ obj_id a = obj_id b.

Lemma Request_lt_spec a b : Request_lt a b = true <-> request_before a b.
Proof.
  unfold Request_lt, request_before.
  destruct (Z.eqb_spec (priority a) (priority b)); simpl; [|rewrite Z.ltb_lt; lia].
  destruct (Z.eqb_spec (arrival_time a) (arrival_time b)); simpl; [|rewrite Z.ltb_lt; lia].
  case_bool_decide as Hid; simpl; [|intuition (congruence || lia)].
  rewrite Z.ltb_lt. rewrite Hid, string_ltb_irrefl. intuition (congruence || lia).
Qed.

Lemma request_before_trans a b c : request_before a b -> request_before b c -> request_before a c.
Proof.
  unfold request_before. intros [H1|[H1 [H2|[H2 [H3|[H3 H4]]]]]] [K1|[K1 [K2|[K2 [K3|[K3 K4]]]]]];
    try (left; lia); right; (split; [lia|]); try (left; lia); right; (split; [lia|]).
  - left. by eapply string_ltb_trans.
  - left. by rewrite <- K3.
  - left. by rewrite H3.
  - right. split; [congruence|lia].
Qed.

Lemma request_before_irrefl a : ~ request_before a a.
Proof. unfold request_before. rewrite string_ltb_irrefl. intuition (congruence || lia). Qed.

Lemma request_total a b : request_before a b \/ same_rank a b \/ request_before b a.
Proof.
  unfold request_before, same_rank.
  destruct (Z.lt_trichotomy (priority a) (priority b)) as [?|[E1|?]]; [auto| |auto].
  destruct (Z.lt_trichotomy (arrival_time a) (arrival_time b)) as [?|[E2|?]]; [auto 6| |auto 8].
  destruct (decide (request_id a = request_id b)) as [E3|E3].
  - destruct (Z.lt_trichotomy (obj_id a) (obj_id b)) as [?|[E4|?]]; [tauto|tauto|].
    right; right. symmetry in E1, E2, E3. tauto.
  - apply string_ltb_total in E3 as [?|?]; [tauto|]. right; right. symmetry in E1, E2. tauto.
Qed.

Lemma same_rank_before a b c : same_rank a b -> request_before c a -> request_before c b.
Proof. intros (E1 & E2 & E3 & E4). unfold request_before. by rewrite E1, E2, E3, E4. Qed.

Lemma same_rank_before_l a b c : same_rank a b -> request_before a c -> request_before b c.
Proof. intros (E1 & E2 & E3 & E4). unfold request_before. by rewrite E1, E2, E3, E4. Qed.

Lemma Request_le_spec a b : le Request_lt a b <-> ~ request_before b a.
Proof.
  unfold le. rewrite <- Request_lt_spec. destruct (Request_lt b a); split; congruence.
Qed.

#[export] Instance Request_lt_order : StrictWeakOrder Request_lt.
Proof.
  split.
  - intros a b Hab. apply Request_le_spec. apply Request_lt_spec in Hab. intros Hba.
    by eapply request_before_irrefl, request_before_trans.
  - intros a b c. rewrite !Request_le_spec. intros Hba Hcb Hca.
    destruct (request_total a b) as [Hab|[Hab|?]]; [..|done].
    + apply Hcb. by eapply request_before_trans.
    + apply Hcb. by eapply same_rank_before.
Qed.

(** ** The contract: a list in service order *)

Inductive queue_op :=
  | Add (r : Request)
  | Pop
  | Peek
  | Prepend (r : Request)
  | PrependAll (requests : RequestQueue)
  | Remove (r : Request)
  | RemoveAll (requests : list Request)
  | Len
  | Iterate.

Inductive answer :=
  | Done
  | Got (r : Request)
  | Count (n : Z)
  | All (l : list Request)
  | Failed (e : exn).

(** Sorted insertion. *)
Fixpoint insert_request (r : Request) (l : list Request) : list Request :=
  match l with
  | [] => [r]
  | x :: l => if Request_lt r x then r :: x :: l else x :: insert_request r l
  end.

Definition insert_requests (rs l : list Request) : list Request :=
  foldl (fun l r => insert_request r l) l rs.

Definition queue_spec (policy : SchedulingPolicy) (op : queue_op) (l : list Request)
  : answer * list Request :=
  match op with
  | Add r => (Done, match policy with FCFS => l ++ [r] | PRIORITY => insert_request r l end)
  | Pop => match l with [] => (Failed IndexError, l) | r :: l => (Got r, l) end
  | Peek => match l with [] => (Failed IndexError, l) | r :: _ => (Got r, l) end
  | Prepend r => (Done, match policy with FCFS => r :: l | PRIORITY => insert_request r l end)
  | PrependAll rs =>
      (Done, match policy with
             | FCFS => rev (queue_iter rs) ++ l
             | PRIORITY => insert_requests (queue_iter rs) l
             end)
  | Remove r =>
      if in_requests r l then (Done, filter (fun x => same_object x r = false) l)
      else (Failed ValueError, l)
  | RemoveAll rs => (Done, filter (fun x => in_requests x rs = false) l)
  | Len => (Count (len l), l)
  | Iterate => (All l, l)
  end.

Definition answer_of {A} (f : A -> answer) (o : outcome RequestQueue A) : answer * RequestQueue :=
  match o with Ret a q => (f a, q) | Raise e q => (Failed e, q) end.

Definition queue_run (op : queue_op) (q : RequestQueue) : answer * RequestQueue :=
  match op with
  | Add r => answer_of (fun _ => Done) (add_request r q)
  | Pop => answer_of Got (pop_request q)
  | Peek => answer_of Got (peek_request q)
  | Prepend r => answer_of (fun _ => Done) (prepend_request r q)
  | PrependAll rs => answer_of (fun _ => Done) (prepend_requests rs q)
  | Remove r => answer_of (fun _ => Done) (remove_request r q)
  | RemoveAll rs => answer_of (fun _ => Done) (remove_requests rs q)
  | Len => (Count (queue_len q), q)
  | Iterate => (All (queue_iter q), q)
  end.

(** The answers to a sequence of calls. *)
Fixpoint answers {Q} (step : queue_op -> Q -> answer * Q) (ops : list queue_op) (q : Q)
  : list answer :=
  match ops with
  | [] => []
  | op :: ops => (step op q).1 :: answers step ops (step op q).2
  end.

(** Only requests that are not queued yet are added. *)
Definition queue_op_ok (l : list Request) (op : queue_op) : Prop :=
  match op with
  | Add r | Prepend r => obj_id r ∉ obj_id <$> l
  | PrependAll rs => NoDup (obj_id <$> queue_iter rs ++ l)
  | _ => True
  end.

Fixpoint queue_ops_ok (policy : SchedulingPolicy) (l : list Request) (ops : list queue_op) : Prop :=
  match ops with
  | [] => True
  | op :: ops => queue_op_ok l op /\ queue_ops_ok policy (queue_spec policy op l).2 ops
  end.

(** ** Sorted lists of requests *)

Abbreviation before := (fun a b : Request => Request_lt a b = true).

Lemma insert_request_perm r l : insert_request r l ≡ₚ r :: l.
Proof.
  induction l as [|x l IH]; simpl; [done|]. destruct (Request_lt r x); [done|].
  rewrite IH. apply Permutation_swap.
Qed.

Lemma before_or r x : obj_id r <> obj_id x -> Request_lt r x = true \/ Request_lt x r = true.
Proof.
  rewrite !Request_lt_spec. destruct (request_total r x) as [?|[(_ & _ & _ & ?)|?]]; tauto.
Qed.

Lemma insert_request_sorted r l :
  obj_id r ∉ obj_id <$> l -> StronglySorted before l -> StronglySorted before (insert_request r l).
Proof.
  induction l as [|x l IH]; intros Hr Hs; simpl; [by repeat constructor|].
  apply not_elem_of_cons in Hr as [Hrx Hr]. apply StronglySorted_inv in Hs as [Hs Hx].
  destruct (Request_lt r x) eqn:Hlt.
  - constructor; [by constructor|]. constructor; [done|]. eapply Forall_impl; [exact Hx|].
    intros y. simpl. rewrite !Request_lt_spec in *. by apply request_before_trans.
  - constructor; [by apply IH|]. rewrite insert_request_perm. constructor; [|done].
    destruct (before_or r x Hrx); congruence.
Qed.

Lemma insert_requests_ok rs l :
  NoDup (obj_id <$> rs ++ l) -> StronglySorted before l ->
  insert_requests rs l ≡ₚ rs ++ l /\ StronglySorted before (insert_requests rs l).
Proof.
  unfold insert_requests. revert l. induction rs as [|r rs IH]; intros l Hnd Hs; simpl; [done|].
  simpl in Hnd. apply NoDup_cons in Hnd as [Hr Hnd].
  destruct (IH (insert_request r l)) as [IH1 IH2].
  - rewrite insert_request_perm, <- Permutation_middle. simpl. by apply NoDup_cons.
  - apply insert_request_sorted; [|done]. intros Hin. apply Hr. rewrite fmap_app. set_solver.
  - split; [|done]. rewrite IH1, insert_request_perm. by rewrite <- Permutation_middle.
Qed.

Lemma sorted_unique l1 l2 :
  StronglySorted before l1 -> StronglySorted before l2 -> l1 ≡ₚ l2 -> l1 = l2.
Proof.
  assert (AntiSymm (=) before).
  { intros a b Hab Hba. apply lt_asym in Hab; [congruence|apply _]. }
  by apply StronglySorted_unique.
Qed.

Lemma le_sorted l :
  NoDup (obj_id <$> l) -> StronglySorted (le Request_lt) l -> StronglySorted before l.
Proof.
  intros Hnd Hs. induction Hs as [|x l Hs IH Hx]; [constructor|].
  simpl in Hnd. apply NoDup_cons in Hnd as [Hxl Hnd]. constructor; [by apply IH|].
  rewrite Forall_forall in Hx |- *. intros y Hy. specialize (Hx y Hy). unfold le in Hx.
  destruct (before_or x y) as [?|?]; [|done|congruence].
  intros Heq. apply Hxl. rewrite Heq. by apply list_elem_of_fmap_2.
Qed.

Lemma sorted_filter (P : Request -> Prop) `{!forall x, Decision (P x)} l :
  StronglySorted before l -> StronglySorted before (filter P l).
Proof.
  induction 1 as [|x l Hs IH Hx]; [constructor|]. rewrite filter_cons. case_decide; [|done].
  constructor; [done|]. rewrite Forall_forall in Hx |- *. intros y.
  rewrite list_elem_of_filter. naive_solver.
Qed.

Lemma in_requests_spec r l : in_requests r l = true <-> obj_id r ∈ obj_id <$> l.
Proof.
  unfold in_requests, same_object. rewrite existsb_exists, list_elem_of_fmap.
  setoid_rewrite <- list_elem_of_In. setoid_rewrite Z.eqb_eq. naive_solver.
Qed.

(** Removing the first occurrence removes the only one. *)
Lemma list_remove_filter r l :
  NoDup (obj_id <$> l) ->
  list_remove r l = if in_requests r l
                    then Some (filter (fun x => same_object x r = false) l) else None.
Proof.
  induction l as [|x l IH]; intros Hnd; simpl; [done|].
  simpl in Hnd. apply NoDup_cons in Hnd as [Hx Hnd].
  assert (same_object r x = same_object x r) as -> by apply Z.eqb_sym.
  rewrite filter_cons. destruct (same_object x r) eqn:E; simpl.
  - apply Z.eqb_eq in E.
    f_equal. symmetry. apply list_filter_all. intros y Hy. unfold same_object. apply Z.eqb_neq.
    intros Ey. apply Hx. rewrite E, <- Ey. by apply list_elem_of_fmap_2.
  - rewrite IH by done. by destruct (in_requests r l).
Qed.

(** ** The refinement *)

(** The queue holds the requests of [l], to be served in that order. *)
Definition queue_rep (policy : SchedulingPolicy) (q : RequestQueue) (l : list Request) : Prop :=
  NoDup (obj_id <$> l)
  /\ match policy, q with
     | FCFS, FCFSRequestQueue q => q = l
     | PRIORITY, PriorityRequestQueue h =>
         heap_from Request_lt 0 h /\ h ≡ₚ l /\ StronglySorted before l
     | _, _ => False
     end.

Lemma create_rep policy : queue_rep policy (create_request_queue policy) [].
Proof.
  split; [constructor|]. destruct policy; simpl; [done|].
  split_and!; [intros i a b _ _ _ H; done|done|constructor].
Qed.

(** The root of the heap is the first in order. *)
Lemma heap_head h l :
  heap_from Request_lt 0 h -> h ≡ₚ l -> StronglySorted before l -> h !! 0%nat = l !! 0%nat.
Proof.
  intros Hh Hp Hs. destruct l as [|x l]; [by apply Permutation_nil_r in Hp as ->|].
  destruct h as [|y h]; [by apply Permutation_nil in Hp|]. simpl. f_equal.
  apply StronglySorted_inv in Hs as [_ Hx]. rewrite Forall_forall in Hx.
  assert (y ∈ x :: l) as [?|Hy]%elem_of_cons by (rewrite <- Hp; left); [done|].
  assert (x ∈ y :: h) as [i Hi]%list_elem_of_lookup by (rewrite Hp; left).
  pose proof (root_min Request_lt (y :: h) y i x Hh eq_refl Hi) as Hle. unfold le in Hle.
  specialize (Hx y Hy). simpl in Hx. congruence.
Qed.

Lemma add_heap_rep r h l :
  heap_from Request_lt 0 h -> h ≡ₚ l -> StronglySorted before l -> NoDup (obj_id <$> l) ->
  obj_id r ∉ obj_id <$> l ->
  queue_rep PRIORITY (PriorityRequestQueue (heappush Request_lt h r)) (insert_request r l).
Proof.
  intros Hh Hp Hs Hnd Hr. destruct (heappush_ok Request_lt h r Hh) as [Hh' Hp'].
  split; [rewrite insert_request_perm; simpl; by apply NoDup_cons|].
  split_and!; [done|by rewrite Hp', Hp, insert_request_perm|by apply insert_request_sorted].
Qed.

Lemma NoDup_ids_filter (P : Request -> Prop) `{!forall x, Decision (P x)} l :
  NoDup (obj_id <$> l) -> NoDup (obj_id <$> filter P l).
Proof.
  intros Hnd. eapply sublist_NoDup; [exact Hnd|]. apply fmap_sublist, sublist_filter.
Qed.

Lemma filter_heap_rep (P : Request -> Prop) `{!forall x, Decision (P x)} h l :
  h ≡ₚ l -> StronglySorted before l -> NoDup (obj_id <$> l) ->
  queue_rep PRIORITY (PriorityRequestQueue (heapify Request_lt (filter P h))) (filter P l).
Proof.
  intros Hp Hs Hnd. destruct (heapify_ok Request_lt (filter P h)) as [Hh' Hp'].
  split; [by apply NoDup_ids_filter|].
  split_and!; [done|by rewrite Hp', Hp|by apply sorted_filter].
Qed.

Lemma queue_iter_rep policy q l : queue_rep policy q l -> queue_iter q = l.
Proof.
  intros [Hnd Hq]. destruct policy, q; try done. destruct Hq as (Hh & Hp & Hs). simpl.
  destruct (pop_all_ok Request_lt (length _heap) _heap Hh) as [Hpa Hsa]; [done|].
  apply sorted_unique; [|done|by rewrite Hpa]. apply le_sorted; [|done]. by rewrite Hpa, Hp.
Qed.

(** Pushing several requests. *)
Lemma push_all_rep rs h l :
  queue_rep PRIORITY (PriorityRequestQueue h) l -> NoDup (obj_id <$> rs ++ l) ->
  exists h', mfor rs add_request (PriorityRequestQueue h) = Ret tt (PriorityRequestQueue h')
    /\ queue_rep PRIORITY (PriorityRequestQueue h') (insert_requests rs l).
Proof.
  unfold insert_requests. revert h l. induction rs as [|r rs IH]; intros h l Hrep Hnd.
  { by exists h. }
  simpl in Hnd. apply NoDup_cons in Hnd as [Hr Hnd]. destruct Hrep as [Hl (Hh & Hp & Hs)].
  destruct (IH (heappush Request_lt h r) (insert_request r l)) as (h' & Hrun & Hrep).
  - apply add_heap_rep; try done. intros Hin. apply Hr. rewrite fmap_app. set_solver.
  - rewrite insert_request_perm, <- Permutation_middle. simpl. by apply NoDup_cons.
  - exists h'. done.
Qed.

Lemma extendleft (l1 l2 : list Request) : foldl (fun q r => r :: q) l2 l1 = rev l1 ++ l2.
Proof. revert l2. induction l1 as [|x l1 IH]; intros l2; simpl; [done|]. by rewrite IH, <- app_assoc. Qed.

Lemma step_fcfs op l :
  NoDup (obj_id <$> l) -> queue_op_ok l op ->
  (queue_run op (FCFSRequestQueue l)).1 = (queue_spec FCFS op l).1
  /\ queue_rep FCFS (queue_run op (FCFSRequestQueue l)).2 (queue_spec FCFS op l).2.
Proof.
  intros Hnd Hop. destruct op as [r| | |r|rs|r|rs| |]; simpl in *; try done.
  - split; [done|]. split; [|done]. rewrite fmap_app. apply NoDup_app.
    split_and!; [done| |apply NoDup_singleton]. intros x Hx ->%list_elem_of_singleton. done.
  - destruct l as [|r l]; [done|]. split; [done|]. split; [|done]. by apply NoDup_cons in Hnd as [_ ?].
  - by destruct l.
  - split; [done|]. split; [|done]. by apply NoDup_cons.
  - split; [done|]. split; [|simpl; by rewrite extendleft].
    by rewrite <- (Permutation_rev (queue_iter rs)).
  - unfold remove_request, bind. simpl. rewrite list_remove_filter by done.
    destruct (in_requests r l); simpl; [|done].
    split; [done|]. split; [by apply NoDup_ids_filter|done].
  - split; [done|]. split; [by apply NoDup_ids_filter|done].
Qed.

Lemma step_priority op h l :
  queue_rep PRIORITY (PriorityRequestQueue h) l -> queue_op_ok l op ->
  (queue_run op (PriorityRequestQueue h)).1 = (queue_spec PRIORITY op l).1
  /\ queue_rep PRIORITY (queue_run op (PriorityRequestQueue h)).2 (queue_spec PRIORITY op l).2.
Proof.
  intros Hrep Hop. pose proof (queue_iter_rep _ _ _ Hrep) as Hiter.
  assert (Hrep' := Hrep). destruct Hrep' as [Hnd (Hh & Hp & Hs)].
  destruct op as [r| | |r|rs|r|rs| |]; cbn [queue_run queue_spec queue_op_ok] in *.
  - split; [done|]. by apply add_heap_rep.
  - pose proof (heap_head _ _ Hh Hp Hs) as Hhead. unfold pop_request, bind. simpl.
    destruct h as [|x h].
    { destruct l; [done|]. by apply Permutation_nil in Hp. }
    destruct l as [|y l]; [done|]. simpl in Hhead. simplify_eq.
    destruct (heappop_ok Request_lt (y :: h) y h eq_refl Hh) as (h' & -> & Hh' & Hp' & _).
    split; [done|]. simpl in *. apply NoDup_cons in Hnd as [_ Hnd]. split; [done|].
    split_and!; [done| |by apply StronglySorted_inv in Hs as [? _]].
    rewrite Hp'. by apply Permutation_cons_inv in Hp.
  - pose proof (heap_head _ _ Hh Hp Hs) as Hhead. unfold peek_request, bind. simpl.
    rewrite Hhead. destruct l; done.
  - split; [done|]. by apply add_heap_rep.
  - destruct (push_all_rep (queue_iter rs) h l Hrep Hop) as (h' & Hrun & Hrep').
    unfold prepend_requests, bind. simpl. rewrite Hrun. done.
  - unfold remove_request, bind. simpl.
    rewrite list_remove_filter by (by rewrite Hp).
    assert (in_requests r h = in_requests r l) as ->.
    { apply eq_true_iff_eq. by rewrite !in_requests_spec, Hp. }
    destruct (in_requests r l); simpl; [|done]. split; [done|]. by apply filter_heap_rep.
  - split; [done|]. by apply filter_heap_rep.
  - simpl. split; [|done]. f_equal. by rewrite Hp.
  - simpl in *. by rewrite Hiter.
Qed.

(** One call: the answer of the contract, and the queue still represents it. *)
Lemma queue_step policy op q l :
  queue_rep policy q l -> queue_op_ok l op ->
  (queue_run op q).1 = (queue_spec policy op l).1
  /\ queue_rep policy (queue_run op q).2 (queue_spec policy op l).2.
Proof.
  intros Hrep Hop. destruct policy, q as [q|h]; try (by destruct Hrep).
  - destruct Hrep as [Hnd ->]. by apply step_fcfs.
  - by apply step_priority.
Qed.

(** The contract of the single calls, for clients. *)
Section calls.
Context (policy : SchedulingPolicy).
Implicit Types (q : RequestQueue) (l : list Request) (r : Request).

Lemma answer_succeeds {A} (f : A -> answer) (m : M RequestQueue A) q (Q : A -> RequestQueue -> Prop) :
  (forall a, answer_of f (m q) = (f a, (answer_of f (m q)).2) -> Q a (answer_of f (m q)).2) ->
  (forall e, (answer_of f (m q)).1 <> Failed e) -> succeeds m q Q.
Proof.
  unfold succeeds, answer_of. destruct (m q) as [a q'|e q']; simpl; intros HQ He; [by apply HQ|].
  by apply (He e).
Qed.

Lemma add_request_spec q l r :
  queue_rep policy q l -> obj_id r ∉ obj_id <$> l ->
  succeeds (add_request r) q (fun _ q' => exists l', l' ≡ₚ r :: l /\ queue_rep policy q' l').
Proof.
  intros Hq Hr. destruct (queue_step policy (Add r) q l Hq Hr) as [Ha Hrep]. simpl in *.
  eapply (answer_succeeds (fun _ => Done)); rewrite ?Ha; [|done]. intros _ _.
  eexists. split; [|exact Hrep]. destruct policy; [|apply insert_request_perm].
  apply Permutation_sym, Permutation_cons_append.
Qed.

Lemma prepend_request_spec q l r :
  queue_rep policy q l -> obj_id r ∉ obj_id <$> l ->
  succeeds (prepend_request r) q (fun _ q' => exists l', l' ≡ₚ r :: l /\ queue_rep policy q' l').
Proof.
  intros Hq Hr. destruct (queue_step policy (Prepend r) q l Hq Hr) as [Ha Hrep]. simpl in *.
  eapply (answer_succeeds (fun _ => Done)); rewrite ?Ha; [|done]. intros _ _.
  eexists. split; [|exact Hrep]. destruct policy; [done|apply insert_request_perm].
Qed.

Lemma pop_request_spec q l r :
  queue_rep policy q (r :: l) ->
  succeeds pop_request q (fun x q' => x = r /\ queue_rep policy q' l).
Proof.
  intros Hq. destruct (queue_step policy Pop q (r :: l) Hq I) as [Ha Hrep]. simpl in *.
  eapply (answer_succeeds Got); rewrite ?Ha; [|done]. intros x Hx. split; [|exact Hrep].
  rewrite Hx in Ha. by injection Ha.
Qed.

Lemma peek_request_spec q l r :
  queue_rep policy q (r :: l) -> succeeds peek_request q (fun x q' => x = r /\ q' = q).
Proof.
  intros Hq. destruct (queue_step policy Peek q (r :: l) Hq I) as [Ha _]. simpl in *.
  unfold peek_request, succeeds, bind in *. simpl in *.
  destruct q as [[|]|[|]]; simpl in *; try done; split; congruence.
Qed.

Lemma prepend_requests_spec q l q0 l0 :
  queue_rep policy q l -> queue_rep policy q0 l0 -> NoDup (obj_id <$> l0 ++ l) ->
  succeeds (prepend_requests q0) q (fun _ q' => exists l', l' ≡ₚ l0 ++ l /\ queue_rep policy q' l').
Proof.
  intros Hq Hq0 Hnd. pose proof (queue_iter_rep _ _ _ Hq0) as Hit.
  destruct (queue_step policy (PrependAll q0) q l Hq) as [Ha Hrep]; [simpl; by rewrite Hit|].
  simpl in *. rewrite Hit in *.
  eapply (answer_succeeds (fun _ => Done)); rewrite ?Ha; [|done]. intros _ _.
  eexists. split; [|exact Hrep]. destruct policy.
  - by rewrite <- (Permutation_rev l0).
  - unfold insert_requests. clear. revert l. induction l0 as [|x l0 IH]; intros l; simpl; [done|].
    by rewrite IH, insert_request_perm, Permutation_middle.
Qed.

Lemma remove_requests_spec q l rs :
  queue_rep policy q l ->
  succeeds (remove_requests rs) q (fun _ q' =>
    queue_rep policy q' (filter (fun x => in_requests x rs = false) l)).
Proof.
  intros Hq. destruct (queue_step policy (RemoveAll rs) q l Hq I) as [Ha Hrep]. simpl in *.
  eapply (answer_succeeds (fun _ => Done)); rewrite ?Ha; [|done]. intros _ _. exact Hrep.
Qed.

Lemma queue_len_rep q l : queue_rep policy q l -> queue_len q = len l.
Proof.
  intros Hq. destruct (queue_step policy Len q l Hq I) as [Ha _]. simpl in Ha. by injection Ha.
Qed.
End calls.

(** C17. Both queues are what their interface says.  Along every sequence of calls
    that adds only requests not queued yet, a first-come-first-served queue and a
    priority queue (a binary heap) answer every call, failing ones included, as a
    list in service order does: arrival order, or the order of
    [Request.__lt__]. *)
Theorem request_queue_refines policy ops :
  queue_ops_ok policy [] ops ->
  answers queue_run ops (create_request_queue policy) = answers (queue_spec policy) ops [].
Proof.
  pose proof (create_rep policy) as Hrep. revert Hrep.
  generalize (create_request_queue policy), (@nil Request).
  induction ops as [|op ops IH]; intros q l Hrep Hops; simpl; [done|].
  destruct Hops as [Hop Hops]. destruct (queue_step policy op q l Hrep Hop) as [-> Hrep'].
  f_equal. by apply IH.
Qed.

(** ** Concrete queues *)

Definition demo_queued (rid : string) (obj prio arrival : Z) : Request :=
  {| request_id := rid; obj_id := obj; priority := prio; arrival_time := arrival;
     sampling_params := None; pooling_params := None; lora_request := None;
     use_structured_output := false; status := WAITING; stop_reason := None; max_tokens := 16;
     prompt_token_ids := None; prompt_embeds := None; prompt_embeds_per_block_hashes := ∅;
     num_prompt_tokens := 0; output_token_ids := []; all_token_ids := []; spec_token_ids := [];
     num_computed_tokens := 0; num_preemptions := 0; cache_salt := None; mm_features := [];
     block_hashes := []; skip_reading_prefix_cache := false;
     num_output_placeholders := 0; is_prefill_chunk := false; discard_latest_async_tokens := false |}.

Definition demo_queue_ops : list queue_op :=
  [Add (demo_queued "a" 1 5 0); Add (demo_queued "b" 2 1 3); Prepend (demo_queued "c" 3 1 2);
   Peek; Remove (demo_queued "a" 1 5 0); Iterate; Pop; Pop; Pop].

Lemma request_queue_refines_witness :
  queue_ops_ok PRIORITY [] demo_queue_ops
  /\ answers queue_run demo_queue_ops (create_request_queue PRIORITY)
     = [Done; Done; Done; Got (demo_queued "c" 3 1 2); Done;
        All [demo_queued "c" 3 1 2; demo_queued "b" 2 1 3]; Got (demo_queued "c" 3 1 2);
        Got (demo_queued "b" 2 1 3); Failed IndexError].
Proof.
  assert (queue_ops_ok PRIORITY [] demo_queue_ops) as Hops.
  { simpl. split_and!; try done; apply (bool_decide_unpack _); vm_compute; exact I. }
  split; [exact Hops|]. rewrite (request_queue_refines PRIORITY demo_queue_ops Hops). reflexivity.
Defined.

(** Requests skipped in a scheduling pass are prepended one by one to a temporary
    queue, which is then prepended to the waiting queue: they keep their order. *)
Lemma requeue_skipped (skipped waiting : list Request) :
  mfor skipped prepend_request (FCFSRequestQueue [])
    = Ret tt (FCFSRequestQueue (rev skipped))
  /\ prepend_requests (FCFSRequestQueue (rev skipped)) (FCFSRequestQueue waiting)
     = Ret tt (FCFSRequestQueue (skipped ++ waiting)).
Proof.
  split.
  - rewrite <- (app_nil_r (rev skipped)). generalize (@nil Request).
    induction skipped as [|r l IH]; intros s; simpl; [done|].
    unfold bind at 1. simpl. unfold put. by rewrite IH, <- app_assoc.
  - unfold prepend_requests, bind, put. simpl. by rewrite extendleft, rev_involutive.
Qed.
