(* ===== verification/SchedUtils.v ===== *)
(** * Scheduler utilities

    Models vllm/v1/core/sched/utils.py: the detection of repeated output
    ([_has_repeating_pattern], [check_sequence_repetition]), the stop check of a
    request ([check_stop]) and [remove_all].  [repeats] says what a repetition is;
    [check_sequence_repetition_spec] shows that the index arithmetic finds exactly
    those. *)

From S2P Require Import Prelude Request.
From stdpp Require Import options.

(** ** Repetition *)

(** [for m in range(1, count): if token_ids[-(p * m + n)] != target: return False];
    [None] where Python raises [IndexError]. *)
Fixpoint row_matches (token_ids : list Z) (pattern_len n target : Z) (ms : list Z) : option bool :=
  match ms with
  | [] => Some true
  | m :: ms =>
      t ← py_index token_ids (- (pattern_len * m + n));
      if t =? target then row_matches token_ids pattern_len n target ms else Some false
  end.

Fixpoint rows_match (token_ids : list Z) (pattern_len min_count : Z) (ns : list Z) : option bool :=
  match ns with
  | [] => Some true
  | n :: ns =>
      target_token ← py_index token_ids (- n);
      b ← row_matches token_ids pattern_len n target_token (py_range 1 min_count);
      if b : bool then rows_match token_ids pattern_len min_count ns else Some false
  end.

Definition _has_repeating_pattern (token_ids : list Z) (pattern_len repetition_min_count : Z)
  : option bool :=
  rows_match token_ids pattern_len repetition_min_count (py_range 1 (pattern_len + 1)).

Fixpoint try_patterns (token_ids : list Z) (min_count : Z) (lens : list Z) : option bool :=
  match lens with
  | [] => Some false
  | pattern_len :: lens =>
      if len token_ids <? pattern_len * min_count then Some false
      else
        b ← _has_repeating_pattern token_ids pattern_len min_count;
        if b : bool then Some true else try_patterns token_ids min_count lens
  end.

Definition check_sequence_repetition (token_ids : list Z) (params : RepetitionDetectionParams)
  : option bool :=
  let min_size := if min_pattern_size params <=? 0 then 1 else min_pattern_size params in
  if ((max_pattern_size params <=? 0) || (min_count params <? 2)
      || (max_pattern_size params <? min_size))%bool
  then Some false
  else try_patterns token_ids (min_count params) (py_range min_size (max_pattern_size params + 1)).

(** ** Stop check *)

Definition check_stop (max_model_len : Z) : M Request bool :=
  request <- get ;;
  assert (is_none (pooling_params request)) ;;;
  sp <- of_option AssertionError (sampling_params request) ;;
  if num_output_tokens request <? min_tokens sp then ret false
  else
    last_token_id <- of_option IndexError (py_last (output_token_ids request)) ;;
    if bool_decide (Some last_token_id = eos_token_id sp) then
      modify (set_status FINISHED_STOPPED) ;;; ret true
    else if bool_decide (last_token_id ∈ default [] (stop_token_ids sp)) then
      modify (with_status FINISHED_STOPPED (Some (StopToken last_token_id))) ;;; ret true
    else if ((max_model_len <=? num_tokens request)
             || (max_tokens request <=? num_output_tokens request))%bool then
      modify (set_status FINISHED_LENGTH_CAPPED) ;;; ret true
    else
      match repetition_detection sp with
      | None => ret false
      | Some params =>
          repeated <- of_option IndexError
                        (check_sequence_repetition (output_token_ids request) params) ;;
          if repeated : bool then
            modify (with_status FINISHED_REPETITION (Some (StopText "repetition_detected"))) ;;;
            ret true
          else ret false
      end.

(** ** Removal *)

Section remove_all.
Context {A : Type} `{EqDecision A}.

(** [lst.remove(x)], a [ValueError] suppressed. *)
Fixpoint remove_first (x : A) (l : list A) : list A :=
  match l with
  | [] => []
  | y :: l => if decide (y = x) then l else y :: remove_first x l
  end.

(** [items_to_remove] lists the elements of a set. *)
Definition remove_all (lst items_to_remove : list A) : list A :=
  match items_to_remove with
  | [] => lst
  | [item] => remove_first item lst
  | _ => filter (fun item => item ∉ items_to_remove) lst
  end.

(** The fast path removes one occurrence, the other one all of them; on a list
    without duplicates they agree. *)
Lemma remove_all_filter lst items :
  NoDup lst -> remove_all lst items = filter (fun item => item ∉ items) lst.
Proof.
  intros Hnd. unfold remove_all. destruct items as [|x [|y items]]; [|..|done].
  - symmetry. apply list_filter_all. intros x _. apply not_elem_of_nil.
  - induction Hnd as [|y l Hy Hnd IH]; simpl; [done|].
    rewrite filter_cons. destruct (decide (y = x)) as [->|Hne].
    + rewrite decide_False by set_solver. symmetry. apply list_filter_all.
      intros z Hz. rewrite list_elem_of_singleton. congruence.
    + rewrite decide_True by set_solver. by rewrite IH.
Qed.
End remove_all.

(** ** What a repetition is *)

(** The sequence ends with [count] copies of some pattern of length [pattern_len]. *)
Definition repeats (token_ids : list Z) (pattern_len count : Z) : Prop :=
  exists before pattern, len pattern = pattern_len
    /\ token_ids = before ++ concat (replicate (Z.to_nat count) pattern).

Lemma py_index_neg (l : list Z) k :
  1 <= k <= len l -> py_index l (- k) = l !! (length l - Z.to_nat k)%nat.
Proof.
  intros Hk. unfold py_index, len in *. destruct (Z.ltb_spec (- k) 0); [|lia].
  destruct (Z.ltb_spec (- k + Z.of_nat (length l)) 0); [lia|]. f_equal. lia.
Qed.

Lemma length_copies (w : list Z) c : length (concat (replicate c w)) = (c * length w)%nat.
Proof. induction c as [|c IH]; simpl; [done|]. rewrite length_app, IH. lia. Qed.

(** Counting from the end, position [p * m + n] of the copies is position [n] of the
    pattern. *)
Lemma copies_lookup (w : list Z) c m n :
  (1 <= n <= length w)%nat -> (m < c)%nat ->
  concat (replicate c w) !! (c * length w - (length w * m + n))%nat = w !! (length w - n)%nat.
Proof.
  intros Hn. induction c as [|c IH]; intros Hm; [lia|]. simpl.
  destruct (decide (m = c)) as [->|Hne].
  - rewrite lookup_app_l by nia. f_equal. nia.
  - rewrite lookup_app_r by nia. rewrite <- IH by lia. f_equal. nia.
Qed.

(** The tokens a repetition compares. *)
Definition tail_equal (l : list Z) (p c : nat) : Prop :=
  forall n m, (1 <= n <= p)%nat -> (1 <= m < c)%nat ->
    l !! (length l - (p * m + n))%nat = l !! (length l - n)%nat.

Lemma repeats_tail l p c :
  (1 <= p)%nat -> (1 <= c)%nat -> (p * c <= length l)%nat ->
  repeats l (Z.of_nat p) (Z.of_nat c) <-> tail_equal l p c.
Proof.
  intros Hp Hc Hl. split.
  - intros (pre & w & Hw & Heq) n m Hn Hm. rewrite Nat2Z.id in Heq.
    assert (length w = p) as Hwp by (unfold len in Hw; lia).
    assert (length l = length pre + c * p)%nat as Hlen.
    { rewrite Heq, length_app, length_copies. lia. }
    assert (forall k, (k < c)%nat -> l !! (length l - (p * k + n))%nat = w !! (p - n)%nat) as Hk.
    { intros k Hk. rewrite Hlen, Heq. rewrite lookup_app_r by nia.
      rewrite <- Hwp, <- (copies_lookup w c k n) by lia. f_equal. nia. }
    rewrite (Hk m) by lia. rewrite <- (Hk 0%nat) by lia. f_equal. lia.
  - intros Heq. exists (take (length l - p * c) l), (drop (length l - p) l).
    set (w := drop (length l - p) l).
    assert (length w = p) as Hwp by (unfold w; rewrite length_drop; nia).
    split; [unfold len; lia|]. rewrite Nat2Z.id. apply list_eq. intros i.
    destruct (decide (i < length l - p * c)%nat) as [Hi|Hi].
    { rewrite lookup_app_l by (rewrite length_take; lia). by rewrite lookup_take_lt. }
    rewrite lookup_app_r by (rewrite length_take; lia). rewrite length_take, Nat.min_l by lia.
    destruct (decide (i < length l)%nat) as [Hi'|Hi'].
    2: { rewrite !lookup_ge_None_2; [done|rewrite length_copies; nia|lia]. }
    set (k := (length l - i - 1)%nat). set (m := (k / p)%nat). set (n := (k mod p + 1)%nat).
    assert (k = p * m + (n - 1))%nat as Hk.
    { unfold m, n. rewrite Nat.add_sub. apply Nat.div_mod. lia. }
    assert (1 <= n <= p)%nat as Hn by (unfold n; pose proof (Nat.mod_upper_bound k p); lia).
    assert (m < c)%nat as Hm by nia.
    replace (i - (length l - p * c))%nat with (c * length w - (length w * m + n))%nat
      by (rewrite Hwp; unfold k in *; nia).
    rewrite copies_lookup by lia. unfold w at 2. rewrite lookup_drop, Hwp.
    replace i with (length l - (p * m + n))%nat by (unfold k in *; lia).
    destruct (decide (m = 0%nat)) as [->|Hm0].
    + f_equal. nia.
    + rewrite Heq by lia. f_equal. nia.
Qed.

(** ** The index arithmetic *)

(** The token [k] places from the end. *)
Definition from_end (l : list Z) (k : Z) : option Z := l !! (length l - Z.to_nat k)%nat.

Lemma row_matches_spec l p n target ms :
  (forall m, m ∈ ms -> 1 <= p * m + n <= len l) ->
  exists b, row_matches l p n target ms = Some b
    /\ (b = true <-> forall m, m ∈ ms -> from_end l (p * m + n) = Some target).
Proof.
  induction ms as [|m ms IH]; intros Hms; simpl.
  { exists true. split; [done|]. split; [|done]. intros _ m Hm. by apply not_elem_of_nil in Hm. }
  rewrite py_index_neg by (apply Hms; left). fold (from_end l (p * m + n)).
  destruct (from_end l (p * m + n)) as [t|] eqn:Ht; simpl.
  2: { apply lookup_ge_None in Ht. specialize (Hms m ltac:(left)). unfold len in Hms. lia. }
  destruct (Z.eqb_spec t target) as [->|Hne].
  - destruct IH as (b & Hb & Hiff); [intros; apply Hms; by right|]. exists b. split; [done|].
    rewrite Hiff. setoid_rewrite elem_of_cons. naive_solver.
  - exists false. split; [done|]. split; [done|]. intros Hall.
    specialize (Hall m ltac:(left)). congruence.
Qed.

Lemma rows_match_spec l p c ns :
  (forall n m, n ∈ ns -> 0 <= m < Z.max 1 c -> 1 <= p * m + n <= len l) ->
  exists b, rows_match l p c ns = Some b
    /\ (b = true <-> forall n m, n ∈ ns -> 1 <= m < c -> from_end l (p * m + n) = from_end l n).
Proof.
  induction ns as [|n ns IH]; intros Hns; simpl.
  { exists true. split; [done|]. split; [|done]. intros _ n m Hn. by apply not_elem_of_nil in Hn. }
  assert (1 <= n <= len l) as Hn by (specialize (Hns n 0 ltac:(left)); lia).
  rewrite py_index_neg by done. fold (from_end l n).
  destruct (from_end l n) as [t|] eqn:Ht; simpl.
  2: { apply lookup_ge_None in Ht. unfold len in Hn. lia. }
  destruct (row_matches_spec l p n t (py_range 1 c)) as (b & -> & Hb).
  { intros m Hm%elem_of_py_range. apply Hns; [left|lia]. }
  simpl. destruct b.
  - destruct IH as (b & Hb' & Hiff); [intros n' m' ??; apply Hns; [by right|done]|]. exists b. split; [done|].
    rewrite Hiff. setoid_rewrite elem_of_cons. split; [|naive_solver].
    intros Hall k m [->|Hk] Hm; [|by auto]. rewrite Ht. apply Hb; [done|].
    apply elem_of_py_range. lia.
  - exists false. split; [done|]. split; [done|]. intros Hall. apply Hb.
    intros m Hm%elem_of_py_range. rewrite <- Ht. apply Hall; [left|lia].
Qed.

(** [_has_repeating_pattern] never indexes out of range when the copies fit, and
    answers whether the sequence ends with them. *)
Lemma has_repeating_pattern_spec l p c :
  1 <= p -> 1 <= c -> p * c <= len l ->
  exists b, _has_repeating_pattern l p c = Some b /\ (b = true <-> repeats l p c).
Proof.
  intros Hp Hc Hl. unfold _has_repeating_pattern.
  destruct (rows_match_spec l p c (py_range 1 (p + 1))) as (b & Hb & Hiff).
  { intros n m Hn%elem_of_py_range Hm. nia. }
  exists b. split; [done|]. rewrite Hiff.
  rewrite <- (Z2Nat.id p), <- (Z2Nat.id c) at 1 by lia.
  rewrite <- (Z2Nat.id p), <- (Z2Nat.id c) by lia.
  rewrite repeats_tail by (unfold len in Hl; lia || nia).
  unfold tail_equal, from_end. split.
  - intros Hall n m Hn Hm.
    specialize (Hall (Z.of_nat n) (Z.of_nat m)). rewrite elem_of_py_range in Hall.
    rewrite <- (Nat2Z.id n) at 2. rewrite <- Hall by lia. f_equal. lia.
  - intros Hall n m Hn%elem_of_py_range Hm.
    rewrite <- (Hall (Z.to_nat n) (Z.to_nat m)) by lia. f_equal. lia.
Qed.

(** A repetition is the exact end of the sequence, so it is at most as long. *)
Lemma repeats_length l p c : 0 <= c -> repeats l p c -> p * c <= len l.
Proof.
  intros Hc (pre & w & Hw & ->). unfold len in *. rewrite length_app, length_copies. nia.
Qed.

Lemma try_patterns_spec l c a b :
  1 <= a -> 1 <= c ->
  exists r, try_patterns l c (py_range a b) = Some r
    /\ (r = true <-> exists p, a <= p < b /\ p * c <= len l /\ repeats l p c).
Proof.
  intros Ha Hc. remember (Z.to_nat (b - a)) as k eqn:Hk. revert a Ha Hk.
  induction k as [|k IH]; intros a Ha Hk.
  { rewrite py_range_nil by lia. exists false. split; [done|]. split; [done|]. intros (p & ? & _). lia. }
  rewrite py_range_cons by lia. simpl. destruct (Z.ltb_spec (len l) (a * c)) as [Hlt|Hge].
  { exists false. split; [done|]. split; [done|]. intros (p & ? & ? & _). nia. }
  destruct (has_repeating_pattern_spec l a c) as (r & -> & Hr); [done..|]. simpl.
  destruct r.
  - exists true. split; [done|]. split; [|done]. intros _. exists a. split; [lia|].
    split; [done|by apply Hr].
  - destruct (IH (a + 1)) as (r & Hrun & Hiff); [lia..|]. exists r. split; [done|].
    rewrite Hiff. split; intros (p & Hp & Hl & Hrep); exists p; (split; [|done]); [lia|].
    destruct (decide (p = a)) as [->|]; [by apply Hr in Hrep|lia].
Qed.

(** What the parameters ask to detect. *)
Definition repetition (params : RepetitionDetectionParams) (token_ids : list Z) : Prop :=
  2 <= min_count params
  /\ exists p, Z.max 1 (min_pattern_size params) <= p <= max_pattern_size params
       /\ repeats token_ids p (min_count params).

Lemma check_sequence_repetition_run token_ids params :
  exists b, check_sequence_repetition token_ids params = Some b
    /\ (b = true <-> repetition params token_ids).
Proof.
  unfold check_sequence_repetition, repetition.
  set (lo := if min_pattern_size params <=? 0 then 1 else min_pattern_size params).
  assert (lo = Z.max 1 (min_pattern_size params)) as Hlo
    by (unfold lo; destruct (Z.leb_spec (min_pattern_size params) 0); lia).
  rewrite <- Hlo. clearbody lo.
  destruct (_ || _ || _)%bool eqn:Hoff.
  - exists false. split; [done|]. split; [done|]. intros (Hc & p & Hp & _).
    rewrite !orb_true_iff, Z.leb_le, !Z.ltb_lt in Hoff. lia.
  - bool_to_prop.
    destruct (try_patterns_spec token_ids (min_count params) lo (max_pattern_size params + 1))
      as (b & Hb & Hiff); [lia..|].
    exists b. split; [done|]. rewrite Hiff. split.
    + intros (p & ? & _ & ?). split; [lia|]. exists p. split; [lia|done].
    + intros (_ & p & ? & ?). exists p. split; [lia|]. split; [|done].
      by apply repeats_length; [lia|].
Qed.

(** C32. Repetition detection is exact.  [check_sequence_repetition] never indexes out of
    range, and answers [true] exactly if detection is enabled (patterns of at least
    one token, at least two copies) and the output ends with [min_count] copies of
    some pattern whose length is within the limits. *)
Theorem check_sequence_repetition_spec token_ids params :
  exists b, check_sequence_repetition token_ids params = Some b
    /\ (b = true <->
        2 <= min_count params
        /\ exists p before pattern,
             Z.max 1 (min_pattern_size params) <= p <= max_pattern_size params
             /\ len pattern = p
             /\ token_ids = before ++ concat (replicate (Z.to_nat (min_count params)) pattern)).
Proof.
  destruct (check_sequence_repetition_run token_ids params) as (b & Hb & Hiff).
  exists b. split; [done|]. rewrite Hiff. unfold repetition, repeats. naive_solver.
Qed.

(** ** The stop check *)

(** The reasons to stop after the last token [t], in order of precedence. *)
Definition stops_at (sp : SamplingParams) (t : Z) : Prop :=
  Some t = eos_token_id sp \/ t ∈ default [] (stop_token_ids sp).

Definition too_long (max_model_len : Z) (request : Request) : Prop :=
  max_model_len <= num_tokens request \/ max_tokens request <= num_output_tokens request.

Definition repeated_output (sp : SamplingParams) (request : Request) : Prop :=
  exists params, repetition_detection sp = Some params
    /\ repetition params (output_token_ids request).

Lemma check_stop_run request sp max_model_len t :
  pooling_params request = None -> sampling_params request = Some sp ->
  py_last (output_token_ids request) = Some t ->
  exists b r', check_stop max_model_len request = Ret b r'
    /\ if b : bool
       then min_tokens sp <= num_output_tokens request
            /\ (stops_at sp t /\ status r' = FINISHED_STOPPED
                \/ ~ stops_at sp t /\ too_long max_model_len request
                   /\ status r' = FINISHED_LENGTH_CAPPED
                \/ ~ stops_at sp t /\ ~ too_long max_model_len request
                   /\ repeated_output sp request /\ status r' = FINISHED_REPETITION)
            /\ r' = with_status (status r') (stop_reason r') request
       else r' = request
            /\ (num_output_tokens request < min_tokens sp
                \/ ~ stops_at sp t /\ ~ too_long max_model_len request
                   /\ ~ repeated_output sp request).
Proof.
  intros Hpp Hsp Ht. unfold check_stop, bind, get. rewrite Hpp, Hsp. simpl.
  destruct (Z.ltb_spec (num_output_tokens request) (min_tokens sp)).
  { exists false, request. split; [done|]. auto. }
  rewrite Ht. simpl. unfold stops_at.
  case_bool_decide as Heos; [eexists true, _; split; [done|]; split_and!; [done|by auto|done]|].
  case_bool_decide as Hstop; [eexists true, _; split; [done|]; split_and!; [done|by auto|done]|].
  assert (~ (Some t = eos_token_id sp \/ t ∈ default [] (stop_token_ids sp))) as Hno by tauto.
  unfold too_long.
  destruct (Z.leb_spec max_model_len (num_tokens request)); simpl;
    [eexists true, _; split; [done|]; split_and!; [done|by auto 6|done]|].
  destruct (Z.leb_spec (max_tokens request) (num_output_tokens request)); simpl;
    [eexists true, _; split; [done|]; split_and!; [done|by auto 6|done]|].
  assert (~ (max_model_len <= num_tokens request
             \/ max_tokens request <= num_output_tokens request)) as Hshort by lia.
  unfold repeated_output. destruct (repetition_detection sp) as [params|] eqn:Hrd.
  - destruct (check_sequence_repetition_run (output_token_ids request) params) as (b & Hb & Hiff).
    rewrite Hb. simpl. destruct b.
    + eexists true, _. split; [done|]. split_and!; [done| |done]. right; right.
      split_and!; [done|done| |done]. exists params. split; [done|by apply Hiff].
    + exists false, request. split; [done|]. split; [done|]. right. split_and!; [done|done|].
      intros (params' & [= <-] & Hrep). by apply Hiff in Hrep.
  - exists false, request. split; [done|]. split; [done|]. right. split_and!; [done|done|].
    by intros (? & ? & _).
Qed.

(** The stop check.  For a request with at least one output token [check_stop]
    returns [true] exactly if the minimum length is reached and the last token is
    the end-of-sequence or a stop token, a length limit is reached, or the output
    repeats; the first of these in that order gives the status, which is a
    finished one; nothing but status and stop reason changes, and nothing at all
    when it returns [false]. *)
Theorem check_stop_spec request sp max_model_len t :
  pooling_params request = None -> sampling_params request = Some sp ->
  py_last (output_token_ids request) = Some t ->
  exists b r', check_stop max_model_len request = Ret b r'
    /\ (b = true <->
        min_tokens sp <= num_output_tokens request
        /\ (stops_at sp t \/ too_long max_model_len request \/ repeated_output sp request))
    /\ (b = false -> r' = request)
    /\ (b = true ->
        is_finished (status r') = true
        /\ r' = with_status (status r') (stop_reason r') request
        /\ (status r' = FINISHED_STOPPED <-> stops_at sp t)
        /\ (status r' = FINISHED_REPETITION ->
            ~ too_long max_model_len request /\ repeated_output sp request)).
Proof.
  intros Hpp Hsp Ht.
  destruct (check_stop_run request sp max_model_len t Hpp Hsp Ht) as (b & r' & Hrun & Hb).
  exists b, r'. split; [done|]. destruct b.
  - destruct Hb as (Hmin & Hwhy & Hr'). split_and!.
    + split; [|done]. intros _. split; [done|]. naive_solver.
    + done.
    + intros _. split; [|split; [done|]].
      * destruct Hwhy as [(_ & ->)|[(_ & _ & ->)|(_ & _ & _ & ->)]]; done.
      * destruct Hwhy as [(? & ->)|[(? & ? & ->)|(? & ? & ? & ->)]]; naive_solver.
  - destruct Hb as (-> & Hwhy). split_and!; [|done|done].
    split; [done|]. intros (Hmin & Hor). destruct Hwhy as [?|?]; [lia|]. naive_solver.
Qed.

Definition demo_sampling : SamplingParams :=
  {| sp_max_tokens := Some 10; min_tokens := 1; eos_token_id := Some 2;
     stop_token_ids := Some [7];
     repetition_detection := Some {| max_pattern_size := 3; min_pattern_size := 1; min_count := 3 |};
     sp_skip_reading_prefix_cache := None |}.

(** The output 9 4 5 4 5 4 5 ends with three copies of 4 5. *)
Definition demo_output : list Z := [9; 4; 5; 4; 5; 4; 5].

Definition demo_running : Request :=
  {| request_id := "r"; obj_id := 0; priority := 0; arrival_time := 0;
     sampling_params := Some demo_sampling; pooling_params := None; lora_request := None;
     use_structured_output := false; status := RUNNING; stop_reason := None; max_tokens := 10;
     prompt_token_ids := Some [1]; prompt_embeds := None; prompt_embeds_per_block_hashes := ∅;
     num_prompt_tokens := 1; output_token_ids := demo_output;
     all_token_ids := 1 :: demo_output; spec_token_ids := []; num_computed_tokens := 7;
     num_preemptions := 0; cache_salt := None; mm_features := []; block_hashes := [];
     skip_reading_prefix_cache := false;
     num_output_placeholders := 0; is_prefill_chunk := false; discard_latest_async_tokens := false |}.

Lemma check_stop_spec_witness :
  exists r', check_stop 100 demo_running = Ret true r' /\ status r' = FINISHED_REPETITION
    /\ is_finished (status r') = true.
Proof.
  destruct (check_stop_spec demo_running demo_sampling 100 5 eq_refl eq_refl eq_refl)
    as (b & r' & Hrun & _ & _ & Hfin).
  assert (match check_stop 100 demo_running with
          | Ret b r => b = true /\ status r = FINISHED_REPETITION | Raise _ _ => False end) as Hc
    by (vm_compute; split; reflexivity).
  rewrite Hrun in Hc. destruct Hc as [-> Hst].
  exists r'. split; [exact Hrun|]. split; [exact Hst|]. by apply Hfin.
Defined.
