(* ===== verification/KVCache.v ===== *)
(** * What the scheduler asks of the KV cache

    [KVCache] lists the calls sched/scheduler.py makes on its [kv_cache_manager]
    (with no KV connector), [Tokens] the one call on a request that hashes:
    [Request.append_output_token_ids].  [KVCacheLaws] is the promise the
    scheduler's theorems build on; KVStandard.v shows that [KVCacheManager] keeps
    it. *)

From S2P Require Import Prelude FreeQueue Request BlockHash BlockPool KVManager Stats.
From stdpp Require Import options.

Class KVCache (S : Type) := {
  kvc_new_step_starts : M S unit;
  kvc_empty_kv_cache_blocks : S -> KVCacheBlocks;
  kvc_get_computed_blocks : Request -> M S (KVCacheBlocks * Z);
  (** request, new computed tokens and their blocks, encoder tokens *)
  kvc_can_fit_full_sequence : Request -> Z -> KVCacheBlocks -> Z -> M S bool;
  (** request, new tokens, new computed tokens and their blocks, lookahead, encoder
      tokens; the request comes back with its memo of hashes *)
  kvc_allocate_slots : Request -> Z -> Z -> option KVCacheBlocks -> Z -> Z
    -> M S (option KVCacheBlocks * Request);
  kvc_free : Request -> M S unit;
  kvc_get_blocks : string -> M S KVCacheBlocks;
  kvc_get_block_ids : S -> bool -> KVCacheBlocks -> option (list (list Z));
  kvc_get_num_common_prefix_blocks : string -> M S (list Z);
  kvc_take_new_block_ids : M S (list Z);
  kvc_reset_prefix_cache : M S bool;
  kvc_cache_blocks : Request -> Z -> M S Request;
  kvc_take_events : M S (list KVCacheEvent);
  kvc_make_prefix_cache_stats : M S (option PrefixCacheStats.t);
}.

(** [request.append_output_token_ids(token)], with the request's block hasher. *)
Class Tokens := { append_output_token : Z -> M Request unit }.

(** [r'] is [r] with the token appended; only hashes and their memo change besides. *)
Definition appended (t : Z) (r r' : Request) : Prop :=
  exists memo hs, r' = with_hashes memo hs
                         (with_tokens (output_token_ids r ++ [t]) (all_token_ids r ++ [t]) r).

Section laws.
Context {S : Type} `{Hkv : KVCache S} `{Htok : Tokens}.

(** [max_len] is the longest sequence the cache is made for. *)
Class KVCacheLaws (max_len : Z) := {
  kvc_ok : S -> Prop;
  kvc_room : S -> string -> Z -> Prop;  (** slots for that many tokens in all groups *)
  kvc_clear : S -> string -> Prop;  (** the request holds nothing *)
  kvc_legal : S -> string -> KVCacheBlocks -> Z -> Prop;  (** computed blocks to take over *)
  kvc_good : Request -> Prop;  (** its block hashes are those of its tokens *)
  kvc_kept (s s' : S) (P : string -> Prop) : Prop :=
    kvc_ok s' /\ forall rid, P rid ->
      (forall k, kvc_room s rid k -> kvc_room s' rid k) /\ (kvc_clear s rid -> kvc_clear s' rid);
  kvc_good_progress : forall r st spec c p ph ch d,
    kvc_good r -> kvc_good (with_progress st spec c p ph ch d r);
  (** [r'] is [r] with more digests memoised. *)
  kvc_memoised (r r' : Request) : Prop := same_but_memo r r' /\ (kvc_good r -> kvc_good r');
  kvc_good_append : forall r t, kvc_good r ->
    succeeds (append_output_token t) r (fun _ r' => kvc_good r' /\ appended t r r');
  kvc_room_le : forall s rid k k', kvc_room s rid k -> 0 <= k' <= k -> kvc_room s rid k';
  kvc_new_step_spec : forall s, kvc_ok s ->
    succeeds kvc_new_step_starts s (fun _ s' => kvc_kept s s' (fun _ => True));
  kvc_get_computed_spec : forall r s,
    kvc_ok s -> kvc_good r -> kvc_clear s (request_id r) -> 1 <= num_tokens r ->
    succeeds (kvc_get_computed_blocks r) s (fun x s' =>
      kvc_kept s s' (fun _ => True) /\ 0 <= x.2 < num_tokens r
      /\ kvc_legal s' (request_id r) x.1 x.2);
  kvc_can_fit_spec : forall r s n b enc,
    kvc_ok s -> num_computed_tokens r = 0 -> kvc_clear s (request_id r) ->
    kvc_legal s (request_id r) b n ->
    succeeds (kvc_can_fit_full_sequence r n b enc) s (fun _ s' =>
      kvc_kept s s' (fun _ => True) /\ kvc_legal s' (request_id r) b n);
  kvc_allocate_running_spec : forall r s new look,
    kvc_ok s -> kvc_good r -> 0 < new -> 0 <= num_computed_tokens r -> 0 <= look ->
    num_computed_tokens r + new <= max_len -> kvc_room s (request_id r) (num_computed_tokens r) ->
    succeeds (kvc_allocate_slots r new 0 None look 0) s (fun x s' =>
      kvc_kept s s' (fun rid => rid <> request_id r) /\ kvc_memoised r x.2
      /\ kvc_room s' (request_id r)
           (num_computed_tokens r + match x.1 with Some _ => new | None => 0 end));
  kvc_allocate_waiting_spec : forall r s new n b look enc,
    kvc_ok s -> kvc_good r -> 0 < new -> num_computed_tokens r = 0 -> 0 <= look ->
    n + new <= max_len -> kvc_clear s (request_id r) -> kvc_legal s (request_id r) b n ->
    succeeds (kvc_allocate_slots r new n (Some b) look enc) s (fun x s' =>
      kvc_kept s s' (fun rid => rid <> request_id r) /\ kvc_memoised r x.2
      /\ match x.1 with
         | Some _ => kvc_room s' (request_id r) (n + new)
         | None => kvc_clear s' (request_id r)
         end);
  kvc_free_spec : forall r s, kvc_ok s ->
    succeeds (kvc_free r) s (fun _ s' =>
      kvc_kept s s' (fun rid => rid <> request_id r) /\ kvc_clear s' (request_id r));
  kvc_get_blocks_spec : forall rid s, kvc_ok s ->
    succeeds (kvc_get_blocks rid) s (fun _ s' => kvc_kept s s' (fun _ => True));
  kvc_common_prefix_spec : forall rid s, kvc_ok s ->
    succeeds (kvc_get_num_common_prefix_blocks rid) s (fun _ s' => kvc_kept s s' (fun _ => True));
  kvc_take_new_spec : forall s, kvc_ok s ->
    succeeds kvc_take_new_block_ids s (fun _ s' => kvc_kept s s' (fun _ => True));
  kvc_reset_spec : forall s, kvc_ok s ->
    succeeds kvc_reset_prefix_cache s (fun b s' => kvc_kept s s' (fun _ => True)
      /\ ((forall rid, kvc_clear s rid) -> b = true));
  kvc_take_events_spec : forall s, kvc_ok s ->
    succeeds kvc_take_events s (fun _ s' => kvc_kept s s' (fun _ => True));
  kvc_stats_spec : forall s, kvc_ok s ->
    succeeds kvc_make_prefix_cache_stats s (fun _ s' => kvc_kept s s' (fun _ => True));
}.
End laws.
Arguments KVCacheLaws S {Hkv Htok} max_len.

(** ** [KVCacheManager] has the operations *)

#[export] Instance kv_manager_ops `{HashEnv} : KVCache KVCacheManager.t := {
  kvc_new_step_starts := KVCacheManager.new_step_starts;
  kvc_empty_kv_cache_blocks := KVCacheManager.empty_kv_cache_blocks;
  kvc_get_computed_blocks r s :=
    match KVCacheManager.get_computed_blocks r s with Some o => o | None => Raise OutOfFuel s end;
  kvc_can_fit_full_sequence r n b enc := KVCacheManager.can_fit_full_sequence r n (Some b) 0 enc;
  kvc_allocate_slots r new n b look enc :=
    KVCacheManager.allocate_slots r new n b look 0 false enc;
  kvc_free := KVCacheManager.free;
  kvc_get_blocks := KVCacheManager.get_blocks;
  kvc_get_block_ids s allow_none b :=
    get_block_ids (BlockPool.heap (KVCacheManager.block_pool s)) allow_none b;
  kvc_get_num_common_prefix_blocks := KVCacheManager.get_num_common_prefix_blocks;
  kvc_take_new_block_ids := KVCacheManager.take_new_block_ids;
  kvc_reset_prefix_cache := KVCacheManager.reset_prefix_cache;
  kvc_cache_blocks := KVCacheManager.cache_blocks;
  kvc_take_events := KVCacheManager.take_events;
  kvc_make_prefix_cache_stats := KVCacheManager.make_prefix_cache_stats;
}.

(** A block hasher over [hash_function]; [None] when caching is disabled. *)
Definition hashed_tokens `{HashEnv}
    (hash_function : bytes * list Z * option (list extra_key) -> bytes) (NONE_HASH : bytes)
    (block_hasher : option Z) : Tokens := {|
  append_output_token t := append_output_token_ids hash_function NONE_HASH env_sha256 block_hasher [t];
|}.
