(* ===== verification/Scheduler.v ===== *)
(** * The scheduler

    Models sched/scheduler.py and sched/async_scheduler.py: the queues of
    requests, [schedule] with preemption, [update_from_output], adding, finishing
    and preempting requests.  The KV cache and the encoder cache are reached
    through their interfaces ([KVCache], [EncoderCache]).  Request objects are
    shared between the dict [requests], [running] and the two waiting queues, so
    they live in a store [objects]; [running] and the dict hold references
    ([obj_id]).  A queue entry is the object as it was when queued: the queues read
    only its identity, priority, arrival time and id, which never change.

    Not modelled here: KV connectors (the [connector] is [None], so that no
    external tokens exist and freeing is never delayed), streaming sessions (no
    request is resumable), routed experts, and what only reports: events, time
    stamps, prefill statistics, log probabilities, NaN counts, perf metrics. *)

From stdpp Require Import sorting.
From S2P Require Import Prelude Request BlockPool KVManager EncoderCache EncoderSched RequestQueue.
From S2P Require Import SchedUtils KVCache Stats.
From stdpp Require Import options.

Module Scheduler.

Inductive PauseState := UNPAUSED | PAUSED_NEW | PAUSED_ALL.

#[export] Instance PauseState_eq_dec : EqDecision PauseState.
Proof. solve_decision. Defined.

(** The fields [__init__] computes from the configuration. *)
Record Config := {
  policy : SchedulingPolicy;
  max_num_running_reqs : Z;
  max_num_scheduled_tokens : Z;
  max_model_len : Z;
  long_prefill_token_threshold : Z;
  enable_chunked_prefill : bool;
  max_loras : option Z;  (** [lora_config.max_loras] *)
  use_eagle : bool;
  num_spec_tokens : Z;
  num_lookahead_tokens : Z;
  scheduler_reserve_full_isl : bool;
  mamba_block_size : option Z;
    (** [cache_config.block_size] if [need_mamba_block_aligned_split] *)
  max_num_encoder_input_tokens : Z;
  encoder_config : EncoderSchedConfig;
  needs_kv_cache_zeroing : bool;
  num_kv_cache_groups : Z;
  async_scheduling : bool;
  use_pp : bool;
  use_v2_model_runner : bool;
  log_stats : bool;
}.

(** [max_num_scheduled_tokens or max_num_batched_tokens] *)
Definition scheduled_tokens_limit (max_num_scheduled_tokens : option Z) (max_num_batched_tokens : Z) : Z :=
  match max_num_scheduled_tokens with
  | Some n => if n =? 0 then max_num_batched_tokens else n
  | None => max_num_batched_tokens
  end.

(** [use_eagle], [num_spec_tokens] and [num_lookahead_tokens] from the speculative
    configuration: number of tokens, eagle, draft model. *)
Definition speculative_fields (speculative_config : option (Z * bool * bool)) : bool * Z * Z :=
  match speculative_config with
  | None => (false, 0, 0)
  | Some (n, eagle, draft_model) => (eagle, n, if (eagle || draft_model)%bool then n else 0)
  end.

Section scheduler.
Context {KV EC : Type} `{Hkv : KVCache KV} `{Htok : Tokens} `{Hec : EncoderCache EC} `{SetIter}.
Context (c : Config).

Record t := Mk {
  objects : gmap Z Request;
  requests : list (string * Z);
  running : list Z;
  waiting : RequestQueue;
  skipped_waiting : RequestQueue;
  prev_step_scheduled_req_ids : gset string;
  finished_req_ids : gset string;
  pause_state : PauseState;
  kv_cache_manager : KV;
  encoder_cache_manager : EC;
}.

Definition init (kv : KV) (enc : EC) : t :=
  Mk ∅ [] [] (create_request_queue (policy c)) (create_request_queue (policy c)) ∅ ∅ UNPAUSED kv enc.

Definition set_objects (o : gmap Z Request) (s : t) : t :=
  Mk o (requests s) (running s) (waiting s) (skipped_waiting s) (prev_step_scheduled_req_ids s)
     (finished_req_ids s) (pause_state s) (kv_cache_manager s) (encoder_cache_manager s).

Definition set_requests (d : list (string * Z)) (s : t) : t :=
  Mk (objects s) d (running s) (waiting s) (skipped_waiting s) (prev_step_scheduled_req_ids s)
     (finished_req_ids s) (pause_state s) (kv_cache_manager s) (encoder_cache_manager s).

Definition set_running (l : list Z) (s : t) : t :=
  Mk (objects s) (requests s) l (waiting s) (skipped_waiting s) (prev_step_scheduled_req_ids s)
     (finished_req_ids s) (pause_state s) (kv_cache_manager s) (encoder_cache_manager s).

Definition set_waiting (q : RequestQueue) (s : t) : t :=
  Mk (objects s) (requests s) (running s) q (skipped_waiting s) (prev_step_scheduled_req_ids s)
     (finished_req_ids s) (pause_state s) (kv_cache_manager s) (encoder_cache_manager s).

Definition set_skipped (q : RequestQueue) (s : t) : t :=
  Mk (objects s) (requests s) (running s) (waiting s) q (prev_step_scheduled_req_ids s)
     (finished_req_ids s) (pause_state s) (kv_cache_manager s) (encoder_cache_manager s).

Definition set_prev_step (ids : gset string) (s : t) : t :=
  Mk (objects s) (requests s) (running s) (waiting s) (skipped_waiting s) ids
     (finished_req_ids s) (pause_state s) (kv_cache_manager s) (encoder_cache_manager s).

Definition set_finished (ids : gset string) (s : t) : t :=
  Mk (objects s) (requests s) (running s) (waiting s) (skipped_waiting s)
     (prev_step_scheduled_req_ids s) ids (pause_state s) (kv_cache_manager s)
     (encoder_cache_manager s).

Definition set_pause_state (p : PauseState) (s : t) : t :=
  Mk (objects s) (requests s) (running s) (waiting s) (skipped_waiting s)
     (prev_step_scheduled_req_ids s) (finished_req_ids s) p (kv_cache_manager s)
     (encoder_cache_manager s).

Definition set_kv (k : KV) (s : t) : t :=
  Mk (objects s) (requests s) (running s) (waiting s) (skipped_waiting s)
     (prev_step_scheduled_req_ids s) (finished_req_ids s) (pause_state s) k
     (encoder_cache_manager s).

Definition set_enc (e : EC) (s : t) : t :=
  Mk (objects s) (requests s) (running s) (waiting s) (skipped_waiting s)
     (prev_step_scheduled_req_ids s) (finished_req_ids s) (pause_state s) (kv_cache_manager s) e.

Definition on_kv {A} (m : M KV A) : M t A := zoom kv_cache_manager set_kv m.
Definition on_enc {A} (m : M EC A) : M t A := zoom encoder_cache_manager set_enc m.
Definition on_waiting {A} (m : M RequestQueue A) : M t A := zoom waiting set_waiting m.
Definition on_skipped {A} (m : M RequestQueue A) : M t A := zoom skipped_waiting set_skipped m.

(** A queue that is a local variable. *)
Definition on_local {A} (q : RequestQueue) (m : M RequestQueue A) : M t (A * RequestQueue) :=
  match m q with Ret a q => ret (a, q) | Raise e _ => raise e end.

(** The object behind a reference, and an assignment to its fields. *)
Definition deref (o : Z) : M t Request :=
  s <- get ;; of_option AttributeError (objects s !! o).

Definition assign (o : Z) (f : Request -> Request) : M t unit :=
  modify (fun s => set_objects (alter f o (objects s)) s).

(** A method of the object. *)
Definition on_request {A} (o : Z) (m : M Request A) : M t A :=
  r <- deref o ;;
  match m r with
  | Ret a r => assign o (fun _ => r) ;;; ret a
  | Raise e r => assign o (fun _ => r) ;;; raise e
  end.

(** ** The two waiting queues *)

Definition _is_blocked_waiting_status (st : RequestStatus) : bool :=
  match st with
  | WAITING_FOR_STRUCTURED_OUTPUT_GRAMMAR | WAITING_FOR_REMOTE_KVS
  | WAITING_FOR_STREAMING_REQ => true
  | _ => false
  end.

Definition _enqueue_waiting_request (request : Request) : M t unit :=
  if _is_blocked_waiting_status (status request) then on_skipped (add_request request)
  else on_waiting (add_request request).

Definition nonempty (q : RequestQueue) : bool := negb (queue_len q =? 0).

(** [true] for [self.waiting], [false] for [self.skipped_waiting]. *)
Definition _select_waiting_queue_for_scheduling : M t (option bool) :=
  s <- get ;;
  match policy c with
  | FCFS =>
      ret (if nonempty (skipped_waiting s) then Some false
           else if nonempty (waiting s) then Some true else None)
  | PRIORITY =>
      if (nonempty (waiting s) && nonempty (skipped_waiting s))%bool then
        waiting_req <- on_waiting peek_request ;;
        skipped_req <- on_skipped peek_request ;;
        ret (Some (Request_lt waiting_req skipped_req))
      else
        ret (if nonempty (waiting s) then Some true
             else if nonempty (skipped_waiting s) then Some false else None)
  end.

Definition on_queue {A} (which : bool) (m : M RequestQueue A) : M t A :=
  if which then on_waiting m else on_skipped m.

(** [grammar_ready rid]: the grammar of the request is compiled.  Without a
    connector no request waits for remote keys. *)
Definition _try_promote_blocked_waiting_request (grammar_ready : string -> bool) (o : Z) : M t bool :=
  request <- deref o ;;
  match status request with
  | WAITING_FOR_REMOTE_KVS => ret false
  | WAITING_FOR_STRUCTURED_OUTPUT_GRAMMAR =>
      if negb (use_structured_output request && grammar_ready (request_id request))%bool
      then ret false
      else assign o (set_status WAITING) ;;; ret true
  | WAITING_FOR_STREAMING_REQ => ret false
  | _ => raise AssertionError
  end.

(** ** Preemption *)

Definition _preempt_request (o : Z) : M t unit :=
  request <- deref o ;;
  assert (bool_decide (status request = RUNNING)) ;;;
  on_kv (kvc_free request) ;;;
  on_enc (ec_free request) ;;;
  assign o (fun r => with_progress PREEMPTED [] 0 (num_preemptions r + 1)
    (num_output_placeholders r) (is_prefill_chunk r) (discard_latest_async_tokens r) r) ;;;
  request <- deref o ;;
  on_waiting (prepend_request request).

(** [max(self.running, key=lambda r: (r.priority, r.arrival_time))]: the first of
    the largest ones. *)
Definition later (a b : Request) : bool :=
  ((priority b <? priority a)
   || ((priority a =? priority b) && (arrival_time b <? arrival_time a)))%bool.

Fixpoint max_running (best : Z * Request) (l : list Z) : M t (Z * Request) :=
  match l with
  | [] => ret best
  | o :: l => r <- deref o ;; max_running (if later r best.2 then (o, r) else best) l
  end.

Definition lowest_priority (l : list Z) : M t Z :=
  match l with
  | [] => raise ValueError
  | o :: l => r <- deref o ;; best <- max_running (o, r) l ;; ret best.1
  end.

(** ** The local variables of [schedule] *)

Record locals := {
  token_budget : Z;
  encoder_budget : Z;
  req_index : Z;
  scheduled_new_reqs : list Z;
  scheduled_resumed_reqs : list Z;
  scheduled_running_reqs : list Z;
  preempted_reqs : list Z;
  req_to_new_blocks : list (string * KVCacheBlocks);
  num_scheduled_tokens : list (string * Z);
  scheduled_encoder_inputs : list (string * list Z);
  scheduled_spec_decode_tokens : list (string * list Z);
}.

Definition set_req_index (i : Z) (v : locals) : locals :=
  {| token_budget := token_budget v; encoder_budget := encoder_budget v; req_index := i;
     scheduled_new_reqs := scheduled_new_reqs v; scheduled_resumed_reqs := scheduled_resumed_reqs v;
     scheduled_running_reqs := scheduled_running_reqs v; preempted_reqs := preempted_reqs v;
     req_to_new_blocks := req_to_new_blocks v; num_scheduled_tokens := num_scheduled_tokens v;
     scheduled_encoder_inputs := scheduled_encoder_inputs v;
     scheduled_spec_decode_tokens := scheduled_spec_decode_tokens v |}.

Definition add_preempted (o : Z) (v : locals) : locals :=
  {| token_budget := token_budget v; encoder_budget := encoder_budget v; req_index := req_index v;
     scheduled_new_reqs := scheduled_new_reqs v; scheduled_resumed_reqs := scheduled_resumed_reqs v;
     scheduled_running_reqs := scheduled_running_reqs v; preempted_reqs := preempted_reqs v ++ [o];
     req_to_new_blocks := req_to_new_blocks v; num_scheduled_tokens := num_scheduled_tokens v;
     scheduled_encoder_inputs := scheduled_encoder_inputs v;
     scheduled_spec_decode_tokens := scheduled_spec_decode_tokens v |}.

(** The preempted request had been scheduled in this step: [n] tokens and
    [embeds] encoder embeddings go back to the budgets. *)
Definition unschedule (o : Z) (rid : string) (n embeds : Z) (v : locals) : locals :=
  {| token_budget := token_budget v + n; encoder_budget := encoder_budget v + embeds;
     req_index := req_index v - 1;
     scheduled_new_reqs := scheduled_new_reqs v; scheduled_resumed_reqs := scheduled_resumed_reqs v;
     scheduled_running_reqs := remove_first o (scheduled_running_reqs v);
     preempted_reqs := preempted_reqs v;
     req_to_new_blocks := dict_del rid (req_to_new_blocks v);
     num_scheduled_tokens := dict_del rid (num_scheduled_tokens v);
     scheduled_encoder_inputs := dict_del rid (scheduled_encoder_inputs v);
     scheduled_spec_decode_tokens := dict_del rid (scheduled_spec_decode_tokens v) |}.

Definition add_scheduled_running (o : Z) (rid : string) (b : KVCacheBlocks) (n : Z) (v : locals)
  : locals :=
  {| token_budget := token_budget v - n; encoder_budget := encoder_budget v;
     req_index := req_index v + 1;
     scheduled_new_reqs := scheduled_new_reqs v; scheduled_resumed_reqs := scheduled_resumed_reqs v;
     scheduled_running_reqs := scheduled_running_reqs v ++ [o];
     preempted_reqs := preempted_reqs v;
     req_to_new_blocks := dict_set rid b (req_to_new_blocks v);
     num_scheduled_tokens := dict_set rid n (num_scheduled_tokens v);
     scheduled_encoder_inputs := scheduled_encoder_inputs v;
     scheduled_spec_decode_tokens := scheduled_spec_decode_tokens v |}.

(** A waiting request: new or resumed. *)
Definition add_scheduled_waiting (o : Z) (rid : string) (is_new : bool) (b : KVCacheBlocks) (n : Z)
    (v : locals) : locals :=
  {| token_budget := token_budget v - n; encoder_budget := encoder_budget v;
     req_index := req_index v;
     scheduled_new_reqs := scheduled_new_reqs v ++ (if is_new then [o] else []);
     scheduled_resumed_reqs := scheduled_resumed_reqs v ++ (if is_new then [] else [o]);
     scheduled_running_reqs := scheduled_running_reqs v;
     preempted_reqs := preempted_reqs v;
     req_to_new_blocks := dict_set rid b (req_to_new_blocks v);
     num_scheduled_tokens := dict_set rid n (num_scheduled_tokens v);
     scheduled_encoder_inputs := scheduled_encoder_inputs v;
     scheduled_spec_decode_tokens := scheduled_spec_decode_tokens v |}.

Definition add_spec_tokens (rid : string) (l : list Z) (v : locals) : locals :=
  {| token_budget := token_budget v; encoder_budget := encoder_budget v; req_index := req_index v;
     scheduled_new_reqs := scheduled_new_reqs v; scheduled_resumed_reqs := scheduled_resumed_reqs v;
     scheduled_running_reqs := scheduled_running_reqs v; preempted_reqs := preempted_reqs v;
     req_to_new_blocks := req_to_new_blocks v; num_scheduled_tokens := num_scheduled_tokens v;
     scheduled_encoder_inputs := scheduled_encoder_inputs v;
     scheduled_spec_decode_tokens := dict_set rid l (scheduled_spec_decode_tokens v) |}.

Definition add_encoder_inputs (rid : string) (inputs : list Z) (budget : Z) (v : locals) : locals :=
  {| token_budget := token_budget v; encoder_budget := budget; req_index := req_index v;
     scheduled_new_reqs := scheduled_new_reqs v; scheduled_resumed_reqs := scheduled_resumed_reqs v;
     scheduled_running_reqs := scheduled_running_reqs v; preempted_reqs := preempted_reqs v;
     req_to_new_blocks := req_to_new_blocks v; num_scheduled_tokens := num_scheduled_tokens v;
     scheduled_encoder_inputs := dict_set rid inputs (scheduled_encoder_inputs v);
     scheduled_spec_decode_tokens := scheduled_spec_decode_tokens v |}.

Definition start_locals (p : PauseState) : locals :=
  {| token_budget := if decide (p = PAUSED_ALL) then 0 else max_num_scheduled_tokens c;
     encoder_budget := max_num_encoder_input_tokens c; req_index := 0;
     scheduled_new_reqs := []; scheduled_resumed_reqs := []; scheduled_running_reqs := [];
     preempted_reqs := []; req_to_new_blocks := []; num_scheduled_tokens := [];
     scheduled_encoder_inputs := []; scheduled_spec_decode_tokens := [] |}.

(** ** The running requests *)

(** The request surely reaches [max_tokens] with the outputs under way. *)
Definition reaches_max_tokens (r : Request) : bool :=
  ((0 <? num_output_placeholders r)
   && (num_prompt_tokens r + max_tokens r
       <=? num_computed_tokens r + 2 - num_output_placeholders r))%bool.

Definition cut_to_threshold (n : Z) : Z :=
  if ((0 <? long_prefill_token_threshold c) && (long_prefill_token_threshold c <? n))%bool
  then long_prefill_token_threshold c else n.

Definition running_tokens (r : Request) (budget : Z) : Z :=
  let num_new_tokens :=
    num_tokens_with_spec r + num_output_placeholders r - num_computed_tokens r in
  let num_new_tokens := Z.min (cut_to_threshold num_new_tokens) budget in
  Z.min num_new_tokens (max_model_len c - 1 - num_computed_tokens r).

Definition _mamba_block_aligned_split (block_size : Z) (request : Request)
    (num_new_tokens num_new_local_computed_tokens : Z) : Z :=
  let num_computed_tokens := num_computed_tokens request + num_new_local_computed_tokens in
  if num_computed_tokens <? Z.max (num_prompt_tokens request) (num_tokens request - 1) then
    let last_cache_position := num_tokens request - num_tokens request mod block_size in
    let last_cache_position :=
      if use_eagle c then Z.max (last_cache_position - block_size) 0 else last_cache_position in
    let num_computed_tokens_after_sched := num_computed_tokens + num_new_tokens in
    if num_computed_tokens_after_sched <? last_cache_position
    then num_new_tokens / block_size * block_size
    else if ((num_computed_tokens <? last_cache_position)
             && (last_cache_position <? num_computed_tokens_after_sched))%bool
    then last_cache_position - num_computed_tokens
    else num_new_tokens
  else num_new_tokens.

Definition aligned_split (request : Request) (num_new_tokens num_new_local_computed_tokens : Z) : Z :=
  match mamba_block_size c with
  | Some bs => _mamba_block_aligned_split bs request num_new_tokens num_new_local_computed_tokens
  | None => num_new_tokens
  end.

(** [_try_schedule_encoder_inputs] if the request has encoder inputs. *)
Definition plan_encoder_inputs (request : Request) (num_computed_tokens num_new_tokens budget : Z)
  : M t enc_locals :=
  if has_encoder_inputs request then
    on_enc (_try_schedule_encoder_inputs (encoder_config c) request num_computed_tokens
              (if use_eagle c then 1 else 0) num_new_tokens budget)
  else ret (enc_start num_new_tokens budget).

(** Takes the request to preempt out of [running], and back out of what this step
    has scheduled. *)
Definition take_victim (v : locals) : M t (Z * locals) :=
  s <- get ;;
  match policy c with
  | PRIORITY =>
      preempted_req <- lowest_priority (running s) ;;
      modify (fun s => set_running (remove_first preempted_req (running s)) s) ;;;
      if bool_decide (preempted_req ∈ scheduled_running_reqs v) then
        r <- deref preempted_req ;;
        n <- of_option KeyError (dict_get (request_id r) (num_scheduled_tokens v)) ;;
        of_option KeyError (dict_get (request_id r) (req_to_new_blocks v)) ;;;
        embeds <- mmapM (fun i => of_result (get_num_encoder_embeds r i))
                    (default [] (dict_get (request_id r) (scheduled_encoder_inputs v))) ;;
        ret (preempted_req, unschedule preempted_req (request_id r) n (sum_of embeds) v)
      else ret (preempted_req, v)
  | FCFS =>
      preempted_req <- of_option IndexError (py_last (running s)) ;;
      modify (fun s => set_running (py_take (running s) (-1)) s) ;;;
      ret (preempted_req, v)
  end.

(** [while True]: allocate, or preempt and try again. *)
Fixpoint preempt_loop (fuel : nat) (o num_new_tokens : Z) (v : locals)
  : M t (option KVCacheBlocks * locals) :=
  match fuel with
  | O => raise OutOfFuel
  | S fuel =>
      request <- deref o ;;
      a <- on_kv (kvc_allocate_slots request num_new_tokens 0 None (num_lookahead_tokens c) 0) ;;
      assign o (fun _ => a.2) ;;;
      match a.1 with
      | Some new_blocks => ret (Some new_blocks, v)
      | None =>
          victim <- take_victim v ;;
          _preempt_request victim.1 ;;;
          let v := add_preempted victim.1 victim.2 in
          if victim.1 =? o then ret (None, v) else preempt_loop fuel o num_new_tokens v
      end
  end.

(** The draft tokens among the scheduled ones. *)
Definition schedule_spec_tokens (o num_new_tokens : Z) (v : locals) : M t locals :=
  request <- deref o ;;
  match spec_token_ids request with
  | [] => ret v
  | _ =>
      let num_scheduled_spec_tokens :=
        num_new_tokens + num_computed_tokens request - num_tokens request
        - num_output_placeholders request in
      assign o (set_spec_token_ids []) ;;;
      ret (if 0 <? num_scheduled_spec_tokens
           then add_spec_tokens (request_id request)
                  (if num_scheduled_spec_tokens <? len (spec_token_ids request)
                   then py_take (spec_token_ids request) num_scheduled_spec_tokens
                   else spec_token_ids request) v
           else v)
  end.

(** The planned encoder inputs are allocated. *)
Definition schedule_encoder_inputs (o : Z) (e : enc_locals) (v : locals) : M t locals :=
  request <- deref o ;;
  on_enc (allocate_encoder_inputs request e) ;;;
  ret (match encoder_inputs_to_schedule e with
       | [] => v
       | inputs => add_encoder_inputs (request_id request) inputs (encoder_compute_budget e) v
       end).

Fixpoint running_loop (fuel : nat) (v : locals) : M t locals :=
  s <- get ;;
  if negb ((req_index v <? len (running s)) && (0 <? token_budget v))%bool then ret v
  else
    match fuel with
    | O => raise OutOfFuel
    | S fuel =>
        o <- of_option IndexError (py_index (running s) (req_index v)) ;;
        request <- deref o ;;
        if reaches_max_tokens request then running_loop fuel (set_req_index (req_index v + 1) v)
        else
          e <- plan_encoder_inputs request (num_computed_tokens request)
                 (running_tokens request (token_budget v)) (encoder_budget v) ;;
          let n := aligned_split request (num_new_tokens e) 0 in
          if n =? 0 then running_loop fuel (set_req_index (req_index v + 1) v)
          else
            a <- preempt_loop (length (running s)) o n v ;;
            match a.1 with
            | None => ret a.2
            | Some new_blocks =>
                v <- schedule_spec_tokens o n
                       (add_scheduled_running o (request_id request) new_blocks n a.2) ;;
                v <- schedule_encoder_inputs o e v ;;
                running_loop fuel v
            end
    end.

(** ** The waiting requests *)

Definition lora_of (r : Request) : option Z := lora_int_id <$> lora_request r.

(** Scheduling the request would exceed [max_loras]. *)
Definition exceeds_loras (scheduled_loras : gset Z) (r : Request) : bool :=
  match max_loras c, lora_of r with
  | Some n, Some l =>
      ((Z.of_nat (size scheduled_loras) =? n) && negb (bool_decide (l ∈ scheduled_loras)))%bool
  | _, _ => false
  end.

Definition waiting_tokens (r : Request) (num_computed_tokens : Z) : Z :=
  cut_to_threshold (num_tokens r - num_computed_tokens).

(** [request_queue.pop_request()], then [step_skipped_waiting.prepend_request]. *)
Definition skip_request (which : bool) (o : Z) (step_skipped : RequestQueue) : M t RequestQueue :=
  on_queue which pop_request ;;;
  request <- deref o ;;
  a <- on_local step_skipped (prepend_request request) ;;
  ret a.2.

(** Cached prefix of a request that computes its first tokens. *)
Definition get_computed (request : Request) : M t (KVCacheBlocks * Z) :=
  if num_computed_tokens request =? 0 then
    a <- on_kv (kvc_get_computed_blocks request) ;;
    assert (a.2 <=? num_tokens request) ;;;
    ret a
  else
    s <- get ;;
    ret (kvc_empty_kv_cache_blocks (kv_cache_manager s), 0).

(** What comes of trying to schedule the first request of a queue. *)
Inductive attempt :=
  | Stop  (** [break] *)
  | Scheduled_ (v : locals).

(** From the encoder inputs of the request on: the lines after its tokens are
    counted. *)
Definition try_allocate (which : bool) (o num_computed : Z) (blocks : KVCacheBlocks)
    (num_new_local_computed_tokens n : Z) (e : enc_locals) (v : locals) : M t attempt :=
  request <- deref o ;;
  let effective_lookahead_tokens :=
    if num_computed_tokens request =? 0 then 0 else num_lookahead_tokens c in
  embeds <- (if (is_encoder_decoder (encoder_config c) && has_encoder_inputs request)%bool
             then mmapM (fun i => of_result (get_num_encoder_embeds request i))
                    (encoder_inputs_to_schedule e)
             else ret []) ;;
  let num_encoder_tokens := sum_of embeds in
  fits <- (if scheduler_reserve_full_isl c
           then on_kv (kvc_can_fit_full_sequence request num_new_local_computed_tokens blocks
                         num_encoder_tokens)
           else ret true) ;;
  if negb fits then
    (if has_encoder_inputs request then on_enc (ec_free request) else ret tt) ;;; ret Stop
  else
    a <- on_kv (kvc_allocate_slots request n num_new_local_computed_tokens (Some blocks)
                  effective_lookahead_tokens num_encoder_tokens) ;;
    assign o (fun _ => a.2) ;;;
    match a.1 with
    | None =>
        (if has_encoder_inputs request then on_enc (ec_free request) else ret tt) ;;; ret Stop
    | Some _ =>
        on_queue which pop_request ;;;
        modify (fun s => set_running (running s ++ [o]) s) ;;;
        request <- deref o ;;
        is_new <- match status request with
                  | WAITING => ret true
                  | PREEMPTED => ret false
                  | _ => raise RuntimeError
                  end ;;
        req_blocks <- on_kv (kvc_get_blocks (request_id request)) ;;
        assign o (fun r => set_num_computed_tokens num_computed (set_status RUNNING r)) ;;;
        v <- schedule_encoder_inputs o e
               (add_scheduled_waiting o (request_id request) is_new req_blocks n v) ;;
        ret (Scheduled_ v)
    end.

(** The first request of the queue: tokens, encoder inputs, blocks. *)
Definition try_schedule (which : bool) (o : Z) (v : locals) : M t attempt :=
  request <- deref o ;;
  computed <- get_computed request ;;
  let num_new_local_computed_tokens := computed.2 in
  let num_computed :=
    if num_computed_tokens request =? 0 then computed.2 else num_computed_tokens request in
  let num_new_tokens := waiting_tokens request num_computed in
  if (negb (enable_chunked_prefill c) && (token_budget v <? num_new_tokens))%bool then ret Stop
  else
    let num_new_tokens := Z.min num_new_tokens (token_budget v) in
    assert (0 <? num_new_tokens) ;;;
    e <- plan_encoder_inputs request num_computed num_new_tokens (encoder_budget v) ;;
    if EncoderSched.num_new_tokens e =? 0 then ret Stop
    else
      let n := aligned_split request (EncoderSched.num_new_tokens e) num_new_local_computed_tokens in
      if n =? 0 then ret Stop
      else try_allocate which o num_computed computed.1 num_new_local_computed_tokens n e v.

Fixpoint waiting_loop (grammar_ready : string -> bool) (fuel : nat) (scheduled_loras : gset Z)
    (step_skipped : RequestQueue) (v : locals) : M t (RequestQueue * locals) :=
  s <- get ;;
  if negb ((nonempty (waiting s) || nonempty (skipped_waiting s)) && (0 <? token_budget v))%bool
  then ret (step_skipped, v)
  else
    match fuel with
    | O => raise OutOfFuel
    | S fuel =>
        if len (running s) =? max_num_running_reqs c then ret (step_skipped, v)
        else
          which <- _select_waiting_queue_for_scheduling ;;
          which <- of_option AssertionError which ;;
          queued <- on_queue which peek_request ;;
          let o := obj_id queued in
          request <- deref o ;;
          blocked <- (if _is_blocked_waiting_status (status request) then
                        promoted <- _try_promote_blocked_waiting_request grammar_ready o ;;
                        ret (negb promoted)
                      else ret false) ;;
          if (blocked || exceeds_loras scheduled_loras request)%bool then
            step_skipped <- skip_request which o step_skipped ;;
            waiting_loop grammar_ready fuel scheduled_loras step_skipped v
          else
            a <- try_schedule which o v ;;
            match a with
            | Stop => ret (step_skipped, v)
            | Scheduled_ v =>
                let scheduled_loras :=
                  match max_loras c, lora_of request with
                  | Some _, Some l => {[l]} ∪ scheduled_loras
                  | _, _ => scheduled_loras
                  end in
                waiting_loop grammar_ready fuel scheduled_loras step_skipped v
            end
    end.

(** The adapters of the requests scheduled so far. *)
Definition running_loras (v : locals) : M t (gset Z) :=
  match max_loras c with
  | None => ret ∅
  | Some n =>
      reqs <- mmapM deref (scheduled_running_reqs v) ;;
      let scheduled_loras : gset Z :=
        list_to_set (filter (fun l => 0 < l) (omap lora_of reqs)) in
      assert (Z.of_nat (size scheduled_loras) <=? n) ;;;
      ret scheduled_loras
  end.

Definition schedule_waiting (grammar_ready : string -> bool) (scheduled_loras : gset Z) (v : locals)
  : M t locals :=
  s <- get ;;
  match preempted_reqs v, pause_state s with
  | [], UNPAUSED =>
      a <- waiting_loop grammar_ready
             (Z.to_nat (queue_len (waiting s) + queue_len (skipped_waiting s)))
             scheduled_loras (create_request_queue (policy c)) v ;;
      (if nonempty a.1 then on_skipped (prepend_requests a.1) else ret tt) ;;;
      ret a.2
  | _, _ => ret v
  end.

(** ** The output of a step *)

(** [NewRequestData]: the request's own data is left out but for its identity. *)
Record NewRequestData := {
  nr_req_id : string;
  nr_prompt_token_ids : option (list Z);
  nr_block_ids : option (list (list Z));
  nr_num_computed_tokens : Z;
  nr_prefill_token_ids : option (list Z);
}.

Record CachedRequestData := {
  cr_req_ids : list string;
  cr_resumed_req_ids : gset string;
  cr_new_token_ids : list (list Z);
  cr_all_token_ids : list (string * list Z);
  cr_new_block_ids : list (option (list (list Z)));
  cr_num_computed_tokens : list Z;
  cr_num_output_tokens : list Z;
}.

Record SchedulerOutput := {
  so_scheduled_new_reqs : list NewRequestData;
  so_scheduled_cached_reqs : CachedRequestData;
  so_num_scheduled_tokens : list (string * Z);
  so_total_num_scheduled_tokens : Z;
  so_scheduled_spec_decode_tokens : list (string * list Z);
  so_scheduled_encoder_inputs : list (string * list Z);
  so_num_common_prefix_blocks : list Z;
  so_preempted_req_ids : gset string;
  so_finished_req_ids : gset string;
  so_free_encoder_mm_hashes : list mm_key;
  so_new_block_ids_to_zero : option (list Z);
  so_has_structured_output_requests : bool;
  so_pending_structured_output_tokens : bool;
}.

Definition blocks_of_request (v : locals) (rid : string) : M t KVCacheBlocks :=
  of_option KeyError (dict_get rid (req_to_new_blocks v)).

Definition new_request_data (v : locals) (o : Z) : M t NewRequestData :=
  r <- deref o ;;
  b <- blocks_of_request v (request_id r) ;;
  s <- get ;;
  ret {| nr_req_id := request_id r; nr_prompt_token_ids := prompt_token_ids r;
         nr_block_ids := kvc_get_block_ids (kv_cache_manager s) false b;
         nr_num_computed_tokens := num_computed_tokens r;
         nr_prefill_token_ids := if use_v2_model_runner c then Some (all_token_ids r) else None |}.

(** [idx >= num_running_reqs] is [resumed]. *)
Definition cached_request_data (v : locals) (x : Z * bool) (d : CachedRequestData)
  : M t CachedRequestData :=
  req <- deref x.1 ;;
  let req_id := request_id req in
  n <- of_option KeyError (dict_get req_id (num_scheduled_tokens v)) ;;
  let num_tokens := n - len (default [] (dict_get req_id (scheduled_spec_decode_tokens v))) in
  s <- get ;;
  let scheduled_in_prev_step := bool_decide (req_id ∈ prev_step_scheduled_req_ids s) in
  (if x.2 : bool then assert (negb scheduled_in_prev_step) else ret tt) ;;;
  b <- blocks_of_request v req_id ;;
  ret {| cr_req_ids := cr_req_ids d ++ [req_id];
         cr_resumed_req_ids := if x.2 : bool then {[req_id]} ∪ cr_resumed_req_ids d
                               else cr_resumed_req_ids d;
         cr_new_token_ids := cr_new_token_ids d ++
           (if (use_pp c && negb (async_scheduling c))%bool
            then [py_slice (all_token_ids req) (num_computed_tokens req)
                    (num_computed_tokens req + num_tokens)] else []);
         cr_all_token_ids := if scheduled_in_prev_step then cr_all_token_ids d
                             else dict_set req_id (all_token_ids req) (cr_all_token_ids d);
         cr_new_block_ids := cr_new_block_ids d ++ [kvc_get_block_ids (kv_cache_manager s) true b];
         cr_num_computed_tokens := cr_num_computed_tokens d ++ [num_computed_tokens req];
         cr_num_output_tokens := cr_num_output_tokens d ++
           [num_output_tokens req + num_output_placeholders req] |}.

Definition empty_cached : CachedRequestData :=
  {| cr_req_ids := []; cr_resumed_req_ids := ∅; cr_new_token_ids := []; cr_all_token_ids := [];
     cr_new_block_ids := []; cr_num_computed_tokens := []; cr_num_output_tokens := [] |}.

Definition _make_cached_request_data (running_reqs resumed_reqs : list Z) (v : locals)
  : M t CachedRequestData :=
  mfold (fun d x => cached_request_data v x d)
    (((fun o => (o, false)) <$> running_reqs) ++ ((fun o => (o, true)) <$> resumed_reqs)) empty_cached.

(** [self.requests[req_id]] *)
Definition request_ref (req_id : string) : M t Z :=
  s <- get ;; of_option KeyError (dict_get req_id (requests s)).

(** The body of [Scheduler._update_after_schedule] for one request. *)
Definition advance (x : string * Z) : M t bool :=
  o <- request_ref x.1 ;;
  assign o (fun r => set_num_computed_tokens (num_computed_tokens r + x.2) r) ;;;
  assign o (fun r => set_is_prefill_chunk
    (num_computed_tokens r <? num_tokens r + num_output_placeholders r) r) ;;;
  r <- deref o ;;
  ret (use_structured_output r && negb (is_prefill_chunk r))%bool.

(** The body of [AsyncScheduler._update_after_schedule] for one request. *)
Definition add_placeholders (spec : list (string * list Z)) (req_id : string) : M t bool :=
  o <- request_ref req_id ;;
  r <- deref o ;;
  if is_prefill_chunk r then ret false
  else
    assign o (fun r => set_num_output_placeholders
      (num_output_placeholders r + 1 + len (default [] (dict_get req_id spec))) r) ;;;
    assign o (set_spec_token_ids (py_repeat (-1) (num_spec_tokens c))) ;;;
    ret (use_structured_output r && (0 <? num_output_placeholders r))%bool.

(** The flags [has_structured_output_requests] and [pending_structured_output_tokens]. *)
Definition _update_after_schedule (v : locals) : M t (bool * bool) :=
  has <- mmapM advance (num_scheduled_tokens v) ;;
  modify (set_finished ∅) ;;;
  pending <- (if async_scheduling c
              then mmapM (add_placeholders (scheduled_spec_decode_tokens v)) (num_scheduled_tokens v).*1
              else ret []) ;;
  ret (existsb id has, existsb id pending).

(** The assertions, the output and the update of the requests. *)
Definition finish_schedule (v : locals) : M t SchedulerOutput :=
  let total_num_scheduled_tokens := sum_of (num_scheduled_tokens v).*2 in
  assert (total_num_scheduled_tokens <=? max_num_scheduled_tokens c) ;;;
  assert (0 <=? token_budget v) ;;;
  s <- get ;;
  assert (len (running s) <=? max_num_running_reqs c) ;;;
  assert (len (scheduled_new_reqs v) + len (scheduled_resumed_reqs v)
          + len (scheduled_running_reqs v) <=? len (running s)) ;;;
  num_common_prefix_blocks <-
    (match running s with
     | [] => ret (py_repeat 0 (num_kv_cache_groups c))
     | o :: _ => r <- deref o ;; on_kv (kvc_get_num_common_prefix_blocks (request_id r))
     end) ;;
  let new_reqs := if use_v2_model_runner c
                  then scheduled_new_reqs v ++ scheduled_resumed_reqs v else scheduled_new_reqs v in
  let resumed_reqs := if use_v2_model_runner c then [] else scheduled_resumed_reqs v in
  new_reqs_data <- mmapM (new_request_data v) new_reqs ;;
  cached_reqs_data <- _make_cached_request_data (scheduled_running_reqs v) resumed_reqs v ;;
  modify (set_prev_step (list_to_set (num_scheduled_tokens v).*1)) ;;;
  new_block_ids_to_zero <-
    (if needs_kv_cache_zeroing c
     then ids <- on_kv kvc_take_new_block_ids ;; ret (match ids with [] => None | _ => Some ids end)
     else ret None) ;;
  preempted <- mmapM deref (preempted_reqs v) ;;
  s <- get ;;
  freed <- on_enc ec_get_freed_mm_hashes ;;
  flags <- _update_after_schedule v ;;
  ret {| so_scheduled_new_reqs := new_reqs_data;
         so_scheduled_cached_reqs := cached_reqs_data;
         so_num_scheduled_tokens := num_scheduled_tokens v;
         so_total_num_scheduled_tokens := total_num_scheduled_tokens;
         so_scheduled_spec_decode_tokens := scheduled_spec_decode_tokens v;
         so_scheduled_encoder_inputs := scheduled_encoder_inputs v;
         so_num_common_prefix_blocks := num_common_prefix_blocks;
         so_preempted_req_ids := list_to_set (request_id <$> preempted);
         so_finished_req_ids := finished_req_ids s;
         so_free_encoder_mm_hashes := freed;
         so_new_block_ids_to_zero := new_block_ids_to_zero;
         so_has_structured_output_requests := flags.1;
         so_pending_structured_output_tokens := flags.2 |}.

(** [schedule()]; the running loop visits every running request at most once. *)
Definition schedule (grammar_ready : string -> bool) : M t SchedulerOutput :=
  s <- get ;;
  on_kv kvc_new_step_starts ;;;
  v <- running_loop (length (running s)) (start_locals (pause_state s)) ;;
  scheduled_loras <- running_loras v ;;
  v <- schedule_waiting grammar_ready scheduled_loras v ;;
  finish_schedule v.

(** ** After the model has run *)

(** What the model runner returns: the tokens sampled for each request it ran
    ([sampled_token_ids] by [req_id_to_index]), and which requests have a pooling
    output. *)
Record ModelRunnerOutput := {
  sampled_token_ids : list (string * list Z);
  pooled : gset string;
}.

Record EngineCoreOutput := {
  out_request_id : string;
  out_new_token_ids : list Z;
  out_finish_reason : option FinishReason;
  out_stop_reason : option StopReason;
}.

(** [Scheduler._update_request_with_output]: the tokens kept, and whether the
    request stops. *)
Fixpoint append_until_stop (request : Z) (new_token_ids kept : list Z) : M t (list Z * bool) :=
  match new_token_ids with
  | [] => ret (kept, false)
  | output_token_id :: new_token_ids =>
      on_request request (append_output_token output_token_id) ;;;
      stopped <- on_request request (check_stop (max_model_len c)) ;;
      let kept := kept ++ [output_token_id] in
      if stopped : bool then ret (kept, true) else append_until_stop request new_token_ids kept
  end.

(** With the override of [AsyncScheduler]. *)
Definition _update_request_with_output (o : Z) (new_token_ids : list Z) : M t (list Z * bool) :=
  if negb (async_scheduling c) then append_until_stop o new_token_ids []
  else
    request <- deref o ;;
    if discard_latest_async_tokens request then assign o (set_discard_latest false) ;;; ret ([], false)
    else
      a <- append_until_stop o new_token_ids [] ;;
      assign o (fun r => set_num_output_placeholders (num_output_placeholders r - len a.1) r) ;;;
      r <- deref o ;;
      assert (0 <=? num_output_placeholders r) ;;;
      (if decide (status request = RUNNING) then
         r' <- on_kv (kvc_cache_blocks r (num_computed_tokens r - num_output_placeholders r)) ;;
         assign o (fun _ => r')
       else ret tt) ;;;
      ret a.

Definition _free_blocks (o : Z) : M t unit :=
  request <- deref o ;;
  assert (is_finished (status request)) ;;;
  on_kv (kvc_free request) ;;;
  s <- get ;;
  of_option KeyError (dict_get (request_id request) (requests s)) ;;;
  modify (fun s => set_requests (dict_del (request_id request) (requests s)) s).

Definition _free_request (o : Z) : M t unit :=
  request <- deref o ;;
  assert (is_finished (status request)) ;;;
  on_enc (ec_free request) ;;;
  modify (fun s => set_finished ({[request_id request]} ∪ finished_req_ids s) s) ;;;
  _free_blocks o.

(** Rejected draft tokens have not been computed. *)
Definition reject_drafts (o : Z) (drafts generated : list Z) : M t unit :=
  match drafts, generated with
  | _ :: _, _ :: _ =>
      let num_rejected := len drafts - (len generated - 1) in
      assign o (fun r => if 0 <? num_computed_tokens r
                         then set_num_computed_tokens (num_computed_tokens r - num_rejected) r else r) ;;;
      assign o (fun r => if 0 <? num_output_placeholders r
                         then set_num_output_placeholders (num_output_placeholders r - num_rejected) r
                         else r)
  | _, _ => ret tt
  end.

Record update_locals := {
  stopped_running_reqs : gset Z;
  stopped_preempted_reqs : list Z;
  outputs : list EngineCoreOutput;
}.

(** The body of the loop of [update_from_output] for one request.
    [grammar_rejects r tokens]: the grammar of the request has to advance and does
    not accept the tokens. *)
Definition update_request (grammar_rejects : Request -> list Z -> bool)
    (spec : list (string * list Z)) (output : ModelRunnerOutput) (u : update_locals)
    (x : string * Z) : M t update_locals :=
  let req_id := x.1 in
  assert (0 <? x.2) ;;;
  s <- get ;;
  match dict_get req_id (requests s) with
  | None => ret u
  | Some o =>
      request <- deref o ;;
      if is_finished (status request) then ret u
      else
        generated_token_ids <- of_option KeyError (dict_get req_id (sampled_token_ids output)) ;;
        reject_drafts o (default [] (dict_get req_id spec)) generated_token_ids ;;;
        request <- deref o ;;
        (if has_encoder_inputs request
         then on_enc (_free_encoder_inputs (encoder_config c) request) else ret tt) ;;;
        let status_before_stop := status request in
        let has_pooler_output := bool_decide (req_id ∈ pooled output) in
        a <- (match generated_token_ids with
              | _ :: _ => _update_request_with_output o generated_token_ids
              | [] =>
                  if (is_some (pooling_params request) && has_pooler_output)%bool
                  then assign o (set_status FINISHED_STOPPED) ;;; ret ([], true)
                  else ret ([], false)
              end) ;;
        request <- deref o ;;
        stopped <- (match a.1 with
                    | _ :: _ =>
                        if grammar_rejects request a.1
                        then assign o (set_status FINISHED_ERROR) ;;; ret true else ret a.2
                    | [] => ret a.2
                    end) ;;
        request <- deref o ;;
        let finish_reason := get_finished_reason (status request) in
        (if stopped : bool then _free_request o else ret tt) ;;;
        let u :=
          if stopped : bool then
            if decide (status_before_stop = RUNNING)
            then {| stopped_running_reqs := {[o]} ∪ stopped_running_reqs u;
                    stopped_preempted_reqs := stopped_preempted_reqs u; outputs := outputs u |}
            else {| stopped_running_reqs := stopped_running_reqs u;
                    stopped_preempted_reqs := stopped_preempted_reqs u ++ [o];
                    outputs := outputs u |}
          else u in
        ret (if (negb (len a.1 =? 0) || has_pooler_output || stopped)%bool
             then {| stopped_running_reqs := stopped_running_reqs u;
                     stopped_preempted_reqs := stopped_preempted_reqs u;
                     outputs := outputs u ++
                       [{| out_request_id := req_id; out_new_token_ids := a.1;
                           out_finish_reason := if stopped : bool then finish_reason else None;
                           out_stop_reason := stop_reason request |}] |}
             else u)
  end.

(** [remove_all(self.running, stopped)]: a set with one element takes the fast path,
    which has the same result. *)
Definition drop_running (stopped : gset Z) : M t unit :=
  modify (fun s => set_running (remove_all (running s) (elements stopped)) s).

Definition update_from_output (grammar_rejects : Request -> list Z -> bool)
    (step : SchedulerOutput) (output : ModelRunnerOutput)
  : M t (list EngineCoreOutput * list KVCacheEvent * option PrefixCacheStats.t) :=
  u <- mfold (update_request grammar_rejects (so_scheduled_spec_decode_tokens step) output)
         (so_num_scheduled_tokens step)
         {| stopped_running_reqs := ∅; stopped_preempted_reqs := []; outputs := [] |} ;;
  (if decide (stopped_running_reqs u = ∅) then ret tt else drop_running (stopped_running_reqs u)) ;;;
  (match stopped_preempted_reqs u with
   | [] => ret tt
   | l => stopped <- mmapM deref l ;; on_waiting (remove_requests stopped)
   end) ;;;
  events <- on_kv kvc_take_events ;;
  stats <- (if log_stats c then on_kv kvc_make_prefix_cache_stats else ret None) ;;
  ret (outputs u, events, stats).

(** ** Requests come and go *)

Definition add_request (request : Request) : M t unit :=
  s <- get ;;
  match dict_get (request_id request) (requests s) with
  | Some _ => raise AssertionError  (* "duplicate request id": no streaming *)
  | None =>
      modify (fun s => set_objects (<[obj_id request := request]> (objects s)) s) ;;;
      _enqueue_waiting_request request ;;;
      modify (fun s => set_requests (dict_set (request_id request) (obj_id request) (requests s)) s)
  end.

(** The requests among [ids] that are not finished yet. *)
Definition valid_request (req_id : string) : M t (list Z) :=
  s <- get ;;
  match dict_get req_id (requests s) with
  | None => ret []
  | Some o => r <- deref o ;; ret (if is_finished (status r) then [] else [o])
  end.

(** [request_ids]: the ids in the order in which Python iterates over their set, or
    [None] for all requests. *)
Definition finish_requests (request_ids : option (list string)) (finished_status : RequestStatus)
  : M t (list string) :=
  assert (is_finished finished_status) ;;;
  s <- get ;;
  valid <- mmapM valid_request (default (requests s).*1 request_ids) ;;
  let valid_requests := concat valid in
  reqs <- mmapM deref valid_requests ;;
  let running_requests_to_remove :=
    obj_id <$> filter (fun r => status r = RUNNING) reqs in
  let waiting_requests_to_remove := filter (fun r => status r <> RUNNING) reqs in
  (match running_requests_to_remove with
   | [] => ret tt
   | l => drop_running (list_to_set l)
   end) ;;;
  (match waiting_requests_to_remove with
   | [] => ret tt
   | l => on_waiting (remove_requests l) ;;; on_skipped (remove_requests l)
   end) ;;;
  mfor valid_requests (fun o => assign o (set_status finished_status) ;;; _free_request o) ;;;
  ret (request_id <$> reqs).

(** [structured r tokens]: the prefix of the tokens the grammar accepts, when it has
    to advance. *)
Definition update_draft_token_ids (structured : Request -> list Z -> list Z)
    (draft_token_ids : list (string * list Z)) : M t unit :=
  mfor draft_token_ids (fun x =>
    s <- get ;;
    match dict_get x.1 (requests s) with
    | None => ret tt
    | Some o =>
        request <- deref o ;;
        if is_finished (status request) then ret tt
        else if is_prefill_chunk request then
          (match spec_token_ids request with
           | [] => ret tt
           | _ => assign o (set_spec_token_ids [])
           end)
        else assign o (set_spec_token_ids (structured request x.2))
    end).

(** [while self.running: ...] of [reset_prefix_cache]. *)
Fixpoint preempt_all (fuel : nat) : M t unit :=
  s <- get ;;
  match running s with
  | [] => ret tt
  | _ =>
      match fuel with
      | O => raise OutOfFuel
      | S fuel =>
          o <- of_option IndexError (py_last (running s)) ;;
          modify (fun s => set_running (py_take (running s) (-1)) s) ;;;
          _preempt_request o ;;;
          assign o (set_num_output_placeholders 0) ;;;
          assign o (set_discard_latest true) ;;;
          preempt_all fuel
      end
  end.

Definition reset_prefix_cache (reset_running_requests : bool) : M t bool :=
  (if reset_running_requests then
     s <- get ;;
     preempt_all (length (running s)) ;;;
     modify (set_prev_step ∅)
   else ret tt) ;;;
  reset_successful <- on_kv kvc_reset_prefix_cache ;;
  if (reset_running_requests && negb reset_successful)%bool then raise RuntimeError
  else ret reset_successful.

Definition reset_encoder_cache : M t unit := on_enc ec_reset.

Definition get_request_counts (s : t) : Z * Z :=
  (len (running s), queue_len (waiting s) + queue_len (skipped_waiting s)).

Definition get_num_unfinished_requests (s : t) : Z :=
  match pause_state s with
  | PAUSED_ALL => 0
  | PAUSED_NEW => len (running s)
  | UNPAUSED => queue_len (waiting s) + queue_len (skipped_waiting s) + len (running s)
  end.

Definition has_finished_requests (s : t) : bool := negb (bool_decide (finished_req_ids s = ∅)).

End scheduler.
End Scheduler.
