(* ===== verification/SchedInv.v ===== *)
(** * The scheduler's invariant

    [sinv] relates the queues, the dict of requests, the objects and the two caches:
    every request known to the scheduler is in exactly one queue, running requests
    hold slots for their computed tokens, and all others hold nothing.  The file
    shows that preemption and the loop over the running requests keep it, and that
    they never raise. *)

From stdpp Require Import sorting.
From S2P Require Import Prelude Request BlockHash KVManager EncoderCache EncoderSched RequestQueue.
From S2P Require Import SchedUtils KVCache Scheduler.
From stdpp Require Import options.
Import Scheduler.

#[local] Set Default Proof Using "Type*".

Section inv.
Context {KV EC : Type} `{Hkv : KVCache KV} `{Htok : Tokens} `{Hec : EncoderCache EC} `{SetIter}.
Context (c : Config) (size : mm_key -> Z).
Context `{!KVCacheLaws KV (max_model_len c)} `{!EncoderCacheLaws EC size}.
Implicit Types (s : @t KV EC) (v : @locals) (wl sl kl : list Request) (r : Request) (o : Z).

Abbreviation good := (kvc_good (S := KV) (max_len := max_model_len c)).
Abbreviation room := (kvc_room (S := KV) (max_len := max_model_len c)).
Abbreviation clear := (kvc_clear (S := KV) (max_len := max_model_len c)).
Abbreviation kv_ok := (kvc_ok (S := KV) (max_len := max_model_len c)).
Abbreviation kept := (kvc_kept (S := KV) (max_len := max_model_len c)).
Abbreviation enc_ok := (ec_ok (S := EC) (size := size)).

(** The configurations considered: no LoRA limit and synchronous scheduling. *)
Record config_ok : Prop := {
  ck_tokens : 0 <= max_num_scheduled_tokens c;
  ck_running : 0 <= max_num_running_reqs c;
  ck_lookahead : 0 <= num_lookahead_tokens c;
  ck_loras : max_loras c = None;
  ck_sync : async_scheduling c = false;
  ck_mamba : forall bs, mamba_block_size c = Some bs -> 0 < bs;
  ck_encdec : is_encoder_decoder (encoder_config c) = true ->
    forall (e : EC) h, ec_absent (size := size) e h;
}.

(** A request as the frontend hands it over: shorter than the model's limit, also
    when its output reaches [min_tokens]. *)
Record request_ok r : Prop := {
  rk_good : good r;
  rk_enc : encodable size (encoder_config c) r;
  rk_tokens : 1 <= num_tokens r <= max_model_len c - 1;
  rk_split : num_tokens r = num_prompt_tokens r + num_output_tokens r;
  rk_min : forall sp, sampling_params r = Some sp ->
    num_prompt_tokens r + min_tokens sp <= max_model_len c;
  rk_params : pooling_params r = None -> is_Some (sampling_params r);
  rk_placeholders : num_output_placeholders r = 0;
  rk_pooling : pooling_params r <> None -> spec_token_ids r = [];
}.

Definition waiting_status (st : RequestStatus) : Prop :=
  st = WAITING \/ st = PREEMPTED \/ st = WAITING_FOR_STRUCTURED_OUTPUT_GRAMMAR.

(** [D rid]: the draft tokens of the request that the model is verifying.  [wl] and
    [sl] are the two waiting queues in service order, [kl] the requests that the loop
    over them has put aside. *)
Record sinv (D : string -> Z) s wl sl kl : Prop := {
  i_waiting : queue_rep (policy c) (waiting s) wl;
  i_skipped : queue_rep (policy c) (skipped_waiting s) sl;
  i_distinct : NoDup (running s ++ (obj_id <$> wl ++ sl ++ kl));
  i_known : (requests s).*2 ≡ₚ running s ++ (obj_id <$> wl ++ sl ++ kl);
  i_ids : NoDup (requests s).*1;
  i_objects : forall rid o, (rid, o) ∈ requests s -> exists r,
    objects s !! o = Some r /\ request_id r = rid /\ obj_id r = o /\ request_ok r;
  i_running : forall o r, o ∈ running s -> objects s !! o = Some r ->
    status r = RUNNING /\ room (kv_cache_manager s) (request_id r) (num_computed_tokens r)
    /\ 0 <= num_computed_tokens r <= num_tokens r + D (request_id r)
    /\ (0 < D (request_id r) -> num_computed_tokens r = num_tokens r + D (request_id r)
                                /\ pooling_params r = None);
  i_queued : forall q r, q ∈ wl ++ sl ++ kl -> objects s !! obj_id q = Some r ->
    waiting_status (status r) /\ num_computed_tokens r = 0;
  i_clear : forall rid,
    (forall o r, o ∈ running s -> objects s !! o = Some r -> request_id r <> rid) ->
    clear (kv_cache_manager s) rid;
  i_kv : kv_ok (kv_cache_manager s);
  i_enc : enc_ok (encoder_cache_manager s);
  i_limit : len (running s) <= max_num_running_reqs c;
}.

#[local] Arguments i_waiting {D s wl sl kl} _.
#[local] Arguments i_skipped {D s wl sl kl} _.
#[local] Arguments i_distinct {D s wl sl kl} _.
#[local] Arguments i_known {D s wl sl kl} _.
#[local] Arguments i_ids {D s wl sl kl} _.
#[local] Arguments i_objects {D s wl sl kl} _ {rid o} _.
#[local] Arguments i_running {D s wl sl kl} _ {o r} _ _.
#[local] Arguments i_queued {D s wl sl kl} _ {q r} _ _.
#[local] Arguments i_clear {D s wl sl kl} _.
#[local] Arguments i_kv {D s wl sl kl} _.
#[local] Arguments i_enc {D s wl sl kl} _.
#[local] Arguments i_limit {D s wl sl kl} _.

(** ** Looking up *)

Lemma known_object D s wl sl kl o :
  sinv D s wl sl kl -> o ∈ running s ++ (obj_id <$> wl ++ sl ++ kl) ->
  exists r, objects s !! o = Some r /\ obj_id r = o /\ (request_id r, o) ∈ requests s /\ request_ok r.
Proof.
  intros Hs Ho. rewrite <- (i_known Hs) in Ho.
  apply list_elem_of_fmap in Ho as ([rid o'] & -> & Hin).
  destruct (i_objects Hs Hin) as (r & Hr & Hid & Hobj & Hok). simpl in *.
  exists r. by rewrite Hid.
Qed.

#[local] Arguments known_object {_ _ _ _ _ _} _ _.

(** Different objects have different ids. *)
Lemma ids_inj D s wl sl kl o o' r r' :
  sinv D s wl sl kl -> o ∈ running s ++ (obj_id <$> wl ++ sl ++ kl) ->
  o' ∈ running s ++ (obj_id <$> wl ++ sl ++ kl) ->
  objects s !! o = Some r -> objects s !! o' = Some r' -> request_id r = request_id r' -> o = o'.
Proof.
  intros Hs Ho Ho' Hr Hr' Heq.
  destruct (known_object Hs Ho) as (x & Hx & _ & Hin & _).
  destruct (known_object Hs Ho') as (x' & Hx' & _ & Hin' & _). simplify_eq.
  rewrite Heq in Hin. pose proof (i_ids Hs) as Hnd.
  apply list_elem_of_lookup in Hin as [i Hi]. apply list_elem_of_lookup in Hin' as [j Hj].
  assert (i = j) as ->; [|congruence].
  eapply NoDup_lookup; [exact Hnd|rewrite list_lookup_fmap, Hi; done|rewrite list_lookup_fmap, Hj; done].
Qed.

(** ** Changes that touch one component *)

Lemma sinv_kv D s wl sl kl k :
  sinv D s wl sl kl -> kept (kv_cache_manager s) k (fun _ => True) -> sinv D (set_kv k s) wl sl kl.
Proof.
  intros [] [Hok Hk]. split; try done; simpl.
  - intros o r Ho Hr. destruct (i_running0 o r Ho Hr) as (? & ? & ?). split; [done|]. split; [|done].
    by apply Hk.
  - intros rid Hrid. apply Hk; [done|]. by apply i_clear0.
Qed.

Lemma sinv_enc D s wl sl kl e : sinv D s wl sl kl -> enc_ok e -> sinv D (set_enc e s) wl sl kl.
Proof. intros [] He. by split. Qed.

(** Assignments that leave alone what the invariant speaks of. *)
Definition same_facts r r' : Prop :=
  request_id r' = request_id r /\ obj_id r' = obj_id r /\ status r' = status r
  /\ num_computed_tokens r' = num_computed_tokens r /\ num_tokens r' = num_tokens r
  /\ pooling_params r' = pooling_params r /\ (request_ok r -> request_ok r').

Lemma sinv_assign D s wl sl kl o r r' :
  sinv D s wl sl kl -> objects s !! o = Some r -> same_facts r r' ->
  sinv D (set_objects (<[o := r']> (objects s)) s) wl sl kl.
Proof.
  intros [] Hr (Hid & Hobj & Hst & Hc & Hn & Hpp & Hok).
  assert (forall o' x, <[o := r']> (objects s) !! o' = Some x -> exists y,
    objects s !! o' = Some y /\ same_facts y x) as Hback.
  { intros o' x. destruct (decide (o' = o)) as [->|Hne].
    - rewrite lookup_insert_eq. intros [= <-]. by exists r.
    - rewrite lookup_insert_ne by done. intros Hx. exists x. by split_and!. }
  split; try done; simpl.
  - intros rid o' Hin. destruct (i_objects0 _ _ Hin) as (x & Hx & ? & ? & ?).
    destruct (decide (o' = o)) as [->|Hne].
    + rewrite lookup_insert_eq. simplify_eq. exists r'. split_and!; [done|congruence..|by auto].
    + rewrite lookup_insert_ne by done. by exists x.
  - intros o' x Ho Hx. destruct (Hback _ _ Hx) as (y & Hy & Hid' & _ & -> & -> & -> & -> & _).
    rewrite Hid'. by apply (i_running0 o').
  - intros q x Hq Hx. destruct (Hback _ _ Hx) as (y & Hy & _ & _ & -> & -> & _). by apply (i_queued0 q).
  - intros rid Hrid. apply i_clear0. intros o' y Ho Hy.
    destruct (decide (o' = o)) as [->|Hne].
    + simplify_eq. rewrite <- Hid. apply (Hrid o); [done|]. by rewrite lookup_insert_eq.
    + apply (Hrid o'); [done|]. by rewrite lookup_insert_ne.
Qed.

(** ** Single steps *)

Lemma deref_spec o r s (Q : Request -> @t KV EC -> Prop) :
  objects s !! o = Some r -> Q r s -> succeeds (deref o) s Q.
Proof using Type. intros Hr HQ. unfold deref. sstep. apply succeeds_get. by eapply succeeds_of_option. Qed.

Lemma assign_spec o r f s (Q : unit -> @t KV EC -> Prop) :
  objects s !! o = Some r -> Q tt (set_objects (<[o := f r]> (objects s)) s) ->
  succeeds (assign o f) s Q.
Proof using Type.
  intros Hr HQ. unfold assign. sstep.
  assert (alter f o (objects s) = <[o := f r]> (objects s)) as ->; [|done].
  apply map_eq. intros o'. destruct (decide (o' = o)) as [->|Hne].
  - by rewrite lookup_alter_eq, lookup_insert_eq, Hr.
  - by rewrite lookup_alter_ne, lookup_insert_ne by done.
Qed.

Lemma on_kv_spec {A} (m : M KV A) s (Q : A -> @t KV EC -> Prop) :
  succeeds m (kv_cache_manager s) (fun a k => Q a (set_kv k s)) -> succeeds (on_kv m) s Q.
Proof using Type. apply succeeds_zoom. Qed.

Lemma on_enc_spec {A} (m : M EC A) s (Q : A -> @t KV EC -> Prop) :
  succeeds m (encoder_cache_manager s) (fun a e => Q a (set_enc e s)) -> succeeds (on_enc m) s Q.
Proof using Type. apply succeeds_zoom. Qed.

(** ** Preemption *)

(** What the encoder cache still promises after other requests gave up entries. *)
Definition enc_mono (e e' : EC) : Prop :=
  enc_ok e' /\ ec_room e <= ec_room e' /\ forall h, ec_absent (size := size) e h -> ec_absent e' h.

Lemma enc_mono_refl e : enc_ok e -> enc_mono e e.
Proof. intros He. by split_and!. Qed.

Lemma enc_mono_trans e1 e2 e3 : enc_mono e1 e2 -> enc_mono e2 e3 -> enc_mono e1 e3.
Proof. intros (_ & ? & ?) (? & ? & ?). split_and!; [done|lia|auto]. Qed.

Definition preempted r : Request :=
  with_progress PREEMPTED [] 0 (num_preemptions r + 1) (num_output_placeholders r)
    (is_prefill_chunk r) (discard_latest_async_tokens r) r.

Lemma encodable_same r r' :
  mm_features r' = mm_features r -> encodable size (encoder_config c) r ->
  encodable size (encoder_config c) r'.
Proof using Type. intros E []. split; unfold consistent in *; by rewrite ?E. Qed.

Lemma progress_ok r st spec n p ch d :
  request_ok r -> (pooling_params r <> None -> spec = []) ->
  request_ok (with_progress st spec n p (num_output_placeholders r) ch d r).
Proof using Type.
  intros [] Hsp. split; try done; [by apply kvc_good_progress|by apply (encodable_same r)].
Qed.

(** The draft tokens stay. *)
Lemma progress_keep_ok r st n p ch d :
  request_ok r ->
  request_ok (with_progress st (spec_token_ids r) n p (num_output_placeholders r) ch d r).
Proof using Type. intros Hok. apply progress_ok; [done|apply Hok]. Qed.

Lemma preempted_ok r : request_ok r -> request_ok (preempted r).
Proof using Type. intros Hok. by apply progress_ok. Qed.

(** The parts of the state that preempting [o] leaves alone. *)
Record preempted_from s s' o r : Prop := {
  pf_object : objects s !! o = Some r;
  pf_objects : objects s' = <[o := preempted r]> (objects s);
  pf_requests : requests s' = requests s;
  pf_skipped : skipped_waiting s' = skipped_waiting s;
  pf_prev : prev_step_scheduled_req_ids s' = prev_step_scheduled_req_ids s;
  pf_finished : finished_req_ids s' = finished_req_ids s;
  pf_pause : pause_state s' = pause_state s;
  pf_kv : kept (kv_cache_manager s) (kv_cache_manager s') (fun rid => rid <> request_id r);
  pf_enc : enc_mono (encoder_cache_manager s) (encoder_cache_manager s');
}.

Lemma sinv_preempted D s wl sl kl l1 l2 o r q k e wl' :
  sinv D s wl sl kl -> running s = l1 ++ o :: l2 -> objects s !! o = Some r ->
  kept (kv_cache_manager s) k (fun rid => rid <> request_id r) -> clear k (request_id r) ->
  enc_ok e -> wl' ≡ₚ preempted r :: wl -> queue_rep (policy c) q wl' ->
  sinv D (Mk (<[o := preempted r]> (objects s)) (requests s) (l1 ++ l2) q (skipped_waiting s)
            (prev_step_scheduled_req_ids s) (finished_req_ids s) (pause_state s) k e) wl' sl kl.
Proof.
  intros Hs Hrun Hr [Hkok Hkept] Hclear He Hp Hq.
  assert (forall x, x ∈ running s -> x ∈ running s ++ (obj_id <$> wl ++ sl ++ kl)) as Hin by set_solver.
  assert (o ∈ running s) as Ho by (rewrite Hrun; set_solver).
  destruct (known_object Hs (Hin o Ho)) as (r' & Hr' & Hobj & _ & Hok).
  rewrite Hr in Hr'. injection Hr' as <-. subst o.
  assert (running s ++ (obj_id <$> wl ++ sl ++ kl) ≡ₚ (l1 ++ l2) ++ (obj_id <$> wl' ++ sl ++ kl)) as Hperm.
  { rewrite Hp, Hrun. simpl. rewrite <- !Permutation_middle. done. }
  pose proof (i_distinct Hs) as Hnd.
  assert (forall o' x, o' ∈ l1 ++ l2 -> <[obj_id r := preempted r]> (objects s) !! o' = Some x ->
    o' <> obj_id r /\ o' ∈ running s /\ objects s !! o' = Some x) as Hother.
  { intros o' x Ho' Hx. assert (o' <> obj_id r) as Hne.
    { intros ->. rewrite Hrun in Hnd. apply NoDup_app in Hnd as (Hnd & _).
      apply NoDup_app_cons_inv in Hnd as (? & ? & _). set_solver. }
    rewrite lookup_insert_ne in Hx by done. split_and!; [done|rewrite Hrun; set_solver|done]. }
  destruct Hs. split; simpl; try done.
  - by rewrite <- Hperm.
  - by rewrite <- Hperm.
  - intros rid o' Hi. destruct (i_objects0 _ _ Hi) as (x & Hx & ? & ? & ?).
    destruct (decide (o' = obj_id r)) as [->|Hne].
    + rewrite lookup_insert_eq. simplify_eq. exists (preempted r). split_and!; [done..|by apply preempted_ok].
    + rewrite lookup_insert_ne by done. by exists x.
  - intros o' x Ho' Hx. destruct (Hother _ _ Ho' Hx) as (Hne & Hr1 & Hx1).
    destruct (i_running0 o' x Hr1 Hx1) as (? & Hroom & ?). split; [done|]. split; [|done].
    apply Hkept; [|done]. intros Heq. apply Hne.
    by eapply (ids_inj D s wl sl kl); [split; done|apply Hin|apply Hin|..].
  - intros q' x Hq' Hx. destruct (decide (obj_id q' = obj_id r)) as [Heq|Hne].
    + rewrite Heq, lookup_insert_eq in Hx. injection Hx as <-. split; [|done]. right. by left.
    + rewrite lookup_insert_ne in Hx by done. apply (i_queued0 q'); [|done].
      apply elem_of_app in Hq' as [Hq'|?]; [|set_solver]. rewrite Hp in Hq'. set_solver.
  - intros rid Hrid. destruct (decide (rid = request_id r)) as [->|Hne]; [done|].
    apply Hkept; [done|]. apply i_clear0. intros o' x Ho' Hx.
    destruct (decide (o' = obj_id r)) as [->|Hne']; [naive_solver|].
    apply (Hrid o'); [rewrite Hrun in Ho'; set_solver|by rewrite lookup_insert_ne].
  - rewrite Hrun in i_limit0. len_lia.
Qed.

Lemma preempt_spec D s wl sl kl l1 l2 o :
  sinv D s wl sl kl -> running s = l1 ++ o :: l2 ->
  succeeds (_preempt_request o) (set_running (l1 ++ l2) s) (fun _ s' => exists wl' r,
    sinv D s' wl' sl kl /\ running s' = l1 ++ l2 /\ preempted_from s s' o r /\ wl' ≡ₚ preempted r :: wl).
Proof.
  intros Hs Hrun. assert (o ∈ running s) as Ho by (rewrite Hrun; set_solver).
  assert (o ∈ running s ++ (obj_id <$> wl ++ sl ++ kl)) as Hin by set_solver.
  destruct (known_object Hs Hin) as (r & Hr & Hobj & _ & Hok).
  destruct (i_running Hs Ho Hr) as (Hst & _).
  unfold _preempt_request. sstep. eapply deref_spec; [exact Hr|]. sstep.
  apply succeeds_assert; [by apply bool_decide_eq_true|]. sstep. apply on_kv_spec.
  eapply succeeds_mono; [apply kvc_free_spec, Hs|]. intros _ k [Hk Hclear].
  sstep. apply on_enc_spec.
  eapply succeeds_mono; [apply ec_free_spec; [apply Hs|apply Hok]|]. intros _ e (He & Hroom & Habs & _).
  sstep. eapply assign_spec; [exact Hr|]. sstep. eapply deref_spec; [simpl; apply lookup_insert_eq|].
  apply succeeds_zoom. simpl.
  eapply succeeds_mono; [apply prepend_request_spec; [apply (i_waiting Hs)|]|].
  { simpl. rewrite Hobj. pose proof (i_distinct Hs) as Hnd. rewrite fmap_app in Hnd.
    apply NoDup_app in Hnd as (_ & Hnd & _). specialize (Hnd o Ho). set_solver. }
  intros _ q (wl' & Hp & Hq). exists wl', r.
  split; [by apply (sinv_preempted D s wl sl kl l1 l2 o r q k e wl')|]. split; [done|]. split; [|done]. by split.
Qed.

End inv.

Arguments i_waiting {KV EC Hkv Htok Hec c size KVCacheLaws0 EncoderCacheLaws0 D s wl sl kl} _.
Arguments i_skipped {KV EC Hkv Htok Hec c size KVCacheLaws0 EncoderCacheLaws0 D s wl sl kl} _.
Arguments i_distinct {KV EC Hkv Htok Hec c size KVCacheLaws0 EncoderCacheLaws0 D s wl sl kl} _.
Arguments i_known {KV EC Hkv Htok Hec c size KVCacheLaws0 EncoderCacheLaws0 D s wl sl kl} _.
Arguments i_ids {KV EC Hkv Htok Hec c size KVCacheLaws0 EncoderCacheLaws0 D s wl sl kl} _.
Arguments i_objects {KV EC Hkv Htok Hec c size KVCacheLaws0 EncoderCacheLaws0 D s wl sl kl} _ {rid o} _.
Arguments i_running {KV EC Hkv Htok Hec c size KVCacheLaws0 EncoderCacheLaws0 D s wl sl kl} _ {o r} _ _.
Arguments i_queued {KV EC Hkv Htok Hec c size KVCacheLaws0 EncoderCacheLaws0 D s wl sl kl} _ {q r} _ _.
Arguments i_clear {KV EC Hkv Htok Hec c size KVCacheLaws0 EncoderCacheLaws0 D s wl sl kl} _.
Arguments i_kv {KV EC Hkv Htok Hec c size KVCacheLaws0 EncoderCacheLaws0 D s wl sl kl} _.
Arguments i_enc {KV EC Hkv Htok Hec c size KVCacheLaws0 EncoderCacheLaws0 D s wl sl kl} _.
Arguments i_limit {KV EC Hkv Htok Hec c size KVCacheLaws0 EncoderCacheLaws0 D s wl sl kl} _.
Arguments known_object {KV EC Hkv Htok Hec c size KVCacheLaws0 EncoderCacheLaws0 D s wl sl kl o} _ _.
Arguments ck_tokens {EC Hec c size EncoderCacheLaws0} _.
Arguments ck_running {EC Hec c size EncoderCacheLaws0} _.
Arguments ck_lookahead {EC Hec c size EncoderCacheLaws0} _.
Arguments ck_loras {EC Hec c size EncoderCacheLaws0} _.
Arguments ck_sync {EC Hec c size EncoderCacheLaws0} _.
Arguments ck_mamba {EC Hec c size EncoderCacheLaws0} _ bs _.
Arguments ck_encdec {EC Hec c size EncoderCacheLaws0} _ _ e h.
Arguments rk_good {KV Hkv Htok c size KVCacheLaws0 r} _.
Arguments rk_enc {KV Hkv Htok c size KVCacheLaws0 r} _.
Arguments rk_tokens {KV Hkv Htok c size KVCacheLaws0 r} _.
Arguments rk_split {KV Hkv Htok c size KVCacheLaws0 r} _.
Arguments rk_min {KV Hkv Htok c size KVCacheLaws0 r} _ {sp} _.
Arguments rk_params {KV Hkv Htok c size KVCacheLaws0 r} _ _.
Arguments rk_placeholders {KV Hkv Htok c size KVCacheLaws0 r} _.
Arguments rk_pooling {KV Hkv Htok c size KVCacheLaws0 r} _ _.
