(* ===== verification/SchedBooks.v ===== *)
(** * What a scheduling step has decided so far

    [booked] relates the local variables of [schedule] to the state: who is
    scheduled, with how many tokens, and that the slots for them are there. *)

From stdpp Require Import sorting.
From S2P Require Import Prelude Request BlockHash KVManager EncoderCache EncoderSched RequestQueue.
From S2P Require Import SchedUtils KVCache Scheduler SchedInv.
From stdpp Require Import options.
Import Scheduler.

#[local] Set Default Proof Using "Type".

(** ** Dictionaries *)

(** A list-valued entry is only made for a nonempty list. *)
Section put.
Context {A : Type}.
Implicit Types (d : list (string * list A)) (k : string).

Definition put (k : string) (l : list A) (d : list (string * list A)) : list (string * list A) :=
  match l with [] => d | _ => dict_set k l d end.

Lemma put_get k (l : list A) d :
  dict_get k d = None -> default [] (dict_get k (put k l d)) = l.
Proof. intros Hk. destruct l; simpl; [by rewrite Hk|]. by rewrite dict_get_set_eq. Qed.

Lemma put_get_ne k k' (l : list A) d : k <> k' -> dict_get k (put k' l d) = dict_get k d.
Proof. intros Hne. destruct l; simpl; [done|]. by rewrite dict_get_set_ne. Qed.

Lemma put_elem k k' (l : list A) d : k ∈ (put k' l d).*1 -> k = k' \/ k ∈ d.*1.
Proof. destruct l; simpl; [by right|]. by rewrite dict_set_elem. Qed.

Lemma put_NoDup k (l : list A) d : dict_get k d = None -> NoDup d.*1 -> NoDup (put k l d).*1.
Proof.
  intros Hk Hd. destruct l; simpl; [done|].
  assert (k ∉ d.*1) as Hn by (rewrite dict_get_elem, Hk; by intros []).
  rewrite dict_set_new, fmap_app by done. apply NoDup_app.
  split_and!; [done| |apply NoDup_singleton]. set_solver.
Qed.
End put.

Lemma succeeds_bind_assoc {S A B C} (m : M S A) (k : A -> M S B) (h : B -> M S C) s Q :
  succeeds (x <- m ;; k x) s (fun b s' => succeeds (h b) s' Q) ->
  succeeds (x <- m ;; y <- k x ;; h y) s Q.
Proof. unfold succeeds, bind. destruct (m s) as [a s'|]; [|done]. by destruct (k a s'). Qed.

(** A map over a list that only reads. *)
Lemma succeeds_mmapM_read {S A B} (f : A -> M S B) (P : A -> B -> Prop) l s :
  (forall x, x ∈ l -> succeeds (f x) s (fun y s' => s' = s /\ P x y)) ->
  succeeds (mmapM f l) s (fun ys s' => s' = s /\ Forall2 P l ys).
Proof.
  induction l as [|x l IH]; intros Hf; simpl; [by sstep|].
  sstep. eapply succeeds_mono; [apply Hf; left|]. intros y s' [-> Hy].
  sstep. eapply succeeds_mono; [apply IH; intros x' Hx'; apply Hf; by right|].
  intros ys s' [-> Hys]. sstep. split; [done|]. by constructor.
Qed.

Lemma remove_first_filter (x : Z) l : NoDup l -> remove_first x l = filter (fun y => y <> x) l.
Proof.
  intros Hnd. change (remove_first x l) with (remove_all l [x]). rewrite remove_all_filter by done.
  apply list_filter_iff. intros y. by rewrite list_elem_of_singleton.
Qed.

Lemma remove_first_split (x : Z) l1 l2 :
  NoDup (l1 ++ x :: l2) -> remove_first x (l1 ++ x :: l2) = l1 ++ l2.
Proof.
  intros Hnd. rewrite remove_first_filter by done. pose proof (NoDup_app_cons_inv _ _ _ Hnd) as (H1 & H2 & _).
  rewrite filter_app, filter_cons_False by naive_solver.
  rewrite !list_filter_all; [done|..]; intros y Hy ->; done.
Qed.

Lemma py_take_last {A} (l : list A) x : py_take (l ++ [x]) (-1) = l.
Proof.
  unfold py_take, slice_bound. simpl.
  replace (Z.to_nat (Z.max 0 (-1 + len (l ++ [x])))) with (length l).
  - by rewrite take_app_length.
  - unfold len. rewrite length_app. simpl. lia.
Qed.

(** The place of an element in a list without duplicates. *)
Lemma split_unique (x : Z) m1 m2 k1 k2 :
  NoDup (m1 ++ x :: m2) -> m1 ++ x :: m2 = k1 ++ x :: k2 -> m1 = k1 /\ m2 = k2.
Proof.
  revert k1. induction m1 as [|y m1 IH]; intros [|z k1] Hnd Heq; simplify_eq/=; [done|..].
  - apply NoDup_cons in Hnd. set_solver.
  - apply NoDup_cons in Hnd. set_solver.
  - apply NoDup_cons in Hnd as [_ Hnd]. by destruct (IH k1) as [-> ->].
Qed.

Section books.
Context {KV EC : Type} `{Hkv : KVCache KV} `{Htok : Tokens} `{Hec : EncoderCache EC} `{SetIter}.
Context (c : Config) (size : mm_key -> Z).
Context `{!KVCacheLaws KV (max_model_len c)} `{!EncoderCacheLaws EC size}.
Implicit Types (s : @t KV EC) (v : @locals) (wl sl kl : list Request) (r : Request) (o n : Z).
Implicit Types (rid : string) (l : list Z) (nums : list (string * Z)).
Implicit Types (blocks : list (string * KVCacheBlocks)) (spec enc : list (string * list Z)).

Abbreviation room := (kvc_room (S := KV) (max_len := max_model_len c)).
Abbreviation sinv := (sinv c size).

Definition rid_of s o : string := default "" (request_id <$> objects s !! o).

Lemma rid_of_eq s o r : objects s !! o = Some r -> rid_of s o = request_id r.
Proof. unfold rid_of. by intros ->. Qed.

Lemma rid_inj D s wl sl kl o o' :
  sinv D s wl sl kl -> o ∈ running s ++ (obj_id <$> wl ++ sl ++ kl) ->
  o' ∈ running s ++ (obj_id <$> wl ++ sl ++ kl) -> rid_of s o = rid_of s o' -> o = o'.
Proof.
  intros Hs Ho Ho'. destruct (known_object Hs Ho) as (r & Hr & _).
  destruct (known_object Hs Ho') as (r' & Hr' & _).
  rewrite (rid_of_eq _ _ _ Hr), (rid_of_eq _ _ _ Hr'). by eapply ids_inj.
Qed.

(** Request [r] is scheduled with [n] tokens, [drafts] of them drafts, and the
    encoder inputs [inputs]. *)
Record entry_ok s r n (drafts inputs : list Z) : Prop := {
  eo_pos : 0 < n;
  eo_room : room (kv_cache_manager s) (request_id r) (num_computed_tokens r + n);
  eo_position : num_computed_tokens r + n <= max_model_len c - 1;
  eo_tokens : num_computed_tokens r + n <= num_tokens r + len drafts;
  eo_drafts : 0 < len drafts -> num_computed_tokens r + n = num_tokens r + len drafts
                                    /\ pooling_params r = None;
  eo_inputs : Forall (fun i => exists h, has_input size r i h) inputs;
}.

Definition lookup_list (rid : string) (d : list (string * list Z)) : list Z :=
  default [] (dict_get rid d).

(** The scheduled objects are [l]. *)
Record core s l nums blocks spec enc : Prop := {
  co_running : l ⊆ running s;
  co_keys : nums.*1 ≡ₚ rid_of s <$> l;
  co_ids : NoDup nums.*1;
  co_blocks : nums.*1 ⊆ blocks.*1;
  co_spec : spec.*1 ⊆ nums.*1;
  co_spec_ids : NoDup spec.*1;
  co_enc : enc.*1 ⊆ nums.*1;
  co_enc_ids : NoDup enc.*1;
  co_entries : forall o n, o ∈ l -> dict_get (rid_of s o) nums = Some n -> exists r,
    objects s !! o = Some r
    /\ entry_ok s r n (lookup_list (rid_of s o) spec) (lookup_list (rid_of s o) enc);
}.

Lemma core_nodup s l nums blocks spec enc : core s l nums blocks spec enc -> NoDup l.
Proof. intros []. rewrite co_keys0 in co_ids0. by apply NoDup_fmap_1 in co_ids0. Qed.

Lemma core_inj s l nums blocks spec enc o o' :
  core s l nums blocks spec enc -> o ∈ l -> o' ∈ l -> rid_of s o = rid_of s o' -> o = o'.
Proof.
  intros [] Ho Ho' Heq. rewrite co_keys0 in co_ids0.
  apply list_elem_of_lookup in Ho as [i Hi]. apply list_elem_of_lookup in Ho' as [j Hj].
  assert (i = j) as ->; [|congruence].
  eapply NoDup_lookup; [exact co_ids0|by rewrite list_lookup_fmap, Hi|].
  rewrite list_lookup_fmap, Hj. simpl. by rewrite Heq.
Qed.

Lemma core_perm s l l' nums blocks spec enc :
  l ≡ₚ l' -> core s l nums blocks spec enc -> core s l' nums blocks spec enc.
Proof.
  intros Hp []. split; try done.
  - intros o Ho. apply co_running0. by rewrite Hp.
  - by rewrite <- Hp.
  - intros o n Ho. apply co_entries0. by rewrite Hp.
Qed.

(** Changes of the state that leave the scheduled requests alone. *)
Lemma core_frame s s' l nums blocks spec enc :
  core s l nums blocks spec enc -> l ⊆ running s' ->
  (forall o r, o ∈ l -> objects s !! o = Some r -> objects s' !! o = Some r
    /\ forall k, room (kv_cache_manager s) (request_id r) k ->
                 room (kv_cache_manager s') (request_id r) k) ->
  core s' l nums blocks spec enc.
Proof.
  intros Hc Hrun Hsame.
  assert (forall o, o ∈ l -> exists r, objects s !! o = Some r /\ rid_of s' o = rid_of s o) as Hrid.
  { intros o Ho. destruct Hc. assert (rid_of s o ∈ nums.*1) as Hk.
    { rewrite co_keys0. by apply list_elem_of_fmap_2. }
    apply dict_get_elem in Hk as [n Hn]. destruct (co_entries0 o n Ho Hn) as (r & Hr & _).
    exists r. split; [done|]. destruct (Hsame o r Ho Hr) as [Hr' _].
    by rewrite (rid_of_eq _ _ _ Hr), (rid_of_eq _ _ _ Hr'). }
  destruct Hc. split; try done.
  - rewrite co_keys0. apply reflexive_eq, list_fmap_ext. intros i o Hi.
    destruct (Hrid o) as (r & _ & ->); [by eapply list_elem_of_lookup_2|done].
  - intros o n Ho Hn. destruct (Hrid o Ho) as (r & Hr & Heq). rewrite Heq in *.
    destruct (co_entries0 o n Ho Hn) as (r' & Hr' & []). simplify_eq. exists r.
    destruct (Hsame o r Ho Hr) as [Hr' Hroom]. split; [done|]. split; auto.
Qed.

Lemma core_add s l nums blocks spec enc o r rid n b ds ins :
  core s l nums blocks spec enc -> o ∈ running s -> rid ∉ nums.*1 ->
  objects s !! o = Some r -> request_id r = rid -> entry_ok s r n ds ins ->
  core s (o :: l) (dict_set rid n nums) (dict_set rid b blocks) (put rid ds spec) (put rid ins enc).
Proof.
  intros Hc Ho Hnew Hr Hid He. pose proof (rid_of_eq _ _ _ Hr) as Hrid. rewrite Hid in Hrid.
  assert (dict_get rid spec = None /\ dict_get rid enc = None) as [Hsp Hen].
  { split; apply eq_None_not_Some; rewrite <- dict_get_elem; intros Hin; apply Hnew.
    - by apply (co_spec _ _ _ _ _ _ Hc).
    - by apply (co_enc _ _ _ _ _ _ Hc). }
  rewrite (dict_set_new _ _ nums) by done. destruct Hc. split.
  - intros x [->|Hx]%elem_of_cons; auto.
  - rewrite fmap_app. simpl. rewrite Hrid, co_keys0. apply Permutation_sym, Permutation_cons_append.
  - rewrite fmap_app. apply NoDup_app. split_and!; [done| |apply NoDup_singleton].
    intros x Hx Hx'. apply list_elem_of_singleton in Hx' as ->. done.
  - intros x Hx. apply dict_set_elem. rewrite fmap_app in Hx. set_solver.
  - intros x [->|Hx]%put_elem; rewrite fmap_app; set_solver.
  - by apply put_NoDup.
  - intros x [->|Hx]%put_elem; rewrite fmap_app; set_solver.
  - by apply put_NoDup.
  - intros x m Hx Hm. unfold lookup_list. rewrite <- dict_set_new in Hm by done.
    destruct (decide (rid_of s x = rid)) as [Heq|Hne].
    + assert (x = o) as ->.
      { apply elem_of_cons in Hx as [|Hx]; [done|]. exfalso. apply Hnew. rewrite co_keys0, <- Heq.
        by apply list_elem_of_fmap_2. }
      rewrite Heq in *. rewrite dict_get_set_eq in Hm. injection Hm as <-.
      exists r. split; [done|]. by rewrite !put_get.
    + rewrite dict_get_set_ne in Hm by done. rewrite !put_get_ne by done.
      apply elem_of_cons in Hx as [->|Hx]; [done|]. by apply co_entries0.
Qed.

Lemma core_del s l nums blocks spec enc o :
  core s (o :: l) nums blocks spec enc ->
  core s l (dict_del (rid_of s o) nums) (dict_del (rid_of s o) blocks)
    (dict_del (rid_of s o) spec) (dict_del (rid_of s o) enc).
Proof.
  intros Hc. pose proof (core_nodup _ _ _ _ _ _ Hc) as [Ho Hnd]%NoDup_cons.
  assert (forall x, x ∈ l -> rid_of s x <> rid_of s o) as Hne.
  { intros x Hx Heq. apply Ho.
    by rewrite <- (core_inj _ _ _ _ _ _ x o Hc) by (set_solver || done). }
  assert (forall V (d : list (string * V)), NoDup d.*1 ->
    (dict_del (rid_of s o) d).*1 = filter (fun k => k <> rid_of s o) d.*1) as Hdel.
  { intros V d Hd. rewrite dict_del_filter by done. clear.
    induction d as [|[k w] d IH]; [done|]. rewrite fmap_cons, !filter_cons. cbn [fst].
    case_decide; [|done]. rewrite fmap_cons. by rewrite IH. }
  destruct Hc. split.
  - set_solver.
  - rewrite Hdel, co_keys0 by done. rewrite fmap_cons, filter_cons_False by naive_solver.
    rewrite list_filter_all; [done|]. intros k (x & -> & Hx)%list_elem_of_fmap. by apply Hne.
  - by apply dict_del_NoDup.
  - intros k [Hk Hko]%dict_del_keys; [|done].
    apply dict_get_elem. rewrite dict_get_del_ne by done. apply dict_get_elem. by apply co_blocks0.
  - intros k [Hk Hko]%dict_del_keys; [|done]. apply dict_del_keys; [done|]. auto.
  - by apply dict_del_NoDup.
  - intros k [Hk Hko]%dict_del_keys; [|done]. apply dict_del_keys; [done|]. auto.
  - by apply dict_del_NoDup.
  - intros x m Hx Hm. unfold lookup_list. rewrite !dict_get_del_ne in * by auto.
    apply co_entries0; [set_solver|done].
Qed.

(** ** The local variables *)

Definition scheduled v : list Z :=
  scheduled_running_reqs v ++ scheduled_new_reqs v ++ scheduled_resumed_reqs v.

(** [B]: the token budget of the step. *)
Record booked s v (B : Z) : Prop := {
  bk_core : core s (scheduled v) (num_scheduled_tokens v) (req_to_new_blocks v)
              (scheduled_spec_decode_tokens v) (scheduled_encoder_inputs v);
  bk_budget : token_budget v + sum_of (num_scheduled_tokens v).*2 = B;
  bk_left : 0 <= token_budget v;
  bk_preempted : forall o, o ∈ preempted_reqs v -> is_Some (objects s !! o);
}.

Lemma booked_frame s s' v B :
  booked s v B -> scheduled v ⊆ running s' ->
  (forall o r, o ∈ scheduled v -> objects s !! o = Some r -> objects s' !! o = Some r
    /\ forall k, room (kv_cache_manager s) (request_id r) k ->
                 room (kv_cache_manager s') (request_id r) k) ->
  (forall o, is_Some (objects s !! o) -> is_Some (objects s' !! o)) ->
  booked s' v B.
Proof. intros [] Hrun Hsame Hdom. split; try done; [by eapply core_frame|auto]. Qed.

Lemma booked_add s v v' B o r rid n b ds ins :
  booked s v B -> o ∈ running s -> rid ∉ (num_scheduled_tokens v).*1 ->
  objects s !! o = Some r -> request_id r = rid -> entry_ok s r n ds ins -> n <= token_budget v ->
  scheduled v' ≡ₚ o :: scheduled v -> token_budget v' = token_budget v - n ->
  num_scheduled_tokens v' = dict_set rid n (num_scheduled_tokens v) ->
  req_to_new_blocks v' = dict_set rid b (req_to_new_blocks v) ->
  scheduled_spec_decode_tokens v' = put rid ds (scheduled_spec_decode_tokens v) ->
  scheduled_encoder_inputs v' = put rid ins (scheduled_encoder_inputs v) ->
  preempted_reqs v' = preempted_reqs v -> booked s v' B.
Proof.
  intros [] Ho Hnew Hr Hid He Hn Hl Hb E1 E2 E3 E4 E5. split; rewrite ?E1, ?E2, ?E3, ?E4, ?E5.
  - eapply core_perm; [symmetry; exact Hl|]. by eapply core_add.
  - rewrite dict_set_new, fmap_app, sum_of_app by done. simpl. lia.
  - lia.
  - done.
Qed.

Lemma booked_unschedule s v B o n embeds :
  booked s v B -> o ∈ scheduled_running_reqs v ->
  dict_get (rid_of s o) (num_scheduled_tokens v) = Some n ->
  booked s (unschedule o (rid_of s o) n embeds v) B
  /\ scheduled v ≡ₚ o :: scheduled (unschedule o (rid_of s o) n embeds v) /\ 0 < n.
Proof.
  intros [] Ho Hn. pose proof (core_nodup _ _ _ _ _ _ bk_core0) as Hnd.
  apply list_elem_of_split in Ho as (l1 & l2 & Hl).
  assert (scheduled v ≡ₚ o :: scheduled (unschedule o (rid_of s o) n embeds v)) as Hp.
  { unfold scheduled in *. simpl. rewrite Hl in *.
    rewrite remove_first_split by (by apply NoDup_app in Hnd as [? _]).
    by rewrite <- (Permutation_middle l1). }
  assert (0 < n) as Hpos.
  { destruct bk_core0. destruct (co_entries0 o n) as (r & _ & []); [|done|done]. rewrite Hp. left. }
  split; [|done]. split; try done; simpl.
  - apply core_del. by eapply core_perm.
  - rewrite (dict_del_sum _ n) by done. lia.
  - lia.
Qed.

(** The token count of a scheduled request. *)
Lemma booked_get s v B o :
  booked s v B -> o ∈ scheduled v ->
  exists r n b, objects s !! o = Some r /\ dict_get (request_id r) (num_scheduled_tokens v) = Some n
    /\ dict_get (request_id r) (req_to_new_blocks v) = Some b
    /\ entry_ok s r n (lookup_list (request_id r) (scheduled_spec_decode_tokens v))
         (lookup_list (request_id r) (scheduled_encoder_inputs v)).
Proof.
  intros [[] _ _ _] Ho. assert (rid_of s o ∈ (num_scheduled_tokens v).*1) as Hk.
  { rewrite co_keys0. by apply list_elem_of_fmap_2. }
  pose proof (co_blocks0 _ Hk) as [b Hb]%dict_get_elem. apply dict_get_elem in Hk as [n Hn].
  destruct (co_entries0 o n Ho Hn) as (r & Hr & He). exists r, n, b.
  by rewrite (rid_of_eq _ _ _ Hr) in *.
Qed.

(** Who is not scheduled has no token count. *)
Lemma unscheduled_key D s wl sl kl v B o r :
  sinv D s wl sl kl -> booked s v B -> o ∈ running s ++ (obj_id <$> wl ++ sl ++ kl) ->
  objects s !! o = Some r -> o ∉ scheduled v -> request_id r ∉ (num_scheduled_tokens v).*1.
Proof.
  intros Hs Hb Ho Hr Hns. pose proof (bk_core _ _ _ Hb) as [Hrun Hkeys _ _ _ _ _ _ _].
  rewrite Hkeys. intros (o' & Heq & Ho')%list_elem_of_fmap. apply Hns.
  rewrite <- (rid_of_eq s o r Hr) in Heq.
  by rewrite (rid_inj D s wl sl kl o o' Hs Ho) by (set_solver || done).
Qed.
End books.

Arguments bk_core {KV EC Hkv Htok c size KVCacheLaws0 s v B} _.
Arguments bk_budget {KV EC Hkv Htok c size KVCacheLaws0 s v B} _.
Arguments bk_left {KV EC Hkv Htok c size KVCacheLaws0 s v B} _.
Arguments bk_preempted {KV EC Hkv Htok c size KVCacheLaws0 s v B} _ {o} _.
Arguments core_nodup {KV EC Hkv Htok c size KVCacheLaws0 s l nums blocks spec enc} _.
