(* ===== verification/SchedPlan.v ===== *)
(** * Planning one request

    What [schedule] does for every request it looks at, running or waiting: counting
    its tokens, planning and allocating its encoder inputs, recording its drafts. *)

From stdpp Require Import sorting.
From S2P Require Import Prelude Request BlockHash KVManager EncoderCache EncoderSched RequestQueue.
From S2P Require Import SchedUtils KVCache Scheduler SchedInv SchedBooks.
From stdpp Require Import options.
Import Scheduler.

#[local] Set Default Proof Using "Type*".

Section plan.
Context {KV EC : Type} `{Hkv : KVCache KV} `{Htok : Tokens} `{Hec : EncoderCache EC} `{SetIter}.
Context (c : Config) (size : mm_key -> Z).
Context `{!KVCacheLaws KV (max_model_len c)} `{!EncoderCacheLaws EC size}.
Implicit Types (s : @t KV EC) (v : @locals) (wl sl kl : list Request) (r : Request) (o n B : Z).

Abbreviation sinv := (sinv c size).
Abbreviation request_ok := (request_ok c size).

(** ** Requests that differ in what planning does not read *)

Abbreviation memoised := (kvc_memoised (S := KV) (max_len := max_model_len c)).

Lemma memoised_trans r1 r2 r3 : memoised r1 r2 -> memoised r2 r3 -> memoised r1 r3.
Proof. intros [H1 G1] [H2 G2]. split; [by eapply same_but_memo_trans|auto]. Qed.

Lemma request_ok_memo r r' : request_ok r -> memoised r r' -> request_ok r'.
Proof.
  intros [] [[m ->] Hgood]. split; try done.
  - by apply Hgood.
  - by apply (encodable_same c size r).
Qed.

Lemma memo_same_facts r r' : memoised r r' -> same_facts c size r r'.
Proof.
  intros Hm. pose proof (request_ok_memo r r') as Hok. destruct (Hm) as [[m ->] _].
  split_and!; try done. auto.
Qed.

Lemma has_input_same r r' i h :
  mm_features r' = mm_features r -> has_input size r i h -> has_input size r' i h.
Proof using Type.
  intros E. unfold has_input, mm_hash_of, get_num_encoder_embeds. by rewrite E.
Qed.

Lemma plan_ok_same r r' budget (e : EC) p js :
  mm_features r' = mm_features r -> plan_ok size (encoder_config c) r budget e p js ->
  plan_ok size (encoder_config c) r' budget e p js.
Proof.
  intros E []. split; try done.
  - eapply Forall_impl; [done|]. intros x. by apply has_input_same.
  - unfold sum_embeds, embeds_of, get_num_encoder_embeds in *. by rewrite E.
Qed.

(** ** Token counts *)

Lemma aligned_bounds r n k :
  config_ok c size -> 0 <= n -> 0 <= aligned_split c r n k <= n.
Proof.
  intros Hc Hn. unfold aligned_split. destruct (mamba_block_size c) as [bs|] eqn:Hbs; [|lia].
  pose proof (ck_mamba Hc bs Hbs). unfold _mamba_block_aligned_split.
  assert (0 <= n / bs * bs <= n).
  { pose proof (Z.mul_div_le n bs). pose proof (Z.div_pos n bs). nia. }
  cbv zeta. set (last := if use_eagle c then _ else _). clearbody last.
  destruct (_ <? _); [|lia].
  destruct (Z.ltb_spec (num_computed_tokens r + k + n) last); [lia|].
  destruct (Z.ltb_spec (num_computed_tokens r + k) last); simpl; [|lia].
  destruct (Z.ltb_spec last (num_computed_tokens r + k + n)); lia.
Qed.

Lemma cut_bounds n : 0 < n -> 0 < cut_to_threshold c n <= n.
Proof using Type.
  intros Hn. unfold cut_to_threshold.
  destruct (Z.ltb_spec 0 (long_prefill_token_threshold c)); simpl; [|lia].
  destruct (Z.ltb_spec (long_prefill_token_threshold c) n); simpl; lia.
Qed.

Lemma cut_bounds_zero n : 0 <= n -> 0 <= cut_to_threshold c n <= n.
Proof using Type.
  intros Hn. unfold cut_to_threshold.
  destruct (Z.ltb_spec 0 (long_prefill_token_threshold c)); simpl; [|lia].
  destruct (Z.ltb_spec (long_prefill_token_threshold c) n); simpl; lia.
Qed.

Lemma running_tokens_bounds r budget :
  request_ok r -> 0 <= num_computed_tokens r <= num_tokens r -> 0 < budget ->
  0 <= running_tokens c r budget <= budget
  /\ num_computed_tokens r + running_tokens c r budget <= max_model_len c - 1
  /\ num_computed_tokens r + running_tokens c r budget <= num_tokens r + len (spec_token_ids r).
Proof.
  intros Hok Hcomp Hb. pose proof (rk_tokens Hok). pose proof (rk_placeholders Hok) as Hp.
  unfold running_tokens, num_tokens_with_spec. rewrite Hp.
  assert (len (all_token_ids r) + len (spec_token_ids r) =
    num_tokens r + len (spec_token_ids r)) as -> by done.
  pose proof (len_nonneg (spec_token_ids r)).
  pose proof (cut_bounds_zero (num_tokens r + len (spec_token_ids r) + 0 - num_computed_tokens r)). lia.
Qed.

(** ** Encoder inputs *)

(** The inputs in [p] can be allocated for [r] from [e] on. *)
Definition encodes (e : EC) r (N : Z) (p : enc_locals) : Prop :=
  (exists budget js, plan_ok size (encoder_config c) r budget e p js)
  /\ 0 <= EncoderSched.num_new_tokens p <= N.

Lemma encodes_mono e e' r r' N p :
  encodes e r N p -> enc_mono size e e' -> mm_features r' = mm_features r -> encodes e' r' N p.
Proof.
  intros [(budget & js & Hp) HN] (_ & Hroom & Habs) E. split; [|done]. exists budget, js.
  eapply plan_ok_same; [exact E|]. by eapply plan_ok_state.
Qed.

Lemma plan_spec r s computed N budget :
  config_ok c size -> request_ok r -> 0 <= N -> ec_ok (size := size) (encoder_cache_manager s) ->
  succeeds (plan_encoder_inputs c r computed N budget) s (fun p s' => exists e,
    s' = set_enc e s /\ ec_ok (size := size) e /\ encodes e r N p).
Proof.
  intros Hc Hok HN He. unfold plan_encoder_inputs. destruct (has_encoder_inputs r).
  - apply on_enc_spec. eapply succeeds_mono;
      [apply (try_schedule_spec size); [apply Hok|apply Hc|done|done|by destruct (use_eagle c)]|].
    intros p e (Hek & Hplan & Hn & _). exists e. split; [done|]. split; [done|].
    split; [|done]. destruct Hplan as [js Hp]. by exists budget, js.
  - sstep. exists (encoder_cache_manager s). split; [by destruct s|]. split; [done|].
    split; [|simpl; lia]. exists budget, []. pose proof (ec_room_nonneg _ He).
    split; simpl; try done; [constructor|unfold sum_embeds; simpl; lia|lia].
Qed.

(** The encoder inputs in the dict are inputs of the request. *)
Lemma encodes_inputs e r N p :
  encodes e r N p ->
  Forall (fun i => exists h, has_input size r i h) (encoder_inputs_to_schedule p).
Proof.
  intros [(budget & js & []) _]. apply Forall_forall. intros i Hi.
  assert (i ∈ js.*1) as ([j h] & -> & Hj)%list_elem_of_fmap by (rewrite <- plan_ids; set_solver).
  rewrite Forall_forall in plan_inputs. exists h. by apply (plan_inputs (j, h)).
Qed.

Definition with_inputs (rid : string) (p : enc_locals) v : locals :=
  match encoder_inputs_to_schedule p with
  | [] => v
  | inputs => add_encoder_inputs rid inputs (encoder_compute_budget p) v
  end.

Lemma schedule_encoder_spec o r N p v s :
  config_ok c size -> objects s !! o = Some r -> ec_ok (size := size) (encoder_cache_manager s) ->
  encodes (encoder_cache_manager s) r N p ->
  succeeds (schedule_encoder_inputs o p v) s (fun v' s' => exists e,
    s' = set_enc e s /\ ec_ok (size := size) e /\ v' = with_inputs (request_id r) p v).
Proof.
  intros Hc Hr He [(budget & js & Hp) _]. unfold schedule_encoder_inputs.
  sstep. eapply deref_spec; [exact Hr|]. sstep. apply on_enc_spec.
  eapply succeeds_mono; [eapply (allocate_planned size (encoder_config c)); [exact He|exact Hp|apply Hc]|].
  intros _ e (Hek & _). sstep. by exists e.
Qed.

(** ** Draft tokens *)

Definition with_drafts (rid : string) (ds : list Z) v : locals :=
  match ds with [] => v | _ => add_spec_tokens rid ds v end.

Lemma schedule_spec_tokens_spec o r n v s :
  objects s !! o = Some r -> num_output_placeholders r = 0 ->
  num_computed_tokens r + n <= num_tokens r + len (spec_token_ids r) ->
  succeeds (schedule_spec_tokens o n v) s (fun v' s' => exists ds,
    s' = set_objects (<[o := set_spec_token_ids [] r]> (objects s)) s
    /\ v' = with_drafts (request_id r) ds v
    /\ len ds = Z.max 0 (num_computed_tokens r + n - num_tokens r)).
Proof.
  intros Hr Hp Hle. unfold schedule_spec_tokens. sstep. eapply deref_spec; [exact Hr|].
  destruct (spec_token_ids r) as [|d spec] eqn:Hspec.
  - sstep. exists []. split_and!; [|done|len_lia].
    assert (set_spec_token_ids [] r = r) as -> by (destruct r; simpl in *; by subst).
    rewrite insert_id by done. by destruct s.
  - rewrite Hp. sstep. eapply assign_spec; [exact Hr|]. sstep.
    set (k := n + num_computed_tokens r - num_tokens r - 0) in *.
    assert (k <= len (d :: spec)) as Hk by (unfold k; lia).
    destruct (Z.ltb_spec 0 k) as [Hpos|Hneg].
    + exists (if k <? len (d :: spec) then py_take (d :: spec) k else d :: spec).
      split; [done|]. destruct (Z.ltb_spec k (len (d :: spec))) as [Hlt|Hge].
      * rewrite py_take_nonneg by lia.
        assert (len (take (Z.to_nat k) (d :: spec)) = k) as Hl by (rewrite len_take; lia).
        destruct (take (Z.to_nat k) (d :: spec)) as [|x l] eqn:E.
        { rewrite len_nil in Hl. lia. }
        split; [done|]. rewrite Hl. lia.
      * split; [done|]. lia.
    + exists []. split_and!; [done..|]. rewrite len_nil. lia.
Qed.

(** The locals once drafts and encoder inputs are recorded. *)
Definition recorded (rid : string) (ds : list Z) (p : enc_locals) v : locals :=
  with_inputs rid p (with_drafts rid ds v).

Lemma recorded_fields rid ds p v :
  scheduled_running_reqs (recorded rid ds p v) = scheduled_running_reqs v
  /\ scheduled_new_reqs (recorded rid ds p v) = scheduled_new_reqs v
  /\ scheduled_resumed_reqs (recorded rid ds p v) = scheduled_resumed_reqs v
  /\ preempted_reqs (recorded rid ds p v) = preempted_reqs v
  /\ token_budget (recorded rid ds p v) = token_budget v
  /\ req_index (recorded rid ds p v) = req_index v
  /\ num_scheduled_tokens (recorded rid ds p v) = num_scheduled_tokens v
  /\ req_to_new_blocks (recorded rid ds p v) = req_to_new_blocks v
  /\ scheduled_spec_decode_tokens (recorded rid ds p v)
     = put rid ds (scheduled_spec_decode_tokens v)
  /\ scheduled_encoder_inputs (recorded rid ds p v)
     = put rid (encoder_inputs_to_schedule p) (scheduled_encoder_inputs v).
Proof using Type.
  unfold recorded, with_inputs, with_drafts.
  destruct ds, (encoder_inputs_to_schedule p); by split_and!.
Qed.
End plan.
