(* ===== verification/SchedRunning.v ===== *)
(** * Scheduling the running requests

    The first loop of [schedule]: it visits every running request once, preempts
    when there are no slots left, never raises, and keeps the invariant and the
    books. *)

From stdpp Require Import sorting.
From S2P Require Import Prelude Request BlockHash KVManager EncoderCache EncoderSched RequestQueue.
From S2P Require Import SchedUtils KVCache Scheduler SchedInv SchedBooks SchedPlan.
From stdpp Require Import options.
Import Scheduler.

#[local] Set Default Proof Using "Type*".

Section running.
Context {KV EC : Type} `{Hkv : KVCache KV} `{Htok : Tokens} `{Hec : EncoderCache EC} `{SetIter}.
Context (c : Config) (size : mm_key -> Z).
Context `{!KVCacheLaws KV (max_model_len c)} `{!EncoderCacheLaws EC size}.
Implicit Types (s : @t KV EC) (v : @locals) (wl sl kl : list Request) (r : Request) (o n B : Z).

Abbreviation room := (kvc_room (S := KV) (max_len := max_model_len c)).
Abbreviation sinv := (sinv c size).
Abbreviation booked := (booked c size).
Abbreviation no_drafts := (fun _ : string => 0).
Abbreviation memoised := (kvc_memoised (S := KV) (max_len := max_model_len c)).

(** What a step leaves alone until its end. *)
Record same_step s0 s : Prop := {
  ss_requests : requests s = requests s0;
  ss_prev : prev_step_scheduled_req_ids s = prev_step_scheduled_req_ids s0;
  ss_finished : finished_req_ids s = finished_req_ids s0;
  ss_pause : pause_state s = pause_state s0;
}.

(** A preempted request was not part of the previous step. *)
Definition prev_ok s (l : list Z) : Prop := forall o r,
  o ∈ l -> objects s !! o = Some r -> status r = PREEMPTED ->
  request_id r ∉ prev_step_scheduled_req_ids s.

(** In the loop over the running requests. *)
Record stepping s0 s v wl sl B : Prop := {
  st_inv : sinv no_drafts s wl sl [];
  st_booked : booked s v B;
  st_new : scheduled_new_reqs v = [];
  st_resumed : scheduled_resumed_reqs v = [];
  st_same : same_step s0 s;
  st_prev : preempted_reqs v = [] -> prev_ok s (obj_id <$> wl ++ sl);
}.

(** ** The victim of a preemption *)

Lemma max_running_spec l best s :
  (forall o, o ∈ l -> is_Some (objects s !! o)) ->
  succeeds (max_running (KV := KV) (EC := EC) best l) s (fun a s' => s' = s /\ a.1 ∈ best.1 :: l).
Proof using Type.
  revert best. induction l as [|o l IH]; intros best Hl; simpl; [sstep; set_solver|].
  destruct (Hl o) as [r Hr]; [left|]. sstep. eapply deref_spec; [exact Hr|].
  eapply succeeds_mono; [apply IH; intros; apply Hl; by right|]. intros a s' [-> Ha].
  split; [done|]. destruct (later r best.2); simpl in *; set_solver.
Qed.

Lemma lowest_priority_spec l s :
  l <> [] -> (forall o, o ∈ l -> is_Some (objects s !! o)) ->
  succeeds (lowest_priority (KV := KV) (EC := EC) l) s (fun o s' => s' = s /\ o ∈ l).
Proof using Type.
  intros Hne Hl. destruct l as [|o l]; [done|]. simpl.
  destruct (Hl o) as [r Hr]; [left|]. sstep. eapply deref_spec; [exact Hr|]. sstep.
  eapply succeeds_mono; [apply max_running_spec; intros; apply Hl; by right|].
  intros a s' [-> Ha]. by sstep.
Qed.

(** [o] is being visited: what is scheduled comes before it. *)
Record visiting s v o (l1 l2 : list Z) : Prop := {
  vi_running : running s = l1 ++ o :: l2;
  vi_before : scheduled v ⊆ l1;
  vi_index : len l1 <= req_index v;
}.

Definition left_to_visit s v : Z := len (running s) - req_index v.

Lemma running_NoDup D s wl sl kl : sinv D s wl sl kl -> NoDup (running s).
Proof. intros Hs. pose proof (i_distinct Hs) as Hnd. by apply NoDup_app in Hnd as [? _]. Qed.

(** A victim from the list, and the books without it. *)
Definition victim_taken s v B o x v' (m1 m2 : list Z) : Prop :=
  running s = m1 ++ x :: m2 /\ booked s v' B /\ (x ∉ scheduled v')
  /\ scheduled_new_reqs v' = scheduled_new_reqs v
  /\ scheduled_resumed_reqs v' = scheduled_resumed_reqs v
  /\ preempted_reqs v' = preempted_reqs v /\ token_budget v <= token_budget v'
  /\ (x = o \/ ((exists l1 l2, visiting (set_running (m1 ++ m2) s) v' o l1 l2)
               /\ left_to_visit (set_running (m1 ++ m2) s) v' <= left_to_visit s v)).

(** Dropping an unscheduled request from [running]. *)
Lemma drop_unscheduled s v B o l1 l2 x m1 m2 :
  booked s v B -> visiting s v o l1 l2 -> NoDup (running s) ->
  running s = m1 ++ x :: m2 -> x ∉ scheduled v -> victim_taken s v B o x v m1 m2.
Proof.
  intros Hb [Hrun Hbef Hidx] Hnd Hm Hx. split_and!; try done.
  destruct (decide (x = o)) as [->|Hne]; [by left|right].
  assert (x ∈ l1 \/ x ∈ l2) as [Hin|Hin] by (assert (x ∈ l1 ++ o :: l2); [rewrite <- Hrun, Hm|]; set_solver).
  - apply list_elem_of_split in Hin as (k1 & k2 & ->).
    assert (m1 = k1 /\ m2 = k2 ++ o :: l2) as [-> ->].
    { apply (split_unique x); [by rewrite <- Hm|]. rewrite <- Hm, Hrun. by rewrite <- app_assoc. }
    split.
    + exists (k1 ++ k2), l2. split; simpl; [by rewrite <- app_assoc|set_solver|len_lia].
    + unfold left_to_visit. simpl. rewrite Hrun. len_lia.
  - apply list_elem_of_split in Hin as (k1 & k2 & ->).
    assert (m1 = l1 ++ o :: k1 /\ m2 = k2) as [-> ->].
    { apply (split_unique x); [by rewrite <- Hm|]. rewrite <- Hm, Hrun. by rewrite <- app_assoc. }
    split.
    + exists l1, (k1 ++ k2). split; simpl; [by rewrite <- app_assoc|done|len_lia].
    + unfold left_to_visit. simpl. rewrite Hrun. len_lia.
Qed.

(** Dropping a request that this step has scheduled. *)
Lemma drop_scheduled s v B o l1 l2 x m1 m2 n embeds :
  booked s v B -> visiting s v o l1 l2 -> NoDup (running s) ->
  scheduled_new_reqs v = [] -> scheduled_resumed_reqs v = [] ->
  running s = m1 ++ x :: m2 -> x ∈ scheduled_running_reqs v ->
  dict_get (rid_of s x) (num_scheduled_tokens v) = Some n ->
  victim_taken s v B o x (unschedule x (rid_of s x) n embeds v) m1 m2.
Proof.
  intros Hb [Hrun Hbef Hidx] Hnd Hnew Hres Hm Hx Hn.
  destruct (booked_unschedule c size s v B x n embeds Hb Hx Hn) as (Hb' & Hp & Hpos).
  pose proof (core_nodup (bk_core Hb)) as Hnds.
  rewrite Hp in Hnds. apply NoDup_cons in Hnds as [Hx' _].
  split_and!; try done; [simpl; lia|]. right.
  assert (x ∈ l1) as Hin by (apply Hbef; rewrite Hp; left).
  apply list_elem_of_split in Hin as (k1 & k2 & ->).
  assert (m1 = k1 /\ m2 = k2 ++ o :: l2) as [-> ->].
  { apply (split_unique x); [by rewrite <- Hm|]. rewrite <- Hm, Hrun. by rewrite <- app_assoc. }
  split.
  - exists (k1 ++ k2), l2. split; simpl; [by rewrite <- app_assoc| |len_lia].
    intros y Hy. assert (y ∈ k1 ++ x :: k2) by (apply Hbef; rewrite Hp; by right).
    assert (y <> x) by (intros ->; done). set_solver.
  - unfold left_to_visit. simpl. rewrite Hrun. len_lia.
Qed.

Lemma take_victim_spec s v B o l1 l2 :
  booked s v B -> visiting s v o l1 l2 -> NoDup (running s) ->
  scheduled_new_reqs v = [] -> scheduled_resumed_reqs v = [] ->
  (forall x, x ∈ running s -> is_Some (objects s !! x)) ->
  succeeds (take_victim c v) s (fun a s' => exists m1 m2,
    s' = set_running (m1 ++ m2) s /\ victim_taken s v B o a.1 a.2 m1 m2).
Proof.
  intros Hb Hv Hnd Hnew Hres Hobj. destruct (Hv) as [Hrun Hbef _].
  unfold take_victim. sstep. apply succeeds_get. destruct (policy c).
  - (* FCFS *)
    destruct (exists_last (l := o :: l2)) as (m & x & Hlast); [done|].
    assert (running s = (l1 ++ m) ++ x :: []) as Hm by (by rewrite Hrun, Hlast, app_assoc).
    sstep. apply (succeeds_of_option _ _ x); [rewrite Hm; apply py_last_app|]. sstep. sstep. sstep.
    exists (l1 ++ m), []. split.
    + f_equal. by rewrite app_nil_r, Hm, py_take_last.
    + apply (drop_unscheduled s v B o l1 l2); try done. intros Hx. apply Hbef in Hx.
      rewrite Hm in Hnd. apply NoDup_app in Hnd as (_ & Hnd & _). apply (Hnd x); set_solver.
  - (* PRIORITY *)
    sstep. eapply succeeds_mono; [apply lowest_priority_spec; [rewrite Hrun; by destruct l1|done]|].
    intros x s' [-> Hx]. pose proof Hx as (m1 & m2 & Hm)%list_elem_of_split.
    sstep. sstep.
    assert (remove_first x (running s) = m1 ++ m2) as -> by (rewrite Hm in *; by apply remove_first_split).
    case_bool_decide as Hs.
    + destruct (booked_get c size s v B x Hb) as (r & n & b & Hr & Hn & Hbl & He);
        [unfold scheduled; set_solver|].
      sstep. eapply deref_spec; [exact Hr|]. sstep. eapply succeeds_of_option; [exact Hn|].
      sstep. eapply succeeds_of_option; [exact Hbl|]. sstep.
      eapply succeeds_mono; [apply (succeeds_mmapM_read _ (fun _ _ => True))|].
      { intros i Hi. destruct He as [_ _ _ _ _ Hins]. rewrite Forall_forall in Hins.
        destruct (Hins i Hi) as (h & _ & Hg & _).
        eapply succeeds_of_result; [exact Hg|done]. }
      intros embeds s' [-> _]. sstep. exists m1, m2. split; [done|]. simpl.
      rewrite <- (rid_of_eq s x r Hr) in *. by eapply drop_scheduled.
    + sstep. exists m1, m2. split; [done|]. apply (drop_unscheduled s v B o l1 l2); try done.
      unfold scheduled. rewrite Hnew, Hres. by rewrite !app_nil_r.
Qed.

(** ** Allocating, or preempting and trying again *)

(** The slots of one running request change. *)
Lemma sinv_kv_running s wl sl kl o r k D :
  sinv D s wl sl kl -> o ∈ running s -> objects s !! o = Some r ->
  kvc_kept (max_len := max_model_len c) (kv_cache_manager s) k (fun rid => rid <> request_id r) ->
  room k (request_id r) (num_computed_tokens r) -> sinv D (set_kv k s) wl sl kl.
Proof.
  intros Hs Ho Hr [Hok Hk] Hroom.
  assert (forall o' r', o' ∈ running s -> objects s !! o' = Some r' -> o' <> o ->
    request_id r' <> request_id r) as Hne.
  { intros o' r' Ho' Hr' Hno Heq. apply Hno. eapply (ids_inj c size D s wl sl kl); try done; set_solver. }
  destruct Hs. split; try done; simpl.
  - intros o' r' Ho' Hr'. destruct (i_running o' r' Ho' Hr') as (? & ? & ?).
    split; [done|]. split; [|done]. destruct (decide (o' = o)) as [->|Hno]; [by simplify_eq|].
    apply Hk; [by eapply Hne|done].
  - intros rid Hrid. apply Hk; [|by apply i_clear]. intros ->. by apply (Hrid o r).
Qed.

Lemma prev_ok_assign s l o r r' :
  prev_ok s l -> objects s !! o = Some r -> request_id r' = request_id r -> status r' = status r ->
  prev_ok (set_objects (<[o := r']> (objects s)) s) l.
Proof.
  intros Hp Hr Hid Hst o' x Ho'. simpl. destruct (decide (o' = o)) as [->|Hne].
  - rewrite lookup_insert_eq. intros [= <-]. rewrite Hst, Hid. by apply (Hp o).
  - rewrite lookup_insert_ne by done. by apply Hp.
Qed.

(** Other requests are scheduled. *)
Lemma booked_other s s' v B D wl sl kl o r :
  sinv D s wl sl kl -> o ∈ running s ++ (obj_id <$> wl ++ sl ++ kl) ->
  objects s !! o = Some r -> o ∉ scheduled v -> booked s v B -> scheduled v ⊆ running s' ->
  (forall o', o' <> o -> objects s' !! o' = objects s !! o') -> is_Some (objects s' !! o) ->
  (forall rid, rid <> request_id r -> forall k, room (kv_cache_manager s) rid k ->
                                      room (kv_cache_manager s') rid k) ->
  booked s' v B.
Proof.
  intros Hs Ho Hr Hns Hb Hrun Hobj Hsome Hroom.
  assert (scheduled v ⊆ running s) as Hrun0 by apply (bk_core Hb).
  eapply booked_frame; [exact Hb|exact Hrun|..].
  - intros o' r' Ho' Hr'. assert (o' <> o) as Hne by (intros ->; done).
    rewrite Hobj by done. split; [done|]. apply Hroom. intros Heq. apply Hne.
    eapply (ids_inj c size D s wl sl kl); try done; set_solver.
  - intros o' Ho'. destruct (decide (o' = o)) as [->|]; [done|]. by rewrite Hobj.
Qed.

Lemma booked_add_preempted s v B o :
  booked s v B -> is_Some (objects s !! o) -> booked s (add_preempted o v) B.
Proof. intros [] Ho. split; try done. simpl. set_solver. Qed.

Lemma alloc_stepping s0 s v wl sl B o r k r' :
  stepping s0 s v wl sl B -> o ∈ running s -> objects s !! o = Some r -> o ∉ scheduled v ->
  kvc_kept (max_len := max_model_len c) (kv_cache_manager s) k (fun rid => rid <> request_id r) ->
  room k (request_id r) (num_computed_tokens r) -> memoised r r' ->
  stepping s0 (set_objects (<[o := r']> (objects s)) (set_kv k s)) v wl sl B.
Proof.
  intros [Hs Hb Hn Hres Hsame Hprev] Ho Hr Hns Hkept Hroom Hm.
  split; try done.
  - apply (sinv_assign c size _ (set_kv k s) _ _ _ o r r'); [|done|by apply memo_same_facts].
    by apply (sinv_kv_running s _ _ _ o r).
  - eapply (booked_other s); try done; [set_solver|apply (bk_core Hb)|..]; simpl.
    + intros o' Hne. by rewrite lookup_insert_ne.
    + by rewrite lookup_insert_eq.
    + intros rid Hrid. by apply Hkept.
  - by destruct Hsame.
  - intros Hnil. destruct Hm as [[m ->] _]. by apply (prev_ok_assign (set_kv k s) _ o r); [apply Hprev|..].
Qed.

Lemma preempt_stepping s0 s v v' wl sl B o x m1 m2 :
  stepping s0 s v wl sl B -> victim_taken s v B o x v' m1 m2 ->
  succeeds (_preempt_request x) (set_running (m1 ++ m2) s) (fun _ s' => exists wl' rx,
    stepping s0 s' (add_preempted x v') wl' sl B /\ running s' = m1 ++ m2
    /\ enc_mono size (encoder_cache_manager s) (encoder_cache_manager s')
    /\ (forall o', o' <> x -> objects s' !! o' = objects s !! o')
    /\ objects s !! x = Some rx
    /\ kvc_kept (max_len := max_model_len c) (kv_cache_manager s) (kv_cache_manager s')
         (fun rid => rid <> request_id rx)).
Proof.
  intros [Hs _ Hn Hres Hsame _] (Hrun & Hb & Hx & Hn' & Hres' & Hpre & _ & _).
  eapply succeeds_mono; [by apply (preempt_spec c size no_drafts s wl sl [] m1 m2)|].
  intros _ s' (wl' & rx & Hs' & Hrun' & Hpf & _). exists wl', rx.
  pose proof Hpf as [Hr Ho Hreq Hsk Hpv Hfin Hpa Hk Henc].
  assert (forall o', o' <> x -> objects s' !! o' = objects s !! o') as Hoth.
  { intros o' Hne. by rewrite Ho, lookup_insert_ne. }
  assert (is_Some (objects s' !! x)) as Hxs by (by rewrite Ho, lookup_insert_eq).
  assert (x ∈ running s) as Hxr by (rewrite Hrun; set_solver).
  split; [|done]. split; try done; simpl; [|congruence|congruence| |by destruct (preempted_reqs v')].
  - apply booked_add_preempted; [|done].
    apply (booked_other s s' v' B no_drafts wl sl [] x rx); try done.
    + set_solver.
    + intros y Hy. rewrite Hrun'. assert (y ∈ running s) as Hyr by (by apply (bk_core Hb)).
      assert (y <> x) by (intros ->; done). rewrite Hrun in Hyr. set_solver.
    + intros rid Hrid. by apply Hk.
  - destruct Hsame. split; congruence.
Qed.

(** Some victims later, [o] has its slots or has been preempted itself. *)
Definition slots_for s0 s v wl sl B o r n (a : option KVCacheBlocks * locals) s' : Prop :=
  exists wl', stepping s0 s' a.2 wl' sl B
    /\ enc_mono size (encoder_cache_manager s) (encoder_cache_manager s')
    /\ match a.1 with
       | None => True
       | Some _ => exists l1 l2 r', visiting s' a.2 o l1 l2
           /\ left_to_visit s' a.2 <= left_to_visit s v /\ token_budget v <= token_budget a.2
           /\ objects s' !! o = Some r' /\ memoised r r'
           /\ room (kv_cache_manager s') (request_id r) (num_computed_tokens r + n)
       end.

Lemma preempt_loop_spec s0 fuel o r n v s wl sl B l1 l2 :
  config_ok c size -> stepping s0 s v wl sl B -> visiting s v o l1 l2 ->
  objects s !! o = Some r -> 0 < n -> num_computed_tokens r + n <= max_model_len c ->
  (length (running s) <= fuel)%nat ->
  succeeds (preempt_loop c fuel o n v) s (slots_for s0 s v wl sl B o r n).
Proof.
  intros Hc. revert r v s wl l1 l2.
  induction fuel as [|fuel IH]; intros r v s wl l1 l2 Hst Hv Hr Hn Hlen Hfuel.
  { exfalso. rewrite (vi_running _ _ _ _ _ Hv), length_app in Hfuel. simpl in Hfuel. lia. }
  assert (o ∈ running s) as Ho by (rewrite (vi_running _ _ _ _ _ Hv); set_solver).
  assert (o ∉ scheduled v) as Hns.
  { intros Hin. apply (vi_before _ _ _ _ _ Hv) in Hin.
    pose proof (running_NoDup _ _ _ _ _ (st_inv _ _ _ _ _ _ Hst)) as Hnd.
    rewrite (vi_running _ _ _ _ _ Hv) in Hnd. apply NoDup_app_cons_inv in Hnd. naive_solver. }
  pose proof (st_inv _ _ _ _ _ _ Hst) as Hs.
  destruct (i_running Hs Ho Hr) as (_ & Hroom & Hcomp & _).
  destruct (known_object Hs (o := o)) as (r0 & Hr0 & _ & _ & Hok); [set_solver|]. simplify_eq.
  simpl. sstep. eapply deref_spec; [exact Hr|]. sstep. apply on_kv_spec.
  eapply succeeds_mono; [apply (kvc_allocate_running_spec (max_len := max_model_len c));
    [apply Hs|apply Hok|done|lia|apply Hc|done|done]|].
  intros [nb r'] k (Hkept & Hm & Hroom'). simpl in *. sstep.
  eapply assign_spec; [exact Hr|].
  assert (stepping s0 (set_objects (<[o := r']> (objects s)) (set_kv k s)) v wl sl B) as Hst1.
  { apply (alloc_stepping s0 s v wl sl B o r); try done.
    eapply kvc_room_le; [exact Hroom'|]. destruct nb; lia. }
  destruct nb as [nb|].
  - sstep. exists wl. split; [done|]. split; [apply enc_mono_refl, Hs|].
    exists l1, l2, r'. split_and!; try done; [by destruct Hv|]. simpl. apply lookup_insert_eq.
  - set (s1 := set_objects _ _) in *.
    assert (visiting s1 v o l1 l2) as Hv1 by (by destruct Hv).
    pose proof (st_inv _ _ _ _ _ _ Hst1) as Hs1.
    sstep. eapply succeeds_mono; [apply (take_victim_spec s1 v B o l1 l2); try done; try apply Hst1|].
    { by eapply running_NoDup. }
    { intros x Hx. destruct (known_object Hs1 (o := x)) as (rx & Hrx & _); [set_solver|]. by exists rx. }
    intros [x v'] s2 (m1 & m2 & -> & Hvt). simpl in *. sstep.
    eapply succeeds_mono; [by eapply preempt_stepping|].
    intros _ s3 (wl' & rx & Hst3 & Hrun3 & Henc & Hoth & Hrx & Hk).
    destruct Hvt as (Hrunx & _ & _ & _ & _ & _ & Hbud & Hcase).
    destruct (Z.eqb_spec x o) as [->|Hne].
    + sstep. by exists wl'.
    + destruct Hcase as [?|((k1 & k2 & Hv') & Hleft)]; [done|].
      assert (objects s3 !! o = Some r') as Hr3 by (rewrite Hoth by done; apply lookup_insert_eq).
      destruct (Hm) as [[m Hm'] _]. eapply succeeds_mono.
      { apply (IH r' (add_preempted x v') s3 wl' k1 k2); try done.
        - destruct Hv'. split; [by rewrite Hrun3|done..].
        - by rewrite Hm'.
        - assert (running s1 = running s) as Heq by done.
          rewrite Hrun3. rewrite <- Heq, Hrunx, length_app in Hfuel. simpl in Hfuel.
          rewrite length_app. lia. }
      intros a s4 (wl4 & Hst4 & Henc4 & Hpost). exists wl4. split; [done|].
      split; [by eapply enc_mono_trans|]. destruct a.1 as [b|]; [|done].
      destruct Hpost as (j1 & j2 & r4 & Hv4 & Hl4 & Hb4 & Hr4 & Hm4 & Hroom4).
      exists j1, j2, r4. split_and!; try done.
      * unfold left_to_visit in *. simpl in *. rewrite Hrun3 in Hl4. lia.
      * simpl in *. lia.
      * by eapply memoised_trans.
      * by rewrite Hm' in Hroom4.
Qed.

(** ** One request *)

Definition visited s v : Prop :=
  exists l1 l2, running s = l1 ++ l2 /\ scheduled v ⊆ l1 /\ len l1 <= req_index v.

Lemma stepping_skip s0 s v wl sl B o l1 l2 :
  stepping s0 s v wl sl B -> visiting s v o l1 l2 -> req_index v = len l1 ->
  let v' := set_req_index (req_index v + 1) v in
  stepping s0 s v' wl sl B /\ visited s v' /\ left_to_visit s v' < left_to_visit s v.
Proof.
  intros [? [] ? ? ? ?] [Hrun Hbef Hidx] Heq. split; [|split].
  - by split.
  - exists (l1 ++ [o]), l2. split; [by rewrite <- app_assoc|]. split; [simpl; set_solver|].
    simpl. len_lia.
  - unfold left_to_visit. simpl. lia.
Qed.

Lemma stepping_enc s0 s v wl sl B e :
  stepping s0 s v wl sl B -> ec_ok (size := size) e -> stepping s0 (set_enc e s) v wl sl B.
Proof.
  intros [Hs Hb ? ? [] ?] He. split; try done; [by apply sinv_enc|].
  by eapply booked_frame; [exact Hb|apply (bk_core Hb)|..].
Qed.

(** The request has its slots: its drafts and encoder inputs are recorded. *)
Lemma schedule_one s0 s v wl sl B o r r0 n nb p N l1 l2 :
  config_ok c size -> stepping s0 s v wl sl B -> visiting s v o l1 l2 ->
  objects s !! o = Some r -> memoised r0 r -> request_ok c size r -> 0 < n <= token_budget v ->
  num_computed_tokens r + n <= max_model_len c - 1 ->
  num_computed_tokens r + n <= num_tokens r + len (spec_token_ids r) ->
  room (kv_cache_manager s) (request_id r) (num_computed_tokens r + n) ->
  encodes c size (encoder_cache_manager s) r N p ->
  succeeds (v1 <- schedule_spec_tokens o n (add_scheduled_running o (request_id r0) nb n v) ;;
            schedule_encoder_inputs o p v1) s (fun v' s' =>
    stepping s0 s' v' wl sl B /\ visited s' v' /\ left_to_visit s' v' = left_to_visit s v - 1).
Proof.
  intros Hc Hst Hv Hr Hm Hok Hn Hpos Htok' Hroom Henc.
  assert (request_id r0 = request_id r) as -> by (by destruct Hm as [[m ->] _]).
  pose proof (st_inv _ _ _ _ _ _ Hst) as Hs.
  sstep. eapply succeeds_mono;
    [by apply (schedule_spec_tokens_spec c size o r); [|apply rk_placeholders in Hok|]|].
  intros v1 s1 (ds & -> & -> & Hds).
  set (r1 := set_spec_token_ids [] r).
  set (s1 := set_objects (<[o := r1]> (objects s)) s).
  assert (objects s1 !! o = Some r1) as Hr1 by apply lookup_insert_eq.
  eapply succeeds_mono; [eapply (schedule_encoder_spec c size o r1 N p);
    [done|exact Hr1|apply Hs|by eapply (encodes_mono c size); [exact Henc|eapply enc_mono_refl, Hs|]]|].
  intros v2 s2 (e & -> & He & ->).
  change (with_inputs _ _ _) with (recorded (request_id r) ds p (add_scheduled_running o (request_id r) nb n v)).
  destruct (recorded_fields (request_id r) ds p (add_scheduled_running o (request_id r) nb n v))
    as (E1 & E2 & E3 & E4 & E5 & E6 & E7 & E8 & E9 & E10).
  set (v2 := recorded _ _ _ _) in *. clearbody v2. simpl in *.
  assert (o ∈ running s) as Ho by (rewrite (vi_running _ _ _ _ _ Hv); set_solver).
  assert (o ∉ scheduled v) as Hns.
  { intros Hin. apply (vi_before _ _ _ _ _ Hv) in Hin. pose proof (running_NoDup _ _ _ _ _ Hs) as Hnd.
    rewrite (vi_running _ _ _ _ _ Hv) in Hnd. apply NoDup_app_cons_inv in Hnd. naive_solver. }
  assert (scheduled v2 ≡ₚ o :: scheduled v) as Hsch.
  { unfold scheduled. rewrite E1, E2, E3. rewrite <- app_assoc. simpl. by rewrite <- Permutation_middle. }
  destruct Hst as [_ Hb Hnew Hres Hsame Hprev].
  split; [split|split].
  - apply sinv_enc; [|done]. apply (sinv_assign c size _ s _ _ _ o r r1); [done|done|].
    split_and!; try done. intros Hok'. by apply progress_ok.
  - apply (booked_add c size _ v v2 B o r1 (request_id r) n nb ds (encoder_inputs_to_schedule p)); try done.
    + apply (booked_other s _ v B no_drafts wl sl [] o r); try done; simpl.
      * set_solver.
      * apply (bk_core Hb).
      * intros o' Hne. by rewrite lookup_insert_ne.
    + apply (unscheduled_key c size no_drafts s wl sl [] v B o r); try done. set_solver.
    + pose proof (len_nonneg ds).
      assert (num_computed_tokens r1 = num_computed_tokens r) as Ec by done.
      assert (num_tokens r1 = num_tokens r) as En by done.
      assert (0 < len (spec_token_ids r) -> pooling_params r = None) as Hpool.
      { intros Hspec. destruct (pooling_params r) eqn:Epp; [|done]. exfalso.
        rewrite (rk_pooling Hok) in Hspec by congruence. len_lia. }
      split; rewrite ?Ec, ?En; [lia|done|lia|lia|split; [lia|apply Hpool; lia]|].
      eapply Forall_impl; [by eapply (encodes_inputs c size)|].
      intros i [h Hi]. exists h. by apply (has_input_same size r).
    + lia.
  - rewrite E2. done.
  - rewrite E3. done.
  - by destruct Hsame.
  - rewrite E4. intros Hnil. apply (prev_ok_assign s _ o r r1); [by apply Hprev|done..].
  - destruct Hv as [Hrun Hbef Hidx]. exists (l1 ++ [o]), l2. split; [by rewrite <- app_assoc|].
    split; [rewrite Hsch; set_solver|]. rewrite E6. len_lia.
  - unfold left_to_visit. simpl. lia.
Qed.

(** ** The loop *)

Lemma visit_next s v :
  visited s v -> req_index v < len (running s) ->
  exists o l1 l2, py_index (running s) (req_index v) = Some o /\ visiting s v o l1 l2
    /\ req_index v = len l1.
Proof using Type.
  intros (k1 & k2 & Hrun & Hbef & Hidx) Hlt. pose proof (len_nonneg k1).
  destruct (lookup_lt_is_Some_2 (running s) (Z.to_nat (req_index v))) as [o Ho]; [unfold len in *; lia|].
  exists o, (take (Z.to_nat (req_index v)) (running s)), (drop (S (Z.to_nat (req_index v))) (running s)).
  split; [by rewrite py_index_nonneg by lia|].
  assert (len (take (Z.to_nat (req_index v)) (running s)) = req_index v) as Hl by (rewrite len_take; lia).
  split; [|done]. split; [by rewrite take_drop_middle| |lia].
  intros x Hx. rewrite Hrun, take_app_ge by (unfold len in *; lia). apply elem_of_app. left. by apply Hbef.
Qed.

Lemma running_loop_spec s0 fuel v s wl sl B :
  config_ok c size -> stepping s0 s v wl sl B -> visited s v ->
  left_to_visit s v <= Z.of_nat fuel ->
  succeeds (running_loop c fuel v) s (fun v' s' => exists wl', stepping s0 s' v' wl' sl B).
Proof.
  intros Hc. revert v s wl. induction fuel as [|fuel IH]; intros v s wl Hst Hvis Hfuel; simpl; sstep; apply succeeds_get.
  { unfold left_to_visit in Hfuel. destruct (Z.ltb_spec (req_index v) (len (running s))); [lia|].
    simpl. sstep. by exists wl. }
  destruct (Z.ltb_spec (req_index v) (len (running s))) as [Hlt|]; [|simpl; sstep; by exists wl].
  destruct (Z.ltb_spec 0 (token_budget v)) as [Hbud|]; [|simpl; sstep; by exists wl]. simpl.
  destruct (visit_next s v Hvis Hlt) as (o & l1 & l2 & Hidx & Hv & Heq).
  pose proof (st_inv _ _ _ _ _ _ Hst) as Hs.
  assert (o ∈ running s) as Ho by (rewrite (vi_running _ _ _ _ _ Hv); set_solver).
  destruct (known_object Hs (o := o)) as (r & Hr & _ & _ & Hok); [set_solver|].
  destruct (i_running Hs Ho Hr) as (_ & _ & Hcomp & _).
  sstep. eapply succeeds_of_option; [exact Hidx|]. sstep. eapply deref_spec; [exact Hr|].
  destruct (reaches_max_tokens r).
  { destruct (stepping_skip s0 s v wl sl B o l1 l2) as (? & ? & ?); try done.
    apply (IH _ _ wl); try done. lia. }
  destruct (running_tokens_bounds c size r (token_budget v)) as (Hn0 & Hn1 & Hn2); [done|lia|done|].
  sstep. eapply succeeds_mono; [apply (plan_spec c size); try done; [lia|apply Hs]|].
  intros p s1 (e & -> & He & Henc).
  pose proof (stepping_enc s0 s v wl sl B e Hst He) as Hst1.
  assert (visiting (set_enc e s) v o l1 l2) as Hv1 by (by destruct Hv).
  pose proof (aligned_bounds c size r (EncoderSched.num_new_tokens p) 0 Hc) as Hal.
  set (n := aligned_split c r (EncoderSched.num_new_tokens p) 0) in *.
  assert (0 <= n <= running_tokens c r (token_budget v)) as Hn by (destruct Henc as [_ ?]; lia).
  clearbody n. clear Hal. destruct (Z.eqb_spec n 0) as [->|Hne].
  { destruct (stepping_skip s0 (set_enc e s) v wl sl B o l1 l2) as (? & ? & ?); try done.
    apply (IH _ _ wl); try done. unfold left_to_visit in *. simpl in *. lia. }
  sstep. eapply succeeds_mono;
    [apply (preempt_loop_spec s0 _ o r n v _ wl sl B l1 l2); try done; simpl; lia|].
  intros [[nb|] v2] s2 (wl2 & Hst2 & Hmono & Hpost); simpl in *; [|sstep; by exists wl2].
  destruct Hpost as (j1 & j2 & r2 & Hv2 & Hleft & Hbud2 & Hr2 & Hm & Hroom).
  apply (succeeds_bind_assoc (schedule_spec_tokens o n _)).
  eapply succeeds_mono; [apply (schedule_one s0 s2 v2 wl2 sl B o r2 r n nb p (running_tokens c r (token_budget v)) j1 j2); try done|].
  - eapply (request_ok_memo c size r); done.
  - lia.
  - destruct Hm as [[m ->] _]. simpl. lia.
  - destruct Hm as [[m ->] _]. unfold num_tokens in *. simpl. lia.
  - by destruct Hm as [[m ->] _].
  - eapply (encodes_mono c size); [exact Henc|exact Hmono|by destruct Hm as [[m ->] _]].
  - intros v3 s3 (Hst3 & Hvis3 & Hleft3). apply (IH _ _ wl2); try done.
    unfold left_to_visit in *. simpl in *. lia.
Qed.
End running.
