(* ===== verification/SchedWaiting.v ===== *)
(** * Scheduling the waiting requests

    The second loop of [schedule]: it takes requests out of the two waiting queues,
    puts aside those that cannot run yet, and starts the others, until the budget or
    the running queue is full or something does not fit.  It never raises, ends, and
    keeps the invariant and the books. *)

From stdpp Require Import sorting.
From S2P Require Import Prelude Request BlockHash KVManager EncoderCache EncoderSched RequestQueue.
From S2P Require Import SchedUtils KVCache Scheduler SchedInv SchedBooks SchedPlan SchedRunning.
From stdpp Require Import options.
Import Scheduler.

#[local] Set Default Proof Using "Type*".

Section waiting.
Context {KV EC : Type} `{Hkv : KVCache KV} `{Htok : Tokens} `{Hec : EncoderCache EC} `{SetIter}.
Context (c : Config) (size : mm_key -> Z).
Context `{!KVCacheLaws KV (max_model_len c)} `{!EncoderCacheLaws EC size}.
Implicit Types (s : @t KV EC) (v : @locals) (wl sl kl : list Request) (r : Request) (o n B : Z).

Abbreviation room := (kvc_room (S := KV) (max_len := max_model_len c)).
Abbreviation clear := (kvc_clear (S := KV) (max_len := max_model_len c)).
Abbreviation legal := (kvc_legal (S := KV) (max_len := max_model_len c)).
Abbreviation kept := (kvc_kept (S := KV) (max_len := max_model_len c)).
Abbreviation sinv := (sinv c size).
Abbreviation booked := (booked c size).
Abbreviation no_drafts := (fun _ : string => 0).
Abbreviation ids l := (obj_id <$> l).

(** ** Changes of the state *)

Lemma cache_kept_trans k1 k2 k3 (P Q R : string -> Prop) :
  kept k1 k2 P -> kept k2 k3 Q -> (forall rid, R rid -> P rid /\ Q rid) -> kept k1 k3 R.
Proof.
  intros [_ H1] [Hok H2] HR. split; [done|]. intros rid Hrid. destruct (HR rid Hrid) as [HP HQ].
  destruct (H1 rid HP), (H2 rid HQ). auto.
Qed.

(** Requests move between the queues; the entries may be replaced by newer ones. *)
Lemma sinv_queues D s wl sl kl W S wl' sl' kl' :
  sinv D s wl sl kl -> queue_rep (policy c) W wl' -> queue_rep (policy c) S sl' ->
  ids (wl' ++ sl' ++ kl') ≡ₚ ids (wl ++ sl ++ kl) ->
  sinv D (set_skipped S (set_waiting W s)) wl' sl' kl'.
Proof.
  intros [] HW HS Hp. split; try done; simpl.
  - by rewrite Hp.
  - by rewrite Hp.
  - intros q r Hq Hr. assert (obj_id q ∈ ids (wl ++ sl ++ kl)) as (q' & Heq & Hq')%list_elem_of_fmap.
    { rewrite <- Hp. by apply list_elem_of_fmap_2. }
    apply (i_queued q'); [done|by rewrite <- Heq].
Qed.

Lemma queued_not_running D s wl sl kl o :
  sinv D s wl sl kl -> o ∈ ids (wl ++ sl ++ kl) -> o ∉ running s.
Proof. intros Hs Ho Hr. pose proof (i_distinct Hs) as (_ & Hd & _)%NoDup_app. by apply (Hd o). Qed.

Lemma queued_clear D s wl sl kl o r :
  sinv D s wl sl kl -> o ∈ ids (wl ++ sl ++ kl) -> objects s !! o = Some r ->
  clear (kv_cache_manager s) (request_id r).
Proof.
  intros Hs Ho Hr. apply (i_clear Hs). intros o' r' Ho' Hr' Heq.
  assert (o' = o) as -> by (eapply (ids_inj c size D s wl sl kl); try done; set_solver).
  by eapply queued_not_running.
Qed.

(** A call on the KV cache that leaves a queued request without slots. *)
Lemma sinv_kv_queued D s wl sl kl o r k :
  sinv D s wl sl kl -> o ∈ ids (wl ++ sl ++ kl) -> objects s !! o = Some r ->
  kept (kv_cache_manager s) k (fun rid => rid <> request_id r) -> clear k (request_id r) ->
  sinv D (set_kv k s) wl sl kl.
Proof.
  intros Hs Ho Hr [Hok Hk] Hclear.
  assert (forall o' r', o' ∈ running s -> objects s !! o' = Some r' ->
    request_id r' <> request_id r) as Hne.
  { intros o' r' Ho' Hr' Heq.
    assert (o' = o) as -> by (eapply (ids_inj c size D s wl sl kl); try done; set_solver).
    by eapply queued_not_running. }
  destruct Hs. split; try done; simpl.
  - intros o' r' Ho' Hr'. destruct (i_running o' r' Ho' Hr') as (? & ? & ?).
    split; [done|]. split; [|done]. apply Hk; [by eapply Hne|done].
  - intros rid Hrid. destruct (decide (rid = request_id r)) as [->|Hnr]; [done|].
    apply Hk; [done|by apply i_clear].
Qed.

(** A queued request changes without being started. *)
Lemma sinv_assign_queued D s wl sl kl o r r' :
  sinv D s wl sl kl -> o ∈ ids (wl ++ sl ++ kl) -> objects s !! o = Some r ->
  request_id r' = request_id r -> obj_id r' = obj_id r -> waiting_status (status r') ->
  num_computed_tokens r' = 0 -> (request_ok c size r -> request_ok c size r') ->
  sinv D (set_objects (<[o := r']> (objects s)) s) wl sl kl.
Proof.
  intros Hs Ho Hr Hid Hobj Hst Hcomp Hok. pose proof (queued_not_running _ _ _ _ _ _ Hs Ho) as Hnr.
  destruct Hs. split; try done; simpl.
  - intros rid o' Hin. destruct (i_objects _ _ Hin) as (x & Hx & ? & ? & ?).
    destruct (decide (o' = o)) as [->|Hne].
    + rewrite lookup_insert_eq. simplify_eq. exists r'. split_and!; [done|congruence..|by auto].
    + rewrite lookup_insert_ne by done. by exists x.
  - intros o' x Ho' Hx. rewrite lookup_insert_ne in Hx by (intros ->; done). by apply (i_running o').
  - intros q x Hq. destruct (decide (obj_id q = o)) as [Heq|Hne].
    + rewrite Heq, lookup_insert_eq. by intros [= <-].
    + rewrite lookup_insert_ne by done. by apply i_queued.
  - intros rid Hrid. apply i_clear. intros o' y Ho' Hy.
    apply (Hrid o'); [done|]. rewrite lookup_insert_ne by (intros ->; done). done.
Qed.

(** A queued request starts to run. *)
Lemma sinv_started s wl sl kl wl' sl' o r r' k e W S :
  sinv no_drafts s wl sl kl -> ids (wl ++ sl ++ kl) ≡ₚ o :: ids (wl' ++ sl' ++ kl) ->
  objects s !! o = Some r -> queue_rep (policy c) W wl' -> queue_rep (policy c) S sl' ->
  kept (kv_cache_manager s) k (fun rid => rid <> request_id r) ->
  room k (request_id r) (num_computed_tokens r') ->
  request_id r' = request_id r -> obj_id r' = obj_id r -> status r' = RUNNING ->
  0 <= num_computed_tokens r' <= num_tokens r' -> request_ok c size r' ->
  len (running s) < max_num_running_reqs c -> ec_ok (size := size) e ->
  sinv no_drafts (Mk (<[o := r']> (objects s)) (requests s) (running s ++ [o]) W S
    (prev_step_scheduled_req_ids s) (finished_req_ids s) (pause_state s) k e) wl' sl' kl.
Proof.
  intros Hs Hp Hr HW HS [Hkok Hk] Hroom Hid Hobj Hst Hcomp Hok Hlim He.
  assert (o ∈ ids (wl ++ sl ++ kl)) as Ho by (rewrite Hp; left).
  pose proof (queued_not_running _ _ _ _ _ _ Hs Ho) as Hnr.
  assert (forall o' x, o' ∈ running s -> objects s !! o' = Some x -> request_id x <> request_id r) as Hne.
  { intros o' x Ho' Hx Heq.
    assert (o' = o) as -> by (eapply (ids_inj c size no_drafts s wl sl kl); try done; set_solver).
    done. }
  assert (running s ++ ids (wl ++ sl ++ kl) ≡ₚ (running s ++ [o]) ++ ids (wl' ++ sl' ++ kl)) as Hp'.
  { rewrite Hp. by rewrite <- app_assoc. }
  pose proof (i_distinct Hs) as Hnd. rewrite Hp' in Hnd.
  assert (o ∉ ids (wl' ++ sl' ++ kl)) as Hno.
  { apply NoDup_app in Hnd as (_ & Hnd & _). apply Hnd. set_solver. }
  destruct Hs. split; simpl; try done.
  - by rewrite <- Hp'.
  - intros rid o' Hin. destruct (i_objects _ _ Hin) as (x & Hx & ? & ? & ?).
    destruct (decide (o' = o)) as [->|Hne'].
    + rewrite lookup_insert_eq. simplify_eq. exists r'. split_and!; [done|congruence..|done].
    + rewrite lookup_insert_ne by done. by exists x.
  - intros o' x [Ho'|Ho']%elem_of_app Hx.
    + rewrite lookup_insert_ne in Hx by (intros ->; done).
      destruct (i_running o' x Ho' Hx) as (? & ? & ?). split; [done|]. split; [|done].
      apply Hk; [by eapply Hne|done].
    + apply list_elem_of_singleton in Ho' as ->. rewrite lookup_insert_eq in Hx. injection Hx as <-.
      rewrite Hid. split; [done|]. split; [done|]. lia.
  - intros q x Hq Hx. assert (obj_id q <> o) as Hqo.
    { intros Heq. apply Hno. rewrite <- Heq. by apply list_elem_of_fmap_2. }
    rewrite lookup_insert_ne in Hx by done.
    assert (obj_id q ∈ ids (wl ++ sl ++ kl)) as (q' & Heq & Hq')%list_elem_of_fmap.
    { rewrite Hp. right. by apply list_elem_of_fmap_2. }
    apply (i_queued q'); [done|by rewrite <- Heq].
  - intros rid Hrid. destruct (decide (rid = request_id r)) as [->|Hnr'].
    + exfalso. apply (Hrid o r'); [set_solver|by rewrite lookup_insert_eq|done].
    + apply Hk; [done|]. apply i_clear. intros o' x Ho' Hx.
      apply (Hrid o'); [set_solver|]. rewrite lookup_insert_ne by (intros ->; done). done.
  - len_lia.
Qed.

(** ** The two queues *)

Definition pick {A} (which : bool) (a b : A) : A := if which then a else b.

Definition set_queue (which : bool) (q : RequestQueue) s : @t KV EC :=
  if which then set_waiting q s else set_skipped q s.

Lemma on_queue_spec {A} which (m : M RequestQueue A) s (Q : A -> @t KV EC -> Prop) :
  succeeds m (pick which (waiting s) (skipped_waiting s)) (fun a q => Q a (set_queue which q s)) ->
  succeeds (on_queue which m) s Q.
Proof using Type. intros HQ. destruct which; by apply succeeds_zoom. Qed.

Lemma nonempty_rep q l : queue_rep (policy c) q l -> nonempty q = negb (bool_decide (l = [])).
Proof using Type.
  intros Hq. unfold nonempty. rewrite (queue_len_rep _ _ _ Hq). f_equal.
  destruct l; [done|]. rewrite bool_decide_eq_false_2 by done. pose proof (len_nonneg l).
  rewrite len_cons. by apply Z.eqb_neq; lia.
Qed.

Lemma select_spec D s wl sl kl :
  sinv D s wl sl kl -> wl ++ sl <> [] ->
  succeeds (_select_waiting_queue_for_scheduling c) s (fun w s' => s' = s /\
    exists which q l, w = Some which /\ pick which wl sl = q :: l).
Proof.
  intros Hs Hne. pose proof (i_waiting Hs) as Hw. pose proof (i_skipped Hs) as Hsk.
  unfold _select_waiting_queue_for_scheduling. sstep. apply succeeds_get.
  rewrite (nonempty_rep _ _ Hw), (nonempty_rep _ _ Hsk).
  assert (forall which q l, pick which wl sl = q :: l -> succeeds (ret (Some which)) s
    (fun w s' => s' = s /\ exists which q l, w = Some which /\ pick which wl sl = q :: l)) as Hret.
  { intros which q l Heq. sstep. split; [done|]. by exists which, q, l. }
  destruct (policy c).
  - destruct sl as [|q l]; simpl; [|by apply (Hret false q l)].
    destruct wl as [|q l]; simpl; [done|]. by apply (Hret true q l).
  - destruct wl as [|q l], sl as [|q' l']; simpl in *;
      [done|by apply (Hret false q' l')|by apply (Hret true q l)|].
    sstep. apply succeeds_zoom. eapply succeeds_mono; [by eapply (peek_request_spec PRIORITY)|].
    intros x q1 [-> ->]. sstep. apply succeeds_zoom. simpl.
    eapply succeeds_mono; [by eapply (peek_request_spec PRIORITY)|]. intros y q1 [-> ->].
    sstep. split; [by destruct s|].
    destruct (Request_lt q q'); [by exists true, q, l|by exists false, q', l'].
Qed.

(** Taking the first request out of a queue. *)
Lemma picked_rep D s wl sl kl which q l :
  sinv D s wl sl kl -> pick which wl sl = q :: l ->
  queue_rep (policy c) (pick which (waiting s) (skipped_waiting s)) (q :: l).
Proof. intros Hs <-. destruct which; apply Hs. Qed.

Lemma pop_queue_spec s which q l (Q : Request -> @t KV EC -> Prop) :
  queue_rep (policy c) (pick which (waiting s) (skipped_waiting s)) (q :: l) ->
  (forall W, queue_rep (policy c) W l -> Q q (set_queue which W s)) ->
  succeeds (on_queue which pop_request) s Q.
Proof.
  intros Hq HQ. apply on_queue_spec.
  eapply succeeds_mono; [by apply pop_request_spec|]. intros x W [-> HW]. by apply HQ.
Qed.

(** What is left in the queues. *)
Definition rest_w (which : bool) l wl : list Request := if which then l else wl.
Definition rest_s (which : bool) l sl : list Request := if which then sl else l.

Lemma rest_perm which q l wl sl kl :
  pick which wl sl = q :: l ->
  wl ++ sl ++ kl ≡ₚ q :: rest_w which l wl ++ rest_s which l sl ++ kl.
Proof using Type.
  intros Hl. destruct which; simpl in *; subst; simpl; [done|]. by rewrite <- Permutation_middle.
Qed.

Lemma rest_length which q l wl sl :
  pick which wl sl = q :: l ->
  (length (rest_w which l wl) + length (rest_s which l sl) + 1 = length wl + length sl)%nat.
Proof using Type. intros Hl. destruct which; simpl in *; subst; simpl; lia. Qed.

(** ** The loop's invariant *)

Record waiting_ok s0 s (q : RequestQueue) v wl sl kl B : Prop := {
  wo_inv : sinv no_drafts s wl sl kl;
  wo_aside : queue_rep (policy c) q kl;
  wo_booked : booked s v B;
  wo_same : same_step s0 s;
  wo_prev : prev_ok s (ids (wl ++ sl ++ kl));
  wo_resumed : forall o, o ∈ scheduled_resumed_reqs v ->
    rid_of s o ∉ prev_step_scheduled_req_ids s;
}.

(** A request is put aside. *)
Lemma skip_spec s0 s q v wl sl kl B which x l r :
  waiting_ok s0 s q v wl sl kl B -> pick which wl sl = x :: l -> objects s !! obj_id x = Some r ->
  succeeds (skip_request which (obj_id x) q) s (fun q' s' => exists kl',
    waiting_ok s0 s' q' v (rest_w which l wl) (rest_s which l sl) kl' B /\ running s' = running s).
Proof.
  intros [Hs Hq Hb Hsame Hprev Hres] Hl Hr. unfold skip_request. sstep.
  eapply pop_queue_spec; [by eapply picked_rep|]. intros W HW. sstep.
  assert (obj_id x ∈ running s ++ ids (wl ++ sl ++ kl)) as Hx.
  { apply elem_of_app. right. rewrite (rest_perm _ _ _ _ _ _ Hl). left. }
  destruct (known_object Hs Hx) as (r' & Hr' & Hobj & _). simplify_eq.
  assert (objects (set_queue which W s) = objects s) as Ho by (by destruct which).
  eapply deref_spec; [by rewrite Ho|]. sstep.
  assert (obj_id r ∉ ids kl) as Hnew.
  { rewrite Hobj. pose proof (i_distinct Hs) as Hnd.
    apply NoDup_app in Hnd as (_ & _ & Hnd). rewrite (rest_perm _ _ _ _ _ _ Hl) in Hnd.
    apply NoDup_cons in Hnd as [Hnd _]. set_solver. }
  destruct (succeeds_inv _ _ _ (prepend_request_spec _ _ _ _ Hq Hnew)) as ([] & q' & Hrun & kl' & Hp & Hq').
  unfold on_local. rewrite Hrun. repeat sstep. simpl. exists kl'.
  assert (ids (rest_w which l wl ++ rest_s which l sl ++ kl') ≡ₚ ids (wl ++ sl ++ kl)) as Hids.
  { rewrite (rest_perm _ _ _ _ _ _ Hl), Hp. simpl. rewrite <- Hobj.
    rewrite <- !Permutation_middle. done. }
  split; [|by destruct which].
  assert (sinv no_drafts (set_queue which W s) (rest_w which l wl) (rest_s which l sl) kl') as Hs'.
  { destruct which; simpl in *.
    - replace (set_waiting W s) with (set_skipped (skipped_waiting s) (set_waiting W s)) by (by destruct s).
      eapply sinv_queues; [done|done|apply Hs|done].
    - replace (set_skipped W s) with (set_skipped W (set_waiting (waiting s) s)) by (by destruct s).
      eapply sinv_queues; [done|apply Hs|done|done]. }
  assert (prev_ok (set_queue which W s) (ids (rest_w which l wl ++ rest_s which l sl ++ kl'))) as Hp'.
  { intros o y Ho' Hy. rewrite Hids in Ho'. rewrite Ho in Hy. destruct which; by apply (Hprev o). }
  split; try done.
  - eapply booked_frame; [exact Hb|..].
    + destruct which; apply (bk_core Hb).
    + intros o y _ Hy. by destruct which.
    + by destruct which.
  - destruct Hsame. by destruct which.
  - intros o Ho'. specialize (Hres o Ho'). by destruct which.
Qed.

(** ** What the attempt to start a request does *)

Lemma waiting_kv s0 s q v wl sl kl B k :
  waiting_ok s0 s q v wl sl kl B -> kept (kv_cache_manager s) k (fun _ => True) ->
  waiting_ok s0 (set_kv k s) q v wl sl kl B.
Proof.
  intros [Hs Hq Hb [] Hprev Hres] Hk. split; try done; [by apply sinv_kv|].
  eapply booked_frame; [exact Hb|apply (bk_core Hb)|..|done]. intros o r _ Hr. split; [done|].
  intros m. by apply Hk.
Qed.

Lemma waiting_enc s0 s q v wl sl kl B e :
  waiting_ok s0 s q v wl sl kl B -> ec_ok (size := size) e ->
  waiting_ok s0 (set_enc e s) q v wl sl kl B.
Proof.
  intros [Hs Hq Hb [] Hprev Hres] He. split; try done; [by apply sinv_enc|].
  by eapply booked_frame; [exact Hb|apply (bk_core Hb)|..].
Qed.

Lemma not_scheduled D s v B wl sl kl o :
  sinv D s wl sl kl -> booked s v B -> o ∈ ids (wl ++ sl ++ kl) -> o ∉ scheduled v.
Proof.
  intros Hs Hb Ho Hin. eapply queued_not_running; [exact Hs|exact Ho|]. by apply (bk_core Hb).
Qed.

(** The ids of scheduled requests survive changes of a queued object. *)
Lemma rid_of_insert s o o' r : o' <> o -> rid_of (set_objects (<[o := r]> (objects s)) s) o' = rid_of s o'.
Proof using Type. intros Hne. unfold rid_of. simpl. by rewrite lookup_insert_ne. Qed.

(** The KV cache and the object of a queued request change. *)
Lemma waiting_change s0 s q v wl sl kl B o r k r' :
  waiting_ok s0 s q v wl sl kl B -> o ∈ ids (wl ++ sl ++ kl) -> objects s !! o = Some r ->
  kept (kv_cache_manager s) k (fun rid => rid <> request_id r) -> clear k (request_id r) ->
  request_id r' = request_id r -> obj_id r' = obj_id r -> waiting_status (status r') ->
  num_computed_tokens r' = 0 -> (request_ok c size r -> request_ok c size r') ->
  (status r' = PREEMPTED -> status r = PREEMPTED) ->
  waiting_ok s0 (set_objects (<[o := r']> (objects s)) (set_kv k s)) q v wl sl kl B.
Proof.
  intros [Hs Hq Hb [] Hprev Hres] Ho Hr Hk Hclear Hid Hobj Hst Hcomp Hok Hpre.
  pose proof (not_scheduled _ _ _ _ _ _ _ _ Hs Hb Ho) as Hns.
  pose proof (queued_not_running _ _ _ _ _ _ Hs Ho) as Hnr.
  split; try done.
  - apply (sinv_assign_queued no_drafts (set_kv k s) wl sl kl o r r'); try done.
    by apply (sinv_kv_queued no_drafts s wl sl kl o r).
  - apply (booked_other c size s _ v B no_drafts wl sl kl o r); try done; simpl; [set_solver|..].
    + apply (bk_core Hb).
    + intros o' Hne. by rewrite lookup_insert_ne.
    + by rewrite lookup_insert_eq.
    + intros rid Hrid. by apply Hk.
  - intros o' y Ho'. simpl. destruct (decide (o' = o)) as [->|Hne].
    + rewrite lookup_insert_eq. intros [= <-] Hy. rewrite Hid. by apply (Hprev o); auto.
    + rewrite lookup_insert_ne by done. by apply Hprev.
  - intros o' Ho'. unfold rid_of. simpl. rewrite lookup_insert_ne; [by apply Hres|].
    intros <-. apply Hns. unfold scheduled. set_solver.
Qed.

(** The request starts. *)
Lemma waiting_started s0 s q v wl sl kl B which x l r r' k e W p m n nb is_new :
  waiting_ok s0 s q v wl sl kl B -> pick which wl sl = x :: l ->
  objects s !! obj_id x = Some r -> queue_rep (policy c) W l ->
  kept (kv_cache_manager s) k (fun rid => rid <> request_id r) -> room k (request_id r) (m + n) ->
  0 <= m -> 0 < n <= token_budget v -> m + n <= num_tokens r ->
  request_id r' = request_id r -> obj_id r' = obj_id r -> status r' = RUNNING ->
  num_computed_tokens r' = m -> num_tokens r' = num_tokens r -> mm_features r' = mm_features r ->
  (request_ok c size r -> request_ok c size r') ->
  len (running s) < max_num_running_reqs c -> ec_ok (size := size) e ->
  Forall (fun i => exists h, has_input size r i h) (encoder_inputs_to_schedule p) ->
  (is_new = false -> status r = PREEMPTED) ->
  waiting_ok s0
    (Mk (<[obj_id x := r']> (objects s)) (requests s) (running s ++ [obj_id x])
       (if which then W else waiting s) (if which then skipped_waiting s else W)
       (prev_step_scheduled_req_ids s) (finished_req_ids s) (pause_state s) k e) q
    (recorded (request_id r) [] p (add_scheduled_waiting (obj_id x) (request_id r) is_new nb n v))
    (rest_w which l wl) (rest_s which l sl) kl B.
Proof.
  intros [Hs Hq Hb [] Hprev Hres] Hl Hr HW Hk Hroom Hm Hn Hmn Hid Hobj Hst Hcomp Hnum Hmm Hok Hlim He Henc Hnew.
  assert (ids (wl ++ sl ++ kl) ≡ₚ obj_id x :: ids (rest_w which l wl ++ rest_s which l sl ++ kl)) as Hp
    by (by rewrite (rest_perm _ _ _ _ _ _ Hl)).
  assert (obj_id x ∈ ids (wl ++ sl ++ kl)) as Ho by (rewrite Hp; left).
  pose proof (not_scheduled _ _ _ _ _ _ _ _ Hs Hb Ho) as Hns.
  destruct (known_object Hs (o := obj_id x)) as (r0 & Hr0 & _ & _ & Hok0); [set_solver|]. simplify_eq.
  set (s' := Mk _ _ _ _ _ _ _ _ _ _).
  set (w := add_scheduled_waiting _ _ _ _ _ _).
  destruct (recorded_fields (request_id r) [] p w) as (E1 & E2 & E3 & E4 & E5 & _ & E7 & E8 & E9 & E10).
  assert (booked s' v B) as Hb'.
  { apply (booked_other c size s s' v B no_drafts wl sl kl (obj_id x) r); try done; simpl; [set_solver|..].
    - intros y Hy. apply elem_of_app. left. by apply (bk_core Hb).
    - intros o' Hne. by rewrite lookup_insert_ne.
    - by rewrite lookup_insert_eq.
    - intros rid Hrid. by apply Hk. }
  pose proof (rk_tokens Hok0) as Htok'.
  split; try done.
  - apply (sinv_started s wl sl kl _ _ (obj_id x) r r'); try done.
    + destruct which; [done|apply Hs].
    + destruct which; [apply Hs|done].
    + eapply kvc_room_le; [exact Hroom|lia].
    + lia.
    + by apply Hok.
  - apply (booked_add c size s' v _ B (obj_id x) r' (request_id r) n nb [] (encoder_inputs_to_schedule p)); try done.
    + simpl. set_solver.
    + eapply (unscheduled_key c size no_drafts s wl sl kl); try done. set_solver.
    + apply lookup_insert_eq.
    + assert (len (@nil Z) = 0) as Hz by done. split; rewrite ?Hid; [lia|done|lia|lia|lia|].
      eapply Forall_impl; [exact Henc|].
      intros i [h Hi]. exists h. by apply (has_input_same size r).
    + lia.
    + unfold scheduled. rewrite E1, E2, E3. simpl. destruct is_new; solve_Permutation.
  - intros o y Ho' Hy. simpl in *. rewrite lookup_insert_ne in Hy.
    + apply (Hprev o); [|done]. rewrite Hp. by right.
    + intros <-. pose proof (i_distinct Hs) as Hnd. apply NoDup_app in Hnd as (_ & _ & Hnd).
      rewrite Hp in Hnd. by apply NoDup_cons in Hnd as [? _].
  - rewrite E3. simpl. intros o [Ho'|Ho']%elem_of_app.
    + unfold rid_of. simpl. rewrite lookup_insert_ne; [by apply Hres|].
      intros <-. apply Hns. unfold scheduled. set_solver.
    + destruct is_new; [by apply not_elem_of_nil in Ho'|].
      apply list_elem_of_singleton in Ho' as ->.
      rewrite (rid_of_eq s' (obj_id x) r') by apply lookup_insert_eq. rewrite Hid.
      apply (Hprev (obj_id x)); auto.
Qed.

Definition attempted s0 q which l wl sl kl B (a : attempt) s v : Prop :=
  match a with
  | Stop => waiting_ok s0 s q v wl sl kl B
  | Scheduled_ v' => waiting_ok s0 s q v' (rest_w which l wl) (rest_s which l sl) kl B
                     /\ preempted_reqs v' = preempted_reqs v
  end.

Lemma free_and_stop s0 s q v wl sl kl B which l r :
  waiting_ok s0 s q v wl sl kl B -> request_ok c size r ->
  succeeds ((if has_encoder_inputs r then on_enc (ec_free r) else ret tt) ;;; ret Stop) s
    (fun a s' => attempted s0 q which l wl sl kl B a s' v).
Proof.
  intros Hw Hok. sstep. destruct (has_encoder_inputs r); [|by repeat sstep].
  apply on_enc_spec. eapply succeeds_mono;
    [apply ec_free_spec; [apply (i_enc (wo_inv _ _ _ _ _ _ _ _ Hw))|apply Hok]|].
  intros _ e (He & _). sstep. by apply waiting_enc.
Qed.

Lemma try_allocate_spec s0 s q v wl sl kl B which x l r m blocks n N p :
  config_ok c size -> waiting_ok s0 s q v wl sl kl B -> pick which wl sl = x :: l ->
  objects s !! obj_id x = Some r -> status r = WAITING \/ status r = PREEMPTED ->
  len (running s) < max_num_running_reqs c -> legal (kv_cache_manager s) (request_id r) blocks m ->
  0 <= m -> 0 < n <= token_budget v -> m + n <= num_tokens r ->
  encodes c size (encoder_cache_manager s) r N p ->
  succeeds (try_allocate c which (obj_id x) m blocks m n p v) s
    (fun a s' => attempted s0 q which l wl sl kl B a s' v).
Proof.
  intros Hc Hw Hl Hr Hst Hlim Hleg Hm Hn Hmn Henc.
  pose proof (wo_inv _ _ _ _ _ _ _ _ Hw) as Hs.
  assert (obj_id x ∈ ids (wl ++ sl ++ kl)) as Ho by (rewrite (rest_perm _ _ _ _ _ _ Hl); left).
  destruct (known_object Hs (o := obj_id x)) as (r0 & Hr0 & _ & _ & Hok); [set_solver|]. simplify_eq.
  assert (num_computed_tokens r = 0) as Hcomp.
  { apply list_elem_of_fmap in Ho as (x' & Heq & Hx'). by apply (i_queued Hs Hx'); rewrite <- Heq. }
  pose proof (queued_clear _ _ _ _ _ _ _ Hs Ho Hr) as Hclear. pose proof (rk_tokens Hok) as Htok'.
  unfold try_allocate. sstep. eapply deref_spec; [exact Hr|]. rewrite Hcomp. sstep.
  eapply succeeds_mono with (Q := fun _ s' => s' = s).
  { destruct (_ && _)%bool; [|by sstep].
    eapply succeeds_mono; [apply (succeeds_mmapM_read _ (fun _ _ => True))|by intros ? ? [-> _]].
    intros i Hi. pose proof (encodes_inputs c size _ _ _ _ Henc) as Hins. rewrite Forall_forall in Hins.
    destruct (Hins i Hi) as (h & _ & Hg & _). by eapply succeeds_of_result. }
  intros embeds s' ->. sstep.
  eapply succeeds_mono with (Q := fun _ s' => exists k, s' = set_kv k s
    /\ kept (kv_cache_manager s) k (fun _ => True) /\ legal k (request_id r) blocks m).
  { destruct (scheduler_reserve_full_isl c).
    - apply on_kv_spec. eapply succeeds_mono; [by apply (kvc_can_fit_spec (max_len := max_model_len c)); [apply Hs|..]|].
      intros _ k [Hk Hlegk]. by exists k.
    - sstep. exists (kv_cache_manager s). split; [by destruct s|]. split; [|done].
      split; [apply Hs|]. auto. }
  intros fits s1 (k1 & -> & Hk1 & Hleg1).
  pose proof (waiting_kv _ _ _ _ _ _ _ _ _ Hw Hk1) as Hw1.
  pose proof (wo_inv _ _ _ _ _ _ _ _ Hw1) as Hs1.
  destruct fits; simpl; [|by apply free_and_stop].
  sstep. apply on_kv_spec. eapply succeeds_mono.
  { apply (kvc_allocate_waiting_spec (max_len := max_model_len c)); try done;
      [apply Hs1|apply Hok|lia|lia|]. by eapply (queued_clear no_drafts _ wl sl kl (obj_id x)). }
  intros [ab r1] k2 (Hk2 & Hm1 & Hab). simpl in Hm1, Hab. destruct (Hm1) as [[memo Er1] _].
  sstep. eapply assign_spec; [exact Hr|]. destruct ab as [nb|]; cbn [fst snd].
  - set (S0 := set_objects _ _).
    sstep. eapply pop_queue_spec; [by eapply (picked_rep no_drafts s)|]. intros W HW.
    sstep. sstep. sstep. eapply (deref_spec _ r1); [destruct which; apply lookup_insert_eq|].
    sstep. assert (status r1 = status r /\ request_id r1 = request_id r) as [Est Eid] by (by rewrite Er1).
    apply succeeds_mono with (Q := fun is_new s' =>
      s' = set_running (running s ++ [obj_id x]) (set_queue which W S0)
      /\ (is_new = false -> status r = PREEMPTED)).
    { rewrite Est. destruct Hst as [-> | ->]; by destruct which. }
    intros is_new s2 [-> Hnew]. sstep. apply on_kv_spec. rewrite Eid.
    eapply succeeds_mono; [apply (kvc_get_blocks_spec (max_len := max_model_len c));
      destruct which; apply Hk2|].
    intros req_blocks k3 Hk3. sstep.
    eapply (assign_spec _ r1); [destruct which; apply lookup_insert_eq|].
    set (r2 := set_num_computed_tokens m (set_status RUNNING r1)).
    sstep. eapply succeeds_mono; [eapply (schedule_encoder_spec c size (obj_id x) r2 N p)|].
    { done. }
    { simpl. apply lookup_insert_eq. }
    { destruct which; apply Hs. }
    { eapply (encodes_mono c size _ _ r); [exact Henc| |by subst r2 r1].
      destruct which; apply (enc_mono_refl size), Hs. }
    intros v2 s3 (e & -> & He & ->). sstep. split; [|by destruct (encoder_inputs_to_schedule p) eqn:E;
      unfold with_inputs; rewrite E].
    set (s' := set_enc _ _).
    assert (s' = Mk (<[obj_id x := r2]> (objects s)) (requests s) (running s ++ [obj_id x])
       (if which then W else waiting s) (if which then skipped_waiting s else W)
       (prev_step_scheduled_req_ids s) (finished_req_ids s) (pause_state s) k3 e) as ->.
    { unfold s', S0. destruct which; unfold set_objects, set_enc, set_kv, set_running; simpl;
        by rewrite insert_insert_eq. }
    assert (request_id r2 = request_id r) as -> by (by subst r2 r1).
    apply (waiting_started s0 s q v wl sl kl B which x l r r2 k3 e W p m n req_blocks is_new);
      try done; try (by subst r2 r1).
    + apply (cache_kept_trans _ k1 _ (fun _ => True) (fun rid => rid <> request_id r)); [done| |done].
      apply (cache_kept_trans _ k2 _ (fun rid => rid <> request_id r) (fun _ => True)); [done| |done].
      destruct which; exact Hk3.
    + destruct Hk3 as [_ Hk3]. apply Hk3; [done|]. destruct which; exact Hab.
    + intros Hok1. apply progress_keep_ok, progress_keep_ok.
      by apply (request_ok_memo c size r).
    + by eapply (encodes_inputs c size).
  - apply free_and_stop; [|done].
    apply (waiting_change s0 (set_kv k1 s) q v wl sl kl B (obj_id x) r k2 r1); try done; try (by rewrite Er1).
    + rewrite Er1. destruct Hst; [by left|right; by left].
    + intros Hok'. by eapply request_ok_memo.
Qed.

(** The first request of a queue, once it may run. *)
Lemma start_request_spec s0 s q v wl sl kl B which x l r :
  config_ok c size -> waiting_ok s0 s q v wl sl kl B -> pick which wl sl = x :: l ->
  objects s !! obj_id x = Some r -> status r = WAITING \/ status r = PREEMPTED ->
  len (running s) < max_num_running_reqs c -> 0 < token_budget v ->
  succeeds (try_schedule c which (obj_id x) v) s
    (fun a s' => attempted s0 q which l wl sl kl B a s' v).
Proof.
  intros Hc Hw Hl Hr Hst Hlim Hbud.
  pose proof (wo_inv _ _ _ _ _ _ _ _ Hw) as Hs.
  assert (obj_id x ∈ ids (wl ++ sl ++ kl)) as Ho by (rewrite (rest_perm _ _ _ _ _ _ Hl); left).
  destruct (known_object Hs (o := obj_id x)) as (r0 & Hr0 & _ & _ & Hok); [set_solver|]. simplify_eq.
  assert (num_computed_tokens r = 0) as Hcomp.
  { apply list_elem_of_fmap in Ho as (x' & Heq & Hx'). by apply (i_queued Hs Hx'); rewrite <- Heq. }
  pose proof (queued_clear _ _ _ _ _ _ _ Hs Ho Hr) as Hclear. pose proof (rk_tokens Hok) as Htok'.
  unfold try_schedule. sstep. eapply deref_spec; [exact Hr|]. unfold get_computed. rewrite Hcomp. simpl.
  sstep. sstep. apply on_kv_spec. eapply succeeds_mono;
    [apply (kvc_get_computed_spec (max_len := max_model_len c)); [apply Hs|apply Hok|done|lia]|].
  intros [blocks m] k (Hk & Hm & Hleg). simpl in Hm, Hleg. sstep.
  apply succeeds_assert; [simpl; lia|]. sstep. cbn [fst snd].
  pose proof (waiting_kv _ _ _ _ _ _ _ _ _ Hw Hk) as Hw1.
  destruct (_ && _)%bool; [by sstep|].
  pose proof (cut_bounds c (num_tokens r - m)) as Hcut. fold (waiting_tokens c r m) in Hcut.
  sstep. apply succeeds_assert; [lia|].
  sstep. eapply succeeds_mono; [apply (plan_spec c size); try done; [lia|apply Hs]|].
  intros p s1 (e & -> & He & Henc). pose proof (waiting_enc _ _ _ _ _ _ _ _ _ Hw1 He) as Hw2.
  destruct (EncoderSched.num_new_tokens p =? 0); [by sstep|].
  pose proof (aligned_bounds c size r (EncoderSched.num_new_tokens p) m Hc) as Hal.
  destruct (Z.eqb_spec (aligned_split c r (EncoderSched.num_new_tokens p) m) 0); [by sstep|].
  assert (0 <= EncoderSched.num_new_tokens p <= Z.min (waiting_tokens c r m) (token_budget v)) as Hp
    by (by destruct Henc).
  apply (try_allocate_spec s0 (set_enc e (set_kv k s)) q v wl sl kl B which x l r m blocks _
    (Z.min (waiting_tokens c r m) (token_budget v)) p); try done; lia.
Qed.

Lemma promote_spec s0 s q v wl sl kl B o r g :
  waiting_ok s0 s q v wl sl kl B -> o ∈ ids (wl ++ sl ++ kl) -> objects s !! o = Some r ->
  _is_blocked_waiting_status (status r) = true ->
  succeeds (_try_promote_blocked_waiting_request g o) s (fun b s' =>
    waiting_ok s0 s' q v wl sl kl B /\ running s' = running s
    /\ exists r', objects s' !! o = Some r' /\ (b = true -> status r' = WAITING)).
Proof.
  intros Hw Ho Hr Hblocked. pose proof (wo_inv _ _ _ _ _ _ _ _ Hw) as Hs.
  pose proof Ho as (x & Heq & Hx)%list_elem_of_fmap.
  assert (waiting_status (status r) /\ num_computed_tokens r = 0) as [Hst Hcomp]
    by (apply (i_queued Hs Hx); by rewrite <- Heq).
  assert (status r = WAITING_FOR_STRUCTURED_OUTPUT_GRAMMAR) as Est
    by (destruct Hst as [E|[E|E]]; rewrite E in *; done).
  unfold _try_promote_blocked_waiting_request. sstep. eapply deref_spec; [exact Hr|]. rewrite Est.
  destruct (negb _); [sstep; split_and!; [done..|]; by exists r|].
  sstep. eapply assign_spec; [exact Hr|]. sstep.
  split; [|split; [done|]; eexists; split; [apply lookup_insert_eq|done]].
  assert (set_kv (kv_cache_manager s) s = s) as Heq' by (by destruct s).
  rewrite <- Heq'. simpl.
  apply (waiting_change s0 s q v wl sl kl B o r); try done.
  - split; [apply Hs|]. auto.
  - by eapply queued_clear.
  - by left.
  - by apply progress_keep_ok.
Qed.

Lemma waiting_loop_spec s0 g fuel loras q v s wl sl kl B :
  config_ok c size -> waiting_ok s0 s q v wl sl kl B ->
  (length wl + length sl <= fuel)%nat ->
  succeeds (waiting_loop c g fuel loras q v) s (fun a s' => exists wl' sl' kl',
    waiting_ok s0 s' a.1 a.2 wl' sl' kl' B /\ preempted_reqs a.2 = preempted_reqs v).
Proof.
  intros Hc. revert loras q v s wl sl kl.
  induction fuel as [|fuel IH]; intros loras q v s wl sl kl Hw Hfuel; simpl; sstep; apply succeeds_get;
    pose proof (wo_inv _ _ _ _ _ _ _ _ Hw) as Hs;
    rewrite (nonempty_rep _ _ (i_waiting Hs)), (nonempty_rep _ _ (i_skipped Hs)).
  { destruct wl, sl; simpl in Hfuel; try lia. simpl. sstep. by exists [], [], kl. }
  assert (succeeds (ret (q, v)) s (fun a s' => exists wl' sl' kl',
    waiting_ok s0 s' a.1 a.2 wl' sl' kl' B /\ preempted_reqs a.2 = preempted_reqs v)) as Hdone
    by (sstep; by exists wl, sl, kl).
  destruct (decide (wl ++ sl = [])) as [[-> ->]%app_eq_nil|Hne]; [exact Hdone|].
  assert ((negb (bool_decide (wl = [])) || negb (bool_decide (sl = [])))%bool = true) as ->
    by (by destruct wl, sl).
  destruct (Z.ltb_spec 0 (token_budget v)) as [Hbud|]; [simpl|exact Hdone].
  destruct (Z.eqb_spec (len (running s)) (max_num_running_reqs c)) as [|Hlim]; [exact Hdone|].
  pose proof (i_limit Hs) as Hlim'.
  sstep. eapply succeeds_mono; [by eapply select_spec|].
  intros w s1 (-> & which & x & l & -> & Hl). sstep. eapply succeeds_of_option; [done|].
  sstep. apply on_queue_spec. eapply succeeds_mono;
    [by eapply (peek_request_spec (policy c)), picked_rep|].
  intros x' W [-> ->]. assert (set_queue which (pick which (waiting s) (skipped_waiting s)) s = s) as ->
    by (by destruct which, s).
  assert (obj_id x ∈ ids (wl ++ sl ++ kl)) as Ho by (rewrite (rest_perm _ _ _ _ _ _ Hl); left).
  destruct (known_object Hs (o := obj_id x)) as (r & Hr & _ & _ & Hok); [set_solver|].
  sstep. eapply deref_spec; [exact Hr|]. sstep.
  apply succeeds_mono with (Q := fun b s' => waiting_ok s0 s' q v wl sl kl B
    /\ running s' = running s /\ exists r', objects s' !! obj_id x = Some r'
    /\ (b = false -> status r' = WAITING \/ status r' = PREEMPTED)).
  { destruct (_is_blocked_waiting_status (status r)) eqn:Hb.
    - sstep. eapply succeeds_mono; [by eapply promote_spec|]. intros b s' (Hw' & Hrun & r' & Hr' & Hst).
      sstep. split_and!; [done..|]. exists r'. split; [done|]. intros Hneg.
      left. apply Hst. by destruct b.
    - sstep. split_and!; [done..|]. exists r. split; [done|]. intros _.
      apply list_elem_of_fmap in Ho as (x' & Heq & Hx'). rewrite Heq in Hr.
      destruct (i_queued Hs Hx' Hr) as [[E|[E|E]] _]; rewrite E in *; by auto. }
  intros blocked s1 (Hw1 & Hrun1 & r1 & Hr1 & Hst1).
  assert (exceeds_loras c loras r = false) as ->.
  { unfold exceeds_loras. by rewrite (ck_loras Hc). }
  pose proof (rest_length _ _ _ _ _ Hl) as Hlen.
  destruct blocked; simpl.
  - sstep. eapply succeeds_mono; [by eapply skip_spec|]. intros q' s2 (kl' & Hw2 & _).
    apply (IH loras q' v s2 (rest_w which l wl) (rest_s which l sl) kl'); [done|lia].
  - sstep. eapply succeeds_mono.
    { eapply (start_request_spec s0 s1 q v wl sl kl B which x l r1); try done; [by apply Hst1|].
      rewrite Hrun1. lia. }
    intros [|v'] s2 Hatt; simpl in Hatt.
    + sstep. by exists wl, sl, kl.
    + destruct Hatt as [Hw2 Hpre]. rewrite (ck_loras Hc).
      eapply succeeds_mono; [apply (IH loras q v' s2 (rest_w which l wl) (rest_s which l sl) kl); [done|lia]|].
      intros a s3 (wl' & sl' & kl' & Hw3 & Hpre3). exists wl', sl', kl'. split; [done|congruence].
Qed.

(** ** The whole phase *)

Lemma schedule_waiting_spec s0 s v wl sl B g loras :
  config_ok c size -> stepping c size s0 s v wl sl B ->
  succeeds (schedule_waiting c g loras v) s (fun v' s' => exists wl' sl',
    sinv no_drafts s' wl' sl' [] /\ booked s' v' B /\ same_step s0 s'
    /\ (forall o, o ∈ scheduled_resumed_reqs v' -> rid_of s' o ∉ prev_step_scheduled_req_ids s')).
Proof.
  intros Hc [Hs Hb Hnew Hres Hsame Hprev]. unfold schedule_waiting. sstep. apply succeeds_get.
  assert (succeeds (ret v) s (fun v' s' => exists wl' sl',
    sinv no_drafts s' wl' sl' [] /\ booked s' v' B /\ same_step s0 s'
    /\ (forall o, o ∈ scheduled_resumed_reqs v' -> rid_of s' o ∉ prev_step_scheduled_req_ids s'))) as Hdone.
  { sstep. exists wl, sl. split_and!; try done. rewrite Hres. intros o Ho. by apply not_elem_of_nil in Ho. }
  destruct (preempted_reqs v) as [|o0 pre] eqn:Hpre; [|exact Hdone].
  destruct (pause_state s); [|exact Hdone..].
  sstep. eapply succeeds_mono.
  { apply (waiting_loop_spec s0 g _ loras _ v s wl sl [] B Hc).
    - split; try done; [apply create_rep|rewrite app_nil_r; by apply Hprev|].
      rewrite Hres. intros o Ho. by apply not_elem_of_nil in Ho.
    - rewrite (queue_len_rep _ _ _ (i_waiting Hs)), (queue_len_rep _ _ _ (i_skipped Hs)).
      unfold len. lia. }
  intros [q v'] s1 (wl' & sl' & kl' & [Hs1 Hq1 Hb1 Hsame1 Hprev1 Hres1] & _). simpl in *.
  sstep. rewrite (nonempty_rep _ _ Hq1). destruct kl' as [|x kl']; simpl.
  { sstep. sstep. by exists wl', sl'. }
  apply succeeds_zoom. pose proof (i_distinct Hs1) as Hnd. apply NoDup_app in Hnd as (_ & _ & Hnd).
  eapply succeeds_mono; [apply (prepend_requests_spec (policy c) _ sl' _ (x :: kl')); [apply Hs1|done|]|].
  { rewrite fmap_app in Hnd. apply NoDup_app in Hnd as (_ & _ & Hnd).
    by rewrite fmap_app, Permutation_app_comm, <- fmap_app. }
  intros _ S (sl2 & Hp & HS). sstep. exists wl', sl2.
  split.
  { assert (set_skipped S s1 = set_skipped S (set_waiting (waiting s1) s1)) as -> by (by destruct s1).
    eapply sinv_queues; [exact Hs1|apply Hs1|done|].
    by rewrite app_nil_r, Hp, !fmap_app, (Permutation_app_comm (ids (x :: kl'))). }
  split; [by eapply booked_frame; [exact Hb1|apply (bk_core Hb1)|..]|].
  split; [by destruct Hsame1|done].
Qed.
End waiting.
