(* ===== verification/SchedStep.v ===== *)
(** * A whole scheduling step

    [schedule] never raises, keeps the invariant, and hands the model runner work it
    can do: within the token budget and the running limit, with slots for every
    token and no position beyond the model's limit. *)

From stdpp Require Import sorting.
From S2P Require Import Prelude Request BlockHash KVManager EncoderCache EncoderSched RequestQueue.
From S2P Require Import SchedUtils KVCache Scheduler SchedInv SchedBooks SchedPlan SchedRunning.
From S2P Require Import SchedWaiting.
From stdpp Require Import options.
Import Scheduler.

#[local] Set Default Proof Using "Type*".

(** ** Loops *)
Section loops.
Context {S A B : Type}.

Lemma succeeds_mmapM (f : A -> M S B) (I : list A -> S -> Prop) l s :
  I [] s ->
  (forall pre x todo s, l = pre ++ x :: todo -> I pre s ->
     succeeds (f x) s (fun _ s' => I (pre ++ [x]) s')) ->
  succeeds (mmapM f l) s (fun _ s' => I l s').
Proof.
  intros HI Hf. cut (forall todo pre s, l = pre ++ todo -> I pre s ->
    succeeds (mmapM f todo) s (fun _ s' => I l s')); [intros Hcut; by apply (Hcut l [])|].
  induction todo as [|x todo IH]; intros pre s1 Hl Hpre; simpl.
  - sstep. by rewrite Hl, app_nil_r.
  - sstep. eapply succeeds_mono; [by eapply Hf|]. intros y s2 H2.
    sstep. eapply succeeds_mono; [apply (IH (pre ++ [x])); [by rewrite <- app_assoc|done]|].
    intros ys s3 H3. by sstep.
Qed.

Lemma succeeds_mfold (f : B -> A -> M S B) (I : list A -> B -> S -> Prop) l b s :
  I [] b s ->
  (forall pre x todo b s, l = pre ++ x :: todo -> I pre b s ->
     succeeds (f b x) s (fun b' s' => I (pre ++ [x]) b' s')) ->
  succeeds (mfold f l b) s (fun b' s' => I l b' s').
Proof.
  intros HI Hf. cut (forall todo pre b s, l = pre ++ todo -> I pre b s ->
    succeeds (mfold f todo b) s (fun b' s' => I l b' s')); [intros Hcut; by apply (Hcut l [])|].
  induction todo as [|x todo IH]; intros pre b1 s1 Hl Hpre; simpl.
  - sstep. by rewrite Hl, app_nil_r.
  - sstep. eapply succeeds_mono; [by eapply Hf|]. intros b2 s2 H2.
    apply (IH (pre ++ [x])); [by rewrite <- app_assoc|done].
Qed.
End loops.

Section step.
Context {KV EC : Type} `{Hkv : KVCache KV} `{Htok : Tokens} `{Hec : EncoderCache EC} `{SetIter}.
Context (c : Config) (size : mm_key -> Z).
Context `{!KVCacheLaws KV (max_model_len c)} `{!EncoderCacheLaws EC size}.
Implicit Types (s : @t KV EC) (v : @locals) (wl sl kl : list Request) (r : Request) (o n B : Z).

Abbreviation room := (kvc_room (S := KV) (max_len := max_model_len c)).
Abbreviation sinv := (sinv c size).
Abbreviation booked := (booked c size).
Abbreviation no_drafts := (fun _ : string => 0).
Abbreviation ids l := (obj_id <$> l).

(** ** The data of the output *)

Definition resumed_ok s v : Prop := forall o,
  o ∈ scheduled_resumed_reqs v -> rid_of s o ∉ prev_step_scheduled_req_ids s.

Lemma new_request_spec s v B o :
  booked s v B -> o ∈ scheduled v ->
  succeeds (new_request_data c v o) s (fun d s' => s' = s /\ nr_req_id d = rid_of s o).
Proof using Type.
  intros Hb Ho. destruct (booked_get c size s v B o Hb Ho) as (r & n & b & Hr & Hn & Hbl & _).
  unfold new_request_data, blocks_of_request. sstep. eapply deref_spec; [exact Hr|].
  sstep. sstep. sstep. apply succeeds_get. sstep. split; [done|]. simpl.
  by rewrite (rid_of_eq s o r).
Qed.

Lemma cached_request_spec s v B x d :
  booked s v B -> x.1 ∈ scheduled v ->
  (x.2 = true -> rid_of s x.1 ∉ prev_step_scheduled_req_ids s) ->
  succeeds (cached_request_data c v x d) s (fun d' s' => s' = s
    /\ cr_req_ids d' = cr_req_ids d ++ [rid_of s x.1]).
Proof using Type.
  intros Hb Ho Hres. destruct x as [o resumed]. simpl in *.
  destruct (booked_get c size s v B o Hb Ho) as (r & n & b & Hr & Hn & Hbl & _).
  rewrite (rid_of_eq s o r Hr) in *.
  unfold cached_request_data, blocks_of_request. sstep. eapply deref_spec; [exact Hr|].
  sstep. sstep. sstep. apply succeeds_get. sstep.
  eapply succeeds_mono with (Q := fun _ s' => s' = s).
  { cbn [snd]. destruct resumed; [|by sstep]. apply succeeds_assert; [|done].
    rewrite bool_decide_eq_false_2; [done|]. by apply Hres. }
  intros _ s' ->. sstep. sstep. sstep. done.
Qed.

Lemma cached_requests_spec s v B running_reqs resumed_reqs :
  booked s v B -> running_reqs ⊆ scheduled v -> resumed_reqs ⊆ scheduled v ->
  (forall o, o ∈ resumed_reqs -> rid_of s o ∉ prev_step_scheduled_req_ids s) ->
  succeeds (_make_cached_request_data c running_reqs resumed_reqs v) s (fun d s' => s' = s
    /\ cr_req_ids d = rid_of s <$> running_reqs ++ resumed_reqs).
Proof using Type.
  intros Hb Hrun Hres Hprev. unfold _make_cached_request_data.
  eapply succeeds_mono; [apply (succeeds_mfold _ (fun pre d s' => s' = s
    /\ cr_req_ids d = (fun x => rid_of s x.1) <$> pre)); [done|]|].
  - intros pre x todo d s1 Hl [-> Hd].
    assert (x ∈ ((fun o => (o, false)) <$> running_reqs) ++ ((fun o => (o, true)) <$> resumed_reqs)) as Hx
      by (rewrite Hl; set_solver).
    eapply succeeds_mono; [apply (cached_request_spec s v B x d Hb)|].
    + apply elem_of_app in Hx as [(o & -> & Ho)%list_elem_of_fmap|(o & -> & Ho)%list_elem_of_fmap]; simpl; auto.
    + apply elem_of_app in Hx as [(o & -> & Ho)%list_elem_of_fmap|(o & -> & Ho)%list_elem_of_fmap]; simpl;
        [done|]. intros _. by apply Hprev.
    + intros d' s2 [-> Hd']. split; [done|]. by rewrite Hd', Hd, fmap_app.
  - intros d s1 [-> Hd]. split; [done|]. rewrite Hd, !fmap_app, <- !list_fmap_compose. done.
Qed.

(** ** The requests move forward *)

Definition set_drafts (D : string -> Z) (rid : string) (d : Z) : string -> Z :=
  fun rid' => if decide (rid' = rid) then d else D rid'.

Lemma sinv_ext D D' s wl sl kl :
  (forall rid, D rid = D' rid) -> sinv D s wl sl kl -> sinv D' s wl sl kl.
Proof.
  intros HD []. split; try done. intros o r Ho Hr. rewrite <- HD. by apply (i_running o).
Qed.

(** A running request gets new counters. *)
Lemma sinv_assign_running D s wl sl kl o r r' d :
  sinv D s wl sl kl -> o ∈ running s -> objects s !! o = Some r ->
  request_id r' = request_id r -> obj_id r' = obj_id r -> status r' = RUNNING ->
  room (kv_cache_manager s) (request_id r) (num_computed_tokens r') ->
  0 <= num_computed_tokens r' <= num_tokens r' + d ->
  (0 < d -> num_computed_tokens r' = num_tokens r' + d /\ pooling_params r' = None) ->
  (request_ok c size r -> request_ok c size r') ->
  sinv (set_drafts D (request_id r) d) (set_objects (<[o := r']> (objects s)) s) wl sl kl.
Proof.
  intros Hs Ho Hr Hid Hobj Hst Hroom Hcomp Hd Hok.
  assert (forall o' x, o' ∈ running s -> objects s !! o' = Some x -> o' <> o ->
    request_id x <> request_id r) as Hne.
  { intros o' x Ho' Hx Hno Heq. apply Hno. eapply (ids_inj c size D s wl sl kl); try done; set_solver. }
  assert (forall q, q ∈ wl ++ sl ++ kl -> obj_id q <> o) as Hq.
  { intros q Hq <-. pose proof (i_distinct Hs) as (_ & Hd' & _)%NoDup_app.
    apply (Hd' _ Ho). by apply list_elem_of_fmap_2. }
  destruct Hs. split; try done; simpl.
  - intros rid o' Hin. destruct (i_objects _ _ Hin) as (x & Hx & ? & ? & ?).
    destruct (decide (o' = o)) as [->|Hno].
    + rewrite lookup_insert_eq. simplify_eq. exists r'. split_and!; [done|congruence..|by auto].
    + rewrite lookup_insert_ne by done. by exists x.
  - intros o' x Ho' Hx. unfold set_drafts. destruct (decide (o' = o)) as [->|Hno].
    + rewrite lookup_insert_eq in Hx. injection Hx as <-. rewrite Hid, decide_True by done. by split.
    + rewrite lookup_insert_ne in Hx by done. rewrite decide_False by (by eapply Hne).
      by apply (i_running o').
  - intros q x Hin. rewrite lookup_insert_ne by (symmetry; by apply Hq). by apply i_queued.
  - intros rid Hrid. apply i_clear. intros o' y Ho' Hy.
    destruct (decide (o' = o)) as [->|Hno].
    + simplify_eq. rewrite <- Hid. apply (Hrid o); [done|]. by rewrite lookup_insert_eq.
    + apply (Hrid o'); [done|]. by rewrite lookup_insert_ne.
Qed.

Definition advanced n r : Request :=
  set_is_prefill_chunk (num_computed_tokens r + n <? num_tokens r + num_output_placeholders r)
    (set_num_computed_tokens (num_computed_tokens r + n) r).

Lemma request_ref_spec rid o s (Q : Z -> @t KV EC -> Prop) :
  dict_get rid (requests s) = Some o -> Q o s -> succeeds (request_ref rid) s Q.
Proof using Type.
  intros Hd HQ. unfold request_ref. sstep. apply succeeds_get. by eapply succeeds_of_option.
Qed.

Lemma advance_run s o r rid n :
  dict_get rid (requests s) = Some o -> objects s !! o = Some r ->
  succeeds (advance (rid, n)) s (fun _ s' =>
    s' = set_objects (<[o := advanced n r]> (objects s)) s).
Proof using Type.
  intros Hd Hr. unfold advance. sstep. eapply request_ref_spec; [exact Hd|]. sstep.
  eapply assign_spec; [exact Hr|]. sstep. eapply assign_spec; [apply lookup_insert_eq|].
  sstep. eapply deref_spec; [apply lookup_insert_eq|]. sstep.
  unfold set_objects. simpl. by rewrite insert_insert_eq.
Qed.

(** The objects a key of the books stands for. *)
Lemma booked_object D s v B wl sl kl rid n :
  sinv D s wl sl kl -> booked s v B -> (rid, n) ∈ num_scheduled_tokens v ->
  exists o r, o ∈ scheduled v /\ o ∈ running s /\ objects s !! o = Some r /\ request_id r = rid
    /\ dict_get rid (requests s) = Some o
    /\ entry_ok c size s r n (lookup_list rid (scheduled_spec_decode_tokens v))
         (lookup_list rid (scheduled_encoder_inputs v)).
Proof.
  intros Hs Hb Hin. pose proof (bk_core Hb) as [Hrun Hkeys Hnd _ _ _ _ _ Hentries].
  assert (rid ∈ (num_scheduled_tokens v).*1) as Hk by (by apply (list_elem_of_fmap_2 fst) in Hin).
  rewrite Hkeys in Hk. apply list_elem_of_fmap in Hk as (o & -> & Ho).
  destruct (Hentries o n Ho (dict_get_NoDup _ _ _ Hnd Hin)) as (r & Hr & He).
  destruct (known_object Hs (o := o)) as (r' & Hr' & _ & Hreq & _); [set_solver|]. simplify_eq.
  exists o, r. rewrite (rid_of_eq s o r Hr) in *. split_and!; try done; [by apply Hrun|].
  by apply dict_get_NoDup; [apply (i_ids Hs)|].
Qed.

Definition drafts_of (spec : list (string * list Z)) (rid : string) : Z := len (lookup_list rid spec).

Record advancing s v wl sl (pre : list (string * Z)) s' : Prop := {
  ad_objects : s' = set_objects (objects s') s;
  ad_inv : sinv (fun rid => if decide (rid ∈ pre.*1)
                            then drafts_of (scheduled_spec_decode_tokens v) rid else 0) s' wl sl [];
  ad_todo : forall o, rid_of s o ∉ pre.*1 -> objects s' !! o = objects s !! o;
  ad_done : forall o n r, o ∈ running s -> objects s !! o = Some r -> (request_id r, n) ∈ pre ->
    objects s' !! o = Some (advanced n r);
}.

Lemma advance_all s v B wl sl :
  sinv no_drafts s wl sl [] -> booked s v B ->
  succeeds (mmapM advance (num_scheduled_tokens v)) s (fun _ s' =>
    advancing s v wl sl (num_scheduled_tokens v) s').
Proof.
  intros Hs Hb. pose proof (co_ids _ _ _ _ _ _ _ _ (bk_core Hb)) as Hnd.
  eapply succeeds_mono; [apply (succeeds_mmapM _ (advancing s v wl sl))|done].
  { split; try done; [by destruct s|set_solver]. }
  intros pre [rid n] todo s1 Hl [Hobj Hinv Htodo Hdone].
  destruct (booked_object no_drafts s v B wl sl [] rid n Hs Hb) as (o & r & Ho & Hrun & Hr & Hid & Hd & []);
    [rewrite Hl; set_solver|].
  assert (rid ∉ pre.*1) as Hnew.
  { rewrite Hl, fmap_app, fmap_cons in Hnd. by apply NoDup_app_cons_inv in Hnd as [? _]. }
  assert (objects s1 !! o = Some r) as Hr1 by (rewrite Htodo; [done|by rewrite (rid_of_eq s o r), Hid]).
  eapply succeeds_mono; [apply (advance_run s1 o r); [by rewrite Hobj|done]|].
  intros _ s2 ->. split.
  - rewrite Hobj. done.
  - eapply sinv_ext; [|apply (sinv_assign_running _ s1 wl sl [] o r (advanced n r)
      (drafts_of (scheduled_spec_decode_tokens v) rid) Hinv)]; try done.
    + intros rid'. unfold set_drafts. rewrite Hid, fmap_app.
      destruct (decide (rid' = rid)) as [->|Hne]; simpl.
      * rewrite decide_True; [done|set_solver].
      * destruct (decide (rid' ∈ pre.*1)); [rewrite decide_True by set_solver|rewrite decide_False by set_solver]; done.
    + by rewrite Hobj.
    + simpl. by destruct (i_running Hs Hrun Hr) as [? _].
    + rewrite Hobj. done.
    + destruct (i_running Hs Hrun Hr) as (_ & _ & Hc & _). unfold drafts_of. simpl. unfold num_tokens in *. simpl. lia.
    + intros Hok. by apply progress_keep_ok, progress_keep_ok.
  - intros o' Ho'. simpl. rewrite fmap_app in Ho'. rewrite lookup_insert_ne; [apply Htodo; set_solver|].
    intros <-. apply Ho'. rewrite (rid_of_eq s o r Hr). simpl. set_solver.
  - intros o' n' r' Ho' Hr' Hin. simpl. destruct (decide (o' = o)) as [->|Hne].
    + rewrite lookup_insert_eq. simplify_eq. apply elem_of_app in Hin as [Hin|Hin].
      * exfalso. apply Hnew. by apply (list_elem_of_fmap_2 fst) in Hin.
      * apply list_elem_of_singleton in Hin. by simplify_eq.
    + rewrite lookup_insert_ne by done. apply Hdone; [done..|].
      apply elem_of_app in Hin as [?|Hin]; [done|]. apply list_elem_of_singleton in Hin. simplify_eq.
      exfalso. apply Hne. eapply (ids_inj c size no_drafts s wl sl []); try done; set_solver.
Qed.

(** ** The end of the step *)

(** What the model runner can rely on. *)
Record output_ok s0 s (out : SchedulerOutput) : Prop := {
  out_total : so_total_num_scheduled_tokens out = sum_of (so_num_scheduled_tokens out).*2;
  out_budget : so_total_num_scheduled_tokens out <= max_num_scheduled_tokens c;
  out_ids : NoDup (so_num_scheduled_tokens out).*1;
  out_listed : (nr_req_id <$> so_scheduled_new_reqs out) ++ cr_req_ids (so_scheduled_cached_reqs out)
    ≡ₚ (so_num_scheduled_tokens out).*1;
  out_requests : forall rid n, (rid, n) ∈ so_num_scheduled_tokens out -> exists o r,
    dict_get rid (requests s) = Some o /\ o ∈ running s /\ objects s !! o = Some r
    /\ request_id r = rid /\ 0 < n <= num_computed_tokens r
    /\ num_computed_tokens r <= max_model_len c - 1
    /\ room (kv_cache_manager s) rid (num_computed_tokens r);
  out_drafts : (so_scheduled_spec_decode_tokens out).*1 ⊆ (so_num_scheduled_tokens out).*1;
  out_finished : so_finished_req_ids out = finished_req_ids s0;
  out_flushed : finished_req_ids s = ∅;
  out_known : requests s = requests s0;
  out_pause : pause_state s = pause_state s0;
}.

Lemma sinv_prev D s wl sl kl l : sinv D s wl sl kl -> sinv D (set_prev_step l s) wl sl kl.
Proof. intros []. by split. Qed.

Lemma sinv_finished D s wl sl kl l : sinv D s wl sl kl -> sinv D (set_finished l s) wl sl kl.
Proof. intros []. by split. Qed.

(** The books only read objects, running requests and slots. *)
Lemma booked_same s s' v B :
  booked s v B -> objects s' = objects s -> running s' = running s ->
  (forall rid k, room (kv_cache_manager s) rid k -> room (kv_cache_manager s') rid k) -> booked s' v B.
Proof using Type.
  intros Hb Ho Hr Hk. eapply booked_frame; [exact Hb|rewrite Hr; apply (bk_core Hb)|..].
  - intros o r _ Hor. rewrite Ho. auto.
  - by rewrite Ho.
Qed.

Lemma scheduled_length s v B D wl sl kl :
  sinv D s wl sl kl -> booked s v B ->
  len (scheduled_new_reqs v) + len (scheduled_resumed_reqs v) + len (scheduled_running_reqs v)
  <= len (running s).
Proof.
  intros Hs Hb. pose proof (NoDup_submseteq _ _ (core_nodup (bk_core Hb)) (co_running _ _ _ _ _ _ _ _ (bk_core Hb)))
    as Hsub%submseteq_length. unfold scheduled in Hsub. rewrite !length_app in Hsub. unfold len. lia.
Qed.

Lemma finish_spec s0 s v B wl sl :
  config_ok c size -> sinv no_drafts s wl sl [] -> booked s v B -> B <= max_num_scheduled_tokens c ->
  same_step s0 s -> resumed_ok s v ->
  succeeds (finish_schedule c v) s (fun out s' =>
    sinv (drafts_of (so_scheduled_spec_decode_tokens out)) s' wl sl []
    /\ prev_ok s' (ids (wl ++ sl)) /\ output_ok s0 s' out).
Proof.
  intros Hc Hs Hb HB Hsame Hres. pose proof (scheduled_length _ _ _ _ _ _ _ Hs Hb) as Hlen.
  pose proof (bk_budget Hb) as Hsum. pose proof (bk_left Hb) as Hleft.
  unfold finish_schedule. sstep. apply succeeds_assert; [lia|]. sstep. apply succeeds_assert; [lia|].
  sstep. apply succeeds_get. sstep. apply succeeds_assert; [apply Z.leb_le, Hs|].
  sstep. apply succeeds_assert; [by apply Z.leb_le|]. sstep.
  apply succeeds_mono with (Q := fun _ s' => exists k, s' = set_kv k s
    /\ kvc_kept (max_len := max_model_len c) (kv_cache_manager s) k (fun _ => True)).
  { destruct (running s) as [|o l] eqn:Hrun.
    - sstep. exists (kv_cache_manager s). split; [by destruct s|]. split; [apply Hs|auto].
    - destruct (known_object Hs (o := o)) as (r & Hr & _); [rewrite Hrun; by left|].
      sstep. eapply deref_spec; [exact Hr|]. apply on_kv_spec. eapply succeeds_mono;
        [apply (kvc_common_prefix_spec (max_len := max_model_len c)), Hs|]. intros ? k Hk. by exists k. }
  intros prefix s1 (k1 & -> & Hk1). cbv zeta. sstep.
  pose proof (sinv_kv c size _ _ _ _ _ _ Hs Hk1) as Hs1.
  assert (booked (set_kv k1 s) v B) as Hb1 by (apply (booked_same s); try done; intros; by apply Hk1).
  set (new_reqs := if use_v2_model_runner c then _ else _).
  set (resumed_reqs := if use_v2_model_runner c then [] else _).
  assert (scheduled v ≡ₚ new_reqs ++ scheduled_running_reqs v ++ resumed_reqs) as Hperm
    by (unfold scheduled, new_reqs, resumed_reqs; destruct (use_v2_model_runner c); solve_Permutation).
  eapply succeeds_mono; [apply (succeeds_mmapM_read _ (fun o d => nr_req_id d = rid_of (set_kv k1 s) o))|].
  { intros o Ho. apply (new_request_spec _ v B); [done|]. rewrite Hperm. set_solver. }
  intros new_data s2 [-> Hnew]. sstep.
  eapply succeeds_mono; [apply (cached_requests_spec _ v B _ resumed_reqs Hb1)|].
  { intros o Ho. rewrite Hperm. set_solver. }
  { intros o Ho. rewrite Hperm. set_solver. }
  { intros o Ho. apply (Hres o). unfold resumed_reqs in Ho. destruct (use_v2_model_runner c); [|done].
    by apply not_elem_of_nil in Ho. }
  intros cached s2 [-> Hcached]. sstep. sstep. sstep.
  set (s2 := set_prev_step _ _).
  apply succeeds_mono with (Q := fun _ s' => exists k, s' = set_kv k s2
    /\ kvc_kept (max_len := max_model_len c) k1 k (fun _ => True)).
  { destruct (needs_kv_cache_zeroing c).
    - sstep. apply on_kv_spec. eapply succeeds_mono;
        [apply (kvc_take_new_spec (max_len := max_model_len c)), Hk1|]. intros l k Hk. sstep. by exists k.
    - sstep. exists k1. split; [done|]. split; [apply Hk1|auto]. }
  intros zero s3 (k2 & -> & Hk2). sstep.
  eapply succeeds_mono; [apply (succeeds_mmapM_read _ (fun _ _ => True))|].
  { intros o Ho. destruct (bk_preempted Hb Ho) as [r Hr]. by eapply deref_spec. }
  intros preempted s3 [-> _]. sstep. apply succeeds_get. sstep. apply on_enc_spec.
  eapply succeeds_mono; [apply (ec_freed_spec (size := size)), (i_enc Hs)|].
  intros freed e (He & _). sstep. unfold _update_after_schedule. sstep.
  set (s4 := set_enc e _).
  assert (sinv no_drafts s4 wl sl []) as Hs4.
  { apply sinv_enc; [|done]. apply (sinv_kv c size no_drafts s2 _ _ _ k2); [by apply sinv_prev|done]. }
  assert (booked s4 v B) as Hb4.
  { apply (booked_same (set_kv k1 s)); try done. intros rid k. apply Hk2. done. }
  eapply succeeds_mono; [by eapply (advance_all s4 v B wl sl)|].
  intros flags s5 Had. sstep. sstep. sstep. rewrite (ck_sync Hc). sstep. sstep.
  pose proof (bk_core Hb4) as [_ Hkeys Hnd _ Hspec _ _ _ _]. destruct (Had) as [Hobj Hinv Htodo Hdone].
  simpl. split; [|split].
  - apply sinv_finished. eapply sinv_ext; [|exact Hinv]. intros rid. simpl. case_decide as Hin; [done|].
    unfold drafts_of, lookup_list. destruct (dict_get rid (scheduled_spec_decode_tokens v)) eqn:E; [|done].
    exfalso. apply Hin, Hspec. apply dict_get_elem. by eexists.
  - intros o r Ho Hr Hst.
    assert (prev_step_scheduled_req_ids (set_finished ∅ s5) = list_to_set (num_scheduled_tokens v).*1)
      as -> by (rewrite Hobj; done). rewrite elem_of_list_to_set.
    assert (o ∈ ids (wl ++ sl ++ [])) as Ho' by (by rewrite app_nil_r).
    assert (o ∉ scheduled v) as Hns by exact (not_scheduled c size no_drafts s4 v B wl sl [] o Hs4 Hb4 Ho').
    destruct (known_object Hs4 (o := o)) as (r4 & Hr4 & _); [set_solver|].
    assert (request_id r4 ∉ (num_scheduled_tokens v).*1) as Hnk.
    { eapply (unscheduled_key c size no_drafts s4 wl sl []); try done. set_solver. }
    assert (objects s5 !! o = Some r4) as Hr5.
    { rewrite Htodo; [done|]. by rewrite (rid_of_eq s4 o r4). }
    simpl in Hr. rewrite Hr5 in Hr. by injection Hr as <-.
  - assert (requests s5 = requests s4 /\ pause_state s5 = pause_state s4) as [Ereq5 Epause5] by (by rewrite Hobj).
    split; simpl; try done; [lia| | |by destruct Hsame|rewrite Ereq5; by destruct Hsame|rewrite Epause5; by destruct Hsame].
    + rewrite Hcached. assert (nr_req_id <$> new_data = rid_of (set_kv k1 s) <$> new_reqs) as ->.
      { clear -Hnew. induction Hnew; [done|]. simpl. by f_equal. }
      assert ((num_scheduled_tokens v).*1 ≡ₚ rid_of (set_kv k1 s) <$> scheduled v) as -> by exact Hkeys.
      by rewrite Hperm, <- fmap_app.
    + intros rid n Hin. destruct (booked_object no_drafts s4 v B wl sl [] rid n Hs4 Hb4 Hin)
        as (o & r & Ho & Hrun & Hr & Hid & Hd & []).
      destruct (i_running Hs4 Hrun Hr) as (_ & _ & Hcomp & _).
      exists o, (advanced n r). rewrite Hobj. simpl. rewrite <- Hid.
      split_and!; try done; try lia; [by rewrite Hid| |congruence..].
      apply Hdone; [done..|]. by rewrite Hid.
Qed.

(** ** The step *)

Lemma schedule_step s wl sl g :
  config_ok c size -> sinv no_drafts s wl sl [] -> prev_ok s (ids (wl ++ sl)) ->
  succeeds (schedule c g) s (fun out s' => exists wl' sl',
    sinv (drafts_of (so_scheduled_spec_decode_tokens out)) s' wl' sl' []
    /\ prev_ok s' (ids (wl' ++ sl')) /\ output_ok s s' out).
Proof.
  intros Hc Hs Hprev. unfold schedule. sstep. apply succeeds_get. sstep. apply on_kv_spec.
  eapply succeeds_mono; [apply (kvc_new_step_spec (max_len := max_model_len c)), Hs|]. intros ? k Hk.
  pose proof (sinv_kv c size _ _ _ _ _ _ Hs Hk) as Hs1.
  set (B := token_budget (start_locals c (pause_state s))).
  assert (0 <= B <= max_num_scheduled_tokens c) as HB.
  { pose proof (ck_tokens Hc). unfold B. simpl. case_decide; lia. }
  assert (stepping c size s (set_kv k s) (start_locals c (pause_state s)) wl sl B) as Hst.
  { split; try done. split; simpl; [|apply Z.add_0_r|apply HB|intros o Ho; by apply not_elem_of_nil in Ho].
    split; simpl; try done; try apply NoDup_nil_2; try apply list_subseteq_nil. }
  sstep. eapply succeeds_mono.
  { apply (running_loop_spec c size s _ _ _ wl sl B); [done|done| |].
    - exists [], (running s). split; [done|]. split; [apply list_subseteq_nil|]. simpl. len_lia.
    - unfold left_to_visit. simpl. unfold len. lia. }
  intros v s1 (wl1 & Hst1). sstep. unfold running_loras. rewrite (ck_loras Hc). sstep. sstep.
  eapply succeeds_mono; [by apply (schedule_waiting_spec c size s s1 v wl1 sl B g)|].
  intros v2 s2 (wl2 & sl2 & Hs2 & Hb2 & Hsame2 & Hres2).
  eapply succeeds_mono; [apply (finish_spec s s2 v2 B wl2 sl2); try done; lia|].
  intros out s3 (Hs3 & Hprev3 & Hout). by exists wl2, sl2.
Qed.
End step.
