(* ===== verification/SchedUpdate.v ===== *)
(** * After the model has run

    [update_from_output] against the contract of the model runner: it never raises
    and keeps the invariant; requests that stop give up everything they hold. *)

From stdpp Require Import sorting.
From S2P Require Import Prelude Request BlockHash KVManager EncoderCache EncoderSched RequestQueue.
From S2P Require Import SchedUtils KVCache Scheduler SchedInv SchedBooks SchedPlan SchedRunning.
From S2P Require Import SchedWaiting SchedStep.
From stdpp Require Import options.
Import Scheduler.

#[local] Set Default Proof Using "Type*".

(** Deleting the key of an entry deletes its value. *)
Lemma dict_filter_snd (k : string) (o : Z) d :
  NoDup d.*1 -> (k, o) ∈ d -> d.*2 ≡ₚ o :: (filter (fun x => x.1 <> k) d).*2.
Proof.
  induction d as [|[k1 o1] d IH]; [set_solver|]. rewrite !fmap_cons, filter_cons. cbn [fst snd].
  intros [Hk Hd]%NoDup_cons [[= -> ->]|Hin]%elem_of_cons.
  - rewrite decide_False by naive_solver. f_equiv. rewrite list_filter_all; [done|].
    intros [k2 o2] Hin Heq. simpl in Heq. subst k2. apply Hk. by apply (list_elem_of_fmap_2 fst) in Hin.
  - assert (k1 <> k) by (intros ->; apply Hk; by apply (list_elem_of_fmap_2 fst) in Hin).
    rewrite decide_True by done. rewrite fmap_cons. cbn [snd]. rewrite (IH Hd Hin). constructor.
Qed.

Section update.
Context {KV EC : Type} `{Hkv : KVCache KV} `{Htok : Tokens} `{Hec : EncoderCache EC} `{SetIter}.
Context (c : Config) (size : mm_key -> Z).
Context `{!KVCacheLaws KV (max_model_len c)} `{!EncoderCacheLaws EC size}.
Implicit Types (s : @t KV EC) (v : @locals) (wl sl kl : list Request) (r : Request) (o n B : Z).

Abbreviation room := (kvc_room (S := KV) (max_len := max_model_len c)).
Abbreviation clear := (kvc_clear (S := KV) (max_len := max_model_len c)).
Abbreviation kept := (kvc_kept (S := KV) (max_len := max_model_len c)).
Abbreviation sinv := (sinv c size).
Abbreviation request_ok := (request_ok c size).
Abbreviation no_drafts := (fun _ : string => 0).
Abbreviation ids l := (obj_id <$> l).

(** ** Appending the new tokens *)

(** One token, and the request does not stop. *)
Lemma append_ok r r' t sp :
  request_ok r -> sampling_params r = Some sp -> kvc_good r' -> appended t r r' ->
  (num_output_tokens r' < min_tokens sp \/ ~ too_long (max_model_len c) r') -> request_ok r'.
Proof using Type.
  intros [] Hsp Hgood (memo & hs & ->) Hlen.
  assert (len (all_token_ids r ++ [t]) = len (all_token_ids r) + 1) as El by (by rewrite len_app).
  assert (len (output_token_ids r ++ [t]) = len (output_token_ids r) + 1) as Eo by (by rewrite len_app).
  pose proof (rk_min sp Hsp).
  unfold num_tokens, num_output_tokens, too_long in *. simpl in *.
  split; try done; unfold num_tokens, num_output_tokens in *; simpl in *.
  - by apply (encodable_same c size r).
  - unfold num_tokens in *. simpl in *. lia.
  - lia.
Qed.

(** What stays the same when tokens are appended, whether or not it stops. *)
Record tokens_added r r' : Prop := {
  ta_id : request_id r' = request_id r;
  ta_obj : obj_id r' = obj_id r;
  ta_mm : mm_features r' = mm_features r;
  ta_computed : num_computed_tokens r' = num_computed_tokens r;
}.

Lemma on_request_spec {A} o (m : M Request A) r s (Q : A -> @t KV EC -> Prop) :
  objects s !! o = Some r ->
  succeeds m r (fun a r' => Q a (set_objects (<[o := r']> (objects s)) s)) ->
  succeeds (on_request o m) s Q.
Proof using Type.
  intros Hr Hm. unfold on_request. sstep. eapply deref_spec; [exact Hr|].
  destruct (succeeds_inv _ _ _ Hm) as (a & r' & -> & HQ). sstep.
  eapply assign_spec; [exact Hr|]. by sstep.
Qed.

Lemma append_until_stop_spec o r toks kept' s :
  objects s !! o = Some r -> request_ok r -> pooling_params r = None ->
  succeeds (append_until_stop c o toks kept') s (fun a s' => exists r',
    s' = set_objects (<[o := r']> (objects s)) s /\ tokens_added r r'
    /\ if a.2 : bool then is_finished (status r')
       else status r' = status r /\ request_ok r' /\ num_tokens r' = num_tokens r + len toks).
Proof.
  revert r s kept'. induction toks as [|t toks IH]; intros r s kept' Hr Hok Hpp; simpl.
  { sstep. exists r. split; [rewrite insert_id by done; by destruct s|]. split; [done|].
    split_and!; [done..|len_lia]. }
  destruct (rk_params Hok Hpp) as [sp Hsp].
  sstep. eapply on_request_spec; [exact Hr|].
  eapply succeeds_mono; [apply (kvc_good_append (max_len := max_model_len c)), (rk_good Hok)|].
  intros ? r1 [Hgood Hap].
  sstep. eapply on_request_spec; [apply lookup_insert_eq|].
  assert (pooling_params r1 = None /\ sampling_params r1 = Some sp
    /\ output_token_ids r1 = output_token_ids r ++ [t]) as (Hpp1 & Hsp1 & Hout1)
    by (destruct Hap as (? & ? & ->); done).
  destruct (check_stop_run r1 sp (max_model_len c) t Hpp1 Hsp1) as (b & r2 & Hrun & Hb);
    [rewrite Hout1; apply py_last_app|].
  eapply succeeds_eq; [exact Hrun|]. unfold set_objects. simpl. rewrite insert_insert_eq.
  assert (tokens_added r r1) as Hta by (destruct Hap as (? & ? & ->); done).
  destruct b.
  - sstep. destruct Hb as (_ & Hwhy & Hr2). exists r2. split; [done|].
    split; [|simpl; destruct Hwhy as [(_ & ->)|[(_ & _ & ->)|(_ & _ & _ & ->)]]; done].
    rewrite Hr2. by destruct Hta.
  - destruct Hb as [-> Hwhy].
    assert (request_ok r1) as Hok1 by (eapply (append_ok r r1 t sp); naive_solver).
    eapply succeeds_mono; [apply (IH r1); [apply lookup_insert_eq|done..]|].
    intros b s' (r3 & -> & Hta3 & Hpost). exists r3. unfold set_objects. simpl.
    rewrite insert_insert_eq. split; [done|]. split; [destruct Hta, Hta3; split; congruence|].
    destruct b.2; [done|]. destruct Hpost as (Hst & Hok3 & Hn). destruct Hap as (? & ? & ->).
    split; [done|]. split; [done|]. rewrite Hn. unfold num_tokens. simpl. len_lia.
Qed.

(** ** Freeing a finished request

    [R]: the running requests that are not freed yet; [update_from_output] takes the
    freed ones out of [running] only at its end. *)

Definition without o (R : list Z) : list Z := filter (fun o' => o' <> o) R.

(** The parts freeing does not touch. *)
Record freed_from s s' o r rf : Prop := {
  fr_objects : objects s' = <[o := rf]> (objects s);
  fr_requests : requests s' = dict_del (request_id r) (requests s);
  fr_running : running s' = running s;
  fr_waiting : waiting s' = waiting s;
  fr_skipped : skipped_waiting s' = skipped_waiting s;
  fr_prev : prev_step_scheduled_req_ids s' = prev_step_scheduled_req_ids s;
  fr_finished : finished_req_ids s' = {[request_id r]} ∪ finished_req_ids s;
  fr_pause : pause_state s' = pause_state s;
  fr_kv : kept (kv_cache_manager s) (kv_cache_manager s') (fun rid => rid <> request_id r);
  fr_clear : clear (kv_cache_manager s') (request_id r);
  fr_enc : ec_ok (size := size) (encoder_cache_manager s');
}.

(** Every id is either still known or among the finished ones the workers will be
    told about. *)
Definition same_ids s s' : Prop := forall rid,
  rid ∈ (requests s').*1 \/ rid ∈ finished_req_ids s'
  <-> rid ∈ (requests s).*1 \/ rid ∈ finished_req_ids s.

Lemma same_ids_trans s1 s2 s3 : same_ids s1 s2 -> same_ids s2 s3 -> same_ids s1 s3.
Proof using Type. intros H1 H2 rid. by rewrite (H2 rid). Qed.

Lemma freed_ids s s' o r rf :
  freed_from s s' o r rf -> NoDup (requests s).*1 -> request_id r ∈ (requests s).*1 -> same_ids s s'.
Proof.
  intros [] Hnd Hin rid. rewrite fr_requests0, fr_finished0, dict_del_keys by done.
  destruct (decide (rid = request_id r)); set_solver.
Qed.

Lemma sinv_freed D R R' s s' wl sl kl kl' o r rf :
  sinv D (set_running R s) wl sl kl -> objects s !! o = Some r -> freed_from s s' o r rf ->
  R ++ ids (wl ++ sl ++ kl) ≡ₚ o :: R' ++ ids (wl ++ sl ++ kl') -> R' ⊆ R -> ids kl' ⊆ ids kl ->
  sinv D (set_running R' s') wl sl kl'.
Proof.
  intros Hs Hr [Eo Ereq _ Ew Esk _ _ _ [Hkok Hk] Hclear He] Hp HR Hkl.
  assert (o ∈ R ++ ids (wl ++ sl ++ kl)) as Hin by (rewrite Hp; left).
  destruct (known_object Hs (o := o) Hin) as (r0 & Hr0 & _ & Hreq & _). simpl in Hr0, Hreq. simplify_eq.
  pose proof (i_distinct Hs) as Hnd. pose proof (i_ids Hs) as Hids. simpl in Hnd, Hids.
  pose proof (i_known Hs) as Hknown. simpl in Hknown.
  rewrite Hp in Hnd. apply NoDup_cons in Hnd as [Hno Hnd].
  assert (forall o', o' ∈ R' ++ ids (wl ++ sl ++ kl') -> o' <> o) as Hne by (intros o' Ho' ->; done).
  assert (forall o' x, o' ∈ R' -> objects s !! o' = Some x -> request_id x <> request_id r) as Hrid.
  { intros o' x Ho' Hx Heq. apply (Hne o'); [set_solver|].
    eapply (ids_inj c size D _ wl sl kl o' o x r Hs); try done; simpl; set_solver. }
  split; simpl; rewrite ?Ew, ?Esk, ?Ereq; try apply Hs; try done.
  - rewrite dict_del_filter by done. apply (Permutation_cons_inv (a := o)). rewrite <- Hp, <- Hknown.
    symmetry. by apply dict_filter_snd.
  - by apply dict_del_NoDup.
  - intros rid o' Hin'. rewrite dict_del_filter in Hin' by done.
    apply list_elem_of_filter in Hin' as [Hrid' Hin'].
    destruct (i_objects Hs Hin') as (x & Hx & Hxid & Hxobj & Hxok). simpl in *.
    exists x. rewrite Eo, lookup_insert_ne; [done|]. intros <-. by simplify_eq.
  - intros o' x Ho'. rewrite Eo, lookup_insert_ne by (symmetry; apply Hne; set_solver). intros Hx.
    destruct (i_running Hs (o := o') (r := x) (HR _ Ho') Hx) as (? & ? & ?).
    split; [done|]. split; [|done]. apply Hk; [by eapply Hrid|done].
  - intros q x Hq. assert (obj_id q ∈ R' ++ ids (wl ++ sl ++ kl')) as Hq'.
    { apply elem_of_app. right. by apply list_elem_of_fmap_2. }
    rewrite Eo, lookup_insert_ne by (symmetry; by apply Hne). intros Hx.
    assert (obj_id q ∈ ids (wl ++ sl ++ kl)) as (q0 & Heq & Hq0)%list_elem_of_fmap.
    { apply (list_elem_of_fmap_2 obj_id) in Hq. rewrite !fmap_app in *. set_solver. }
    apply (i_queued Hs Hq0). by rewrite <- Heq.
  - intros rid Hr'. destruct (decide (rid = request_id r)) as [->|Hnr]; [done|].
    apply Hk; [done|]. apply (i_clear Hs). simpl. intros o' x Ho' Hx Heq.
    assert (o' <> o) as Hoo by (intros ->; simplify_eq; done).
    apply (Hr' o' x); [|by rewrite Eo, lookup_insert_ne|done].
    assert (o' ∈ o :: R' ++ ids (wl ++ sl ++ kl')) as Hall by (rewrite <- Hp; set_solver).
    apply elem_of_cons in Hall as [?|[?|Hq]%elem_of_app]; [done..|]. exfalso.
    pose proof (i_distinct Hs) as (_ & Hd & _)%NoDup_app. simpl in Hd. apply (Hd o' Ho').
    rewrite !fmap_app in *. set_solver.
  - etrans; [|apply (i_limit Hs)]. simpl.
    assert (NoDup R') as HndR by (by apply NoDup_app in Hnd as [? _]).
    pose proof (submseteq_length _ _ (NoDup_submseteq _ _ HndR HR)). unfold len. lia.
Qed.

Lemma free_request_run D R s wl sl kl o r rf :
  sinv D (set_running R s) wl sl kl -> o ∈ R ++ ids (wl ++ sl ++ kl) -> objects s !! o = Some r ->
  request_id rf = request_id r -> mm_features rf = mm_features r -> is_finished (status rf) ->
  succeeds (_free_request o) (set_objects (<[o := rf]> (objects s)) s)
    (fun _ s' => freed_from s s' o r rf).
Proof.
  intros Hs Ho Hr Hid Hmm Hfin.
  destruct (known_object Hs (o := o) Ho) as (r0 & Hr0 & _ & Hreq & Hok). simpl in Hr0, Hreq. simplify_eq.
  unfold _free_request. sstep. eapply deref_spec; [apply lookup_insert_eq|].
  sstep. apply succeeds_assert; [by apply Is_true_true|]. sstep. apply on_enc_spec.
  eapply succeeds_mono; [apply (ec_free_spec (size := size)); [apply (i_enc Hs)|]|].
  { unfold consistent. rewrite Hmm. apply Hok. }
  intros ? e (He & _). sstep. sstep. unfold _free_blocks. sstep.
  eapply deref_spec; [apply lookup_insert_eq|].
  sstep. apply succeeds_assert; [by apply Is_true_true|]. sstep. apply on_kv_spec.
  eapply succeeds_mono; [apply (kvc_free_spec (max_len := max_model_len c)), (i_kv Hs)|].
  intros ? k [Hk Hclear]. sstep. apply succeeds_get. sstep. rewrite Hid in *.
  eapply succeeds_of_option; [apply dict_get_NoDup; [apply (i_ids Hs)|exact Hreq]|].
  sstep. by split.
Qed.

(** ** One request of the output *)

(** What the model runner returns for a request: no tokens for a pooling request,
    and at least one and at most one more than the drafts it verified. *)
Definition sampled_ok (spec : list (string * list Z)) (mo : ModelRunnerOutput) rid r : Prop :=
  exists gen, dict_get rid (sampled_token_ids mo) = Some gen
    /\ (pooling_params r <> None -> gen = [])
    /\ (pooling_params r = None -> 0 < drafts_of spec rid -> 1 <= len gen <= drafts_of spec rid + 1).

Definition still_running s (u : update_locals) : list Z :=
  filter (fun o => o ∉ stopped_running_reqs u) (running s).

(** After the loop has dealt with the request [rid], whose object is [o]. *)
Record updated D s (u : update_locals) wl sl rid (o : option Z) u' s' : Prop := {
  up_inv : sinv (set_drafts D rid 0) (set_running (still_running s' u') s') wl sl [];
  up_running : running s' = running s;
  up_preempted : stopped_preempted_reqs u' = stopped_preempted_reqs u;
  up_objects : forall o', Some o' <> o -> objects s' !! o' = objects s !! o';
  up_requests : forall rid', rid' <> rid -> dict_get rid' (requests s') = dict_get rid' (requests s);
  up_prev : prev_step_scheduled_req_ids s' = prev_step_scheduled_req_ids s;
  up_ids : same_ids s s';
}.

(** Rejecting drafts only lowers the number of computed tokens. *)
Lemma reject_drafts_spec o r drafts gen s :
  objects s !! o = Some r -> num_output_placeholders r = 0 ->
  succeeds (reject_drafts o drafts gen) s (fun _ s' =>
    s' = set_objects (<[o := set_num_computed_tokens
      (if (0 <? len drafts) && (0 <? len gen) && (0 <? num_computed_tokens r)
       then num_computed_tokens r - (len drafts - (len gen - 1)) else num_computed_tokens r)%bool r]>
      (objects s)) s).
Proof using Type.
  intros Hr Hp. unfold reject_drafts.
  assert (set_num_computed_tokens (num_computed_tokens r) r = r) as Hsame by (by destruct r).
  assert (s = set_objects (<[o := r]> (objects s)) s) as Hs by (rewrite insert_id by done; by destruct s).
  destruct drafts as [|d drafts]; [sstep; simpl; rewrite Hsame; exact Hs|].
  destruct gen as [|g gen]; [sstep; change (0 <? len (@nil Z)) with false; rewrite andb_false_r, andb_false_l, Hsame; exact Hs|].
  assert (forall (x : Z) (l : list Z), (0 <? len (x :: l)) = true) as Hlen
    by (intros x l; apply Z.ltb_lt; rewrite len_cons; pose proof (len_nonneg l); lia).
  rewrite !Hlen, !andb_true_l. clear Hlen.
  sstep. eapply assign_spec; [exact Hr|]. eapply assign_spec; [apply lookup_insert_eq|].
  assert (forall n, num_output_placeholders (set_num_computed_tokens n r) = 0) as Hp' by done.
  unfold set_objects. simpl. rewrite insert_insert_eq. f_equal. f_equal.
  destruct (0 <? num_computed_tokens r); rewrite ?Hp', ?Hp, ?Hsame; done.
Qed.
(** The request after its new tokens: whether it stops. *)
Definition sampled r r' (gen : list Z) (stops : bool) : Prop :=
  tokens_added r r'
  /\ if stops then is_finished (status r')
     else status r' = status r /\ request_ok r' /\ num_tokens r' = num_tokens r + len gen.

Lemma sample_spec o r gen (has_pooler_output : bool) s :
  config_ok c size -> objects s !! o = Some r -> request_ok r ->
  (pooling_params r <> None -> gen = []) ->
  succeeds (match gen with
            | _ :: _ => _update_request_with_output c o gen
            | [] =>
                if (is_some (pooling_params r) && has_pooler_output)%bool
                then assign o (set_status FINISHED_STOPPED) ;;; ret ([], true)
                else ret ([], false)
            end) s (fun a s' => exists r',
    s' = set_objects (<[o := r']> (objects s)) s /\ sampled r r' gen a.2).
Proof.
  intros Hc Hr Hok Hpool. destruct gen as [|t gen].
  - destruct (_ && _)%bool; sstep.
    + eapply assign_spec; [exact Hr|]. sstep. by eexists.
    + exists r. split; [rewrite insert_id by done; by destruct s|].
      split; [done|]. split_and!; [done..|]. unfold len. simpl. lia.
  - unfold _update_request_with_output. rewrite (ck_sync Hc).
    eapply succeeds_mono; [apply (append_until_stop_spec o r (t :: gen)); try done|].
    { destruct (pooling_params r); [|done]. by discriminate Hpool. }
    intros a s' (r' & -> & Hta & Hpost). exists r'. by split.
Qed.

Lemma grammar_spec o r r' gen (kept' : list Z) (stops rejects : bool) s :
  objects s !! o = Some r' -> sampled r r' gen stops ->
  succeeds (match kept' with
            | _ :: _ => if rejects then assign o (set_status FINISHED_ERROR) ;;; ret true else ret stops
            | [] => ret stops
            end) s (fun b s' => exists r'',
    s' = set_objects (<[o := r'']> (objects s)) s /\ sampled r r'' gen b).
Proof using Type.
  intros Hr Hs. assert (s = set_objects (<[o := r']> (objects s)) s) as Hid
    by (rewrite insert_id by done; by destruct s).
  destruct kept'; [sstep; by exists r'|]. destruct rejects; [|sstep; by exists r'].
  sstep. eapply assign_spec; [exact Hr|]. sstep. eexists. split; [done|].
  destruct Hs as [[] _]. by split.
Qed.

(** [D] only matters for the requests that are running. *)
Lemma sinv_drafts D D' s wl sl kl :
  (forall o r, o ∈ running s -> objects s !! o = Some r -> D (request_id r) = D' (request_id r)) ->
  sinv D s wl sl kl -> sinv D' s wl sl kl.
Proof.
  intros HD []. split; try done. intros o r Ho Hr. rewrite <- (HD o r Ho Hr). by apply (i_running o).
Qed.

Lemma still_running_stop s (u : update_locals) o l :
  NoDup (running s) -> o ∈ running s ->
  still_running s {| stopped_running_reqs := {[o]} ∪ stopped_running_reqs u;
                     stopped_preempted_reqs := stopped_preempted_reqs u; outputs := l |}
  = without o (still_running s u).
Proof using Type.
  intros Hnd Ho. unfold still_running, without. simpl. rewrite list_filter_filter.
  apply list_filter_iff. set_solver.
Qed.

(** The object after [reject_drafts]. *)
Lemma rejected_bounds r (gen : list Z) d :
  0 <= num_computed_tokens r <= num_tokens r + d ->
  (0 < d -> num_computed_tokens r = num_tokens r + d /\ pooling_params r = None) ->
  (pooling_params r = None -> 0 < d -> 1 <= len gen <= d + 1) -> 0 <= d -> 1 <= num_tokens r ->
  0 <= (if (0 <? d) && (0 <? len gen) && (0 <? num_computed_tokens r)
        then num_computed_tokens r - (d - (len gen - 1)) else num_computed_tokens r)%bool
    <= Z.min (num_computed_tokens r) (num_tokens r + len gen).
Proof using Type.
  intros Hc Hd Hgen Hd0 Hn. pose proof (len_nonneg gen).
  destruct (Z.ltb_spec 0 d) as [Hpos|]; simpl; [|lia].
  destruct (Hd Hpos) as [Heq Hpp]. specialize (Hgen Hpp Hpos).
  rewrite (proj2 (Z.ltb_lt 0 (len gen))), (proj2 (Z.ltb_lt 0 (num_computed_tokens r))) by lia.
  simpl. lia.
Qed.

Lemma updated_stop D s s' u wl sl o r rf e l :
  sinv D (set_running (still_running s u) (set_enc e s)) wl sl [] -> NoDup (running s) ->
  o ∈ still_running s u -> objects s !! o = Some r -> freed_from (set_enc e s) s' o r rf ->
  updated D s u wl sl (request_id r) (Some o)
    {| stopped_running_reqs := {[o]} ∪ stopped_running_reqs u;
       stopped_preempted_reqs := stopped_preempted_reqs u; outputs := l |} s'.
Proof.
  intros Hs Hnd Ho Hr Hf. set (R := still_running s u) in *. set (s0 := set_enc e s) in *.
  assert (o ∈ running s) as Hor by (by apply list_elem_of_filter in Ho as [_ ?]).
  assert (NoDup R) as HndR by (by apply NoDup_filter).
  assert (sinv D (set_running (without o R) s') wl sl []) as Hs'.
  { apply (sinv_freed D R (without o R) s0 s' wl sl [] [] o r rf Hs); try done.
    - rewrite app_comm_cons. f_equiv. unfold without. rewrite <- remove_first_filter by done.
      apply list_elem_of_split in Ho as (l1 & l2 & HR). rewrite HR in *.
      rewrite remove_first_split by done. by rewrite Permutation_middle.
    - intros x Hx. by apply list_elem_of_filter in Hx as [_ ?]. }
  assert (still_running s' {| stopped_running_reqs := {[o]} ∪ stopped_running_reqs u;
            stopped_preempted_reqs := stopped_preempted_reqs u; outputs := l |} = without o R) as HR.
  { destruct Hf. assert (running s' = running s) as E by exact fr_running0.
    rewrite still_running_stop by (by rewrite E). unfold R, still_running. by rewrite E. }
  destruct (known_object Hs (o := o)) as (r0 & Hr0 & _ & Hin0 & _); [simpl; set_solver|].
  simpl in Hr0, Hin0. simplify_eq.
  assert (same_ids s0 s') as Hsame.
  { eapply freed_ids; [done|apply (i_ids Hs)|]. by apply (list_elem_of_fmap_2 fst) in Hin0. }
  destruct Hf. split; try done.
  - rewrite HR. apply (sinv_drafts D); [|done]. intros o' x Ho' Hx. unfold set_drafts.
    case_decide as Heq; [|done]. exfalso. simpl in Ho', Hx.
    destruct (known_object Hs' (o := o')) as (x' & Hx' & _ & Hin & _); [simpl; set_solver|].
    simpl in Hx', Hin. simplify_eq. rewrite Heq in Hin.
    assert (requests s' = _) as E by exact fr_requests0. rewrite E in Hin.
    pose proof (i_ids Hs) as Hids. apply (list_elem_of_fmap_2 fst) in Hin.
    apply dict_del_keys in Hin as [_ ?]; done.
  - intros o' Hne. assert (objects s' = _) as -> by exact fr_objects0.
    rewrite lookup_insert_ne; [done|]. intros <-. done.
  - intros rid' Hne. assert (requests s' = _) as -> by exact fr_requests0. by apply dict_get_del_ne.
Qed.

Lemma updated_go D s u wl sl o r r' e l :
  sinv D (set_running (still_running s u) (set_enc e s)) wl sl [] ->
  o ∈ still_running s u -> objects s !! o = Some r ->
  request_id r' = request_id r -> obj_id r' = obj_id r -> status r' = RUNNING -> request_ok r' ->
  0 <= num_computed_tokens r' <= Z.min (num_computed_tokens r) (num_tokens r') ->
  updated D s u wl sl (request_id r) (Some o)
    {| stopped_running_reqs := stopped_running_reqs u;
       stopped_preempted_reqs := stopped_preempted_reqs u; outputs := l |}
    (set_objects (<[o := r']> (objects s)) (set_enc e s)).
Proof.
  intros Hs Ho Hr Hid Hobj Hst Hok Hc.
  destruct (i_running Hs (o := o) (r := r)) as (_ & Hroom & _); [done..|].
  split; try done.
  - apply (sinv_assign_running c size D _ wl sl [] o r r' 0 Hs); try done.
    + eapply (kvc_room_le (max_len := max_model_len c)); [exact Hroom|lia].
    + lia.
  - intros o' Hne. simpl. rewrite lookup_insert_ne; [done|]. by intros <-.
Qed.

Lemma update_request_spec D s u wl sl rejects spec mo rid n :
  config_ok c size -> sinv D (set_running (still_running s u) s) wl sl [] -> NoDup (running s) ->
  0 < n ->
  (forall o, dict_get rid (requests s) = Some o -> o ∈ still_running s u /\ exists r,
    objects s !! o = Some r /\ D rid = drafts_of spec rid /\ sampled_ok spec mo rid r) ->
  succeeds (update_request c rejects spec mo u (rid, n)) s (fun u' s' =>
    updated D s u wl sl rid (dict_get rid (requests s)) u' s').
Proof.
  intros Hc Hs Hnd Hn Hfly. unfold update_request. cbn [fst snd]. sstep.
  apply succeeds_assert; [by apply Z.ltb_lt|]. sstep. apply succeeds_get.
  destruct (dict_get rid (requests s)) as [o|] eqn:Hreq.
  2: { sstep. split; try done. apply (sinv_drafts D); [|done]. intros o r Ho Hr. unfold set_drafts.
    case_decide as Heq; [|done]. exfalso. simpl in Ho, Hr.
    destruct (known_object Hs (o := o)) as (r' & Hr' & _ & Hin & _); [simpl; set_solver|].
    simpl in Hr', Hin. simplify_eq. apply (list_elem_of_fmap_2 fst), dict_get_elem in Hin as [? Hin].
    simpl in Hin. by rewrite Hreq in Hin. }
  destruct (Hfly o eq_refl) as (Ho & r & Hr & HD & gen & Hgen & Hpool & Hlen). clear Hfly.
  destruct (known_object Hs (o := o)) as (r' & Hr' & Hobj & Hin & Hok); [simpl; set_solver|].
  simpl in Hr', Hin. rewrite Hr in Hr'. injection Hr' as <-.
  assert (request_id r = rid) as Hid.
  { pose proof (i_ids Hs) as Hids. simpl in Hids.
    assert ((requests s).*2 ≡ₚ still_running s u ++ ids (wl ++ sl ++ [])) as Hk by exact (i_known Hs).
    pose proof (i_distinct Hs) as Hd2. simpl in Hd2. rewrite <- Hk in Hd2.
    apply dict_get_Some in Hreq.
    apply list_elem_of_lookup in Hin as [i Hi]. apply list_elem_of_lookup in Hreq as [j Hj].
    assert (i = j) as ->; [|congruence].
    eapply NoDup_lookup; [exact Hd2|rewrite list_lookup_fmap, Hi; done|rewrite list_lookup_fmap, Hj; done]. }
  destruct (i_running Hs (o := o) (r := r)) as (Hst & Hroom & Hcomp & Hd); [done..|].
  simpl in Hroom. rewrite Hid in *.
  sstep. eapply deref_spec; [exact Hr|]. rewrite Hst. simpl. sstep.
  eapply succeeds_of_option; [exact Hgen|]. sstep.
  eapply succeeds_mono; [by apply (reject_drafts_spec o r); [|apply Hok]|]. intros _ s1 ->.
  set (C1 := if (_ && _)%bool then _ else _). set (r1 := set_num_computed_tokens C1 r).
  assert (0 <= C1 <= Z.min (num_computed_tokens r) (num_tokens r + len gen)) as HC1.
  { rewrite HD in *. apply rejected_bounds; try done; [apply len_nonneg|apply Hok]. }
  clearbody C1.
  assert (request_ok r1) as Hok1 by (by apply progress_keep_ok).
  sstep. eapply deref_spec; [apply lookup_insert_eq|]. sstep.
  apply succeeds_mono with (Q := fun _ s' => exists e,
    s' = set_objects (<[o := r1]> (objects s)) (set_enc e s) /\ ec_ok (size := size) e).
  { destruct (has_encoder_inputs r1); [|sstep; exists (encoder_cache_manager s); split; [by destruct s|apply Hs]].
    apply on_enc_spec. eapply succeeds_mono; [apply (free_inputs_run size); [apply (i_enc Hs)|apply Hok1]|].
    intros ? e [He _]. by exists e. }
  intros _ s2 (e & -> & He). cbv zeta. sstep.
  set (s0 := set_enc e s).
  assert (sinv D (set_running (still_running s u) s0) wl sl []) as Hs0 by (by apply (sinv_enc c size _ _ _ _ _ e) in Hs).
  eapply succeeds_mono; [apply (sample_spec o r1 gen _ _ Hc); [apply lookup_insert_eq|done|by apply Hpool]|].
  intros a s3 (r2 & -> & Hsam). sstep. eapply deref_spec; [apply lookup_insert_eq|]. sstep.
  eapply succeeds_mono; [eapply grammar_spec; [apply lookup_insert_eq|exact Hsam]|].
  clear Hsam. intros stop s4 (rf & -> & [[Eid Eobj Emm Ecomp] Hsam]).
  sstep. eapply deref_spec; [apply lookup_insert_eq|]. cbv zeta. sstep.
  rewrite (decide_True (P := status r1 = RUNNING)) by done.
  unfold set_objects. simpl. rewrite !insert_insert_eq.
  assert (o ∈ running s) as Hor by (by apply list_elem_of_filter in Ho as [_ ?]).
  destruct stop; cbn [stopped_running_reqs stopped_preempted_reqs outputs].
  - eapply succeeds_mono; [apply (free_request_run D _ s0 wl sl [] o r rf Hs0); try done; set_solver|].
    intros ? s' Hf. rewrite orb_true_r. sstep. rewrite <- Hid.
    apply (updated_stop D s s' u wl sl o r rf e _ Hs0 Hnd Ho Hr Hf).
  - sstep. destruct Hsam as (Hst' & Hok' & Hn').
    assert (num_tokens r1 = num_tokens r) as En by done. rewrite En in Hn'.
    change (num_computed_tokens r1) with C1 in Ecomp.
    rewrite <- Hid. destruct (_ || false)%bool; sstep; [|destruct u];
      apply (updated_go D s _ wl sl o r rf e _ Hs0); try done;
        try (by rewrite Hst'); rewrite Ecomp; lia.
Qed.

(** ** The whole call *)

(** The work of the step [out] that is not finished yet is still there, and [mo] is
    what a model runner may answer. *)
Definition in_flight s (out : SchedulerOutput) : Prop :=
  NoDup (so_num_scheduled_tokens out).*1
  /\ (so_scheduled_spec_decode_tokens out).*1 ⊆ (so_num_scheduled_tokens out).*1
  /\ forall rid n, (rid, n) ∈ so_num_scheduled_tokens out ->
       0 < n /\ forall o, dict_get rid (requests s) = Some o -> o ∈ running s.

Definition answers s (out : SchedulerOutput) (mo : ModelRunnerOutput) : Prop :=
  forall rid n o r, (rid, n) ∈ so_num_scheduled_tokens out -> dict_get rid (requests s) = Some o ->
    objects s !! o = Some r -> sampled_ok (so_scheduled_spec_decode_tokens out) mo rid r.

Record processed D s wl sl (pre : list string) (u : update_locals) s' : Prop := {
  pr_inv : sinv (fun rid => if decide (rid ∈ pre) then 0 else D rid)
             (set_running (still_running s' u) s') wl sl [];
  pr_running : running s' = running s;
  pr_preempted : stopped_preempted_reqs u = [];
  pr_todo : forall rid o, rid ∉ pre -> dict_get rid (requests s) = Some o ->
    dict_get rid (requests s') = Some o /\ objects s' !! o = objects s !! o;
  pr_new : forall rid, rid ∉ pre -> dict_get rid (requests s') = dict_get rid (requests s);
  pr_queued : forall o, o ∉ running s -> objects s' !! o = objects s !! o;
  pr_prev : prev_step_scheduled_req_ids s' = prev_step_scheduled_req_ids s;
  pr_ids : same_ids s s';
}.

(** A known object that was running is still in the virtual [running] list. *)
Lemma still_known D s s' u wl sl rid o :
  sinv D (set_running (still_running s' u) s') wl sl [] -> NoDup (running s ++ ids (wl ++ sl ++ [])) ->
  o ∈ running s -> dict_get rid (requests s') = Some o -> o ∈ still_running s' u.
Proof.
  intros Hs Hnd Ho Hreq. apply dict_get_Some, (list_elem_of_fmap_2 snd) in Hreq.
  assert ((requests s').*2 ≡ₚ still_running s' u ++ ids (wl ++ sl ++ [])) as Hk by exact (i_known Hs).
  rewrite Hk in Hreq. apply elem_of_app in Hreq as [?|Hq]; [done|].
  apply NoDup_app in Hnd as (_ & Hd & _). by destruct (Hd o Ho).
Qed.

Lemma known_rid D s wl sl kl rid o :
  sinv D s wl sl kl -> dict_get rid (requests s) = Some o -> exists r,
    objects s !! o = Some r /\ request_id r = rid /\ obj_id r = o /\ request_ok r.
Proof. intros Hs Hreq. apply dict_get_Some in Hreq. by apply (i_objects Hs). Qed.

Lemma process_one D s wl sl out mo rejects pre rid n u s1 :
  config_ok c size -> sinv D s wl sl [] -> D = drafts_of (so_scheduled_spec_decode_tokens out) ->
  in_flight s out -> answers s out mo -> (rid, n) ∈ so_num_scheduled_tokens out -> rid ∉ pre ->
  processed D s wl sl pre u s1 ->
  succeeds (update_request c rejects (so_scheduled_spec_decode_tokens out) mo u (rid, n)) s1
    (fun u' s2 => processed D s wl sl (pre ++ [rid]) u' s2).
Proof.
  intros Hc Hs HD (Hnd & Hspec & Hfly) Hans Hin Hnew [].
  destruct (Hfly rid n Hin) as [Hn Hrun].
  pose proof (i_distinct Hs) as Hdis.
  assert (NoDup (running s)) as HndR by (by apply NoDup_app in Hdis as [? _]).
  eapply succeeds_mono;
    [apply (update_request_spec _ s1 u wl sl rejects _ mo rid n Hc pr_inv0); [congruence|done|]|].
  - rewrite pr_new0 by done. intros o Ho. destruct (pr_todo0 rid o Hnew Ho) as [Ho1 Hobj].
    destruct (known_rid _ _ _ _ _ _ _ Hs Ho) as (r & Hr & Hid & _).
    split; [eapply still_known; eauto|]. exists r. split; [by rewrite Hobj|].
    split; [by rewrite decide_False, HD by done|]. by eapply Hans.
  - intros u' s2 [Hinv Hrun2 Hpre2 Hobj2 Hreq2 Hprev2 Hids2]. split.
    + eapply sinv_ext; [|exact Hinv]. intros x. unfold set_drafts.
      destruct (decide (x = rid)) as [->|Hne]; [by rewrite decide_True by set_solver|].
      destruct (decide (x ∈ pre)); [rewrite decide_True by set_solver; done|].
      by rewrite decide_False by set_solver.
    + congruence.
    + congruence.
    + intros x o Hx Ho. assert (x <> rid /\ x ∉ pre) as [Hxr Hxp] by set_solver.
      destruct (pr_todo0 x o Hxp Ho) as [Hd1 Ho1]. split; [by rewrite Hreq2|].
      rewrite Hobj2; [done|]. rewrite pr_new0 by done. intros Heq. symmetry in Heq.
      destruct (known_rid _ _ _ _ _ _ _ Hs Ho) as (r & Hr & Hid & _).
      destruct (known_rid _ _ _ _ _ _ _ Hs Heq) as (r' & Hr' & Hid' & _). congruence.
    + intros x Hx. rewrite Hreq2 by set_solver. apply pr_new0. set_solver.
    + intros o Ho. rewrite Hobj2; [by apply pr_queued0|]. rewrite pr_new0 by done. intros Heq.
      symmetry in Heq. by apply Ho, Hrun.
    + congruence.
    + by eapply same_ids_trans.
Qed.

Lemma update_step s wl sl out mo rejects :
  config_ok c size -> sinv (drafts_of (so_scheduled_spec_decode_tokens out)) s wl sl [] ->
  prev_ok s (ids (wl ++ sl)) -> in_flight s out -> answers s out mo ->
  succeeds (update_from_output c rejects out mo) s (fun x s' =>
    sinv no_drafts s' wl sl [] /\ prev_ok s' (ids (wl ++ sl)) /\ running s' ⊆ running s
    /\ same_ids s s').
Proof.
  intros Hc Hs Hprev Hfly Hans. set (D := drafts_of _) in *. unfold update_from_output. sstep.
  pose proof (i_distinct Hs) as Hdis.
  eapply succeeds_mono; [apply (succeeds_mfold _
    (fun pre u s' => processed D s wl sl pre.*1 u s'))|].
  - split; try done. simpl. unfold still_running. simpl. rewrite list_filter_all; [|set_solver].
    by destruct s.
  - intros pre [rid n] todo u s1 Hl Hpr. rewrite fmap_app. cbn [fmap list_fmap fst].
    destruct Hfly as (Hnd & Hfly). eapply process_one; try done.
    + rewrite Hl. set_solver.
    + rewrite Hl, fmap_app, fmap_cons in Hnd. by apply NoDup_app_cons_inv in Hnd as [? _].
  - intros u s1 [Hinv Hrun Hpre _ _ Hq Hprev1 Hids]. rewrite Hpre. sstep.
    apply succeeds_mono with (Q := fun _ s' => s' = set_running (still_running s1 u) s1).
    { case_decide as He.
      - sstep. unfold still_running. rewrite He, list_filter_all by set_solver. by destruct s1.
      - unfold drop_running. sstep. f_equal. rewrite remove_all_filter.
        + apply list_filter_iff. intros o. by rewrite elem_of_elements.
        + rewrite Hrun. by apply NoDup_app in Hdis as [? _]. }
    intros ? s2 ->. sstep. sstep. sstep.
    assert (sinv no_drafts (set_running (still_running s1 u) s1) wl sl []) as Hs2.
    { eapply (sinv_ext c size); [|exact Hinv]. intros rid. simpl. case_decide as Hr; [done|].
      unfold D, drafts_of, lookup_list. destruct (dict_get rid _) eqn:E; [|done]. exfalso. apply Hr.
      apply Hfly. apply dict_get_elem. by eexists. }
    apply on_kv_spec. eapply succeeds_mono; [apply (kvc_take_events_spec (max_len := max_model_len c)), (i_kv Hs2)|].
    intros events k Hk. sstep.
    apply succeeds_mono with (Q := fun _ s' => exists k', s' = set_kv k' (set_running (still_running s1 u) s1)
      /\ kept k k' (fun _ => True)).
    { destruct (log_stats c); [|sstep; exists k; split; [done|]; split; [apply Hk|auto]].
      apply on_kv_spec. eapply succeeds_mono; [apply (kvc_stats_spec (max_len := max_model_len c)), Hk|].
      intros ? k' Hk'. by exists k'. }
    intros stats s3 (k' & -> & Hk'). sstep. split; [|split; [|split; [|done]]].
    + apply (sinv_kv c size _ (set_kv k (set_running (still_running s1 u) s1))); [|done].
      by apply sinv_kv.
    + intros o r Ho Hr Hst. simpl in Hr |- *. rewrite Hprev1. eapply Hprev; [exact Ho| |done].
      rewrite <- Hq; [done|]. intros Hor. apply NoDup_app in Hdis as (_ & Hd & _).
      apply (Hd o Hor). by rewrite app_nil_r.
    + simpl. rewrite <- Hrun. intros o Ho. by apply list_elem_of_filter in Ho as [_ ?].
Qed.
End update.
