(* ===== verification/SchedCalls.v ===== *)
(** * Requests come and go

    [add_request], [finish_requests], [update_draft_token_ids] and the resets keep
    the scheduler's invariant and never raise where the engine may call them. *)

From stdpp Require Import sorting.
From S2P Require Import Prelude Request BlockHash KVManager EncoderCache EncoderSched RequestQueue.
From S2P Require Import SchedUtils KVCache Scheduler SchedInv SchedBooks SchedPlan SchedRunning.
From S2P Require Import SchedWaiting SchedStep SchedUpdate.
From stdpp Require Import options.
Import Scheduler.

#[local] Set Default Proof Using "Type*".

(** Two filters that agree on the list. *)
Lemma filter_agree {A} (P Q : A -> Prop) `{!forall x, Decision (P x)} `{!forall x, Decision (Q x)}
    (l : list A) :
  (forall x, x ∈ l -> P x <-> Q x) -> filter P l = filter Q l.
Proof.
  induction l as [|x l IH]; [done|]. intros HPQ. rewrite !filter_cons, IH by set_solver.
  pose proof (HPQ x ltac:(left)). repeat case_decide; tauto.
Qed.

Lemma list_snoc {A} (l : list A) : l = [] \/ exists l' x, l = l' ++ [x].
Proof. destruct l using rev_ind; [by left|]. right. by eexists _, _. Qed.

Section calls.
Context {KV EC : Type} `{Hkv : KVCache KV} `{Htok : Tokens} `{Hec : EncoderCache EC} `{SetIter}.
Context (c : Config) (size : mm_key -> Z).
Context `{!KVCacheLaws KV (max_model_len c)} `{!EncoderCacheLaws EC size}.
Implicit Types (s : @t KV EC) (wl sl kl : list Request) (r : Request) (o n : Z) (R done : list Z).

Abbreviation kept := (kvc_kept (S := KV) (max_len := max_model_len c)).
Abbreviation sinv := (sinv c size).
Abbreviation request_ok := (request_ok c size).
Abbreviation no_drafts := (fun _ : string => 0).
Abbreviation ids l := (obj_id <$> l).

(** ** Finishing requests *)

(** The requests that may be finished: those the dict has. *)
Lemma valid_request_run D s wl sl kl rid :
  sinv D s wl sl kl ->
  succeeds (valid_request rid) s (fun l s' => s' = s
    /\ l = match dict_get rid (requests s) with Some o => [o] | None => [] end).
Proof.
  intros Hs. unfold valid_request. sstep. apply succeeds_get.
  destruct (dict_get rid (requests s)) as [o|] eqn:Hreq; [|by sstep].
  apply dict_get_Some in Hreq. destruct (i_objects Hs Hreq) as (r & Hr & _ & Hobj & _).
  sstep. eapply deref_spec; [exact Hr|]. sstep. split; [done|].
  assert (is_finished (status r) = false) as ->; [|done].
  assert (o ∈ running s ++ ids (wl ++ sl ++ kl)) as Ho.
  { rewrite <- (i_known Hs). by apply (list_elem_of_fmap_2 snd) in Hreq. }
  apply elem_of_app in Ho as [Ho|(q & -> & Hq)%list_elem_of_fmap].
  - by destruct (i_running Hs Ho Hr) as [-> _].
  - by destruct (i_queued Hs Hq Hr) as [[->|[->| ->]] _].
Qed.

Definition known_objects s (rids : list string) : list Z :=
  rids ≫= (fun rid => match dict_get rid (requests s) with Some o => [o] | None => [] end).

Lemma known_objects_elem D s wl sl kl rids o :
  sinv D s wl sl kl -> o ∈ known_objects s rids <-> exists rid, rid ∈ rids /\ (rid, o) ∈ requests s.
Proof.
  intros Hs. unfold known_objects. rewrite list_elem_of_bind. split.
  - intros (rid & Ho & Hin). destruct (dict_get rid (requests s)) eqn:E; [|set_solver].
    apply list_elem_of_singleton in Ho as ->. exists rid. split; [done|]. by apply dict_get_Some.
  - intros (rid & Hin & Ho). exists rid. split; [|done].
    rewrite (dict_get_NoDup _ _ _ (i_ids Hs) Ho). set_solver.
Qed.

Lemma known_objects_NoDup D s wl sl kl rids :
  sinv D s wl sl kl -> NoDup rids -> NoDup (known_objects s rids).
Proof.
  intros Hs. induction rids as [|rid rids IH]; [constructor|]. intros [Hn Hnd]%NoDup_cons.
  unfold known_objects in *. simpl. apply NoDup_app. split; [|split; [|by apply IH]].
  - destruct (dict_get rid _); [apply NoDup_singleton|constructor].
  - intros o Ho Ho'. destruct (dict_get rid (requests s)) as [o'|] eqn:E; [|set_solver].
    apply list_elem_of_singleton in Ho as ->. apply dict_get_Some in E.
    apply (known_objects_elem D s wl sl kl rids _ Hs) in Ho' as (rid' & Hin & Ho').
    destruct (i_objects Hs E) as (r & Hr & <- & _). destruct (i_objects Hs Ho') as (r' & Hr' & <- & _).
    simplify_eq. done.
Qed.

Definition outside (l : list Z) R : list Z := filter (fun o => o ∉ l) R.
Definition queued_outside (l : list Z) wl : list Request := filter (fun q => obj_id q ∉ l) wl.
Definition queued_in (l : list Z) wl : list Request := filter (fun q => obj_id q ∈ l) wl.

Lemma ids_outside l wl : ids (queued_outside l wl) = outside l (ids wl).
Proof using Type.
  unfold queued_outside, outside. induction wl as [|q wl IH]; [done|].
  rewrite fmap_cons, !filter_cons. case_decide; [|done]. rewrite fmap_cons. by f_equal.
Qed.

(** Between the two passes: the requests of [l] are out of the queues; those in
    [done] are freed.  [R]: what [running] was. *)
Record finishing (D : string -> Z) s0 wl sl R (l done : list Z) s : Prop := {
  fi_inv : sinv D (set_running (outside done R) s) (queued_outside l wl) (queued_outside l sl)
             (queued_outside done (queued_in l (wl ++ sl)));
  fi_running : running s = outside l R;
  fi_todo : forall o, o ∉ done -> objects s !! o = objects s0 !! o;
  fi_requests : requests s = filter (fun x => x.2 ∉ done) (requests s0);
  fi_prev : prev_step_scheduled_req_ids s = prev_step_scheduled_req_ids s0;
  fi_pause : pause_state s = pause_state s0;
  fi_ids : same_ids s0 s;
}.

Lemma outside_snoc l o R : outside (l ++ [o]) R = without o (outside l R).
Proof using Type.
  unfold outside, without. rewrite list_filter_filter. apply list_filter_iff. set_solver.
Qed.

Lemma without_perm o R : NoDup R -> o ∈ R -> R ≡ₚ o :: without o R.
Proof using Type.
  intros Hnd Ho. unfold without. rewrite <- remove_first_filter by done.
  apply list_elem_of_split in Ho as (l1 & l2 & ->). rewrite remove_first_split by done.
  by rewrite Permutation_middle.
Qed.

Lemma finish_one D s0 wl sl R l done o st s :
  sinv D s0 wl sl [] -> finishing D s0 wl sl R l done s -> is_finished st ->
  o ∈ l -> o ∉ done -> o ∈ (requests s0).*2 ->
  succeeds (assign o (set_status st) ;;; _free_request o) s (fun _ s' =>
    finishing D s0 wl sl R l (done ++ [o]) s').
Proof.
  intros Hs0 [Hs Hrun Htodo Hreq Hprev Hpause Hids] Hst Hol Hnew Hknown.
  set (W := queued_outside l wl) in *. set (S := queued_outside l sl) in *.
  set (K := queued_outside done (queued_in l (wl ++ sl))) in *.
  assert ((requests s).*2 ≡ₚ outside done R ++ ids (W ++ S ++ K)) as Hperm by exact (i_known Hs).
  assert (NoDup (outside done R ++ ids (W ++ S ++ K))) as Hnd by exact (i_distinct Hs).
  assert (o ∈ outside done R ++ ids (W ++ S ++ K)) as Ho.
  { rewrite <- Hperm, Hreq. apply list_elem_of_fmap in Hknown as (x & -> & Hx).
    apply list_elem_of_fmap_2. by apply list_elem_of_filter. }
  destruct (known_object Hs (o := o) Ho) as (r & Hr & Hobj & Hin & Hok). simpl in Hr, Hin.
  sstep. eapply assign_spec; [exact Hr|].
  eapply succeeds_mono; [apply (free_request_run c size D (outside done R) s W S K o r _ Hs Ho Hr); try done|].
  intros ? s' Hf. assert (requests s' = dict_del (request_id r) (requests s)) as Ereq by apply Hf.
  assert (o ∉ ids (W ++ S)) as HoW.
  { unfold W, S. rewrite fmap_app, !ids_outside. unfold outside.
    rewrite elem_of_app, !list_elem_of_filter. tauto. }
  assert (outside done R ++ ids (W ++ S ++ K) ≡ₚ o :: without o (outside done R)
    ++ ids (W ++ S ++ queued_outside (done ++ [o]) (queued_in l (wl ++ sl)))) as Hp.
  { rewrite (without_perm o _ Hnd Ho). unfold without at 1. rewrite filter_app, !app_assoc, !fmap_app.
    rewrite !filter_app, !app_assoc. unfold K. rewrite !ids_outside, outside_snoc.
    fold (without o (outside done R)). rewrite <- !app_assoc. rewrite fmap_app in HoW. unfold without.
    rewrite (list_filter_all _ (ids W)), (list_filter_all _ (ids S)); [done|..];
      intros x Hx ->; set_solver. }
  split.
  - rewrite outside_snoc.
    apply (sinv_freed c size D (outside done R) _ s s' W S K _ o r _ Hs Hr Hf Hp).
    + intros x Hx. by apply list_elem_of_filter in Hx as [_ ?].
    + unfold K. rewrite !ids_outside, outside_snoc. intros x Hx. by apply list_elem_of_filter in Hx as [_ ?].
  - rewrite <- Hrun. apply Hf.
  - intros o' Ho'. assert (objects s' = _) as -> by apply Hf. rewrite lookup_insert_ne by set_solver.
    apply Htodo. set_solver.
  - rewrite Ereq, dict_del_filter by apply (i_ids Hs).
    transitivity (filter (fun x => x.2 <> o) (requests s)).
    + apply filter_agree. intros [rid' o'] Hx. simpl. f_equiv. destruct (i_objects Hs Hx) as (x & Hx1 & <- & _).
      simpl in Hx1. split; [|by intros ->; simplify_eq]. intros Heq. rewrite Heq in Hx.
      pose proof (dict_get_NoDup _ _ _ (i_ids Hs) Hx) as H1.
      pose proof (dict_get_NoDup _ _ _ (i_ids Hs) Hin) as H2. simpl in H1, H2. congruence.
    + rewrite Hreq, list_filter_filter. apply list_filter_iff. set_solver.
  - rewrite <- Hprev. apply Hf.
  - rewrite <- Hpause. apply Hf.
  - eapply same_ids_trans; [exact Hids|]. eapply freed_ids; [exact Hf|apply (i_ids Hs)|].
    by apply (list_elem_of_fmap_2 fst) in Hin.
Qed.

Lemma split_queue l wl : ids (queued_outside l wl ++ queued_in l wl) ≡ₚ ids wl.
Proof using Type.
  unfold queued_outside, queued_in. f_equiv. rewrite (Permutation_app_comm (filter _ wl)).
  apply (filter_app_complement (fun q => obj_id q ∈ l)).
Qed.

(** What [status r = RUNNING] says of a known request. *)
Lemma known_status D s wl sl o r :
  sinv D s wl sl [] -> o ∈ running s ++ ids (wl ++ sl ++ []) -> objects s !! o = Some r ->
  status r = RUNNING <-> o ∈ running s.
Proof.
  intros Hs Ho Hr. split; [|intros Hrun; by destruct (i_running Hs Hrun Hr)].
  apply elem_of_app in Ho as [?|(q & -> & Hq)%list_elem_of_fmap]; [done|].
  by destruct (i_queued Hs Hq Hr) as [[->|[->| ->]] _].
Qed.

(** The first pass: the queues give up the requests. *)
Lemma first_pass_spec D s wl sl l reqs :
  sinv D s wl sl [] -> l ⊆ running s ++ ids (wl ++ sl ++ []) ->
  Forall2 (fun o r => objects s !! o = Some r) l reqs ->
  succeeds (match obj_id <$> filter (fun r => status r = RUNNING) reqs with
            | [] => ret tt
            | _ :: _ => drop_running (list_to_set (obj_id <$> filter (fun r => status r = RUNNING) reqs))
            end ;;;
            match filter (fun r => status r <> RUNNING) reqs with
            | [] => ret tt
            | _ :: _ => on_waiting (remove_requests (filter (fun r => status r <> RUNNING) reqs)) ;;;
                        on_skipped (remove_requests (filter (fun r => status r <> RUNNING) reqs))
            end) s (fun _ s' => finishing D s wl sl (running s) l [] s').
Proof.
  intros Hs Hl Hreqs.
  assert (forall r, r ∈ reqs -> exists o, o ∈ l /\ objects s !! o = Some r /\ obj_id r = o) as Hback.
  { intros r Hr. apply list_elem_of_lookup in Hr as [i Hi].
    destruct (Forall2_lookup_r _ _ _ _ _ Hreqs Hi) as (o & Ho & Hor).
    apply list_elem_of_lookup_2 in Ho. exists o. split_and!; try done.
    destruct (known_object Hs (Hl o Ho)) as (r' & Hr' & Hobj & _). by simplify_eq. }
  assert (forall o, o ∈ l -> exists r, r ∈ reqs /\ objects s !! o = Some r /\ obj_id r = o) as Hfwd.
  { intros o Ho. pose proof (Hl o Ho) as Hk. apply list_elem_of_lookup in Ho as [i Hi].
    destruct (Forall2_lookup_l _ _ _ _ _ Hreqs Hi) as (r & Hri & Hor). exists r.
    split; [by eapply list_elem_of_lookup_2|]. split; [done|].
    destruct (known_object Hs Hk) as (r' & Hr' & Hobj & _). by simplify_eq. }
  set (A := obj_id <$> filter _ reqs). set (B := filter (fun r => status r <> RUNNING) reqs).
  pose proof (i_distinct Hs) as Hdis.
  assert (filter (fun o => o ∉ A) (running s) = outside l (running s)) as HA.
  { apply filter_agree. intros o Ho. f_equiv. unfold A. rewrite list_elem_of_fmap. split.
    - intros (r & -> & [Hst Hr]%list_elem_of_filter). by destruct (Hback r Hr) as (o' & Ho' & _ & ->).
    - intros Hol. destruct (Hfwd o Hol) as (r & Hr & Hor & Hobj). exists r. split; [done|].
      apply list_elem_of_filter. split; [|done]. by apply (known_status D s wl sl o r Hs (Hl o Hol) Hor). }
  assert (forall ql, ql ⊆ wl ++ sl ++ [] ->
    filter (fun x => in_requests x B = false) ql = queued_outside l ql) as HB.
  { intros ql Hql. apply filter_agree. intros q Hq. rewrite <- not_true_iff_false, in_requests_spec.
    assert (obj_id q ∉ running s) as Hnr.
    { eapply queued_not_running; [exact Hs|]. by apply list_elem_of_fmap_2, Hql. }
    f_equiv. unfold B. rewrite list_elem_of_fmap. split.
    - intros (r & Heq & [_ Hr]%list_elem_of_filter). destruct (Hback r Hr) as (o & Ho & _ & Hob). congruence.
    - intros Hol. destruct (Hfwd _ Hol) as (r & Hr & Hor & Hobj). exists r. split; [done|].
      apply list_elem_of_filter. split; [|done]. by rewrite (known_status D s wl sl _ r Hs (Hl _ Hol) Hor). }
  sstep. apply succeeds_mono with (Q := fun _ s' => s' = set_running (outside l (running s)) s).
  { rewrite <- HA. destruct A as [|a A']; [sstep; rewrite list_filter_all by set_solver; by destruct s|].
    unfold drop_running. sstep. rewrite remove_all_filter by (by apply NoDup_app in Hdis as [? _]).
    f_equal. apply list_filter_iff. intros o. by rewrite elem_of_elements, elem_of_list_to_set. }
  intros ? s1 ->.
  apply succeeds_mono with (Q := fun _ s' => exists W S,
    s' = set_skipped S (set_waiting W (set_running (outside l (running s)) s))
    /\ queue_rep (policy c) W (queued_outside l wl) /\ queue_rep (policy c) S (queued_outside l sl)).
  { destruct B as [|b B'] eqn:EB.
    - sstep. exists (waiting s), (skipped_waiting s). split; [by destruct s|].
      rewrite <- !HB by set_solver. simpl. rewrite !list_filter_all by done. split; apply Hs.
    - cbv zeta. sstep. apply succeeds_zoom. eapply succeeds_mono; [apply (remove_requests_spec (policy c) _ wl), Hs|].
      intros ? W HW. apply succeeds_zoom. eapply succeeds_mono; [apply (remove_requests_spec (policy c) _ sl), Hs|].
      intros ? S HS. exists W, S. split; [done|]. rewrite <- !HB by set_solver. by split. }
  intros ? s2 (W & S & -> & HW & HS). split; simpl; try done.
  - replace (set_running _ _) with (set_skipped S (set_waiting W s)).
    2: { unfold outside. rewrite list_filter_all by set_solver. by destruct s. }
    eapply sinv_queues; [exact Hs|done..|]. unfold queued_outside at 3. rewrite list_filter_all by set_solver.
    rewrite app_nil_r, <- (split_queue l (wl ++ sl)). f_equiv. unfold queued_outside. by rewrite filter_app, app_assoc.
  - by rewrite list_filter_all by set_solver.
Qed.

(** After [finish_requests] of the ids [rids]. *)
Record finished s wl sl D (rids : list string) s' : Prop := {
  fd_inv : sinv D s' (queued_outside (known_objects s rids) wl)
             (queued_outside (known_objects s rids) sl) [];
  fd_running : running s' = outside (known_objects s rids) (running s);
  fd_requests : forall rid, dict_get rid (requests s') =
    if decide (rid ∈ rids) then None else dict_get rid (requests s);
  fd_objects : forall o, o ∉ known_objects s rids -> objects s' !! o = objects s !! o;
  fd_prev : prev_step_scheduled_req_ids s' = prev_step_scheduled_req_ids s;
  fd_pause : pause_state s' = pause_state s;
  fd_ids : same_ids s s';
}.

Lemma finishing_done D s wl sl rids s' :
  sinv D s wl sl [] ->
  finishing D s wl sl (running s) (known_objects s rids) (known_objects s rids) s' ->
  finished s wl sl D rids s'.
Proof.
  intros Hs []. split; try done.
  - replace s' with (set_running (outside (known_objects s rids) (running s)) s')
      by (rewrite <- fi_running0; by destruct s').
    replace (@nil Request) with (queued_outside (known_objects s rids) (queued_in (known_objects s rids) (wl ++ sl)));
      [done|].
    unfold queued_outside, queued_in. rewrite list_filter_filter. generalize (wl ++ sl). intros l.
    induction l as [|q l IH]; [done|]. rewrite filter_cons_False by tauto. done.
  - intros rid. assert (forall o, (rid, o) ∈ requests s' <-> (rid ∉ rids) /\ (rid, o) ∈ requests s) as Hin.
    { intros o. rewrite fi_requests0, list_elem_of_filter. simpl.
      rewrite (known_objects_elem D s wl sl [] rids o Hs). split; [|intros [Hn Ho]; split; [|done]].
      - intros [Hn Ho]. split; [|done]. intros Hr. apply Hn. by exists rid.
      - intros (rid' & Hr & Ho'). destruct (i_objects Hs Ho) as (r & Hr1 & <- & _).
        destruct (i_objects Hs Ho') as (r' & Hr2 & <- & _). by simplify_eq. }
    apply option_eq. intros o. split.
    + intros Ho%dict_get_Some%Hin. rewrite decide_False by tauto. by apply dict_get_NoDup; [apply (i_ids Hs)|apply Ho].
    + case_decide; [done|]. intros Ho%dict_get_Some. apply dict_get_NoDup; [apply (i_ids fi_inv0)|]. by apply Hin.
Qed.

Lemma finish_requests_run D s wl sl rids st :
  sinv D s wl sl [] -> is_finished st -> NoDup (default (requests s).*1 rids) ->
  succeeds (finish_requests rids st) s (fun _ s' =>
    finished s wl sl D (default (requests s).*1 rids) s').
Proof.
  intros Hs Hst Hnd. set (names := default _ _) in *. unfold finish_requests. sstep.
  apply succeeds_assert; [by apply Is_true_true|]. sstep. apply succeeds_get. sstep. fold names.
  eapply succeeds_mono; [apply (succeeds_mmapM_read _ (fun rid l =>
    l = match dict_get rid (requests s) with Some o => [o] | None => [] end))|].
  { intros rid _. by apply (valid_request_run D s wl sl []). }
  intros valid s1 [-> Hvalid]. cbv zeta.
  assert (concat valid = known_objects s names) as ->.
  { unfold known_objects. clear -Hvalid. induction Hvalid; simpl; [done|]. by subst; f_equal. }
  set (l := known_objects s names).
  assert (l ⊆ running s ++ ids (wl ++ sl ++ [])) as Hl.
  { intros o Ho. apply (known_objects_elem D s wl sl [] names o Hs) in Ho as (rid & _ & Ho).
    rewrite <- (i_known Hs). by apply (list_elem_of_fmap_2 snd) in Ho. }
  sstep. eapply succeeds_mono; [apply (succeeds_mmapM_read _ (fun o r => objects s !! o = Some r))|].
  { intros o Ho. destruct (known_object Hs (Hl o Ho)) as (r & Hr & _). by eapply deref_spec. }
  intros reqs s1 [-> Hreqs]. apply succeeds_bind_assoc.
  eapply succeeds_mono; [by apply (first_pass_spec D s wl sl l reqs Hs Hl)|].
  intros ? s1 Hf. sstep.
  eapply succeeds_mono; [apply (succeeds_mfor _ (fun pre _ s' => finishing D s wl sl (running s) l pre s'))|].
  - done.
  - intros pre o todo s2 Heq Hf2. assert (NoDup l) as Hndl by (by eapply known_objects_NoDup).
    rewrite Heq in Hndl. apply NoDup_app_cons_inv in Hndl as [Hpre _].
    apply (finish_one D s wl sl (running s) l pre o st s2); try done; [rewrite Heq; set_solver|].
    rewrite (i_known Hs). apply Hl. rewrite Heq. set_solver.
  - intros ? s2 Hf2. sstep. by apply finishing_done.
Qed.

(** ** Adding a request *)

(** A request as the engine adds it. *)
Record request_new r : Prop := {
  rn_ok : request_ok r;
  rn_status : status r = WAITING \/ status r = WAITING_FOR_STRUCTURED_OUTPUT_GRAMMAR;
  rn_computed : num_computed_tokens r = 0;
}.

Record added D s wl sl r s' : Prop := {
  ad_queues : exists wl' sl', sinv D s' wl' sl' [] /\ wl' ++ sl' ≡ₚ r :: wl ++ sl
    /\ prev_ok s' (ids (wl' ++ sl'));
  ad_running : running s' = running s;
  ad_requests : requests s' = requests s ++ [(request_id r, obj_id r)];
  ad_others : objects s' = <[obj_id r := r]> (objects s);
  ad_finished : finished_req_ids s' = finished_req_ids s;
}.

Lemma sinv_added D s wl sl r W S wl' sl' :
  sinv D s wl sl [] -> request_new r -> request_id r ∉ (requests s).*1 -> obj_id r ∉ (requests s).*2 ->
  queue_rep (policy c) W wl' -> queue_rep (policy c) S sl' -> wl' ++ sl' ≡ₚ r :: wl ++ sl ->
  sinv D (set_requests (requests s ++ [(request_id r, obj_id r)])
           (set_skipped S (set_waiting W (set_objects (<[obj_id r := r]> (objects s)) s)))) wl' sl' [].
Proof.
  intros Hs [Hok Hst Hcomp] Hid Hobj HW HS Hp.
  rewrite (i_known Hs), app_nil_r in Hobj.
  assert (running s ++ ids (wl' ++ sl' ++ []) ≡ₚ obj_id r :: running s ++ ids (wl ++ sl ++ [])) as Hp'
    by (rewrite !app_nil_r, Hp; simpl; by rewrite Permutation_middle).
  assert (forall o, o ∈ running s ++ ids (wl ++ sl) -> o <> obj_id r) as Hne by (intros o Ho ->; done).
  split; simpl; try done; try apply Hs.
  - rewrite Hp'. apply NoDup_cons. rewrite app_nil_r. split; [done|].
    pose proof (i_distinct Hs) as Hd. by rewrite app_nil_r in Hd.
  - rewrite fmap_app, Hp', (i_known Hs). simpl. by rewrite <- Permutation_cons_append.
  - rewrite fmap_app. apply NoDup_app. split; [apply Hs|]. split; [|apply NoDup_singleton].
    intros x Hx Hx'. apply list_elem_of_singleton in Hx'. by subst.
  - intros rid o [Hin|Hin]%elem_of_app.
    + rewrite lookup_insert_ne; [by apply (i_objects Hs)|]. symmetry. apply Hne.
      apply (list_elem_of_fmap_2 snd) in Hin. rewrite (i_known Hs), app_nil_r in Hin. done.
    + apply list_elem_of_singleton in Hin as [= -> ->]. exists r. by rewrite lookup_insert_eq.
  - intros o x Ho. rewrite lookup_insert_ne by (symmetry; apply Hne; set_solver). by apply (i_running Hs).
  - intros q x. rewrite app_nil_r, Hp. intros [->|Hq]%elem_of_cons.
    + rewrite lookup_insert_eq. intros [= <-]. split; [|done]. unfold waiting_status. tauto.
    + rewrite lookup_insert_ne; [apply (i_queued Hs); by rewrite app_nil_r|]. symmetry. apply Hne.
      apply elem_of_app. right. by apply list_elem_of_fmap_2.
  - intros rid Hrid. apply (i_clear Hs). intros o x Ho Hx. apply (Hrid o); [done|].
    rewrite lookup_insert_ne; [done|]. symmetry. apply Hne. set_solver.
Qed.

Lemma add_request_run D s wl sl r :
  sinv D s wl sl [] -> prev_ok s (ids (wl ++ sl)) -> request_new r ->
  request_id r ∉ (requests s).*1 -> obj_id r ∉ (requests s).*2 ->
  succeeds (Scheduler.add_request r) s (fun _ s' => added D s wl sl r s').
Proof.
  intros Hs Hprev Hnew Hid Hobj. unfold Scheduler.add_request. sstep. apply succeeds_get.
  destruct (dict_get (request_id r) (requests s)) eqn:Hget.
  { exfalso. apply Hid, dict_get_elem. by eexists. }
  pose proof Hobj as Hfresh. rewrite (i_known Hs), app_nil_r in Hfresh.
  sstep. sstep. sstep.
  apply succeeds_mono with (Q := fun _ s' => exists W S wl' sl',
    s' = set_skipped S (set_waiting W (set_objects (<[obj_id r := r]> (objects s)) s))
    /\ queue_rep (policy c) W wl' /\ queue_rep (policy c) S sl' /\ wl' ++ sl' ≡ₚ r :: wl ++ sl).
  { assert ((obj_id r ∉ ids wl) /\ (obj_id r ∉ ids sl)) as [Hwl Hsl] by (rewrite fmap_app in Hfresh; set_solver).
    unfold _enqueue_waiting_request.
    destruct (_is_blocked_waiting_status _); apply succeeds_zoom.
    - eapply succeeds_mono; [by apply (add_request_spec (policy c) _ sl); [apply Hs|]|].
      intros ? S (sl' & Hp & HS). exists (waiting s), S, wl, sl'. split; [done|].
      split; [apply Hs|]. split; [done|]. rewrite Hp. by rewrite Permutation_middle.
    - eapply succeeds_mono; [by apply (add_request_spec (policy c) _ wl); [apply Hs|]|].
      intros ? W (wl' & Hp & HW). exists W, (skipped_waiting s), wl', sl. split; [done|].
      split; [done|]. split; [apply Hs|]. by rewrite Hp. }
  intros ? s' (W & S & wl' & sl' & -> & HW & HS & Hp). sstep.
  change (requests (set_skipped S _)) with (requests s). rewrite (dict_set_new _ _ (requests s)) by done.
  split; try done. exists wl', sl'. split; [by eapply sinv_added|]. split; [done|].
  intros o x. rewrite Hp. simpl. intros [->|Ho]%elem_of_cons.
  - rewrite lookup_insert_eq. intros [= <-]. destruct Hnew as [_ [-> | ->] _]; done.
  - rewrite lookup_insert_ne by set_solver. by apply Hprev.
Qed.

(** ** Draft tokens *)

(** [s'] is [s] but for facts the invariant does not speak of. *)
Record same_requests s s' : Prop := {
  sr_state : s' = set_objects (objects s') s;
  sr_objects : forall o r', objects s' !! o = Some r' -> exists r,
    objects s !! o = Some r /\ same_facts c size r r';
}.

Lemma same_requests_assign s s' o r r' :
  same_requests s s' -> objects s' !! o = Some r -> same_facts c size r r' ->
  same_requests s (set_objects (<[o := r']> (objects s')) s').
Proof using Type.
  intros [Hst Hobj] Hr Hsame. split; [by rewrite Hst|]. simpl. intros o' x.
  destruct (decide (o' = o)) as [->|Hne].
  - rewrite lookup_insert_eq. intros [= <-]. destruct (Hobj o r Hr) as (y & Hy & (? & ? & ? & ? & ? & ? & ?)).
    destruct Hsame as (? & ? & ? & ? & ? & ? & ?). exists y. split; [done|].
    unfold same_facts. split_and!; try congruence. auto.
  - rewrite lookup_insert_ne by done. apply Hobj.
Qed.

Lemma same_requests_prev s s' l : same_requests s s' -> prev_ok s l -> prev_ok s' l.
Proof using Type.
  intros [Hst Hobj] Hprev o r' Ho Hr'. destruct (Hobj o r' Hr') as (r & Hr & Hid & _ & -> & _).
  intros Hp. rewrite Hid.
  assert (prev_step_scheduled_req_ids s' = prev_step_scheduled_req_ids s) as -> by (by rewrite Hst).
  exact (Hprev o r Ho Hr Hp).
Qed.

(** The drafter proposes nothing for pooling requests. *)
Definition drafts_ok s (structured : Request -> list Z -> list Z) (drafts : list (string * list Z)) : Prop :=
  forall rid toks o r, (rid, toks) ∈ drafts -> dict_get rid (requests s) = Some o ->
    objects s !! o = Some r -> pooling_params r <> None -> structured r toks = [].

Lemma spec_same_facts r toks :
  (pooling_params r <> None -> toks = []) -> same_facts c size r (set_spec_token_ids toks r).
Proof using Type.
  intros Ht. split_and!; try done. intros Hok. apply progress_ok; [done|]. exact Ht.
Qed.

(** The structured-output manager looks at what never changes in between. *)
Lemma update_draft_run D s wl sl structured drafts :
  sinv D s wl sl [] ->
  (forall o r r' toks, objects s !! o = Some r -> same_facts c size r r' -> pooling_params r <> None ->
     (exists rid, (rid, toks) ∈ drafts /\ dict_get rid (requests s) = Some o) -> structured r' toks = []) ->
  succeeds (update_draft_token_ids structured drafts) s (fun _ s' =>
    sinv D s' wl sl [] /\ same_requests s s').
Proof.
  intros Hs Hdrafts. unfold update_draft_token_ids.
  eapply succeeds_mono; [apply (succeeds_mfor _ (fun _ _ s' => sinv D s' wl sl [] /\ same_requests s s'))|done].
  { split; [done|]. split; [by destruct s|]. intros o r Hr. exists r. by split_and!. }
  intros pre [rid toks] todo s1 Hl [Hs1 Hsame]. cbn [fst snd]. sstep. apply succeeds_get.
  destruct (dict_get rid (requests s1)) as [o|] eqn:Hreq; [|by sstep].
  destruct (known_rid c size _ _ _ _ _ _ _ Hs1 Hreq) as (r & Hr & _).
  sstep. eapply deref_spec; [exact Hr|]. destruct (is_finished _); [by sstep|].
  assert (forall l, (pooling_params r <> None -> l = []) ->
    succeeds (assign o (set_spec_token_ids l)) s1 (fun _ s' => sinv D s' wl sl [] /\ same_requests s s')) as Hassign.
  { intros l Hpool. eapply assign_spec; [exact Hr|]. split.
    - eapply sinv_assign; [exact Hs1|exact Hr|by apply spec_same_facts].
    - eapply same_requests_assign; [exact Hsame|exact Hr|by apply spec_same_facts]. }
  destruct (is_prefill_chunk r).
  - destruct (spec_token_ids r); [by sstep|]. by apply Hassign.
  - apply Hassign. intros Hpool. destruct Hsame as [Hst Hobj].
    destruct (Hobj o r Hr) as (r0 & Hr0 & Hf). apply (Hdrafts o r0 r toks Hr0 Hf).
    + by destruct Hf as (_ & _ & _ & _ & _ & <- & _).
    + exists rid. split; [rewrite Hl; set_solver|]. by rewrite Hst in Hreq.
Qed.

(** ** Resets *)

Lemma preempt_all_spec D s wl sl fuel :
  sinv D s wl sl [] -> (length (running s) <= fuel)%nat ->
  succeeds (preempt_all fuel) s (fun _ s' => exists wl', sinv D s' wl' sl [] /\ running s' = []
    /\ requests s' = requests s /\ finished_req_ids s' = finished_req_ids s
    /\ pause_state s' = pause_state s).
Proof.
  revert s wl. induction fuel as [|fuel IH]; intros s wl Hs Hlen; simpl; sstep; apply succeeds_get.
  { destruct (running s) eqn:Hrun; [sstep; by exists wl|simpl in Hlen; lia]. }
  destruct (list_snoc (running s)) as [Hrun|(R & o & Hrun)].
  { rewrite Hrun. sstep. by exists wl. }
  destruct (running s) as [|o0 R0] eqn:E; [by destruct R|]. rewrite Hrun in *. clear R0 o0 Hrun.
  sstep. eapply succeeds_of_option; [apply py_last_app|]. sstep. sstep. rewrite E, py_take_last. sstep.
  replace R with (R ++ []) at 1 by apply app_nil_r.
  eapply succeeds_mono; [by apply (preempt_spec c size D s wl sl [] R [] o)|].
  intros ? s1 (wl1 & r & Hs1 & Hrun1 & Hpf & Hp). rewrite app_nil_r in Hrun1.
  destruct Hpf as [Hr Hobj Hreq Hsk Hprev Hfin Hpause _ _].
  assert (request_ok r) as Hok.
  { destruct (known_object Hs (o := o)) as (r' & Hr' & _ & _ & Hok); [rewrite E; set_solver|]. by simplify_eq. }
  set (r1 := set_discard_latest true (set_num_output_placeholders 0 (preempted r))).
  assert (objects s1 !! o = Some (preempted r)) as Hr1 by (by rewrite Hobj, lookup_insert_eq).
  sstep. eapply assign_spec; [exact Hr1|]. sstep. eapply assign_spec; [apply lookup_insert_eq|].
  unfold set_objects at 1. simpl. rewrite insert_insert_eq.
  assert (sinv D (set_objects (<[o := r1]> (objects s1)) s1) wl1 sl []) as Hs2.
  { eapply sinv_assign; [exact Hs1|exact Hr1|]. split_and!; try done. intros [].
    split; try done; [by apply kvc_good_progress, kvc_good_progress|by apply (encodable_same c size (preempted r))]. }
  eapply succeeds_mono; [apply (IH _ wl1 Hs2)|].
  - simpl. rewrite Hrun1. rewrite length_app in Hlen. simpl in Hlen. lia.
  - intros ? s3 (wl3 & Hs3 & Hrun3 & Hreq3 & Hfin3 & Hpause3). exists wl3.
    split; [done|]. split; [done|]. simpl in *. split_and!; congruence.
Qed.

Lemma reset_prefix_run s wl sl b :
  sinv no_drafts s wl sl [] -> prev_ok s (ids (wl ++ sl)) ->
  succeeds (reset_prefix_cache b) s (fun ok s' => (b = true -> ok = true /\ running s' = [])
    /\ requests s' = requests s /\ finished_req_ids s' = finished_req_ids s
    /\ exists wl', sinv no_drafts s' wl' sl [] /\ prev_ok s' (ids (wl' ++ sl))).
Proof.
  intros Hs Hprev. unfold reset_prefix_cache. sstep.
  apply succeeds_mono with (Q := fun _ s1 => (b = true -> running s1 = [])
    /\ requests s1 = requests s /\ finished_req_ids s1 = finished_req_ids s
    /\ exists wl', sinv no_drafts s1 wl' sl [] /\ prev_ok s1 (ids (wl' ++ sl))).
  { destruct b; [|sstep; split; [done|]; split; [done|]; split; [done|]; by exists wl].
    sstep. apply succeeds_get. sstep.
    eapply succeeds_mono; [by apply (preempt_all_spec no_drafts s wl sl _ Hs)|].
    intros ? s1 (wl1 & Hs1 & Hrun & Hreq & Hfin & _). sstep. split; [done|]. split; [done|].
    split; [done|]. exists wl1. split; [by apply sinv_prev|]. intros o r _ _ _. simpl. set_solver. }
  intros ? s1 (Hrun & Hreq & Hfin & wl1 & Hs1 & Hprev1). sstep. apply on_kv_spec.
  eapply succeeds_mono; [apply (kvc_reset_spec (max_len := max_model_len c)), (i_kv Hs1)|].
  intros ok k [Hk Hok].
  assert (b = true -> ok = true) as Hb.
  { intros ->. apply Hok. intros rid. apply (i_clear Hs1). rewrite Hrun by done. set_solver. }
  destruct (b && negb ok)%bool eqn:Hbad.
  { apply andb_true_iff in Hbad as [-> Hbad]. by rewrite Hb in Hbad. }
  sstep. split; [auto|]. split; [done|]. split; [done|]. exists wl1. split; [by apply sinv_kv|done].
Qed.

Lemma reset_encoder_run D s wl sl :
  sinv D s wl sl [] ->
  succeeds reset_encoder_cache s (fun _ s' => sinv D s' wl sl []
    /\ s' = set_enc (encoder_cache_manager s') s).
Proof.
  intros Hs. unfold reset_encoder_cache. apply on_enc_spec.
  eapply succeeds_mono; [apply (ec_reset_spec (size := size)), (i_enc Hs)|].
  intros ? e He. split; [|done]. apply sinv_enc; [done|apply He].
Qed.
End calls.
