(* ===== verification/Engine.v ===== *)
(** * The engine core

    Models v1/engine/core.py (and the two queries of sched/interface.py): [EngineCore]
    drives the scheduler and the model executor one step at a time; [EngineCoreProc]
    serves client requests between the steps, pauses, and shuts down.  The executor
    is outside: a step takes what it answers as an argument.  The background threads
    only fill the two queues: requests arrive as an argument of an iteration, aborts
    that arrive while the model runs as an argument of the step.

    Not modelled: sockets and threads, batch queues, data-parallel waves, profiling,
    sleep levels, LoRA calls and checks of the request that raise before it reaches the
    scheduler. *)

From stdpp Require Import sorting.
From S2P Require Import Prelude Request EncoderCache KVManager EncoderSched SchedUtils KVCache Scheduler.
From stdpp Require Import options.

(** The order in which Python iterates over [set(l)]. *)
Class StrSetIter := {
  str_set_iter : list string -> list string;
  str_set_iter_perm : forall l, str_set_iter l ≡ₚ remove_dups l;
}.

(** What one step meets outside the scheduler. *)
Record World := {
  grammar_ready : string -> bool;
  execute_model : Scheduler.SchedulerOutput -> Scheduler.ModelRunnerOutput;
    (** [execute_model] and [sample_tokens] of the executor *)
  late_aborts : list (list string);  (** put into [aborts_queue] while the model runs *)
  grammar_rejects : Request -> list Z -> bool;
  take_draft_token_ids : option (list (string * list Z));
  validate_tokens : Request -> list Z -> list Z;
}.

Module EngineCore.
Section engine_core.
Context {KV EC : Type} `{Hkv : KVCache KV} `{Htok : Tokens} `{Hec : EncoderCache EC} `{SetIter}.
Context `{StrSetIter} (c : Scheduler.Config) (use_spec_decode : bool).

Record t := Mk { scheduler : @Scheduler.t KV EC; aborts_queue : list (list string) }.

Definition set_scheduler (s : Scheduler.t) (e : t) : t := Mk s (aborts_queue e).
Definition set_aborts (q : list (list string)) (e : t) : t := Mk (scheduler e) q.
Definition on_scheduler {A} (m : M Scheduler.t A) : M t A := zoom scheduler set_scheduler m.

(** [SchedulerInterface.has_unfinished_requests] and [has_requests] *)
Definition has_unfinished_requests (s : @Scheduler.t KV EC) : bool :=
  0 <? Scheduler.get_num_unfinished_requests s.
Definition has_requests (s : @Scheduler.t KV EC) : bool :=
  (has_unfinished_requests s || Scheduler.has_finished_requests s)%bool.

(** The request's type and pooling task are checked before. *)
Definition add_request (request : Request) : M t unit := on_scheduler (Scheduler.add_request request).

Definition abort_requests (request_ids : list string) : M t unit :=
  on_scheduler (Scheduler.finish_requests (Some (str_set_iter request_ids)) FINISHED_ABORTED) ;;;
  ret tt.

Definition _process_aborts_queue : M t unit :=
  e <- get ;;
  match aborts_queue e with
  | [] => ret tt
  | q => modify (set_aborts []) ;;; abort_requests (concat q)
  end.

(** The outputs of the step, and whether the model was executed. *)
Definition step (w : World) : M t (list Scheduler.EngineCoreOutput * bool) :=
  e <- get ;;
  if negb (has_requests (scheduler e)) then ret ([], false)
  else
    scheduler_output <- on_scheduler (Scheduler.schedule c (grammar_ready w)) ;;
    let model_output := execute_model w scheduler_output in
    modify (fun e => set_aborts (aborts_queue e ++ late_aborts w) e) ;;;
    _process_aborts_queue ;;;
    engine_core_outputs <-
      on_scheduler (Scheduler.update_from_output c (grammar_rejects w) scheduler_output model_output) ;;
    ret (engine_core_outputs.1.1, 0 <? Scheduler.so_total_num_scheduled_tokens scheduler_output).

Definition post_step (w : World) (model_executed : bool) : M t unit :=
  if (negb (Scheduler.async_scheduling c) && use_spec_decode && model_executed)%bool then
    match take_draft_token_ids w with
    | Some draft_token_ids =>
        on_scheduler (Scheduler.update_draft_token_ids (validate_tokens w) draft_token_ids)
    | None => ret tt
    end
  else ret tt.

Definition reset_prefix_cache (reset_running_requests : bool) : M t bool :=
  on_scheduler (Scheduler.reset_prefix_cache reset_running_requests).

(** The executor's caches are outside. *)
Definition reset_encoder_cache : M t unit := on_scheduler Scheduler.reset_encoder_cache.

Definition _reset_caches (reset_running_requests : bool) : M t unit :=
  reset_prefix_cache reset_running_requests ;;; reset_encoder_cache.

Inductive PauseMode := keep | abort | wait.

#[export] Instance PauseMode_eq_dec : EqDecision PauseMode.
Proof. solve_decision. Defined.

Definition pause_of (mode : PauseMode) : Scheduler.PauseState :=
  match mode with keep => Scheduler.PAUSED_ALL | _ => Scheduler.PAUSED_NEW end.

(** In-process: a pause that waits is refused. *)
Definition pause_scheduler (mode : PauseMode) (clear_cache : bool) : M t unit :=
  match mode with wait => raise ValueError | _ => ret tt end ;;;
  (match mode with
   | abort => on_scheduler (Scheduler.finish_requests None FINISHED_ABORTED) ;;; ret tt
   | _ => ret tt
   end) ;;;
  on_scheduler (modify (Scheduler.set_pause_state (pause_of mode))) ;;;
  if clear_cache then _reset_caches true else ret tt.

Definition resume_scheduler : M t unit :=
  on_scheduler (modify (Scheduler.set_pause_state Scheduler.UNPAUSED)).

Definition is_scheduler_paused (e : t) : bool :=
  match Scheduler.pause_state (scheduler e) with Scheduler.UNPAUSED => false | _ => true end.

End engine_core.
End EngineCore.

Module EngineCoreProc.

Inductive EngineShutdownState := RUNNING | REQUESTED | SHUTTING_DOWN.

#[export] Instance EngineShutdownState_eq_dec : EqDecision EngineShutdownState.
Proof. solve_decision. Defined.

(** The utility methods that reach the scheduler. *)
Inductive utility :=
  | reset_prefix_cache (reset_running_requests : bool)
  | reset_encoder_cache
  | pause_scheduler_call (mode : EngineCore.PauseMode) (clear_cache : bool)
  | resume_scheduler.

Inductive client_request :=
  | WAKEUP
  | ADD (request : Request)
  | ABORT (request_ids : list string)
  | UTILITY (call_id : Z) (method : utility)
  | EXECUTOR_FAILED.

(** What the client is sent. *)
Inductive message :=
  | Outputs (l : list Scheduler.EngineCoreOutput)
  | Aborted (request_ids : list string)
  | UtilityResult (call_id : Z)
  | UtilityFailure (call_id : Z).

Section engine_proc.
Context {KV EC : Type} `{Hkv : KVCache KV} `{Htok : Tokens} `{Hec : EncoderCache EC} `{SetIter}.
Context `{StrSetIter} (c : Scheduler.Config) (use_spec_decode : bool) (shutdown_timeout : Z).

(** [callbacks]: the futures of pauses that wait for the engine to become idle: the
    call they belong to and [clear_cache]. *)
Record t := Mk {
  core : @EngineCore.t KV EC;
  shutdown_state : EngineShutdownState;
  engines_running : bool;
  callbacks : list (Z * bool);
  output_queue : list message;
}.

Definition set_core (e : EngineCore.t) (p : t) : t :=
  Mk e (shutdown_state p) (engines_running p) (callbacks p) (output_queue p).
Definition set_shutdown (st : EngineShutdownState) (p : t) : t :=
  Mk (core p) st (engines_running p) (callbacks p) (output_queue p).
Definition set_callbacks (l : list (Z * bool)) (p : t) : t :=
  Mk (core p) (shutdown_state p) (engines_running p) l (output_queue p).
Definition put_nowait (m : message) (p : t) : t :=
  Mk (core p) (shutdown_state p) (engines_running p) (callbacks p) (output_queue p ++ [m]).
Definition on_core {A} (m : M EngineCore.t A) : M t A := zoom core set_core m.
Definition on_scheduler {A} (m : M Scheduler.t A) : M t A := on_core (EngineCore.on_scheduler m).

Definition scheduler_of (p : t) : Scheduler.t := EngineCore.scheduler (core p).

(** Without a batch queue. *)
Definition has_work (p : t) : bool :=
  (engines_running p || EngineCore.has_requests (scheduler_of p))%bool.
Definition is_running (p : t) : bool := bool_decide (shutdown_state p = RUNNING).

(** One message; the code sends one per client. *)
Definition _send_abort_outputs (aborted_reqs : list string) : M t unit :=
  match aborted_reqs with [] => ret tt | l => modify (put_nowait (Aborted l)) end.

(** [true]: the call is answered by a future. *)
Definition pause_scheduler (call_id : Z) (mode : EngineCore.PauseMode) (clear_cache : bool) : M t bool :=
  (match mode with
   | EngineCore.abort =>
       aborted_reqs <- on_scheduler (Scheduler.finish_requests None FINISHED_ABORTED) ;;
       _send_abort_outputs aborted_reqs
   | _ => ret tt
   end) ;;;
  on_scheduler (modify (Scheduler.set_pause_state (EngineCore.pause_of mode))) ;;;
  p <- get ;;
  if negb (has_work p) then
    (if clear_cache then on_core (EngineCore._reset_caches true) else ret tt) ;;; ret false
  else modify (set_callbacks (callbacks p ++ [(call_id, clear_cache)])) ;;; ret true.

Definition run_utility (call_id : Z) (method : utility) : M t bool :=
  match method with
  | reset_prefix_cache b => on_core (EngineCore.reset_prefix_cache b) ;;; ret false
  | reset_encoder_cache => on_core EngineCore.reset_encoder_cache ;;; ret false
  | pause_scheduler_call mode clear_cache => pause_scheduler call_id mode clear_cache
  | resume_scheduler => on_core EngineCore.resume_scheduler ;;; ret false
  end.

(** A utility call that raises is answered with a failure. *)
Definition _invoke_utility_method (call_id : Z) (method : utility) : M t unit := fun p =>
  match run_utility call_id method p with
  | Ret future p => if future : bool then Ret tt p else Ret tt (put_nowait (UtilityResult call_id) p)
  | Raise _ p => Ret tt (put_nowait (UtilityFailure call_id) p)
  end.

Definition _handle_client_request (request : client_request) : M t unit :=
  p <- get ;;
  match request with
  | WAKEUP => ret tt
  | ADD req =>
      if is_running p then on_core (EngineCore.add_request req)
      else modify (put_nowait (Aborted [request_id req]))
  | ABORT request_ids => on_core (EngineCore.abort_requests request_ids)
  | UTILITY call_id method =>
      if is_running p then _invoke_utility_method call_id method
      else modify (put_nowait (UtilityFailure call_id))
  | EXECUTOR_FAILED => raise RuntimeError
  end.

(** [callbacks.pop()] until none is left: the last one first. *)
Definition engine_idle_callback (x : Z * bool) : M t unit :=
  (if x.2 then on_core (EngineCore._reset_caches true) else ret tt) ;;;
  modify (put_nowait (UtilityResult x.1)).

Definition _notify_idle_state_callbacks : M t unit :=
  p <- get ;;
  modify (set_callbacks []) ;;;
  mfor (rev (callbacks p)) engine_idle_callback.

Definition _process_engine_step (w : World) : M t bool :=
  x <- on_core (EngineCore.step c w) ;;
  (match x.1 with [] => ret tt | l => modify (put_nowait (Outputs l)) end) ;;;
  on_core (EngineCore.post_step c use_spec_decode w x.2) ;;;
  ret x.2.

(** [arrived]: the client requests that reach the queue before the loop goes on.
    [false]: it still waits for one. *)
Fixpoint _process_input_queue (arrived : list client_request) : M t bool :=
  p <- get ;;
  if (negb (has_work p) && is_running p)%bool then
    _notify_idle_state_callbacks ;;;
    match arrived with
    | [] => on_core (modify (EngineCore.set_aborts [])) ;;; ret false
    | req :: arrived => _handle_client_request req ;;; _process_input_queue arrived
    end
  else mfor arrived _handle_client_request ;;; ret true.

Definition _handle_shutdown : M t bool :=
  p <- get ;;
  match shutdown_state p with
  | RUNNING => ret true
  | st =>
      (match st with
       | REQUESTED =>
           (if shutdown_timeout =? 0 then
              aborted_reqs <- on_scheduler (Scheduler.finish_requests None FINISHED_ABORTED) ;;
              _send_abort_outputs aborted_reqs
            else ret tt) ;;;
           modify (set_shutdown SHUTTING_DOWN)
       | _ => ret tt
       end) ;;;
      p <- get ;;
      ret (has_work p)
  end.

(** One iteration of [run_busy_loop]: [false] when the loop ends. *)
Definition busy_iteration (arrived : list client_request) (w : World) : M t bool :=
  go <- _handle_shutdown ;;
  if go : bool then
    ready <- _process_input_queue arrived ;;
    (if ready : bool then _process_engine_step w ;;; ret tt else ret tt) ;;;
    ret true
  else ret false.

(** The signal handler. *)
Definition request_shutdown (p : t) : t := set_shutdown REQUESTED p.

End engine_proc.
End EngineCoreProc.
