(* ===== verification/EngineSafe.v ===== *)
(** * The engine never fails

    Every iteration of [run_busy_loop] keeps the scheduler's invariant and raises
    nothing, whatever requests, aborts, pauses and resets arrive, as long as request
    ids are fresh and the model runner answers as it should. *)

From stdpp Require Import sorting.
From S2P Require Import Prelude Request BlockHash KVManager EncoderCache EncoderSched RequestQueue.
From S2P Require Import SchedUtils KVCache Scheduler SchedInv SchedBooks SchedPlan SchedRunning.
From S2P Require Import SchedWaiting SchedStep SchedUpdate SchedCalls Engine.
From stdpp Require Import options.

#[local] Set Default Proof Using "Type".

Section engine.
Context {KV EC : Type} `{Hkv : KVCache KV} `{Htok : Tokens} `{Hec : EncoderCache EC} `{SetIter}.
Context `{StrSetIter} (c : Scheduler.Config) (size : mm_key -> Z) (use_spec_decode : bool).
Context `{!KVCacheLaws KV (Scheduler.max_model_len c)} `{!EncoderCacheLaws EC size}.
Implicit Types (s : @Scheduler.t KV EC) (e : @EngineCore.t KV EC) (w : World) (wl sl : list Request).
Implicit Types (out : Scheduler.SchedulerOutput).

Abbreviation sinv := (sinv c size).
Abbreviation no_drafts := (fun _ : string => 0).
Abbreviation ids l := (obj_id <$> l).
Abbreviation requests := (Scheduler.requests (KV := KV) (EC := EC)).

(** Between two calls of the engine. *)
Definition scheduler_ok s : Prop :=
  exists wl sl, sinv no_drafts s wl sl [] /\ prev_ok s (ids (wl ++ sl)).

Lemma sinv_pause D s wl sl kl p : sinv D s wl sl kl -> sinv D (Scheduler.set_pause_state p s) wl sl kl.
Proof. intros []. by split. Qed.

(** ** Aborts while the model runs *)

Lemma output_in_flight s0 s out : output_ok c s0 s out -> in_flight s out.
Proof.
  intros []. split; [done|]. split; [done|]. intros rid n Hin.
  destruct (out_requests rid n Hin) as (o & r & Hd & Hrun & _ & _ & Hn & _). split; [lia|].
  intros o' Ho'. by simplify_eq.
Qed.

Lemma finished_known D s wl sl rids s' rid o :
  sinv D s wl sl [] -> finished c size s wl sl D rids s' -> dict_get rid (requests s') = Some o ->
  dict_get rid (requests s) = Some o /\ o ∉ known_objects s rids.
Proof.
  intros Hs Hf Ho. assert (dict_get rid (requests s') = _) as E by apply Hf. rewrite E in Ho.
  case_decide as Hin; [done|]. split; [done|]. apply dict_get_Some in Ho.
  rewrite (known_objects_elem c size D s wl sl [] rids o Hs). intros (rid' & Hin' & Ho').
  destruct (i_objects Hs Ho) as (r & Hr & Hid & _). destruct (i_objects Hs Ho') as (r' & Hr' & Hid' & _).
  simplify_eq. done.
Qed.

Lemma finished_in_flight D s wl sl rids s' out mo :
  sinv D s wl sl [] -> finished c size s wl sl D rids s' -> in_flight s out -> answers s out mo ->
  in_flight s' out /\ answers s' out mo.
Proof.
  intros Hs Hf (Hnd & Hspec & Hfly) Hans. split.
  - split; [done|]. split; [done|]. intros rid n Hin. destruct (Hfly rid n Hin) as [Hn Hrun].
    split; [done|]. intros o Ho. destruct (finished_known D s wl sl rids s' rid o Hs Hf Ho) as [Ho' Hno].
    assert (Scheduler.running s' = _) as -> by apply Hf. apply list_elem_of_filter. auto.
  - intros rid n o r Hin Ho Hr. destruct (finished_known D s wl sl rids s' rid o Hs Hf Ho) as [Ho' Hno].
    assert (Scheduler.objects s' !! o = Scheduler.objects s !! o) as E by (by apply Hf).
    rewrite E in Hr. by eapply Hans.
Qed.

Lemma finished_prev D s wl sl rids s' :
  sinv D s wl sl [] -> finished c size s wl sl D rids s' -> prev_ok s (ids (wl ++ sl)) ->
  prev_ok s' (ids (queued_outside (known_objects s rids) wl ++ queued_outside (known_objects s rids) sl)).
Proof.
  intros Hs Hf Hprev o r Ho Hr Hst. rewrite fmap_app, !ids_outside in Ho.
  assert (o ∈ ids (wl ++ sl) /\ o ∉ known_objects s rids) as [Hin Hno].
  { rewrite fmap_app. unfold outside in Ho. rewrite elem_of_app, !list_elem_of_filter in Ho. set_solver. }
  assert (Scheduler.objects s' !! o = Scheduler.objects s !! o) as E by (by apply Hf). rewrite E in Hr.
  assert (Scheduler.prev_step_scheduled_req_ids s' = _) as -> by apply Hf. by eapply Hprev.
Qed.

(** ** Calls on the scheduler *)

(** Nothing is known and nothing is to be reported. *)
Definition drained s : Prop := requests s = [] /\ Scheduler.finished_req_ids s = ∅.

Lemma no_ids s s' : same_ids s s' -> drained s -> drained s'.
Proof.
  intros Hids [Hr Hf]. unfold same_ids in Hids. split.
  - destruct (requests s') as [|[rid o] d] eqn:E; [done|]. exfalso.
    assert (rid ∈ (Scheduler.requests s).*1 \/ rid ∈ Scheduler.finished_req_ids s) as Hin.
    { apply Hids. left. set_solver. }
    rewrite Hr, Hf in Hin. set_solver.
  - apply set_eq. intros rid. split; [|set_solver]. intros Hin.
    assert (rid ∈ (Scheduler.requests s).*1 \/ rid ∈ Scheduler.finished_req_ids s) as Hin'
      by (apply Hids; by right).
    rewrite Hr, Hf in Hin'. set_solver.
Qed.

Lemma finish_ok s rids st :
  scheduler_ok s -> is_finished st -> NoDup (default (requests s).*1 rids) ->
  succeeds (Scheduler.finish_requests rids st) s (fun _ s' => scheduler_ok s' /\ same_ids s s'
    /\ requests s' ⊆ requests s /\ (rids = None -> requests s' = [])).
Proof.
  intros (wl & sl & Hs & Hprev) Hst Hnd.
  eapply succeeds_mono; [by apply (finish_requests_run c size no_drafts s wl sl rids st Hs)|].
  intros ? s' Hf. split; [|split; [apply Hf|split]].
  - eexists _, _. split; [apply Hf|]. by eapply finished_prev.
  - intros [rid o] Hin. apply (dict_get_NoDup _ _ _ (i_ids (fd_inv _ _ _ _ _ _ _ _ Hf))) in Hin.
    by apply (finished_known no_drafts s wl sl _ s' rid o Hs Hf) in Hin as [?%dict_get_Some _].
  - intros ->. simpl in Hf. destruct (requests s') as [|[rid o] d] eqn:E; [done|]. exfalso.
    assert (dict_get rid (Scheduler.requests s') = Some o) as Hg.
    { rewrite E. simpl. by rewrite decide_True. }
    assert (dict_get rid (Scheduler.requests s') = _) as Hg' by apply Hf. rewrite Hg in Hg'.
    case_decide as Hin; [done|]. apply Hin, dict_get_elem. by rewrite <- Hg'.
Qed.

Lemma add_ok s r :
  scheduler_ok s -> request_new c size r -> request_id r ∉ (requests s).*1 -> obj_id r ∉ (requests s).*2 ->
  succeeds (Scheduler.add_request r) s (fun _ s' => scheduler_ok s'
    /\ requests s' = requests s ++ [(request_id r, obj_id r)]).
Proof.
  intros (wl & sl & Hs & Hprev) Hnew Hid Hobj.
  eapply succeeds_mono; [by apply (add_request_run c size no_drafts s wl sl r)|].
  intros ? s' []. split; [|done]. destruct ad_queues as (wl' & sl' & ? & _ & ?). by exists wl', sl'.
Qed.

Lemma reset_prefix_ok s b :
  scheduler_ok s -> succeeds (Scheduler.reset_prefix_cache b) s (fun ok s' => scheduler_ok s'
    /\ requests s' = requests s /\ same_ids s s' /\ (b = true -> ok = true)).
Proof.
  intros (wl & sl & Hs & Hprev).
  eapply succeeds_mono; [by apply (reset_prefix_run c size s wl sl b)|].
  intros ok s' (Hok & Hreq & Hfin & wl' & Hs' & Hprev').
  split; [by exists wl', sl|]. split; [done|]. split; [|naive_solver].
  intros rid. by rewrite Hreq, Hfin.
Qed.

Lemma reset_encoder_ok s :
  scheduler_ok s -> succeeds Scheduler.reset_encoder_cache s (fun _ s' => scheduler_ok s'
    /\ requests s' = requests s /\ same_ids s s').
Proof.
  intros (wl & sl & Hs & Hprev).
  eapply succeeds_mono; [by apply (reset_encoder_run c size no_drafts s wl sl)|].
  intros ? s' [Hs' E]. assert (requests s' = requests s) as Ereq by (by rewrite E).
  assert (Scheduler.finished_req_ids s' = Scheduler.finished_req_ids s) as Efin by (by rewrite E).
  split; [|split; [done|]].
  - exists wl, sl. split; [done|]. intros o r Ho Hr Hst.
    assert (Scheduler.objects s' = Scheduler.objects s) as Eo by (by rewrite E). rewrite Eo in Hr.
    assert (Scheduler.prev_step_scheduled_req_ids s' = Scheduler.prev_step_scheduled_req_ids s) as ->
      by (by rewrite E). by eapply Hprev.
  - intros rid. by rewrite Ereq, Efin.
Qed.

Lemma pause_ok s p :
  scheduler_ok s -> scheduler_ok (Scheduler.set_pause_state p s)
  /\ same_ids s (Scheduler.set_pause_state p s).
Proof.
  intros (wl & sl & Hs & Hprev). split; [|done]. exists wl, sl. split; [by apply sinv_pause|done].
Qed.

(** ** One step of the engine *)

Lemma set_iter_NoDup l : NoDup (str_set_iter l).
Proof. rewrite str_set_iter_perm. apply NoDup_remove_dups. Qed.

Lemma aborts_in_flight D e wl sl out mo :
  sinv D (EngineCore.scheduler e) wl sl [] -> prev_ok (EngineCore.scheduler e) (ids (wl ++ sl)) ->
  in_flight (EngineCore.scheduler e) out -> answers (EngineCore.scheduler e) out mo ->
  succeeds EngineCore._process_aborts_queue e (fun _ e' => exists wl' sl',
    sinv D (EngineCore.scheduler e') wl' sl' [] /\ prev_ok (EngineCore.scheduler e') (ids (wl' ++ sl'))
    /\ in_flight (EngineCore.scheduler e') out /\ answers (EngineCore.scheduler e') out mo
    /\ same_ids (EngineCore.scheduler e) (EngineCore.scheduler e')).
Proof.
  intros Hs Hprev Hfly Hans. unfold EngineCore._process_aborts_queue. sstep. apply succeeds_get.
  destruct (EngineCore.aborts_queue e) as [|ab q]; [sstep; by exists wl, sl|].
  sstep. sstep. unfold EngineCore.abort_requests. sstep. apply succeeds_zoom. simpl.
  eapply succeeds_mono; [apply (finish_requests_run c size D _ wl sl (Some _) FINISHED_ABORTED Hs); [done|]|].
  { apply set_iter_NoDup. }
  intros ? s' Hf. sstep. eexists _, _. simpl. split; [apply Hf|]. split; [by eapply finished_prev|].
  pose proof (finished_in_flight D _ wl sl _ s' out mo Hs Hf Hfly Hans) as [? ?].
  split; [done|]. split; [done|]. apply Hf.
Qed.

(** What the outside has to keep to. *)
Record world_ok e w : Prop := {
  wo_answers : forall out s1,
    Scheduler.schedule c (grammar_ready w) (EngineCore.scheduler e) = Ret out s1 ->
    answers s1 out (execute_model w out);
  wo_drafts : forall x e1 drafts rid toks o r,
    EngineCore.step c w e = Ret x e1 -> take_draft_token_ids w = Some drafts -> (rid, toks) ∈ drafts ->
    dict_get rid (requests (EngineCore.scheduler e1)) = Some o ->
    Scheduler.objects (EngineCore.scheduler e1) !! o = Some r -> pooling_params r <> None -> toks = [];
  wo_validate : forall r, validate_tokens w r [] = [];
}.

(** The engine stays in order, and an engine without requests gets drained. *)
Definition core_step e e' : Prop :=
  scheduler_ok (EngineCore.scheduler e')
  /\ (requests (EngineCore.scheduler e) = [] -> drained (EngineCore.scheduler e')).

Lemma idle_drained s : EngineCore.has_requests s = false -> Scheduler.finished_req_ids s = ∅.
Proof.
  unfold EngineCore.has_requests, Scheduler.has_finished_requests.
  intros [_ Hf%negb_false_iff%bool_decide_eq_true]%orb_false_iff. done.
Qed.

Lemma step_ok e w :
  config_ok c size -> scheduler_ok (EngineCore.scheduler e) -> world_ok e w ->
  succeeds (EngineCore.step c w) e (fun _ e' => core_step e e').
Proof.
  intros Hc Hok [Hans _ _]. pose proof Hok as (wl & sl & Hs & Hprev).
  unfold EngineCore.step. sstep. apply succeeds_get.
  destruct (negb (EngineCore.has_requests (EngineCore.scheduler e))) eqn:Hhas.
  { sstep. split; [done|]. intros Hreq. split; [done|]. apply idle_drained. by apply negb_true_iff. }
  sstep. apply succeeds_zoom.
  destruct (succeeds_inv _ _ _ (schedule_step c size _ wl sl (grammar_ready w) Hc Hs Hprev))
    as (out & s1 & Hrun & wl1 & sl1 & Hs1 & Hprev1 & Hout).
  eapply succeeds_eq; [exact Hrun|]. sstep. sstep.
  assert (in_flight s1 out) as Hfly by (by eapply output_in_flight).
  specialize (Hans out s1 Hrun). sstep.
  eapply succeeds_mono; [by apply (aborts_in_flight (drafts_of (Scheduler.so_scheduled_spec_decode_tokens out))
    _ wl1 sl1 out (execute_model w out))|].
  intros ? e2 (wl2 & sl2 & Hs2 & Hprev2 & Hfly2 & Hans2 & Hids2). simpl in Hids2. sstep. apply succeeds_zoom.
  eapply succeeds_mono; [by apply (update_step c size _ wl2 sl2 out _ (grammar_rejects w) Hc Hs2)|].
  intros x s3 (Hs3 & Hprev3 & _ & Hids3). sstep. split; [by exists wl2, sl2|]. simpl.
  intros Hreq. eapply no_ids; [exact Hids3|]. eapply no_ids; [exact Hids2|]. split; [|apply Hout].
  assert (requests s1 = _) as -> by apply Hout. done.
Qed.

Lemma post_step_ok e e1 w x :
  scheduler_ok (EngineCore.scheduler e1) -> world_ok e w -> EngineCore.step c w e = Ret x e1 ->
  succeeds (EngineCore.post_step c use_spec_decode w x.2) e1 (fun _ e' =>
    scheduler_ok (EngineCore.scheduler e') /\ same_ids (EngineCore.scheduler e1) (EngineCore.scheduler e')).
Proof.
  intros Hok [_ Hdrafts Hval] Hrun. unfold EngineCore.post_step.
  destruct (_ && _)%bool; [|by sstep]. destruct (take_draft_token_ids w) as [drafts|] eqn:Htake; [|by sstep].
  apply succeeds_zoom. destruct Hok as (wl & sl & Hs & Hprev).
  eapply succeeds_mono; [apply (update_draft_run c size no_drafts _ wl sl (validate_tokens w) drafts Hs)|].
  - intros o r r' toks Hr Hf Hpool (rid & Hin & Hreq).
    rewrite (Hdrafts x e1 drafts rid toks o r Hrun eq_refl Hin Hreq Hr Hpool). apply Hval.
  - intros ? s' [Hs' Hsame]. split.
    + exists wl, sl. split; [done|]. by eapply same_requests_prev.
    + simpl. destruct Hsame as [E _]. intros rid.
      assert (requests s' = requests (EngineCore.scheduler e1)) as -> by (by rewrite E).
      assert (Scheduler.finished_req_ids s' = Scheduler.finished_req_ids (EngineCore.scheduler e1)) as ->
        by (by rewrite E). done.
Qed.

Lemma reset_caches_ok e b :
  scheduler_ok (EngineCore.scheduler e) ->
  succeeds (EngineCore._reset_caches b) e (fun _ e' => scheduler_ok (EngineCore.scheduler e')
    /\ requests (EngineCore.scheduler e') = requests (EngineCore.scheduler e)
    /\ same_ids (EngineCore.scheduler e) (EngineCore.scheduler e')).
Proof.
  intros Hok. unfold EngineCore._reset_caches, EngineCore.reset_prefix_cache, EngineCore.reset_encoder_cache.
  sstep. apply succeeds_zoom. eapply succeeds_mono; [by apply reset_prefix_ok|].
  intros ? s1 (Hok1 & Hreq1 & Hids1 & _). apply succeeds_zoom.
  eapply succeeds_mono; [by apply reset_encoder_ok|]. intros ? s2 (Hok2 & Hreq2 & Hids2). simpl in *.
  split; [done|]. split; [congruence|]. by eapply same_ids_trans.
Qed.

(** ** Serving the clients *)

Abbreviation on p := (EngineCoreProc.scheduler_of (KV := KV) (EC := EC) p).

Definition adds_of (m : EngineCoreProc.client_request) : list Request :=
  match m with EngineCoreProc.ADD r => [r] | _ => [] end.

Definition entries (l : list Request) : list (string * Z) := (fun r => (request_id r, obj_id r)) <$> l.

(** Between [p] and [p'] the engine took in at most the requests [new]. *)
Record serves (p p' : @EngineCoreProc.t KV EC) (new : list Request) : Prop := {
  sv_ok : scheduler_ok (on p');
  sv_shutdown : EngineCoreProc.shutdown_state p' = EngineCoreProc.shutdown_state p;
  sv_engines : EngineCoreProc.engines_running p' = EngineCoreProc.engines_running p;
  sv_requests : requests (on p') ⊆ requests (on p) ++ entries new;
}.

Lemma serves_trans p1 p2 p3 l1 l2 : serves p1 p2 l1 -> serves p2 p3 l2 -> serves p1 p3 (l1 ++ l2).
Proof.
  intros [] []. split; try done; [congruence..|]. unfold entries in *. rewrite fmap_app. set_solver.
Qed.

(** Any call on the scheduler that takes in nothing. *)
Lemma serves_scheduler {A} (m : M Scheduler.t A) (p : EngineCoreProc.t) (Q : A -> Prop) :
  succeeds m (on p) (fun a s' => scheduler_ok s' /\ requests s' ⊆ requests (on p) /\ Q a) ->
  succeeds (EngineCoreProc.on_scheduler m) p (fun a p' => serves p p' [] /\ Q a).
Proof.
  intros Hm. apply succeeds_zoom, succeeds_zoom. eapply succeeds_mono; [exact Hm|].
  intros a s' (Hok & Hreq & Ha). split; [|done]. split; try done. simpl. by rewrite app_nil_r.
Qed.

Lemma serves_core {A} (m : M EngineCore.t A) (p : EngineCoreProc.t) (Q : A -> Prop) :
  succeeds m (EngineCoreProc.core p) (fun a e' => scheduler_ok (EngineCore.scheduler e')
    /\ requests (EngineCore.scheduler e') ⊆ requests (on p) /\ Q a) ->
  succeeds (EngineCoreProc.on_core m) p (fun a p' => serves p p' [] /\ Q a).
Proof.
  intros Hm. apply succeeds_zoom. eapply succeeds_mono; [exact Hm|].
  intros a e' (Hok & Hreq & Ha). split; [|done]. split; try done. simpl. by rewrite app_nil_r.
Qed.

(** A change of the other fields. *)
Lemma serves_put p p' m l : serves p p' l -> serves p (EngineCoreProc.put_nowait m p') l.
Proof. intros []. by split. Qed.

Lemma serves_refl p : scheduler_ok (on p) -> serves p p [].
Proof. intros Hok. split; try done. by rewrite app_nil_r. Qed.

Lemma finish_all_serves p :
  scheduler_ok (on p) ->
  succeeds (aborted <- EngineCoreProc.on_scheduler (Scheduler.finish_requests None FINISHED_ABORTED) ;;
            EngineCoreProc._send_abort_outputs aborted) p
    (fun _ p' => serves p p' [] /\ requests (on p') = []
       /\ EngineCoreProc.callbacks p' = EngineCoreProc.callbacks p).
Proof.
  intros Hok. sstep. apply succeeds_zoom, succeeds_zoom. eapply succeeds_mono.
  { apply (finish_ok _ None); [exact Hok|done|]. destruct Hok as (wl & sl & Hs & _). apply (i_ids Hs). }
  intros l s' (Hok' & _ & Hreq & Hnil). specialize (Hnil eq_refl).
  unfold EngineCoreProc._send_abort_outputs. destruct l; sstep; simpl; (split; [|done]); split; try done;
    simpl; by rewrite app_nil_r.
Qed.

Lemma reset_serves p b :
  scheduler_ok (on p) ->
  succeeds (EngineCoreProc.on_core (EngineCore._reset_caches b)) p (fun _ p' => serves p p' []).
Proof.
  intros Hok. eapply succeeds_mono; [apply (serves_core _ p (fun _ => True))|by intros ? ? []].
  eapply succeeds_mono; [by apply reset_caches_ok|]. intros ? e' (Hok' & Hreq & _). by rewrite Hreq.
Qed.

Lemma pause_serves p call_id mode clear_cache :
  scheduler_ok (on p) ->
  succeeds (EngineCoreProc.pause_scheduler call_id mode clear_cache) p (fun _ p' => serves p p' []).
Proof.
  intros Hok. unfold EngineCoreProc.pause_scheduler. sstep.
  apply succeeds_mono with (Q := fun _ p' => serves p p' []).
  { destruct mode; [by sstep; apply serves_refl| |by sstep; apply serves_refl].
    eapply succeeds_mono; [by apply finish_all_serves|]. by intros ? ? []. }
  intros ? p1 Hp1. sstep.
  eapply succeeds_mono; [apply (serves_scheduler _ p1 (fun _ => True))|].
  { sstep. split; [by apply (pause_ok _ (EngineCore.pause_of mode)), Hp1|]. done. }
  intros ? p2 [Hp2 _]. pose proof (serves_trans p p1 p2 [] [] Hp1 Hp2) as Hp. sstep. apply succeeds_get.
  destruct (negb (EngineCoreProc.has_work p2)).
  - sstep. apply succeeds_mono with (Q := fun _ p' => serves p2 p' []).
    { destruct clear_cache; [apply reset_serves, Hp|sstep; apply serves_refl, Hp]. }
    intros ? p3 Hp3. sstep. apply (serves_trans p p2 p3 [] [] Hp Hp3).
  - sstep. sstep. sstep. by destruct Hp.
Qed.

Lemma utility_serves p call_id method :
  scheduler_ok (on p) ->
  succeeds (EngineCoreProc.run_utility call_id method) p (fun _ p' => serves p p' []).
Proof.
  intros Hok. destruct method as [b| |mode clear_cache|]; simpl.
  - sstep. eapply succeeds_mono; [apply (serves_core _ p (fun _ => True))|intros ? p' [Hp _]; by sstep].
    apply succeeds_zoom. eapply succeeds_mono; [by apply reset_prefix_ok|].
    intros ? s' (Hok' & Hreq & _). simpl. by rewrite Hreq.
  - sstep. eapply succeeds_mono; [apply (serves_core _ p (fun _ => True))|intros ? p' [Hp _]; by sstep].
    apply succeeds_zoom. eapply succeeds_mono; [by apply reset_encoder_ok|].
    intros ? s' (Hok' & Hreq & _). simpl. by rewrite Hreq.
  - by apply pause_serves.
  - sstep. eapply succeeds_mono; [apply (serves_core _ p (fun _ => True))|intros ? p' [Hp _]; by sstep].
    apply succeeds_zoom. sstep. split; [by apply (pause_ok _ Scheduler.UNPAUSED)|done].
Qed.

Lemma invoke_serves p call_id method :
  scheduler_ok (on p) ->
  succeeds (EngineCoreProc._invoke_utility_method call_id method) p (fun _ p' => serves p p' []).
Proof.
  intros Hok. destruct (succeeds_inv _ _ _ (utility_serves p call_id method Hok)) as (b & p' & Hrun & Hp).
  unfold succeeds, EngineCoreProc._invoke_utility_method. rewrite Hrun.
  destruct b; [done|]. by apply serves_put.
Qed.

(** The requests that arrive are new: their ids and objects are not in use. *)
Record arrivals_ok (p : @EngineCoreProc.t KV EC) (ms : list EngineCoreProc.client_request) : Prop := {
  ar_executor : EngineCoreProc.EXECUTOR_FAILED ∉ ms;
  ar_new : EngineCoreProc.shutdown_state p = EngineCoreProc.RUNNING ->
    Forall (request_new c size) (ms ≫= adds_of);
  ar_ids : EngineCoreProc.shutdown_state p = EngineCoreProc.RUNNING ->
    NoDup ((requests (on p)).*1 ++ (entries (ms ≫= adds_of)).*1);
  ar_objects : EngineCoreProc.shutdown_state p = EngineCoreProc.RUNNING ->
    NoDup ((requests (on p)).*2 ++ (entries (ms ≫= adds_of)).*2);
}.

(** The entries the dict may have gained by the requests [l] are all distinct from
    those still to come. *)
Lemma subset_NoDup {A} (l l' new rest : list A) :
  l' ⊆ l ++ new -> NoDup l' -> NoDup (l ++ new ++ rest) -> NoDup (l' ++ rest).
Proof.
  intros Hsub Hl'. rewrite app_assoc, !NoDup_app. intros (_ & Hd & Hr). split; [done|]. split; [|done].
  intros x Hx Hx'. by apply (Hd x); [apply Hsub|].
Qed.

Lemma fmap_subset {A B} (f : A -> B) (l l' : list A) : l ⊆ l' -> f <$> l ⊆ f <$> l'.
Proof. intros Hsub x (y & -> & Hy)%list_elem_of_fmap. by apply list_elem_of_fmap_2, Hsub. Qed.

Lemma requests_NoDup s : scheduler_ok s -> NoDup (requests s).*1 /\ NoDup (requests s).*2.
Proof.
  intros (wl & sl & Hs & _). split; [apply Hs|]. rewrite (i_known Hs). apply (i_distinct Hs).
Qed.

Lemma arrivals_cons p p' m ms :
  arrivals_ok p (m :: ms) -> serves p p' (adds_of m) \/ serves p p' [] -> arrivals_ok p' ms.
Proof.
  intros [Hex Hnew Hids Hobj] Hor.
  assert (serves p p' (adds_of m)) as [Hok Hsh _ Hreq].
  { destruct Hor as [?|[]]; [done|]. split; try done. unfold entries in *. simpl in *. set_solver. }
  destruct (requests_NoDup _ Hok) as [Hn1 Hn2]. split.
  - set_solver.
  - rewrite Hsh. intros Hrun. specialize (Hnew Hrun). simpl in Hnew. by apply Forall_app in Hnew as [_ ?].
  - rewrite Hsh. intros Hrun. specialize (Hids Hrun). simpl in Hids. unfold entries in *.
    rewrite !fmap_app in Hids. eapply subset_NoDup; [|done|exact Hids].
    rewrite <- fmap_app. by apply fmap_subset.
  - rewrite Hsh. intros Hrun. specialize (Hobj Hrun). simpl in Hobj. unfold entries in *.
    rewrite !fmap_app in Hobj. eapply subset_NoDup; [|done|exact Hobj].
    rewrite <- fmap_app. by apply fmap_subset.
Qed.

Lemma handle_serves p m ms :
  scheduler_ok (on p) -> arrivals_ok p (m :: ms) ->
  succeeds (EngineCoreProc._handle_client_request m) p (fun _ p' =>
    serves p p' (if EngineCoreProc.is_running p then adds_of m else [])).
Proof.
  intros Hok [Hex Hnew Hids Hobj]. unfold EngineCoreProc._handle_client_request. sstep. apply succeeds_get.
  unfold EngineCoreProc.is_running.
  destruct m as [|r|l|call_id method|]; simpl.
  - case_bool_decide; sstep; by apply serves_refl.
  - case_bool_decide as Hrun; [|sstep; by apply serves_put, serves_refl].
    specialize (Hnew Hrun). specialize (Hids Hrun). specialize (Hobj Hrun). simpl in *.
    apply Forall_cons in Hnew as [Hnew _].
    apply NoDup_app in Hids as (_ & Hids & _). apply NoDup_app in Hobj as (_ & Hobj & _).
    apply succeeds_zoom, succeeds_zoom.
    eapply succeeds_mono; [apply (add_ok _ r Hok Hnew); set_solver|].
    intros ? s' [Hok' Hreq]. split; try done. simpl.
    unfold EngineCoreProc.scheduler_of in *. simpl. by rewrite Hreq.
  - replace (if bool_decide _ then [] else []) with (@nil Request) by (by case_bool_decide).
    unfold EngineCore.abort_requests. eapply succeeds_mono; [apply (serves_core _ p (fun _ => True))|by intros ? ? []].
    sstep. apply succeeds_zoom. eapply succeeds_mono;
      [apply (finish_ok _ (Some _)); [exact Hok|done|apply set_iter_NoDup]|].
    intros ? s' (Hok' & _ & Hreq & _). by sstep.
  - replace (if bool_decide _ then [] else []) with (@nil Request) by (by case_bool_decide).
    case_bool_decide; [by apply invoke_serves|]. sstep. by apply serves_put, serves_refl.
  - set_solver.
Qed.

Lemma notify_serves p :
  scheduler_ok (on p) -> succeeds EngineCoreProc._notify_idle_state_callbacks p (fun _ p' => serves p p' []).
Proof.
  intros Hok. unfold EngineCoreProc._notify_idle_state_callbacks. sstep. apply succeeds_get. sstep. sstep.
  eapply succeeds_mono; [apply (succeeds_mfor _ (fun _ _ p' => serves p p' []))|done].
  { split; try done. simpl. by rewrite app_nil_r. }
  intros pre [call_id clear_cache] todo p1 _ Hp1. unfold EngineCoreProc.engine_idle_callback. sstep.
  apply succeeds_mono with (Q := fun _ p' => serves p1 p' []).
  { simpl. destruct clear_cache; [apply reset_serves, Hp1|sstep; apply serves_refl, Hp1]. }
  intros ? p2 Hp2. sstep. apply serves_put. by apply (serves_trans p p1 p2 [] []).
Qed.

(** Whatever arrives, the engine stays in order; when it is shutting down it takes in
    nothing. *)
Record polled (p p' : @EngineCoreProc.t KV EC) : Prop := {
  po_ok : scheduler_ok (on p');
  po_shutdown : EngineCoreProc.shutdown_state p' = EngineCoreProc.shutdown_state p;
  po_engines : EngineCoreProc.engines_running p' = EngineCoreProc.engines_running p;
  po_closed : EngineCoreProc.shutdown_state p <> EngineCoreProc.RUNNING ->
    requests (on p') ⊆ requests (on p);
}.

Lemma polled_step p p1 p' new :
  (EngineCoreProc.shutdown_state p <> EngineCoreProc.RUNNING -> new = []) ->
  serves p p1 new -> polled p1 p' -> polled p p'.
Proof.
  intros Hnew [] []. split; try done; [congruence..|]. intros Hsh. specialize (po_closed0 ltac:(congruence)).
  rewrite Hnew in sv_requests0 by done. unfold entries in *. simpl in *. set_solver.
Qed.

Lemma serve_all p ms :
  scheduler_ok (on p) -> arrivals_ok p ms ->
  succeeds (mfor ms EngineCoreProc._handle_client_request) p (fun _ p' => polled p p').
Proof.
  revert p. induction ms as [|m ms IH]; intros p Hok Har; simpl; [by sstep|].
  sstep. eapply succeeds_mono; [by eapply handle_serves|]. intros ? p1 Hp1.
  eapply succeeds_mono; [apply IH; [apply Hp1|]|].
  - eapply arrivals_cons; [exact Har|]. destruct (EngineCoreProc.is_running p); auto.
  - intros ? p2 Hp2. eapply polled_step; [|exact Hp1|exact Hp2].
    intros Hsh. unfold EngineCoreProc.is_running. by rewrite bool_decide_eq_false_2.
Qed.

Lemma poll_ok p ms :
  scheduler_ok (on p) -> arrivals_ok p ms ->
  succeeds (EngineCoreProc._process_input_queue ms) p (fun b p' => polled p p'
    /\ (EngineCoreProc.shutdown_state p <> EngineCoreProc.RUNNING -> b = true)).
Proof.
  revert p. induction ms as [|m ms IH]; intros p Hok Har; simpl; sstep; apply succeeds_get.
  all: destruct (_ && _)%bool eqn:Hwait.
  all: try (apply andb_true_iff in Hwait as [_ Hwait%bool_decide_eq_true]).
  2: { sstep. sstep. sstep. by split. }
  -     sstep. eapply succeeds_mono; [by apply notify_serves|]. intros ? p1 Hp1. sstep.
    eapply succeeds_mono; [apply (serves_core _ p1 (fun _ => True))|].
    { sstep. split; [apply Hp1|done]. }
    intros ? p2 [Hp2 _]. sstep. split; [|done].
    eapply polled_step; [|apply (serves_trans p p1 p2 [] [] Hp1 Hp2)|]; [done|].
    split; try done. apply Hp2.
  - { sstep. eapply succeeds_mono; [by apply notify_serves|]. intros ? p1 Hp1.
      assert (arrivals_ok p1 (m :: ms)) as Har1.
      { apply (arrivals_cons p p1 EngineCoreProc.WAKEUP); [|by left]. destruct Har. by split; [set_solver|..]. }
      sstep. eapply succeeds_mono; [by eapply handle_serves; [apply Hp1|]|]. intros ? p2 Hp2.
      eapply succeeds_mono; [apply IH; [apply Hp2|]|].
      * eapply arrivals_cons; [exact Har1|]. destruct (EngineCoreProc.is_running p1); auto.
      * intros ? p3 [Hp3 _]. split; [|done]. eapply polled_step; [|apply (serves_trans p p1 p2 [] _ Hp1 Hp2)|exact Hp3].
        intros Hsh. unfold EngineCoreProc.is_running. rewrite bool_decide_eq_false_2; [done|].
        destruct Hp1. congruence. }
  - apply succeeds_bind. eapply succeeds_mono; [exact (serve_all p (m :: ms) Hok Har)|].
      intros ? p1 Hp1. by sstep.
Qed.

(** ** An iteration of the busy loop *)

Lemma engine_step_ok p w :
  config_ok c size -> scheduler_ok (on p) -> world_ok (EngineCoreProc.core p) w ->
  succeeds (EngineCoreProc._process_engine_step c use_spec_decode w) p (fun _ p' =>
    scheduler_ok (on p') /\ EngineCoreProc.shutdown_state p' = EngineCoreProc.shutdown_state p
    /\ EngineCoreProc.engines_running p' = EngineCoreProc.engines_running p
    /\ (requests (on p) = [] -> drained (on p'))).
Proof.
  intros Hc Hok Hw. unfold EngineCoreProc._process_engine_step. sstep. apply succeeds_zoom.
  destruct (succeeds_inv _ _ _ (step_ok _ w Hc Hok Hw)) as (x & e1 & Hrun & Hok1 & Hdrain).
  eapply succeeds_eq; [exact Hrun|]. sstep.
  apply succeeds_mono with (Q := fun _ p' => EngineCoreProc.core p' = e1
    /\ EngineCoreProc.shutdown_state p' = EngineCoreProc.shutdown_state p
    /\ EngineCoreProc.engines_running p' = EngineCoreProc.engines_running p).
  { destruct x.1; by sstep. }
  intros ? p1 (Hcore & Hsh & Hen). sstep. apply succeeds_zoom. rewrite Hcore.
  eapply succeeds_mono; [by apply (post_step_ok (EngineCoreProc.core p) e1 w x)|].
  intros ? e2 (Hok2 & Hids2). sstep. split; [done|]. split; [done|]. split; [done|].
  intros Hreq. eapply no_ids; [exact Hids2|]. by apply Hdrain.
Qed.

Record shutdown_step (timeout : Z) (p : @EngineCoreProc.t KV EC) (b : bool) (p' : EngineCoreProc.t)
  : Prop := {
  sd_ok : scheduler_ok (on p');
  sd_engines : EngineCoreProc.engines_running p' = EngineCoreProc.engines_running p;
  sd_running : EngineCoreProc.shutdown_state p = EngineCoreProc.RUNNING -> p' = p /\ b = true;
  sd_closing : EngineCoreProc.shutdown_state p <> EngineCoreProc.RUNNING ->
    EngineCoreProc.shutdown_state p' = EngineCoreProc.SHUTTING_DOWN /\ b = EngineCoreProc.has_work p'
    /\ requests (on p') ⊆ requests (on p);
  sd_abort : EngineCoreProc.shutdown_state p = EngineCoreProc.REQUESTED -> timeout = 0 ->
    requests (on p') = [];
}.

Lemma shutdown_ok timeout p :
  scheduler_ok (on p) ->
  succeeds (EngineCoreProc._handle_shutdown timeout) p (fun b p' => shutdown_step timeout p b p').
Proof.
  intros Hok. unfold EngineCoreProc._handle_shutdown. sstep. apply succeeds_get.
  destruct (EngineCoreProc.shutdown_state p) eqn:Hsh.
  - sstep. split; try done; by rewrite Hsh.
  - sstep. apply succeeds_mono with (Q := fun _ p' => EngineCoreProc.shutdown_state p' = EngineCoreProc.SHUTTING_DOWN
      /\ scheduler_ok (on p') /\ EngineCoreProc.engines_running p' = EngineCoreProc.engines_running p
      /\ requests (on p') ⊆ requests (on p) /\ (timeout = 0 -> requests (on p') = [])).
    { sstep. destruct (Z.eqb_spec timeout 0).
      - eapply succeeds_mono; [by apply finish_all_serves|]. intros ? p1 ([] & Hreq & _). sstep.
        split_and!; try done. change (requests (on p1) ⊆ requests (on p)). rewrite Hreq. set_solver.
      - sstep. sstep. by split_and!. }
    intros ? p1 (Hsh1 & Hok1 & Hen1 & Hreq1 & Hz). sstep. apply succeeds_get. sstep.
    split; try done; rewrite Hsh; done.
  - sstep. sstep. sstep. apply succeeds_get. sstep. split; try done; rewrite Hsh; done.
Qed.

(** The conditions on an iteration. *)
Record iteration_ok (timeout : Z) (p : @EngineCoreProc.t KV EC)
    (arrived : list EngineCoreProc.client_request) w : Prop := {
  it_arrivals : arrivals_ok p arrived;
  it_world : forall p0 p1, EngineCoreProc._handle_shutdown timeout p = Ret true p0 ->
    EngineCoreProc._process_input_queue arrived p0 = Ret true p1 -> world_ok (EngineCoreProc.core p1) w;
}.

Record iterated (timeout : Z) (p : @EngineCoreProc.t KV EC) (b : bool) (p' : EngineCoreProc.t) : Prop := {
  id_ok : scheduler_ok (on p');
  id_engines : EngineCoreProc.engines_running p' = EngineCoreProc.engines_running p;
  id_closing : EngineCoreProc.shutdown_state p <> EngineCoreProc.RUNNING ->
    EngineCoreProc.shutdown_state p' = EngineCoreProc.SHUTTING_DOWN;
  id_done : b = false -> EngineCoreProc.shutdown_state p <> EngineCoreProc.RUNNING
    /\ EngineCoreProc.has_work p' = false;
  id_drained : b = true -> EngineCoreProc.shutdown_state p = EngineCoreProc.REQUESTED -> timeout = 0 ->
    drained (on p');
}.

Lemma iteration_run timeout p arrived w :
  config_ok c size -> scheduler_ok (on p) -> iteration_ok timeout p arrived w ->
  succeeds (EngineCoreProc.busy_iteration c use_spec_decode timeout arrived w) p (fun b p' =>
    iterated timeout p b p').
Proof.
  intros Hc Hok [Harr Hworld]. unfold EngineCoreProc.busy_iteration. sstep.
  destruct (succeeds_inv _ _ _ (shutdown_ok timeout p Hok)) as (b & p0 & Hrun0 & Hsd).
  eapply succeeds_eq; [exact Hrun0|]. destruct Hsd as [Hok0 Hen0 Hrunning Hclosing Habort].
  assert (arrivals_ok p0 arrived) as Harr0.
  { destruct (EngineCoreProc.EngineShutdownState_eq_dec (EngineCoreProc.shutdown_state p) EngineCoreProc.RUNNING) as [Hr|Hr].
    - by destruct (Hrunning Hr) as [-> _].
    - destruct (Hclosing Hr) as (Hsh & _). destruct Harr. split; [done|..]; by rewrite Hsh. }
  destruct b.
  2: { sstep. split; try done.
    - intros Hr. by apply Hclosing.
    - intros _. assert (EngineCoreProc.shutdown_state p <> EngineCoreProc.RUNNING) as Hr
        by (intros Hr; by destruct (Hrunning Hr)). split; [done|]. by destruct (Hclosing Hr) as (_ & <- & _). }
  sstep. destruct (succeeds_inv _ _ _ (poll_ok p0 arrived Hok0 Harr0)) as (ready & p1 & Hrun1 & Hpoll & Hready).
  eapply succeeds_eq; [exact Hrun1|]. destruct Hpoll as [Hok1 Hsh1 Hen1 Hreq1].
  assert (EngineCoreProc.shutdown_state p <> EngineCoreProc.RUNNING -> ready = true
    /\ EngineCoreProc.shutdown_state p1 = EngineCoreProc.SHUTTING_DOWN
    /\ requests (on p1) ⊆ requests (on p0)) as Hclose.
  { intros Hr. destruct (Hclosing Hr) as (Hsh & _). rewrite Hsh in *. auto. }
  destruct ready.
  - specialize (Hworld p0 p1 Hrun0 Hrun1). sstep. sstep.
    eapply succeeds_mono; [by apply engine_step_ok|]. intros ? p2 (Hok2 & Hsh2 & Hen2 & Hdrain). sstep. sstep.
    split; try done; [congruence| |].
    + intros Hr. destruct (Hclose Hr) as (_ & ? & _). congruence.
    + intros _ Hr Ht. apply Hdrain. destruct (Hclose ltac:(congruence)) as (_ & _ & Hsub).
      rewrite (Habort Hr Ht) in Hsub. destruct (requests (on p1)); [done|]. exfalso. set_solver.
  - sstep. sstep. split; try done; [congruence| |].
    + intros Hr. by destruct (Hclose Hr).
    + intros _ Hr. destruct (Hclose ltac:(congruence)). done.
Qed.

(** ** From the start *)

Definition engine_init (kv : KV) (enc : EC) : @EngineCoreProc.t KV EC :=
  EngineCoreProc.Mk (EngineCore.Mk (Scheduler.init c kv enc) []) EngineCoreProc.RUNNING false [] [].

(** What the busy loop reaches: signals may come between two iterations. *)
Inductive loop_reachable (timeout : Z) : @EngineCoreProc.t KV EC -> Prop :=
  | reach_init kv enc :
      kvc_ok (max_len := Scheduler.max_model_len c) kv ->
      (forall rid, kvc_clear (max_len := Scheduler.max_model_len c) kv rid) -> ec_ok (size := size) enc ->
      loop_reachable timeout (engine_init kv enc)
  | reach_iteration p arrived w p' :
      loop_reachable timeout p -> iteration_ok timeout p arrived w ->
      EngineCoreProc.busy_iteration c use_spec_decode timeout arrived w p = Ret true p' ->
      loop_reachable timeout p'
  | reach_signal p : loop_reachable timeout p -> loop_reachable timeout (EngineCoreProc.request_shutdown p).

Lemma init_ok kv enc :
  config_ok c size -> kvc_ok (max_len := Scheduler.max_model_len c) kv ->
  (forall rid, kvc_clear (max_len := Scheduler.max_model_len c) kv rid) -> ec_ok (size := size) enc ->
  scheduler_ok (Scheduler.init c kv enc).
Proof.
  intros Hc Hkok Hclear Henc. exists [], []. split.
  - split; simpl; try done; try apply (create_rep (Scheduler.policy c)); try (by apply NoDup_nil_2); try (intros; set_solver).
    apply (ck_running Hc).
  - intros o r Ho. simpl in Ho. set_solver.
Qed.

Lemma reachable_ok timeout p :
  config_ok c size -> loop_reachable timeout p -> scheduler_ok (on p).
Proof.
  intros Hc. induction 1 as [kv enc|p arrived w p' _ IH Hit Hrun|p _ IH]; [by apply init_ok| |done].
  pose proof (iteration_run timeout p arrived w Hc IH Hit) as Hs. unfold succeeds in Hs.
  rewrite Hrun in Hs. apply Hs.
Qed.

Lemma drained_idle s : scheduler_ok s -> drained s -> EngineCore.has_requests s = false.
Proof.
  intros (wl & sl & Hs & _) [Hreq Hfin]. pose proof (i_known Hs) as Hk. rewrite Hreq in Hk.
  apply Permutation_nil in Hk. apply app_eq_nil in Hk as [Hrun Hq].
  rewrite app_nil_r, fmap_app in Hq. apply app_eq_nil in Hq as [Hw Hsk].
  apply fmap_nil_inv in Hw, Hsk. subst.
  pose proof (queue_len_rep _ _ _ (i_waiting Hs)) as Hw. pose proof (queue_len_rep _ _ _ (i_skipped Hs)) as Hsk.
  unfold EngineCore.has_requests, EngineCore.has_unfinished_requests, Scheduler.get_num_unfinished_requests,
    Scheduler.has_finished_requests. rewrite Hfin, bool_decide_eq_true_2, orb_false_r by done.
  destruct (Scheduler.pause_state s); rewrite ?Hrun, ?Hw, ?Hsk; done.
Qed.
End engine.
