(* ===== verification/FullManager.v ===== *)
(** * One full-attention manager: its operations never fail

    The exact behaviour of a [FullAttentionManager] that has the block pool for
    itself.  [full_ok] is the invariant: besides the ownership of Ownership.v, the
    blocks a request has not cached yet carry no hash and belong to nobody else, so
    that the assertions of [cache_full_blocks] hold.  KVStandard.v builds on it. *)

From S2P Require Import Prelude FreeQueue Request BlockHash BlockPool CacheSpec SingleType Ownership.
From S2P Require Import PrefixHit Coordinator Ledger.
From stdpp Require Import options.

Import Manager.

(** ** What no operation of the pool changes *)

Definition statics (p : BlockPool.t) : bool * Z * bool :=
  (BlockPool.enable_caching p, BlockPool.hash_block_size p, BlockPool.enable_kv_cache_events p).

Section statics.
Context `{HashEnv}.
Variable x : bool * Z * bool.
Implicit Types (p : BlockPool.t).

Abbreviation same := (fun p => statics p = x).

(** An operation that keeps the constructor's fields. *)
Definition still {A} (m : M BlockPool.t A) : Prop := forall p, same p -> leaves m p same.

Lemma still_on_queue {A} (m : M Queue.t A) : still (BlockPool.on_queue m).
Proof using. intros p Hp. unfold leaves, BlockPool.on_queue, zoom. by destruct (m _). Qed.

Lemma still_deref r : still (BlockPool.deref r).
Proof using.
  intros p Hp. unfold leaves, BlockPool.deref, bind, get. by destruct (BlockPool.heap p !! r).
Qed.

Lemma still_mfor {A} (f : A -> M BlockPool.t unit) l : (forall a, still (f a)) -> still (mfor l f).
Proof using. intros Hf p Hp. apply leaves_mfor; [done|]. intros a q. apply Hf. Qed.

Lemma leaves_got {A} (k : BlockPool.t -> M BlockPool.t A) p :
  leaves (k p) p same -> leaves (bind get k) p same.
Proof using. done. Qed.

Ltac keep_still :=
  repeat (lazymatch goal with
    | |- leaves (bind get _) _ _ => apply leaves_got
    | |- leaves (bind _ _) _ _ => apply leaves_bind; [|intros ? ? ?]
    | |- leaves (BlockPool.on_queue _) _ _ => apply still_on_queue
    | |- leaves (BlockPool.deref _) _ _ => apply still_deref
    | |- leaves (mfor _ _) _ _ => apply still_mfor; [intros ? ? ?|]
    | |- leaves (of_option _ _) _ _ => apply leaves_of_option
    | |- leaves (of_result _) _ _ => apply leaves_of_result
    | |- leaves (assert _) _ _ => apply leaves_assert
    | |- leaves (if ?b then _ else _) _ _ => destruct b
    | |- leaves (match ?o with _ => _ end) _ _ => destruct o
    | |- leaves (put _) _ _ => unfold leaves; simpl
    | |- leaves (modify _) _ _ => unfold leaves; simpl
    | |- leaves (ret _) _ _ => unfold leaves; simpl
    | |- leaves (raise _) _ _ => unfold leaves; simpl
    end; cbv zeta); auto.

Lemma still_evict r : still (BlockPool._maybe_evict_cached_block r).
Proof using. intros p Hp. unfold BlockPool._maybe_evict_cached_block. keep_still. Qed.

Lemma still_new k : still (BlockPool.get_new_blocks k).
Proof using.
  intros p Hp. unfold BlockPool.get_new_blocks, BlockPool.acquire. apply leaves_got.
  destruct (_ <? _); [done|]. apply leaves_bind; [by apply still_on_queue|]. intros bs p1 H1.
  apply leaves_bind; [|by intros].
  destruct (BlockPool.enable_caching p); (apply still_mfor; [intros b q Hq|done]).
  - apply leaves_bind; [by apply still_evict|]. intros [] q' Hq'; keep_still.
  - keep_still.
Qed.

Lemma still_touch bs : still (BlockPool.touch bs).
Proof using.
  intros p Hp. unfold BlockPool.touch. apply still_mfor; [|done]. intros b q Hq.
  unfold BlockPool.touch_block. keep_still.
Qed.

Lemma still_free bs : still (BlockPool.free_blocks bs).
Proof using. intros p Hp. unfold BlockPool.free_blocks. keep_still. Qed.

Lemma still_cache_loop g hs i blks nh : still (BlockPool.cache_loop g hs i blks nh).
Proof using.
  revert i nh. induction blks as [|r blks IH]; intros i nh p Hp; [done|]. simpl.
  apply leaves_bind; [by apply still_deref|]. intros b p1 H1.
  destruct (is_null b); [by apply IH|]. unfold BlockPool.assign_hash.
  keep_still. by apply IH.
Qed.

Lemma still_reset : still BlockPool.reset_prefix_cache.
Proof using. intros p Hp. unfold BlockPool.reset_prefix_cache. keep_still. Qed.
End statics.

(** Two facts about one run. *)
Lemma succeeds_still `{HashEnv} {A} (m : M BlockPool.t A) p (Q : A -> BlockPool.t -> Prop) :
  still (statics p) m -> succeeds m p Q ->
  succeeds m p (fun a p' => Q a p' /\ statics p' = statics p).
Proof. intros Hm. specialize (Hm p eq_refl). unfold leaves, succeeds in *. destruct (m p); auto. Qed.

Lemma succeeds_both {S A} (m : M S A) s (P Q : A -> S -> Prop) :
  succeeds m s P -> succeeds m s Q -> succeeds m s (fun a s' => P a s' /\ Q a s').
Proof. unfold succeeds. destruct (m s); auto. Qed.

(** ** The invariant *)

Section full.
Context `{HashEnv}.
Context (n : nat) (bs : Z) (caching : bool).
Implicit Types (s : state) (free : list bref) (rid : string) (l : list bref).

Definition cached_count rid (m : Manager.t) : Z := default 0 (num_cached_block m !! rid).

Record full_ok free s : Prop := {
  fo_rep : mgr_rep n s free [] [];
  fo_class : m_class s.1 = FullAttentionManager;
  fo_caching : m_enable_caching s.1 = caching;
  fo_bs : m_block_size s.1 = bs;
  fo_group : 0 <= kv_cache_group_id s.1 < 2 ^ 32;
  fo_statics : statics s.2 = (caching, bs, false);
  fo_count rid : 0 <= cached_count rid s.1 <= len (blocks_of rid s.1);
  (** blocks not cached yet carry no hash ... *)
  fo_fresh rid j r : caching = true -> blocks_of rid s.1 !! j = Some r -> r <> Blk 0 ->
    cached_count rid s.1 <= Z.of_nat j -> hashof (BlockPool.heap s.2) r = None;
  (** ... a block without a hash (any block, without caching) is held once at most ... *)
  fo_alone r : r <> Blk 0 -> (caching = true -> hashof (BlockPool.heap s.2) r = None) ->
    occ r (held_by s.1) <= 1;
  (** ... and no table holds the null block *)
  fo_real rid : Blk 0 ∉ blocks_of rid s.1;
  fo_null : hashof (BlockPool.heap s.2) (Blk 0) = None;
}.

(** The blocks a prefix-cache hit may hand over. *)
Record hits_ok (p : BlockPool.t) l : Prop := {
  ho_touch : Forall (touchable n []) l;
  ho_nodup : NoDup (real_blocks l);
  ho_hashed r : r ∈ l -> is_Some (hashof (BlockPool.heap p) r);
  ho_caching : caching = false -> l = [];
}.

Lemma hits_ok_same p p' l :
  (forall r, hashof (BlockPool.heap p') r = hashof (BlockPool.heap p) r) -> hits_ok p l -> hits_ok p' l.
Proof using. intros Hh []. constructor; try done. intros r. rewrite Hh. auto. Qed.

Lemma nil_hits p : hits_ok p [].
Proof using. constructor; try done; [apply NoDup_nil_2|]. by intros r ?%not_elem_of_nil. Qed.

(** The tables of the requests in [P] are as before. *)
Definition tables_kept (P : string -> Prop) s s' : Prop :=
  config s'.1 = config s.1 /\ forall rid, P rid ->
    blocks_of rid s'.1 = blocks_of rid s.1
    /\ num_cached_block s'.1 !! rid = num_cached_block s.1 !! rid.

Definition others_same rid : state -> state -> Prop := tables_kept (fun rid' => rid' <> rid).

Lemma tables_kept_refl P s : tables_kept P s s.
Proof using. split; [done|]. intros ? ?. done. Qed.

Lemma tables_kept_trans P s1 s2 s3 : tables_kept P s1 s2 -> tables_kept P s2 s3 -> tables_kept P s1 s3.
Proof using.
  intros [E1 H1] [E2 H2]. split; [congruence|]. intros rid Hrid.
  destruct (H1 _ Hrid), (H2 _ Hrid). split; congruence.
Qed.

(** A block of two requests is held twice. *)
Lemma held_twice s rid rid' r :
  r <> Blk 0 -> rid <> rid' -> r ∈ blocks_of rid s.1 -> r ∈ blocks_of rid' s.1 ->
  1 < occ r (held_by s.1).
Proof using.
  intros H0 Hne H1 H2. unfold held_by. rewrite (occ_perm _ _ _ (table_split _ rid)).
  fold (blocks_of rid s.1). rewrite occ_app.
  assert (forall l, r ∈ l -> 1 <= occ r l) as Hone.
  { intros l Hl. pose proof (occ_nonneg r l). destruct (Z.eq_dec (occ r l) 0) as [E|]; [|lia].
    by apply occ_zero in E. }
  pose proof (Hone (real_blocks (blocks_of rid s.1)) ltac:(by apply elem_of_real_blocks)).
  assert (r ∈ table_blocks (delete rid (req_to_blocks s.1))) as Hin.
  { unfold blocks_of in H2. destruct (req_to_blocks s.1 !! rid') as [l|] eqn:E; [|by apply not_elem_of_nil in H2].
    eapply table_blocks_elem; [by rewrite lookup_delete_ne|exact H2|done]. }
  specialize (Hone _ Hin). lia.
Qed.

(** From the first block that is not cached on, a request shares no block. *)
Lemma uncached_alone free s rid j x :
  full_ok free s -> blocks_of rid s.1 !! j = Some x -> cached_count rid s.1 <= Z.of_nat j ->
  x <> Blk 0 /\ forall rid', rid' <> rid -> x ∉ blocks_of rid' s.1.
Proof using.
  intros Hs Hj Hge. assert (x <> Blk 0) as H0.
  { intros ->. apply (fo_real _ _ Hs rid). by eapply list_elem_of_lookup_2. }
  split; [done|]. intros rid' Hne Hin.
  assert (occ x (held_by s.1) <= 1) as Hle.
  { apply (fo_alone _ _ Hs); [done|]. intros Hcach. by eapply (fo_fresh _ _ Hs). }
  assert (1 < occ x (held_by s.1)); [|lia].
  apply (held_twice s rid rid'); [done|congruence| |done]. by eapply list_elem_of_lookup_2.
Qed.

(** ** New blocks *)

Lemma extend_hash free s rid k :
  mgr_rep n s free [] [] -> 0 <= k <= len free ->
  succeeds (extend_with_new rid k) s (fun new s' =>
    statics s'.2 = statics s.2 /\
    forall r, hashof (BlockPool.heap s'.2) r =
      if decide (BlockPool.enable_caching s.2 = true /\ r ∈ new) then None
      else hashof (BlockPool.heap s.2) r).
Proof using.
  intros Hm Hk. unfold extend_with_new. mstep. apply succeeds_on_pool.
  eapply succeeds_mono.
  { apply succeeds_still; [apply still_new|].
    apply (get_new_blocks_spec n _ _ _ _ _ (mr_pool _ _ _ _ _ Hm) Hk). }
  intros new p' [(_ & _ & Hh) Hst]. do 6 mstep.
  destruct (records_new_blocks _); repeat mstep; done.
Qed.

Lemma base_allocate_hash free s rid num_tokens :
  mgr_rep n s free [] [] ->
  let k := Z.max 0 (cdiv num_tokens (m_block_size s.1) - len (blocks_of rid s.1)) in
  k <= len free ->
  succeeds (base_allocate_new_blocks rid num_tokens) s (fun new s' =>
    statics s'.2 = statics s.2 /\
    forall r, hashof (BlockPool.heap s'.2) r =
      if decide (BlockPool.enable_caching s.2 = true /\ r ∈ new) then None
      else hashof (BlockPool.heap s.2) r).
Proof using.
  intros Hm k Hk. unfold base_allocate_new_blocks. do 4 mstep.
  change (m_block_size (seen rid s.1)) with (m_block_size s.1).
  destruct (Z.leb_spec (cdiv num_tokens (m_block_size s.1) - len (blocks_of rid s.1)) 0).
  - mstep. split; [done|]. intros r. by rewrite decide_False by (intros [_ []%not_elem_of_nil]).
  - eapply succeeds_mono; [by apply (extend_hash free (seen rid s.1, s.2)); [apply mgr_rep_seen|lia]|].
    done.
Qed.

(** [base_allocate_new_blocks] when the queue has the blocks. *)
Lemma full_grow free s rid num_tokens :
  full_ok free s ->
  let k := Z.max 0 (cdiv num_tokens bs - len (blocks_of rid s.1)) in
  k <= len free ->
  succeeds (base_allocate_new_blocks rid num_tokens) s (fun new s' =>
    full_ok (drop (Z.to_nat k) free) s' /\ len new = k /\
    blocks_of rid s'.1 = blocks_of rid s.1 ++ new /\
    num_cached_block s'.1 = num_cached_block s.1 /\ others_same rid s s').
Proof using.
  intros Hs k Hk. pose proof Hs as [Hm Hcl Hca Hb Hg Hst Hc Hf Ha Hz H0h].
  eapply succeeds_mono.
  { apply succeeds_both; [apply (base_allocate_spec n s free [] [] rid num_tokens Hm)
                         |apply (base_allocate_hash free s rid num_tokens Hm)]; by rewrite Hb. }
  rewrite Hb. fold k. intros new s' [(Enew & Hm' & Ht & Hcfg & Hn) [Hst' Hh]].
  assert (BlockPool.enable_caching s.2 = caching) as Hec by (by injection Hst).
  rewrite Hec in Hh.
  assert (forall rid', blocks_of rid' s'.1 = if decide (rid' = rid) then blocks_of rid s.1 ++ new else blocks_of rid' s.1) as Hbl.
  { intros rid'. unfold blocks_of at 1. rewrite Ht, lookup_insert. repeat case_decide; subst; done. }
  assert (forall r, r ∈ new -> r ∈ free) as Hnew.
  { intros r. rewrite Enew. intros (i & Hi & _)%elem_of_take. by apply list_elem_of_lookup_2 in Hi. }
  assert (forall r, r ∈ new -> r ∉ held_by s.1) as Hnh.
  { intros r Hr%Hnew. apply (pr_free _ _ _ _ _ (mr_pool _ _ _ _ _ Hm)) in Hr as (_ & Hr & _).
    by rewrite app_nil_r in Hr. }
  pose proof (config_eq _ _ Hcfg) as (E1 & E2 & E3 & E4 & E5).
  assert (kv_cache_group_id s'.1 = kv_cache_group_id s.1) as E6 by (unfold config in Hcfg; congruence).
  destruct (free_block_list n _ _ _ _ (Z.to_nat k) (mr_pool _ _ _ _ _ Hm)) as [[_ Hnd] H0].
  rewrite <- Enew in Hnd, H0. rewrite real_blocks_id in Hnd by done.
  split; [|split; [|split; [|split; [done|]]]].
  - constructor; try congruence.
    + intros rid'. unfold cached_count. rewrite Hn, Hbl. specialize (Hc rid'). unfold cached_count in Hc.
      destruct (decide (rid' = rid)) as [->|]; [|exact Hc]. rewrite len_app. pose proof (len_nonneg new). lia.
    + intros rid' j r Hcach Hj Hr0. unfold cached_count. rewrite Hn. intros Hge. rewrite Hh.
      destruct (decide (caching = true /\ r ∈ new)) as [|Hd]; [done|].
      rewrite Hbl in Hj. specialize (Hf rid' j r Hcach).
      destruct (decide (rid' = rid)) as [->|]; [|by apply Hf].
      apply lookup_app_Some in Hj as [Hj|[_ Hj]]; [by apply Hf|].
      exfalso. apply Hd. split; [done|]. by apply list_elem_of_lookup_2 in Hj.
    + intros r Hr0 Hnone. unfold held_by. rewrite Ht.
      rewrite (occ_perm _ _ _ (table_insert _ _ _)), real_blocks_app, !occ_app, (real_blocks_id new) by done.
      assert (occ r (held_by s.1) = occ r (real_blocks (blocks_of rid s.1))
        + occ r (table_blocks (delete rid (req_to_blocks s.1)))) as Hocc.
      { unfold held_by. rewrite (occ_perm _ _ _ (table_split _ rid)). apply occ_app. }
      assert (occ r new <= 1) as H1.
      { clear -Hnd. induction Hnd as [|x l Hx Hl IH]; [done|]. rewrite occ_cons.
        case_decide; [subst|lia]. apply occ_zero in Hx. lia. }
      destruct (decide (r ∈ new)) as [Hin|Hin].
      * apply Hnh, occ_zero in Hin.
        pose proof (occ_nonneg r (real_blocks (blocks_of rid s.1))).
        pose proof (occ_nonneg r (table_blocks (delete rid (req_to_blocks s.1)))). lia.
      * assert (occ r (held_by s.1) <= 1) as Hle.
        { apply Ha; [done|]. intros Hcach. specialize (Hnone Hcach). rewrite Hh in Hnone.
          by rewrite decide_False in Hnone by tauto. }
        apply occ_zero in Hin. lia.
    + intros rid'. rewrite Hbl. destruct (decide (rid' = rid)) as [->|]; [|apply Hz].
      rewrite elem_of_app. intros [?|?]; [by apply (Hz rid)|done].
    + rewrite Hh. by destruct (decide _).
  - rewrite Enew, len_take. pose proof (len_nonneg free). lia.
  - by rewrite Hbl, decide_True.
  - split; [done|]. intros rid' Hne. by rewrite Hbl, decide_False, Hn.
Qed.

(** ** Taking over the blocks of a prefix hit *)

Lemma computed_hash free s rid l local :
  full_ok free s -> num_cached_block s.1 !! rid = None -> blocks_of rid s.1 = [] -> hits_ok s.2 l ->
  succeeds (base_allocate_new_computed_blocks rid l local 0) s (fun _ s' =>
    statics s'.2 = statics s.2 /\
    forall r, hashof (BlockPool.heap s'.2) r = hashof (BlockPool.heap s.2) r).
Proof using.
  intros [Hm Hcl Hca Hb Hg Hst Hc Hf Ha Hz H0h] Hnc Hnil [Ht Hnd Hhs Hoff].
  unfold base_allocate_new_computed_blocks. do 2 mstep. rewrite Hnc. do 2 mstep. rewrite Hnil.
  mstep. apply succeeds_assert; [done|]. unfold get_num_skipped_tokens. rewrite Hcl.
  rewrite Z.div_0_l by (pose proof (mr_bs _ _ _ _ _ Hm); lia). cbv zeta. simpl (0 <? 0).
  mstep. eapply succeeds_mono with (Q := fun _ s' => s'.1 = seen rid s.1 /\ statics s'.2 = statics s.2 /\
    forall r, hashof (BlockPool.heap s'.2) r = hashof (BlockPool.heap s.2) r).
  - rewrite Hca. destruct caching.
    + apply succeeds_on_pool. eapply succeeds_mono.
      { apply succeeds_still; [apply still_touch|].
        apply (touch_spec n _ _ _ _ _ (mr_pool _ _ _ _ _ Hm) Ht). }
      intros _ p' [[_ Hh] Hs']. done.
    + rewrite (Hoff eq_refl). done.
  - intros [] s' (Hs1 & Hs2 & Hh). repeat mstep. done.
Qed.

Lemma full_take free s rid l local :
  full_ok free s -> num_cached_block s.1 !! rid = None -> blocks_of rid s.1 = [] -> hits_ok s.2 l ->
  succeeds (base_allocate_new_computed_blocks rid l local 0) s (fun _ s' =>
    full_ok (filter (fun r => r ∉ l) free) s' /\ blocks_of rid s'.1 = l /\
    num_cached_block s'.1 !! rid = Some (len l) /\ others_same rid s s').
Proof using.
  intros Hs Hnc Hnil Hl. pose proof Hs as [Hm Hcl Hca Hb Hg Hst Hc Hf Ha Hz H0h].
  pose proof Hl as [Ht Hnd Hhs Hoff].
  assert (get_num_skipped_tokens s.1 (local + 0) = 0) as Hskip by (unfold get_num_skipped_tokens; by rewrite Hcl).
  assert (0 / m_block_size s.1 = 0) as Hdiv by (apply Z.div_0_l; pose proof (mr_bs _ _ _ _ _ Hm); lia).
  eapply succeeds_mono.
  { apply succeeds_both; [|by apply (computed_hash free s rid l local)].
    apply (base_computed_spec n s free [] [] rid l local 0 Hm Hnc Hnil Ht Hnd).
    - rewrite Hca. apply Hoff.
    - rewrite Hskip, Hdiv. simpl. split; [done|apply len_nonneg]. }
  rewrite Hskip, Hdiv. simpl. rewrite !drop_0, app_nil_r.
  intros _ s' [(Hm' & Htab & Hn & Hcfg) [Hst' Hh]].
  pose proof (config_eq _ _ Hcfg) as (E1 & E2 & E3 & E4 & E5).
  assert (kv_cache_group_id s'.1 = kv_cache_group_id s.1) as E6 by (unfold config in Hcfg; congruence).
  assert (forall rid', blocks_of rid' s'.1 = if decide (rid' = rid) then l else blocks_of rid' s.1) as Hbl.
  { intros rid'. unfold blocks_of at 1. rewrite Htab, lookup_insert. repeat case_decide; subst; done. }
  assert (forall rid', cached_count rid' s'.1 = if decide (rid' = rid) then len l else cached_count rid' s.1) as Hcc.
  { intros rid'. unfold cached_count. rewrite Hn, lookup_insert. repeat case_decide; subst; done. }
  split; [|split; [|split]].
  - constructor; try congruence.
    + intros rid'. rewrite Hcc, Hbl. destruct (decide (rid' = rid)); [|done].
      pose proof (len_nonneg l). lia.
    + intros rid' j r Hcach. rewrite Hbl, Hcc, Hh. destruct (decide (rid' = rid)); [|by apply Hf].
      intros Hj _ Hge. apply lookup_lt_Some in Hj. unfold len in Hge. lia.
    + intros r Hr0. rewrite Hh. intros Hnone. specialize (Ha r Hr0 Hnone).
      assert (r ∉ real_blocks l) as Hx.
      { rewrite elem_of_real_blocks. intros [_ Hin]. destruct (Hhs r Hin).
        destruct caching; [specialize (Hnone eq_refl); congruence|].
        rewrite (Hoff eq_refl) in Hin. by apply not_elem_of_nil in Hin. }
      apply occ_zero in Hx. unfold held_by. rewrite Htab, (occ_perm _ _ _ (table_insert _ _ _)), occ_app, Hx.
      unfold held_by in Ha. rewrite (occ_perm _ _ _ (table_split _ rid)), occ_app in Ha.
      pose proof (occ_nonneg r (real_blocks (default [] (req_to_blocks s.1 !! rid)))).
      lia.
    + intros rid'. rewrite Hbl. destruct (decide (rid' = rid)) as [->|]; [|apply Hz].
      intros Hin. destruct (Hhs _ Hin). congruence.
  - by rewrite Hbl, decide_True.
  - by rewrite Hn, lookup_insert_eq.
  - split; [done|]. intros rid' Hne. by rewrite Hbl, decide_False, Hn, lookup_insert_ne.
Qed.

(** ** Freeing *)

Lemma full_free free s rid :
  full_ok free s ->
  succeeds (base_free rid) s (fun _ s' => exists free',
    full_ok free' s' /\ num_cached_block s'.1 !! rid = None /\ blocks_of rid s'.1 = [] /\
    others_same rid s s').
Proof using.
  intros Hs. pose proof Hs as [Hm Hcl Hca Hb Hg Hst Hc Hf Ha Hz H0h].
  assert (succeeds (base_free rid) s (fun _ s' => statics s'.2 = statics s.2)) as Hstill.
  { pose proof (base_free_spec n _ _ _ _ rid Hm) as Hrun. apply succeeds_inv in Hrun as ([] & s' & Hrun & _).
    pose proof (still_free (statics s.2) (rev (blocks_of rid s.1)) s.2 eq_refl) as Hfr.
    unfold succeeds. unfold base_free, pop_req_blocks, bind, self, update, modify, ret, on_pool, zoom in *.
    simpl in *. unfold leaves in Hfr. fold (blocks_of rid s.1) in Hrun |- *.
    destruct (BlockPool.free_blocks _ _); [|done]. done. }
  eapply succeeds_mono.
  { apply succeeds_both; [apply (base_free_spec n _ _ _ _ rid Hm)|exact Hstill]. }
  intros _ s' [(Hm' & Htab & Hn & Hcfg & Hh) Hst'].
  pose proof (config_eq _ _ Hcfg) as (E1 & E2 & E3 & E4 & E5).
  assert (kv_cache_group_id s'.1 = kv_cache_group_id s.1) as E6 by (unfold config in Hcfg; congruence).
  assert (forall rid', blocks_of rid' s'.1 = if decide (rid' = rid) then [] else blocks_of rid' s.1) as Hbl.
  { intros rid'. unfold blocks_of at 1. rewrite Htab, lookup_delete. repeat case_decide; subst; done. }
  assert (forall rid', cached_count rid' s'.1 = if decide (rid' = rid) then 0 else cached_count rid' s.1) as Hcc.
  { intros rid'. unfold cached_count. rewrite Hn, lookup_delete. repeat case_decide; subst; done. }
  eexists. split; [|split; [|split]].
  - constructor; try congruence; [exact Hm'|..].
    + intros rid'. rewrite Hcc, Hbl. destruct (decide (rid' = rid)); [done|apply Hc].
    + intros rid' j r Hcach. rewrite Hbl, Hcc, Hh. destruct (decide (rid' = rid)); [done|by apply Hf].
    + intros r Hr0. rewrite Hh. intros Hnone. specialize (Ha r Hr0 Hnone).
      unfold held_by in Ha |- *. rewrite Htab. rewrite (occ_perm _ _ _ (table_split _ rid)), occ_app in Ha.
      pose proof (occ_nonneg r (real_blocks (default [] (req_to_blocks s.1 !! rid)))). lia.
    + intros rid'. rewrite Hbl. destruct (decide (rid' = rid)); [by apply not_elem_of_nil|apply Hz].
  - by rewrite Hn, lookup_delete_eq.
  - by rewrite Hbl, decide_True.
  - split; [done|]. intros rid' Hne. by rewrite Hbl, decide_False, Hn, lookup_delete_ne.
Qed.

(** ** Caching *)

Lemma real_take k l : NoDup (real_blocks l) -> NoDup (real_blocks (take k l)).
Proof using. rewrite <- (take_drop k l) at 1. rewrite real_blocks_app. by intros (? & _ & _)%NoDup_app. Qed.

(** A real block is at one position of such a list. *)
Lemma real_position l i j x :
  NoDup (real_blocks l) -> l !! i = Some x -> l !! j = Some x -> x <> Blk 0 -> i = j.
Proof using.
  revert i j. induction l as [|y l IH]; intros i j Hnd Hi Hj H0; [done|].
  change (y :: l) with ([y] ++ l) in Hnd. rewrite real_blocks_app in Hnd.
  apply NoDup_app in Hnd as (_ & Hd & Hnd).
  assert (x = y -> x ∈ l -> False) as Hno.
  { intros -> Hin. apply (Hd y); apply elem_of_real_blocks; (split; [done|]); [left|done]. }
  destruct i as [|i], j as [|j]; simpl in Hi, Hj; [done|..].
  - injection Hi as ->. exfalso. by apply Hno; [|eapply list_elem_of_lookup_2].
  - injection Hj as ->. exfalso. by apply Hno; [|eapply list_elem_of_lookup_2].
  - f_equal. by apply IH.
Qed.

(** Caching the blocks [a .. b) of a request: the uncached ones get a hash. *)
Lemma full_cache_pool free s (r : Request) a b :
  full_ok free s -> caching = true -> a = cached_count (request_id r) s.1 ->
  a < b -> b <= len (blocks_of (request_id r) s.1) -> b <= len (block_hashes r) ->
  let l := py_slice (blocks_of (request_id r) s.1) a b in
  succeeds (BlockPool.cache_full_blocks r (blocks_of (request_id r) s.1) a b bs
              (kv_cache_group_id s.1)) s.2 (fun r' p' =>
    r' = r /\ statics p' = statics s.2 /\ pool_rep n p' free (held_by s.1 ++ []) [] /\
    (forall x, (x ∉ l) \/ x = Blk 0 -> hashof (BlockPool.heap p') x = hashof (BlockPool.heap s.2) x) /\
    (forall x, x ∈ l -> x <> Blk 0 -> is_Some (hashof (BlockPool.heap p') x))).
Proof using.
  intros Hs Hcach Ea Hab Hlen Hhs l. pose proof Hs as [Hm Hcl Hca Hb Hg Hst Hc Hf Ha Hz H0h].
  pose proof (mr_pool _ _ _ _ _ Hm) as Hp. pose proof Hp as [Hco Hr Hfree Hheld Hres Hndr].
  pose proof (Hc (request_id r)) as Ha0. rewrite <- Ea in Ha0.
  injection Hst as _ Ebs Eev.
  set (tab := blocks_of (request_id r) s.1) in *.
  destruct (blocks_of_list _ _ _ _ _ (request_id r) Hm) as [Hreal Hnd]. fold tab in Hreal, Hnd.
  unfold BlockPool.cache_full_blocks. rewrite (proj2 (Z.leb_gt b a)) by lia. repeat sstep.
  apply succeeds_assert; [lia|]. sstep.
  eapply (succeeds_of_result _ (HashList (block_hashes r))).
  { unfold get_block_hashes_for. by rewrite Ebs, Z.eqb_refl. }
  rewrite Eev. cbv zeta. fold l. sstep.
  assert (l = take (Z.to_nat b - Z.to_nat a) (drop (Z.to_nat a) tab)) as El.
  { unfold l. rewrite py_slice_nonneg by lia. f_equal. lia. }
  eapply succeeds_mono.
  { apply succeeds_still; [apply still_cache_loop|].
    apply (cache_loop_spec n _ (bhl_from (HashList (block_hashes r)) a) 0 l None s.2 free Hco); [|lia|done| | |].
    - rewrite El. by apply Forall_take, Forall_drop.
    - simpl. rewrite py_drop_nonneg, len_drop by lia. rewrite El, len_take, len_drop. lia.
    - rewrite El. by apply real_take, block_list_drop.
    - intros x Hx Hx0. apply list_elem_of_lookup in Hx as [j Hj].
      rewrite El, lookup_take_Some, lookup_drop in Hj. destruct Hj as [Hj _].
      eapply (Hf (request_id r)); [done|exact Hj|done|]. rewrite <- Ea. lia. }
  intros _ p' [([Hc' Hr'] & Hsame & Hkeys) Hst']. sstep. split; [done|]. split; [done|]. split; [|split; [done|]].
  - constructor; try done. by eapply refs_same.
  - intros x Hx Hx0. apply list_elem_of_lookup in Hx as [j Hj].
    assert (is_Some (bhl_from (HashList (block_hashes r)) a !! j)) as [h Hh].
    { apply lookup_lt_is_Some. simpl. rewrite py_drop_nonneg, length_drop by lia.
      apply lookup_lt_Some in Hj. rewrite El, length_take, length_drop in Hj. unfold len in *. lia. }
    destruct (Hkeys j x h Hj Hx0 Hh) as (k & _ & ->). by eexists.
Qed.

Lemma full_cache free s (r : Request) num_tokens :
  full_ok free s -> caching = true -> 0 <= num_tokens ->
  num_tokens / bs <= len (blocks_of (request_id r) s.1) -> num_tokens / bs <= len (block_hashes r) ->
  succeeds (base_cache_blocks r num_tokens) s (fun r' s' =>
    r' = r /\ full_ok free s' /\ blocks_of (request_id r) s'.1 = blocks_of (request_id r) s.1 /\
    cached_count (request_id r) s'.1 = Z.max (cached_count (request_id r) s.1) (num_tokens / bs) /\
    others_same (request_id r) s s').
Proof using.
  intros Hs Hcach Hnt Hlen Hhs. pose proof Hs as [Hm Hcl Hca Hb Hg Hst Hc Hf Ha Hz H0h].
  unfold base_cache_blocks. do 2 mstep. rewrite Hb. cbv zeta.
  fold (cached_count (request_id r) s.1). set (rid := request_id r) in *. set (b := num_tokens / bs) in *.
  destruct (Z.leb_spec b (cached_count rid s.1)) as [|Hlt].
  { mstep. split; [done|]. split; [done|]. split; [done|]. split; [lia|]. apply tables_kept_refl. }
  do 2 mstep.
  mstep. apply succeeds_on_pool. cbn [fst snd].
  change (kv_cache_group_id s.1) with (kv_cache_group_id s.1).
  eapply succeeds_mono; [by apply (full_cache_pool free s r (cached_count rid s.1) b)|].
  intros r' p' (-> & Hst' & Hp' & Hsame & Hkeys). do 3 mstep. split; [done|].
  fold rid. set (l := py_slice (blocks_of rid s.1) (cached_count rid s.1) b) in *.
  set (s' := (_, p')).
  assert (mgr_rep n (seen rid s.1, p') free [] []) as Hm'.
  { destruct (mgr_rep_seen n s free [] [] rid Hm) as [Hp1 H1 H2 H3]. constructor; try done.
    eapply pool_rep_perm; [|exact Hp']. cbn [fst]. unfold held_by at 2, seen. cbn [req_to_blocks set_req_to_blocks].
    rewrite table_insert. unfold held_by. rewrite (table_split _ rid). done. }
  assert (forall rid', blocks_of rid' s'.1 = blocks_of rid' s.1) as Hbl.
  { intros rid'. unfold s', blocks_of, seen. simpl. rewrite lookup_insert. case_decide; by subst. }
  assert (forall rid', cached_count rid' s'.1 = if decide (rid' = rid) then b else cached_count rid' s.1) as Hcc.
  { intros rid'. unfold s', cached_count. simpl. rewrite lookup_insert. repeat case_decide; by subst. }
  assert (forall x, x <> Blk 0 -> hashof (BlockPool.heap p') x = None ->
    hashof (BlockPool.heap s.2) x = None /\ (x ∉ l)) as Hnone.
  { intros x Hx0 Hx. destruct (decide (x ∈ l)) as [Hin|Hin].
    - destruct (Hkeys x Hin Hx0). congruence.
    - by rewrite <- (Hsame x (or_introl Hin)). }
  pose proof (Hc rid) as Hrid.
  assert (l = take (Z.to_nat b - Z.to_nat (cached_count rid s.1)) (drop (Z.to_nat (cached_count rid s.1)) (blocks_of rid s.1))) as El.
  { unfold l. rewrite py_slice_nonneg by lia. f_equal. lia. }
  split; [|split; [apply Hbl|split; [rewrite Hcc, decide_True by done; lia|]]].
  - constructor; try done.
    + by eapply mgr_rep_eq.
    + by rewrite <- Hst.
    + intros rid'. rewrite Hcc, Hbl. destruct (decide (rid' = rid)) as [->|]; [|done]. lia.
    + intros rid' j x _. rewrite Hcc, Hbl. intros Hj Hx0 Hge. change (s'.2) with p'.
      rewrite Hsame.
      { apply (Hf rid' j x Hcach Hj Hx0). destruct (decide (rid' = rid)) as [->|]; lia. }
      left. intros Hin. apply list_elem_of_lookup in Hin as [i Hi].
      change (l !! i = Some x) in Hi. rewrite El, lookup_take_Some, lookup_drop in Hi. destruct Hi as [Hi Hib].
      destruct (decide (rid' = rid)) as [->|Hne].
      * destruct (blocks_of_list _ _ _ _ _ rid Hm) as [_ Hnd].
        assert (Z.to_nat (cached_count rid s.1) + i = j)%nat by (by eapply real_position). lia.
      * assert (1 < occ x (held_by s.1)) as Htwo.
        { apply (held_twice s rid rid'); [done|congruence| |]; eapply list_elem_of_lookup_2; [exact Hi|exact Hj]. }
        assert (hashof (BlockPool.heap s.2) x = None) as Hx.
        { eapply (Hf rid); [done|exact Hi|done|lia]. }
        specialize (Ha x Hx0 (fun _ => Hx)). lia.
    + intros x Hx0 Hx. apply Hnone in Hx as [Hx _]; [|done..].
      specialize (Ha x Hx0 (fun _ => Hx)). unfold s', held_by, seen. simpl.
      rewrite (occ_perm _ _ _ (table_insert _ _ _)).
      unfold held_by in Ha. by rewrite (occ_perm _ _ _ (table_split _ rid)) in Ha.
    + intros rid'. rewrite Hbl. apply Hz.
    + change (s'.2) with p'. rewrite Hsame; [done|by right].
  - split; [done|]. intros rid' Hne. rewrite Hbl. split; [done|]. unfold s'. simpl.
    by rewrite lookup_insert_ne.
Qed.

(** ** Resetting and the rest *)

Lemma no_keys_no_hash p free held reserved x :
  pool_rep n p free held reserved -> (forall k, BlockPool.cached_block_hash_to_block p !! k = None) ->
  hashof (BlockPool.heap p) x = None.
Proof using.
  intros Hp Hno. destruct (hashof (BlockPool.heap p) x) as [k|] eqn:E; [|done]. exfalso.
  apply (pc_cache _ _ _ (pr_core _ _ _ _ _ Hp)) in E. unfold cached_at in E. rewrite Hno in E.
  by apply not_elem_of_nil in E.
Qed.

Lemma held_none s : (forall rid, blocks_of rid s.1 = []) -> held_by s.1 = [].
Proof using.
  intros Hnil. apply elem_of_nil_inv. intros x Hx. unfold held_by, table_blocks in Hx.
  apply elem_of_real_blocks in Hx as [_ Hx]. apply list_elem_of_In, in_concat in Hx as (l & Hl & Hx).
  apply list_elem_of_In, list_elem_of_fmap in Hl as ([rid l'] & -> & Hl). apply elem_of_map_to_list in Hl.
  specialize (Hnil rid). unfold blocks_of in Hnil. rewrite Hl in Hnil. simpl in Hnil. by rewrite Hnil in Hx.
Qed.

Lemma full_reset free s :
  full_ok free s ->
  succeeds BlockPool.reset_prefix_cache s.2 (fun b p' =>
    full_ok free (s.1, p') /\ ((forall rid, blocks_of rid s.1 = []) -> b = true)).
Proof using H.
  intros [Hm Hcl Hca Hb Hg Hst Hc Hf Ha Hz H0h]. pose proof (mr_pool _ _ _ _ _ Hm) as Hp.
  eapply succeeds_mono.
  { apply succeeds_still; [apply still_reset|]. by apply (reset_prefix_cache_spec n). }
  intros b p' [(Hp' & Hiff & Hno & Hyes) Hst']. rewrite app_nil_r in Hiff. split.
  - assert (mgr_rep n (s.1, p') free [] []) as Hm'.
    { destruct Hm as [_ H0 Hbs Hl]. by constructor. }
    constructor; try done; [by simpl; congruence|..].
    + intros rid j x Hcach Hj Hx0 Hge. destruct b.
      * destruct (proj1 Hiff eq_refl) as [Hheld _]. exfalso.
        unfold blocks_of in Hj. destruct (req_to_blocks (s.1, p').1 !! rid) as [l|] eqn:E; [|done].
        apply list_elem_of_lookup_2 in Hj. pose proof (table_blocks_elem _ _ _ _ E Hj Hx0) as Hin.
        unfold held_by in Hheld. simpl in Hin. rewrite Hheld in Hin. by apply not_elem_of_nil in Hin.
      * rewrite (Hno eq_refl). by eapply Hf.
    + intros x Hx0 Hx. destruct b.
      * destruct (proj1 Hiff eq_refl) as [Hheld _]. simpl. by rewrite Hheld.
      * rewrite (Hno eq_refl) in Hx. by apply Ha.
    + destruct b; [|by rewrite (Hno eq_refl)]. by apply (no_keys_no_hash p' free _ _ _ Hp'), Hyes.
  - intros Hnil. apply Hiff. split; [by apply held_none|done].
Qed.

(** Fields that no invariant mentions, and reading a request's list. *)
Lemma full_ok_eq free s s' :
  full_ok free s -> s'.2 = s.2 -> config s'.1 = config s.1 -> num_cached_block s'.1 = num_cached_block s.1 ->
  (forall rid, blocks_of rid s'.1 = blocks_of rid s.1) -> held_by s'.1 ≡ₚ held_by s.1 ->
  (forall rid l, req_to_blocks s'.1 !! rid = Some l -> block_list n l) -> full_ok free s'.
Proof using.
  intros [Hm Hcl Hca Hb Hg Hst Hc Hf Ha Hz H0h] Ep Hcfg En Hbl Hheld Hlists.
  pose proof (config_eq _ _ Hcfg) as (E1 & E2 & E3 & E4 & E5).
  assert (kv_cache_group_id s'.1 = kv_cache_group_id s.1) as E6 by (unfold config in Hcfg; congruence).
  assert (forall rid, cached_count rid s'.1 = cached_count rid s.1) as Hcc by (intros; unfold cached_count; by rewrite En).
  constructor; try congruence.
  - destruct Hm as [Hp H0 Hbs Hl]. constructor; try congruence; [|exact Hlists].
    rewrite Ep. eapply pool_rep_perm; [|exact Hp]. by rewrite Hheld.
  - intros rid. by rewrite Hcc, Hbl.
  - intros rid j x. rewrite Hcc, Hbl, Ep. apply Hf.
  - intros x. rewrite Ep. intros Hx0 Hx. rewrite (occ_perm _ _ _ Hheld). by apply Ha.
  - intros rid. rewrite Hbl. apply Hz.
Qed.

Lemma full_seen free s rid : full_ok free s -> full_ok free (seen rid s.1, s.2).
Proof using.
  intros Hs. pose proof (mgr_rep_seen n s free [] [] rid (fo_rep _ _ Hs)) as [_ _ _ Hl].
  apply (full_ok_eq free s); try done.
  - intros rid'. unfold blocks_of at 1, seen. simpl. rewrite lookup_insert. case_decide; by subst.
  - cbn [fst]. unfold held_by, seen. simpl. rewrite table_insert. symmetry. apply table_split.
Qed.

Lemma seen_kept s rid P : tables_kept P s (seen rid s.1, s.2).
Proof using.
  split; [done|]. intros rid' _. split; [|done]. unfold blocks_of at 1, seen. simpl.
  rewrite lookup_insert. case_decide; by subst.
Qed.
End full.
