(* ===== verification/KVStandard.v ===== *)
(** * [KVCacheManager] keeps the promises of the KV cache

    For a model with one full-attention group, with or without prefix caching, and
    with KV events disabled, the manager of kv_cache_manager.py satisfies
    [KVCacheLaws]: no call of the scheduler on it raises, an allocation that is
    granted gives room for the step, and other requests keep theirs.  So the
    theorems about the scheduler and the engine hold with the real manager. *)

From S2P Require Import Prelude FreeQueue Request BlockHash BlockPool CacheSpec SingleType Ownership.
From S2P Require Import PrefixHit Coordinator Ledger Admission Stats KVManager KVCache FullManager.
From stdpp Require Import options.

Import KVCacheManager.

Section standard.
Context `{HashEnv}.
Context (hash_function : bytes * list Z * option (list extra_key) -> bytes) (NONE_HASH : bytes).
Context (n : nat) (bs max_len : Z) (caching : bool).
Implicit Types (s : KVCacheManager.t) (m : Manager.t) (free : list bref) (rid : string) (r : Request).

(** ** The states *)

Record standard s m free : Prop := {
  sd_managers : managers s = [m];
  sd_full : full_ok n bs caching free (m, block_pool s);
  sd_groups : num_kv_cache_groups s = 1;
  sd_len : max_model_len s = max_len;
  sd_caching : enable_caching s = caching;
  sd_stats : log_stats s = true -> is_Some (prefix_cache_stats s);
  sd_search : caching = true -> exists g, one_full_group s m g;
}.

Definition std_ok s : Prop := exists m free, standard s m free.

Definition std_room s rid (k : Z) : Prop :=
  Forall (fun m => k <= bs * len (blocks_of rid m)) (managers s).

Definition std_clear s rid : Prop :=
  Forall (fun m => Manager.num_cached_block m !! rid = None /\ blocks_of rid m = []) (managers s).

(** What [get_computed_blocks] returns: a hit of the pool, or the shared empty blocks. *)
Definition std_legal s (rid : string) (b : KVCacheBlocks) (k : Z) : Prop :=
  exists l, kv_blocks b = [l] /\ k = len l * bs /\ (is_shared_empty b = true -> l = []) /\
    hits_ok n caching (block_pool s) l.

(** A text request whose stored hashes are those of its full blocks. *)
Definition std_good r : Prop :=
  caching = true -> mm_features r = [] /\ memo_ok env_sha256 r /\ hashed hash_function NONE_HASH env_sha256 bs r.

(** ** Running a method of all managers on the only one *)

Lemma standard_pos s m free : standard s m free -> 0 < bs.
Proof using. intros [_ Hf _ _ _ _ _]. rewrite <- (fo_bs _ _ _ _ _ Hf). apply (mr_bs _ _ _ _ _ (fo_rep _ _ _ _ _ Hf)). Qed.

Lemma standard_class s m free : standard s m free -> Manager.m_class m = FullAttentionManager.
Proof using. intros Hs. apply (fo_class _ _ _ _ _ (sd_full _ _ _ Hs)). Qed.

Lemma standard_update s m free m' p' free' :
  standard s m free -> full_ok n bs caching free' (m', p') -> config m' = config m ->
  standard (set_coordinator ([m'], p') s) m' free'.
Proof using.
  intros [Hms Hf Hg Hl Hc Hst Hse] Hf' Hcfg. constructor; try done.
  intros Hcach. destruct (Hse Hcach) as [g []]. exists g.
  apply config_eq in Hcfg as (E1 & _ & E3 & E4 & _). constructor; try done; simpl; congruence.
Qed.

Lemma on_each {A} (f : Z -> A -> M Manager.state A) a s m free (R : A -> t -> Prop) :
  standard s m free ->
  succeeds (f 0 a) (m, block_pool s) (fun b (x : Manager.state) => R b (set_coordinator ([x.1], x.2) s)) ->
  succeeds (on_coordinator (Coordinator.each f a)) s R.
Proof using.
  intros Hs Hf. apply succeeds_zoom. unfold Coordinator.each, succeeds in *.
  pose proof (sd_managers _ _ _ Hs) as E. unfold managers in E. unfold block_pool in Hf. rewrite E. simpl.
  by destruct (f 0 a _) as [b [m' p']|].
Qed.

Definition kept s s' (P : string -> Prop) : Prop :=
  std_ok s' /\ forall rid, P rid ->
    (forall k, std_room s rid k -> std_room s' rid k) /\ (std_clear s rid -> std_clear s' rid).

Lemma standard_room s m free rid k :
  standard s m free -> std_room s rid k <-> k <= bs * len (blocks_of rid m).
Proof using. intros Hs. unfold std_room. by rewrite (sd_managers _ _ _ Hs), Forall_singleton. Qed.

Lemma standard_clear s m free rid :
  standard s m free ->
  std_clear s rid <-> Manager.num_cached_block m !! rid = None /\ blocks_of rid m = [].
Proof using. intros Hs. unfold std_clear. by rewrite (sd_managers _ _ _ Hs), Forall_singleton. Qed.

Lemma kept_of s s' m m' free free' (P : string -> Prop) :
  standard s m free -> standard s' m' free' ->
  tables_kept P (m, block_pool s) (m', block_pool s') -> kept s s' P.
Proof using.
  intros Hs Hs' [_ Ho]. split; [by exists m', free'|]. intros rid Hrid.
  destruct (Ho rid Hrid) as [Eb En]. simpl in Eb, En. split.
  - intros k. rewrite (standard_room _ _ _ _ _ Hs), (standard_room _ _ _ _ _ Hs'). by rewrite Eb.
  - rewrite (standard_clear _ _ _ _ Hs), (standard_clear _ _ _ _ Hs'). by rewrite Eb, En.
Qed.

Lemma kept_tables s m free (P : string -> Prop) (x : Manager.state) free' :
  standard s m free -> full_ok n bs caching free' x -> tables_kept P (m, block_pool s) x ->
  kept s (set_coordinator ([x.1], x.2) s) P.
Proof using.
  destruct x as [m' p']. intros Hs Hf Ho. eapply kept_of; [done| |exact Ho].
  eapply standard_update; [done..|apply Ho].
Qed.

Lemma std_kept_refl s m free : standard s m free -> kept s s (fun _ => True).
Proof using. intros Hs. split; [by exists m, free|]. auto. Qed.

Lemma kept_weaken s s' (P P' : string -> Prop) : kept s s' P -> (forall rid, P' rid -> P rid) -> kept s s' P'.
Proof using. intros [? Hk] HP. split; [done|]. intros rid Hrid. by apply Hk, HP. Qed.

(** ** The calls that do not allocate *)


(** ** The calls that do not allocate *)

Lemma standard_same s m free : standard s m free -> set_coordinator ([m], block_pool s) s = s.
Proof using.
  intros Hs. pose proof (sd_managers _ _ _ Hs) as E. destruct s as [a b c d e f [ms p] g]. simpl in *.
  unfold managers in E. simpl in E. by subst.
Qed.

Lemma standard_stats s m free p : standard s m free -> is_Some p -> standard (set_stats p s) m free.
Proof using.
  intros [Hms Hf Hg Hl Hc Hst Hse] Hp. constructor; try done.
  intros Hcach. destruct (Hse Hcach) as [g []]. by exists g.
Qed.

Lemma kept_stats s m free p : standard s m free -> is_Some p -> kept s (set_stats p s) (fun _ => True).
Proof using. intros Hs Hp. split; [by eexists _, _; eapply standard_stats|]. auto. Qed.

Lemma new_step_run s : std_ok s -> succeeds new_step_starts s (fun _ s' => kept s s' (fun _ => True)).
Proof using.
  intros (m & free & Hs). eapply on_each; [exact Hs|]. unfold Manager.new_step_starts. do 2 mstep.
  rewrite (standard_class _ _ _ Hs). mstep.
  rewrite (standard_same _ _ _ Hs). by eapply std_kept_refl.
Qed.

Lemma std_free_run r s :
  std_ok s -> succeeds (KVCacheManager.free r) s (fun _ s' =>
    kept s s' (fun rid => rid <> request_id r) /\ std_clear s' (request_id r)).
Proof using.
  intros (m & free & Hs). unfold KVCacheManager.free, Coordinator.free.
  eapply on_each; [exact Hs|]. unfold Manager.free. do 2 mstep.
  rewrite (standard_class _ _ _ Hs). simpl. mstep. mstep.
  eapply succeeds_mono; [by apply (full_free n bs caching free); apply Hs|].
  intros [] x (free' & Hf & Hnc & Hnil & Ho). split; [by eapply kept_tables|].
  eapply standard_clear; [eapply standard_update; [exact Hs| |apply Ho]|done].
  by rewrite <- surjective_pairing.
Qed.

Lemma get_blocks_run rid s :
  std_ok s -> succeeds (get_blocks rid) s (fun _ s' => kept s s' (fun _ => True)).
Proof using.
  intros (m & free & Hs). unfold get_blocks, Coordinator.get_blocks. sstep. apply succeeds_zoom.
  unfold Coordinator.managers, succeeds, bind, ret, get.
  rewrite (surjective_pairing (coordinator s)). fold (managers s) (block_pool s).
  rewrite (sd_managers _ _ _ Hs). simpl. rewrite (standard_same _ _ _ Hs). by eapply std_kept_refl.
Qed.

Lemma common_prefix_run rid s :
  std_ok s -> succeeds (get_num_common_prefix_blocks rid) s (fun _ s' => kept s s' (fun _ => True)).
Proof using.
  intros (m & free & Hs). unfold get_num_common_prefix_blocks, Coordinator.get_num_common_prefix_blocks.
  do 2 sstep. pose proof (standard_same _ _ _ Hs) as Es.
  assert (succeeds (on_coordinator (Coordinator.each (fun _ l =>
    k <- Manager.get_num_common_prefix_blocks rid ;; ret (l ++ [k])) [])) s
    (fun _ s' => kept s s' (fun _ => True))) as Heach.
  { eapply on_each; [exact Hs|]. unfold Manager.get_num_common_prefix_blocks. do 3 mstep.
    rewrite (standard_class _ _ _ Hs). repeat mstep.
    apply (kept_tables s m free _ (seen rid m, block_pool s) free Hs); [|apply (seen_kept (m, block_pool s))].
    apply (full_seen _ _ _ _ (m, block_pool s)), (sd_full _ _ _ Hs). }
  destruct (Coordinator.c_kind (conf s)); try exact Heach.
  apply succeeds_zoom. unfold Coordinator.managers, succeeds, bind, ret.
  rewrite (surjective_pairing (coordinator s)). fold (managers s) (block_pool s).
  rewrite (sd_managers _ _ _ Hs), Es. by eapply std_kept_refl.
Qed.

Lemma take_new_run s :
  std_ok s -> succeeds take_new_block_ids s (fun _ s' => kept s s' (fun _ => True)).
Proof using.
  intros (m & free & Hs). eapply on_each; [exact Hs|]. unfold Manager.take_new_block_ids. repeat mstep.
  pose proof (sd_full _ _ _ Hs) as Hf. apply (kept_tables s m free _ (Manager.set_new_block_ids [] m, block_pool s) free Hs);
    [|split; [done|]; intros ? ?; done].
  eapply full_ok_eq; [exact Hf|done..|]. apply (mr_lists _ _ _ _ _ (fo_rep _ _ _ _ _ Hf)).
Qed.

Lemma take_events_run s :
  std_ok s -> succeeds take_events s (fun _ s' => kept s s' (fun _ => True)).
Proof using.
  intros (m & free & Hs). do 2 apply succeeds_zoom. fold (block_pool s).
  pose proof (fo_statics _ _ _ _ _ (sd_full _ _ _ Hs)) as Hst. injection Hst as _ _ Hev.
  unfold BlockPool.take_events. do 2 sstep. simpl in Hev. rewrite Hev. cbn [negb]. sstep.
  fold (managers s). rewrite (sd_managers _ _ _ Hs), (standard_same _ _ _ Hs). by eapply std_kept_refl.
Qed.

Lemma stats_run s :
  std_ok s -> succeeds make_prefix_cache_stats s (fun _ s' => kept s s' (fun _ => True)).
Proof using.
  intros (m & free & Hs). unfold make_prefix_cache_stats. do 2 sstep.
  destruct (log_stats s) eqn:El; simpl; [|by sstep; eapply std_kept_refl].
  repeat sstep. by eapply kept_stats.
Qed.

Lemma reset_run s :
  std_ok s -> succeeds reset_prefix_cache s (fun b s' => kept s s' (fun _ => True)
    /\ ((forall rid, std_clear s rid) -> b = true)).
Proof using H.
  intros (m & free & Hs). unfold reset_prefix_cache. sstep. do 2 apply succeeds_zoom. fold (block_pool s).
  eapply succeeds_mono; [by apply (full_reset n bs caching free (m, block_pool s)); apply Hs|].
  intros b p' [Hf Hclear]. fold (managers s). rewrite (sd_managers _ _ _ Hs).
  assert ((forall rid, std_clear s rid) -> b = true) as Hb.
  { intros Hcl. apply Hclear. intros rid. by apply (standard_clear _ _ _ _ Hs), Hcl. }
  assert (kept s (set_coordinator ([m], p') s) (fun _ => True)) as Hk.
  { apply (kept_tables s m free (fun _ => True) (m, p') free); [done..|]. split; [done|]. by intros. }
  assert (standard (set_coordinator ([m], p') s) m free) as Hs' by (by eapply standard_update).
  destruct b; simpl; [|by sstep].
  do 3 sstep. change (log_stats (set_coordinator ([m], p') s)) with (log_stats s).
  destruct (log_stats s) eqn:El; [|by repeat sstep].
  destruct (sd_stats _ _ _ Hs El) as [st Est]. sstep.
  eapply succeeds_of_option; [exact Est|]. repeat sstep. split; [|done].
  destruct Hk as [_ Hk]. split; [|exact Hk]. eexists _, _. by eapply standard_stats.
Qed.

(** ** The prefix-cache search *)

Lemma hashed_nodup r :
  collision_free hash_function NONE_HASH -> hashed hash_function NONE_HASH env_sha256 bs r ->
  NoDup (block_hashes r).
Proof using.
  intros Hcf Hh. rewrite Hh. apply NoDup_alt. intros i j h Hi Hj.
  by destruct (hash_chain_inj _ _ _ _ _ _ _ Hcf Hi Hj).
Qed.

(** Blocks that carry the hashes of a request. *)
Lemma carried_hits s m free r l :
  standard s m free -> caching = true -> NoDup (block_hashes r) ->
  (length l <= length (block_hashes r))%nat ->
  (forall j h, (j < length l)%nat -> block_hashes r !! j = Some h ->
     exists x, l !! j = Some x /\ carries (block_pool s) h 0 x) ->
  hits_ok n caching (block_pool s) l.
Proof using.
  intros Hs Hcach Hnd Hlen Hc. pose proof (mr_pool _ _ _ _ _ (fo_rep _ _ _ _ _ (sd_full _ _ _ Hs))) as Hp.
  assert (forall x, x ∈ l -> exists k, hashof (BlockPool.heap (block_pool s)) x = Some k) as Hk.
  { intros x [j Hj]%list_elem_of_lookup. pose proof (lookup_lt_Some _ _ _ Hj) as Hjl.
    destruct (lookup_lt_is_Some_2 (block_hashes r) j) as [h Hh]; [lia|].
    destruct (Hc j h Hjl Hh) as (x' & Hx' & k & _ & Hhash). simplify_eq. by exists k. }
  constructor.
  - apply Forall_forall. intros x Hx. destruct (Hk x Hx) as [k Hhash].
    destruct (core_key_real n _ _ _ _ (pr_core _ _ _ _ _ Hp) Hhash) as (i & -> & Hi).
    exists i. split; [done|]. split; [done|]. intros _. apply not_elem_of_nil.
  - apply NoDup_filter. by eapply carried_nodup.
  - exact Hk.
  - congruence.
Qed.

Lemma empty_blocks s m free :
  standard s m free -> empty_kv_cache_blocks s = MkBlocks [[]] true.
Proof using. intros Hs. unfold empty_kv_cache_blocks. by rewrite (sd_groups _ _ _ Hs). Qed.

Lemma empty_legal s m free rid : standard s m free -> std_legal s rid (empty_kv_cache_blocks s) 0.
Proof using.
  intros Hs. rewrite (empty_blocks _ _ _ Hs). exists []. split; [done|]. split; [done|]. split; [done|].
  apply nil_hits.
Qed.

Lemma get_computed_run r s :
  collision_free hash_function NONE_HASH ->
  std_ok s -> std_good r -> 1 <= num_tokens r ->
  exists o, get_computed_blocks r s = Some o /\ succeeds (fun _ => o) s (fun x s' =>
    kept s s' (fun _ => True) /\ 0 <= x.2 < num_tokens r /\ std_legal s' (request_id r) x.1 x.2).
Proof using.
  intros Hcf (m & free & Hs) Hgood Hnt. unfold get_computed_blocks.
  destruct (negb (enable_caching s) || skip_reading_prefix_cache r)%bool eqn:Eoff.
  { eexists. split; [done|]. unfold succeeds. simpl. split; [by eapply std_kept_refl|]. split; [lia|].
    by eapply empty_legal. }
  bool_to_prop. rewrite (sd_caching _ _ _ Hs) in *. destruct (sd_search _ _ _ Hs) as [g Hg]; [done|].
  destruct Hgood as (_ & _ & Hh); [done|]. pose proof (sd_full _ _ _ Hs) as Hf.
  pose proof (fo_bs _ _ _ _ _ Hf) as Ebs. cbn [fst] in Ebs.
  destruct (unitary_full_hit n s m g r free _ Hg (mr_pool _ _ _ _ _ (fo_rep _ _ _ _ _ Hf)) (mr_bs _ _ _ _ _ (fo_rep _ _ _ _ _ Hf)) Hnt)
    as (l & Hrun & Hle & Hlen & Hc).
  rewrite Hrun. rewrite Ebs in *. pose proof (standard_pos _ _ _ Hs) as Hbs. pose proof (len_nonneg l).
  assert (std_legal s (request_id r) (create_kv_cache_blocks [l] s) (len l * bs)) as Hlegal.
  { pose proof (carried_hits _ _ _ _ _ Hs ltac:(done) (hashed_nodup _ Hcf Hh) Hlen Hc) as Hhits.
    unfold create_kv_cache_blocks. simpl. destruct (Z.eqb_spec (len l) 0) as [E0|]; simpl.
    - apply len_zero_nil in E0 as ->. by eapply empty_legal.
    - exists l. by split_and!. }
  eexists. split; [done|]. destruct (log_stats s) eqn:El.
  - destruct (sd_stats _ _ _ Hs El) as [st ->]. unfold succeeds. simpl.
    split; [by eapply kept_stats|]. split; [nia|exact Hlegal].
  - unfold succeeds. simpl. split; [by eapply std_kept_refl|]. split; [nia|exact Hlegal].
Qed.

(** ** Admission *)

(** The blocks a request needs beyond those it has and those it takes over. *)
Definition wanted s m rid (num_tokens : Z) (l : list bref) : Z :=
  Z.max (cdiv num_tokens bs - len (blocks_of rid m) - len l) 0
  + Manager._get_num_evictable_blocks (BlockPool.heap (block_pool s)) l.

Lemma predict_run s m free rid num_tokens l enc total main cap :
  standard s m free -> Manager.num_cached_block m !! rid = None \/ l = [] ->
  exists k, on_coordinator (Coordinator.get_num_blocks_to_allocate rid num_tokens [l] enc total main cap) s
      = Ret k s /\ (cap = false -> k = wanted s m rid num_tokens l).
Proof using.
  intros Hs Hl. pose proof (fo_bs _ _ _ _ _ (sd_full _ _ _ Hs)) as Ebs. cbn [fst] in Ebs.
  assert (exists k, Manager.get_num_blocks_to_allocate rid num_tokens l total main cap (m, block_pool s)
    = Ret k (m, block_pool s) /\ (cap = false -> k = wanted s m rid num_tokens l)) as (k & Hrun & Hk).
  { unfold Manager.get_num_blocks_to_allocate, Manager.base_get_num_blocks_to_allocate, bind,
      Manager.self, Manager.block_pool, assert, ret. simpl. rewrite (standard_class _ _ _ Hs). simpl. rewrite Ebs.
    fold (blocks_of rid m). unfold wanted.
    destruct (Manager.num_cached_block m !! rid) as [c|] eqn:Ec.
    - destruct Hl as [?| ->]; [done|]. simpl. eexists. split; [done|]. intros ->.
      change (len (@nil bref)) with 0.
      assert (Manager._get_num_evictable_blocks (BlockPool.heap (block_pool s)) [] = 0) as -> by done.
      destruct (Manager._max_admission_blocks_per_request m); lia.
    - unfold Manager.get_num_skipped_tokens. rewrite (standard_class _ _ _ Hs), Z.div_0_l
        by (pose proof (standard_pos _ _ _ Hs); lia).
      eexists. split; [done|]. intros ->. pose proof (len_nonneg (blocks_of rid m)). pose proof (len_nonneg l).
      rewrite py_drop_nonneg by lia. replace (Z.to_nat (Z.max 0 (0 - len (blocks_of rid m)))) with 0%nat by lia.
      rewrite drop_0. destruct (Manager._max_admission_blocks_per_request m); lia. }
  exists k. split; [|exact Hk].
  assert (succeeds (on_coordinator (Coordinator.get_num_blocks_to_allocate rid num_tokens [l] enc total main cap)) s
    (fun a s' => a = k /\ s' = s)) as (a & s' & -> & -> & ->)%succeeds_inv; [|done].
  eapply on_each; [exact Hs|]. do 2 mstep. unfold Coordinator.is_cross.
  rewrite (standard_class _ _ _ Hs). simpl. mstep. mstep.
  apply (succeeds_eq _ _ l (m, block_pool s)); [done|]. eapply succeeds_eq; [exact Hrun|]. mstep.
  by rewrite (standard_same _ _ _ Hs).
Qed.

Lemma can_fit_run r s k b enc :
  std_ok s -> std_clear s (request_id r) -> std_legal s (request_id r) b k ->
  succeeds (can_fit_full_sequence r k (Some b) 0 enc) s (fun _ s' =>
    kept s s' (fun _ => True) /\ std_legal s' (request_id r) b k).
Proof using.
  intros (m & free & Hs) Hclear Hl. pose proof Hl as (l & Eb & _). unfold can_fit_full_sequence.
  apply (standard_clear _ _ _ _ Hs) in Hclear as [Hnc _]. do 2 sstep. cbv zeta. simpl. rewrite Eb. sstep.
  destruct (predict_run s m free (request_id r) (Z.min (num_tokens r) (max_model_len s)) l enc
    (Z.min (num_computed_tokens r + k + 0) (max_model_len s))
    (Z.min (num_tokens r) (max_model_len s)) true Hs (or_introl Hnc)) as (c & Hrun & _).
  eapply succeeds_eq; [exact Hrun|]. repeat sstep. split; [by eapply std_kept_refl|done].
Qed.

(** ** The stages of [allocate_slots] *)

Lemma remove_skipped_run s m free rid total :
  standard s m free -> on_coordinator (Coordinator.remove_skipped_blocks rid total) s = Ret tt s.
Proof using.
  intros Hs. assert (succeeds (on_coordinator (Coordinator.remove_skipped_blocks rid total)) s
    (fun _ s' => s' = s)) as ([] & s' & -> & ->)%succeeds_inv; [|done].
  eapply on_each; [exact Hs|]. unfold Manager.remove_skipped_blocks, Manager.base_remove_skipped_blocks.
  do 2 mstep. rewrite (standard_class _ _ _ Hs). do 2 mstep.
  unfold Manager.get_num_skipped_tokens. rewrite (standard_class _ _ _ Hs). simpl. mstep.
  by rewrite (standard_same _ _ _ Hs).
Qed.

(** The state after an operation on request [rid]: a manager of the same form. *)
Definition moved s m rid s' m' free' : Prop :=
  standard s' m' free' /\ others_same rid (m, block_pool s) (m', block_pool s').

Lemma moved_trans s1 m1 rid s2 m2 free2 s3 m3 free3 :
  moved s1 m1 rid s2 m2 free2 -> moved s2 m2 rid s3 m3 free3 -> moved s1 m1 rid s3 m3 free3.
Proof using. intros [_ H1] [H2 H3]. split; [done|]. by eapply tables_kept_trans. Qed.

Lemma moved_refl s m rid free : standard s m free -> moved s m rid s m free.
Proof using. intros Hs. split; [done|]. apply tables_kept_refl. Qed.

Lemma moved_update s m free rid (x : Manager.state) free' :
  standard s m free -> full_ok n bs caching free' x -> others_same rid (m, block_pool s) x ->
  moved s m rid (set_coordinator ([x.1], x.2) s) x.1 free'.
Proof using.
  destruct x as [m' p']. intros Hs Hf Ho. split; [|exact Ho].
  eapply standard_update; [done..|apply Ho].
Qed.

Lemma take_stage s m free rid l local :
  standard s m free -> Manager.num_cached_block m !! rid = None -> blocks_of rid m = [] ->
  hits_ok n caching (block_pool s) l ->
  succeeds (on_coordinator (Coordinator.allocate_new_computed_blocks rid [l] local 0)) s (fun _ s' =>
    exists m', moved s m rid s' m' (filter (fun x => x ∉ l) free) /\ blocks_of rid m' = l /\
      cached_count rid m' = len l).
Proof using.
  intros Hs Hnc Hnil Hl. eapply on_each; [exact Hs|]. mstep.
  apply (succeeds_eq _ _ l (m, block_pool s)); [done|].
  unfold Manager.allocate_new_computed_blocks. do 2 mstep. rewrite (standard_class _ _ _ Hs).
  eapply succeeds_mono; [by apply (full_take n bs caching free (m, block_pool s)); [apply Hs|..]|].
  intros [] x (Hf & Hb & Hn & Ho). exists x.1. split; [by eapply moved_update|]. split; [done|].
  unfold cached_count. by rewrite Hn.
Qed.

Lemma grow_stage s m free rid num_tokens main enc :
  standard s m free ->
  let k := Z.max 0 (cdiv num_tokens bs - len (blocks_of rid m)) in
  k <= len free ->
  succeeds (on_coordinator (Coordinator.allocate_new_blocks rid num_tokens main enc)) s (fun _ s' =>
    exists m' free', moved s m rid s' m' free' /\
      len (blocks_of rid m') = len (blocks_of rid m) + k /\ cached_count rid m' = cached_count rid m).
Proof using.
  intros Hs k Hk. eapply on_each; [exact Hs|]. do 2 mstep. unfold Coordinator.is_cross.
  rewrite (standard_class _ _ _ Hs). simpl. mstep. unfold Manager.allocate_new_blocks. do 2 mstep.
  rewrite (standard_class _ _ _ Hs).
  eapply succeeds_mono; [by apply (full_grow n bs caching free (m, block_pool s)); [apply Hs|]|].
  intros new x (Hf & Hlen & Hb & Hn & Ho). mstep. exists x.1, (drop (Z.to_nat k) free).
  split; [by eapply moved_update|]. split; [by rewrite Hb, len_app, Hlen|].
  unfold cached_count. by rewrite Hn.
Qed.

Lemma hash_stage s m free r num_tokens :
  standard s m free -> caching = true -> std_good r -> 0 <= num_tokens <= Request.num_tokens r ->
  num_tokens <= bs * len (blocks_of (request_id r) m) ->
  succeeds (on_coordinator (Coordinator.cache_blocks r num_tokens)) s (fun r' s' =>
    r' = r /\ exists m', moved s m (request_id r) s' m' free /\
      blocks_of (request_id r) m' = blocks_of (request_id r) m /\
      cached_count (request_id r) m' = Z.max (cached_count (request_id r) m) (num_tokens / bs)).
Proof using.
  intros Hs Hcach Hgood Hnt Hlen. pose proof (standard_pos _ _ _ Hs) as Hbs.
  destruct (Hgood Hcach) as (_ & _ & Hh).
  eapply on_each; [exact Hs|]. unfold Manager.cache_blocks. do 2 mstep. rewrite (standard_class _ _ _ Hs).
  eapply succeeds_mono; [apply (full_cache n bs caching free (m, block_pool s)); [apply Hs|done|lia|..]|].
  - apply Z.div_le_upper_bound; [done|]. exact Hlen.
  - rewrite Hh. unfold len at 1. rewrite length_hash_chain. unfold text_blocks. rewrite length_fmap.
    fold (len (py_range 0 (Request.num_tokens r / bs))). rewrite len_py_range.
    pose proof (Z.div_le_mono num_tokens (Request.num_tokens r) bs Hbs). lia.
  - intros r' x (-> & Hf & Hb & Hn & Ho). split; [done|]. exists x.1. split; [by eapply moved_update|done].
Qed.

(** The new computed blocks of a call: a hit for a request that holds nothing, or
    the shared empty blocks. *)
Definition computed_legal s m rid (b : option KVCacheBlocks) (l : list bref) : Prop :=
  kv_blocks (computed_or_empty b s) = [l] /\ hits_ok n caching (block_pool s) l /\
  (if is_shared_empty (computed_or_empty b s) then l = []
   else Manager.num_cached_block m !! rid = None /\ blocks_of rid m = []).

(** Taking the computed blocks over and extending the list. *)
Lemma allocation_run s m free rid b l local need main enc :
  standard s m free -> computed_legal s m rid b l ->
  wanted s m rid need l <= len free ->
  succeeds ((if negb (is_shared_empty (computed_or_empty b s)) || (0 <? 0)
             then on_coordinator (Coordinator.allocate_new_computed_blocks rid
                    (kv_blocks (computed_or_empty b s)) local 0) else ret tt) ;;;
            on_coordinator (Coordinator.allocate_new_blocks rid need main enc)) s (fun _ s' =>
    exists m' free', moved s m rid s' m' free' /\ need <= bs * len (blocks_of rid m') /\
      cached_count rid m' = cached_count rid m + len l).
Proof using.
  intros Hs (Eb & Hl & Hsh) Hw. pose proof (standard_pos _ _ _ Hs) as Hbs.
  pose proof (cdiv_bounds need bs Hbs) as HR. unfold wanted in Hw.
  pose proof (mr_pool _ _ _ _ _ (fo_rep _ _ _ _ _ (sd_full _ _ _ Hs))) as Hp.
  sstep. eapply succeeds_mono with (Q := fun _ s1 => exists m1 free1, moved s m rid s1 m1 free1 /\
    cached_count rid m1 = cached_count rid m + len l /\ Z.max 0 (cdiv need bs - len (blocks_of rid m1)) <= len free1).
  - destruct (is_shared_empty _); simpl.
    + subst l. sstep. exists m, free. split; [by apply moved_refl|].
      change (len (@nil bref)) with 0 in Hw |- *. split; [lia|].
      assert (Manager._get_num_evictable_blocks (BlockPool.heap (block_pool s)) [] = 0) as Ev by done.
      rewrite Ev in Hw. lia.
    + destruct Hsh as [Hnc Hnil]. rewrite Eb.
      eapply succeeds_mono; [by eapply take_stage|]. intros [] s1 (m1 & Hm1 & Hb1 & Hc1).
      eexists _, _. split; [exact Hm1|]. rewrite Hb1, Hc1. unfold cached_count. rewrite Hnc. split; [done|].
      rewrite (evictable_spec n _ _ _ [] l Hp) by apply Hl.
      assert (len (blocks_of rid m) = 0) as E0 by (by rewrite Hnil). cbn [snd]. lia.
  - intros [] s1 (m1 & free1 & Hm1 & Hc1 & Hk).
    eapply succeeds_mono; [by apply (grow_stage s1 m1 free1); [apply Hm1|]|].
    intros _ s2 (m2 & free2 & Hm2 & Hlen & Hc2). exists m2, free2.
    split; [by eapply moved_trans|]. split; [rewrite Hlen; nia|congruence].
Qed.

(** The blocks of a request from the [k]-th on are real and no other request's. *)
Definition exclusive m rid (k : Z) : Prop := forall (j : nat) x,
  blocks_of rid m !! j = Some x -> k <= Z.of_nat j ->
  x <> Blk 0 /\ forall rid', rid' <> rid -> x ∉ blocks_of rid' m.

Lemma standard_exclusive s m free rid : standard s m free -> exclusive m rid (cached_count rid m).
Proof using.
  intros Hs j x Hj Hk. eapply (uncached_alone n bs caching free (m, block_pool s)); [apply Hs|done..].
Qed.

Lemma exclusive_moved s m rid s' m' free' k :
  exclusive m rid k -> moved s m rid s' m' free' -> blocks_of rid m' = blocks_of rid m -> exclusive m' rid k.
Proof using.
  intros He [_ [_ Ho]] Eb j x. rewrite Eb. intros Hj Hk. destruct (He j x Hj Hk) as [? Hx].
  split; [done|]. intros rid' Hne. destruct (Ho rid' Hne) as [E _]. simpl in E. rewrite E. by apply Hx.
Qed.

(** [allocate_slots] succeeds, and when it grants, the request has room for the step;
    the blocks the step writes to are its own; and only full blocks of known tokens are
    cached. *)
Lemma std_allocate_run r s m free new nc b look enc l :
  standard s m free -> std_good r -> 0 < new -> 0 <= num_computed_tokens r + nc -> 0 <= look ->
  num_computed_tokens r + nc + new <= max_len -> computed_legal s m (request_id r) b l ->
  succeeds (allocate_slots r new nc b look 0 false enc) s (fun x s' => x.2 = r /\
    exists m' free', moved s m (request_id r) s' m' free' /\
      match x.1 with
      | Some _ => num_computed_tokens r + nc + new <= bs * len (blocks_of (request_id r) m') /\
          exclusive m' (request_id r) (cached_count (request_id r) m + len l) /\
          cached_count (request_id r) m' = Z.max (cached_count (request_id r) m + len l)
            (if caching then Z.min (num_computed_tokens r + nc + new) (Request.num_tokens r) / bs else 0)
      | None => m' = m
      end).
Proof using.
  intros Hs Hgood Hnew Hnc Hlook Hmax Hleg. pose proof Hleg as (Eb & Hl & Hsh).
  unfold allocate_slots. rewrite (proj2 (Z.eqb_neq new 0)) by lia. cbn [andb]. do 2 sstep. cbv zeta.
  rewrite (sd_len _ _ _ Hs), !Z.add_0_r.
  rewrite (Z.min_l (num_computed_tokens r + nc)) by lia.
  set (total := num_computed_tokens r + nc) in *. set (rid := request_id r) in *.
  set (need := Z.min (total + new + look) max_len). set (cb := computed_or_empty b s) in *.
  sstep. eapply succeeds_eq; [by eapply remove_skipped_run|].
  destruct (predict_run s m free rid need l enc total (total + new) false Hs) as (k & Hrun & Hk).
  { destruct (is_shared_empty cb); [by right|left; apply Hsh]. }
  rewrite Eb. sstep. eapply succeeds_eq; [exact Hrun|]. do 2 sstep.
  pose proof (mr_pool _ _ _ _ _ (fo_rep _ _ _ _ _ (sd_full _ _ _ Hs))) as Hp.
  assert (BlockPool.get_num_free_blocks (block_pool s) = len free) as ->
    by apply (rep_num _ _ (pc_queue _ _ _ (pr_core _ _ _ _ _ Hp))).
  destruct (Z.ltb_spec (len free) k).
  { sstep. split; [done|]. exists m, free. split; [by apply moved_refl|done]. }
  specialize (Hk eq_refl).
  pose proof (allocation_run s m free rid b l total need (total + new) enc Hs Hleg ltac:(lia)) as Hall.
  fold cb in Hall. rewrite Eb in Hall. apply succeeds_inv in Hall as (nb & s2 & Hall & m2 & free2 & Hm2 & Hroom & Hc2).
  apply bind_ret_inv in Hall as ([] & s1 & Hall1 & Hall2).
  sstep. eapply succeeds_eq; [exact Hall1|]. sstep. eapply succeeds_eq; [exact Hall2|].
  assert (total + new <= bs * len (blocks_of rid m2)) as Hroom' by (unfold need in Hroom; lia).
  pose proof (standard_exclusive _ _ _ rid (proj1 Hm2)) as Hex. rewrite Hc2 in Hex.
  do 2 sstep. rewrite (sd_caching _ _ _ (proj1 Hm2)), orb_false_r. destruct caching eqn:Ec; simpl.
  - sstep. eapply succeeds_mono.
    { apply (hash_stage s2 m2 free2 r); [apply Hm2|done|done| |unfold rid in *; lia].
      pose proof (len_nonneg (all_token_ids r)). unfold Request.num_tokens. lia. }
    intros r' s3 (-> & m3 & Hm3 & Hb3 & Hc3). repeat sstep. split; [done|]. exists m3, free2.
    split; [by eapply moved_trans|]. simpl. fold rid in Hb3, Hc3. split; [by rewrite Hb3|].
    split; [by eapply exclusive_moved|]. by rewrite Hc3, Hc2.
  - sstep. split; [done|]. exists m2, free2. split; [done|]. simpl. split; [done|]. split; [done|].
    pose proof (fo_count _ _ _ _ _ (sd_full _ _ _ (proj1 Hm2)) rid) as Hpos. cbn [fst] in Hpos. lia.
Qed.

(** ** The promises *)

#[local] Instance standard_tokens : Tokens :=
  hashed_tokens hash_function NONE_HASH (if caching then Some bs else None).

Lemma std_good_progress r st spec c p ph ch d :
  std_good r -> std_good (with_progress st spec c p ph ch d r).
Proof using. intros Hg Hc. destruct (Hg Hc) as (? & ? & ?). done. Qed.

Lemma append_run r t :
  0 < bs -> std_good r ->
  succeeds (append_output_token t) r (fun _ r' => std_good r' /\ appended t r r').
Proof using.
  intros Hbs Hg. unfold append_output_token. cbn [standard_tokens hashed_tokens].
  unfold std_good in *. destruct caching.
  - destruct (Hg eq_refl) as (Hmm & Hm & Hh).
    destruct (append_text hash_function NONE_HASH env_sha256 bs [t] r Hbs Hmm Hm Hh)
      as (r' & Hrun & Hh' & Hm' & memo & hs & ->).
    eapply succeeds_eq; [exact Hrun|]. split; [done|]. by exists memo, hs.
  - unfold succeeds. simpl. split; [done|].
    exists (prompt_embeds_per_block_hashes r), (block_hashes r). done.
Qed.

Lemma room_le s rid k k' : std_room s rid k -> 0 <= k' <= k -> std_room s rid k'.
Proof using. intros Hr Hk. eapply Forall_impl; [exact Hr|]. simpl. lia. Qed.

Lemma allocate_running_run r s new look :
  std_ok s -> std_good r -> 0 < new -> 0 <= num_computed_tokens r -> 0 <= look ->
  num_computed_tokens r + new <= max_len -> std_room s (request_id r) (num_computed_tokens r) ->
  succeeds (allocate_slots r new 0 None look 0 false 0) s (fun x s' =>
    kept s s' (fun rid => rid <> request_id r) /\ x.2 = r
    /\ std_room s' (request_id r)
         (num_computed_tokens r + match x.1 with Some _ => new | None => 0 end)).
Proof using.
  intros (m & free & Hs) Hg Hnew Hc Hl Hmax Hroom.
  assert (computed_legal s m (request_id r) None []) as Hleg.
  { unfold computed_legal, computed_or_empty. cbn [default from_option]. rewrite (empty_blocks _ _ _ Hs).
    split; [done|]. split; [apply nil_hits|done]. }
  eapply succeeds_mono; [eapply std_allocate_run; [exact Hs|done|done|lia|done|lia|exact Hleg]|].
  intros [ab r'] s' (Hr & m' & free' & Hm' & Hres). split; [by eapply kept_of; [done|apply Hm'..]|].
  split; [done|]. apply (standard_room _ _ _ _ _ (proj1 Hm')).
  destruct ab; simpl in *; [lia|]. subst m'. rewrite Z.add_0_r. by apply (standard_room _ _ _ _ _ Hs).
Qed.

Lemma allocate_waiting_run r s new k b look enc :
  std_ok s -> std_good r -> 0 < new -> num_computed_tokens r = 0 -> 0 <= look ->
  k + new <= max_len -> std_clear s (request_id r) -> std_legal s (request_id r) b k ->
  succeeds (allocate_slots r new k (Some b) look 0 false enc) s (fun x s' =>
    kept s s' (fun rid => rid <> request_id r) /\ x.2 = r
    /\ match x.1 with
       | Some _ => std_room s' (request_id r) (k + new)
       | None => std_clear s' (request_id r)
       end).
Proof using.
  intros (m & free & Hs) Hg Hnew Hc Hl Hmax Hclear (l & Eb & Ek & Hsh & Hhits).
  apply (standard_clear _ _ _ _ Hs) in Hclear as Hcl.
  assert (computed_legal s m (request_id r) (Some b) l) as Hleg.
  { split; [done|]. split; [done|]. simpl. destruct (is_shared_empty b); auto. }
  pose proof (standard_pos _ _ _ Hs). pose proof (len_nonneg l).
  eapply succeeds_mono; [eapply std_allocate_run; [exact Hs|done|done|nia|done|lia|exact Hleg]|].
  intros [ab r'] s' (Hr & m' & free' & Hm' & Hres). split; [by eapply kept_of; [done|apply Hm'..]|].
  split; [done|]. destruct ab; simpl in *.
  - apply (standard_room _ _ _ _ _ (proj1 Hm')). lia.
  - subst m'. by apply (standard_clear _ _ _ _ (proj1 Hm')).
Qed.
End standard.

(** [KVCacheManager] over one full-attention group keeps the promises of
    [KVCacheLaws]. *)
#[export] Instance standard_laws `{HashEnv}
    (hash_function : bytes * list Z * option (list extra_key) -> bytes) (NONE_HASH : bytes)
    (n : nat) (bs max_len : Z) (caching : bool)
    (Hbs : 0 < bs) (Hcf : collision_free hash_function NONE_HASH) :
  @KVCacheLaws KVCacheManager.t _ (standard_tokens hash_function NONE_HASH bs caching) max_len.
Proof.
  refine {| kvc_ok := std_ok n bs max_len caching; kvc_room := std_room bs; kvc_clear := std_clear;
            kvc_legal := std_legal n bs caching; kvc_good := std_good hash_function NONE_HASH bs caching |}.
  - apply std_good_progress.
  - intros. by apply append_run.
  - apply room_le.
  - exact (new_step_run n bs max_len caching).
  - intros r s Hs Hg _ Hnt. cbn [kvc_get_computed_blocks kv_manager_ops].
    destruct (get_computed_run hash_function NONE_HASH n bs max_len caching r s Hcf Hs Hg Hnt)
      as (o & Hrun & Ho). unfold succeeds. by rewrite Hrun.
  - intros r s k b enc Hs _ Hclear Hl. exact (can_fit_run n bs max_len caching r s k b enc Hs Hclear Hl).
  - intros r s new look Hs Hg Hnew Hc Hlook Hmax Hroom.
    eapply succeeds_mono; [by apply (allocate_running_run hash_function NONE_HASH n bs max_len caching)|].
    intros x s' (Hk & -> & Hr). split; [done|]. split; [|done]. split; [apply same_but_memo_refl|done].
  - intros r s new k b look enc Hs Hg Hnew Hc Hlook Hmax Hclear Hl.
    eapply succeeds_mono; [by apply (allocate_waiting_run hash_function NONE_HASH n bs max_len caching)|].
    intros x s' (Hk & -> & Hr). split; [done|]. split; [|done]. split; [apply same_but_memo_refl|done].
  - exact (std_free_run n bs max_len caching).
  - exact (get_blocks_run n bs max_len caching).
  - exact (common_prefix_run n bs max_len caching).
  - exact (take_new_run n bs max_len caching).
  - exact (reset_run n bs max_len caching).
  - exact (take_events_run n bs max_len caching).
  - exact (stats_run n bs max_len caching).
Defined.

Lemma init_uncached num ec hs ev p :
  BlockPool.init num ec hs ev = inr p -> BlockPool.cached_block_hash_to_block p = ∅.
Proof. unfold BlockPool.init. intros Hp. repeat case_match; by simplify_eq. Qed.

(** A new manager is in such a state, and no request holds anything. *)
Lemma standard_init `{HashEnv} config g max_len mb caching eagle log s :
  let spec := kv_cache_spec g in
  kv_cache_groups config = [g] -> 0 < num_blocks config -> 0 < block_size spec ->
  Manager.spec_manager_map spec = Some FullAttentionManager ->
  init config max_len (block_size spec) mb caching eagle log false 1 1 = inr s ->
  std_ok (Z.to_nat (num_blocks config)) (block_size spec) max_len caching s /\
  forall rid, std_clear s rid.
Proof.
  intros spec Hgs Hnum Hbs Hmap Hinit.
  assert (is_full spec = true) as Hfull by (destruct spec; try discriminate; done).
  unfold init, Coordinator.get_kv_cache_coordinator, Coordinator.init in Hinit. rewrite Hgs in Hinit.
  destruct (pool_init_spec (num_blocks config) caching (block_size spec) false Hnum)
    as (p & Hp & Hec & Hhs & Hev & Hrep).
  assert (match (if negb caching then Coordinator.KVCacheCoordinatorNoPrefixCache
                 else Coordinator.UnitaryKVCacheCoordinator) with
          | Coordinator.KVCacheCoordinatorNoPrefixCache => false | _ => caching end = caching) as Ec
    by (by destruct caching).
  change (len [g] =? 1) with true in Hinit. cbv iota in Hinit. rewrite Ec, Hp in Hinit.
  set (m := Manager.base_init FullAttentionManager spec p caching 0 1 1
    (max_admission_blocks_per_request spec (default max_len mb) max_len)).
  assert (Coordinator.make_managers [g] (default max_len mb) max_len caching 0 1 1 p = Ret [m] p) as Hmk.
  { unfold Coordinator.make_managers, Manager.get_manager_for_kv_cache_spec, bind, ret. fold spec.
    rewrite Hmap. unfold m. by destruct spec. }
  rewrite Hmk in Hinit.
  assert (full_ok (Z.to_nat (num_blocks config)) (block_size spec) caching (usable (Z.to_nat (num_blocks config))) (m, p))
    as Hf.
  { constructor; try done.
    - constructor; try done.
      apply (pc_null_block _ _ _ (pr_core _ _ _ _ _ Hrep)).
    - simpl. unfold statics. by rewrite Hec, Hhs, Hev.
    - intros rid. apply not_elem_of_nil.
    - apply (no_keys_no_hash (Z.to_nat (num_blocks config)) p _ _ _ _ Hrep). intros k.
      by rewrite (init_uncached _ _ _ _ _ Hp). }
  assert (forall c, conf s = c -> coordinator s = ([m], p) -> max_model_len s = max_len ->
    enable_caching s = caching -> num_kv_cache_groups s = 1 ->
    (log_stats s = true -> is_Some (prefix_cache_stats s)) ->
    (caching = true -> Coordinator.c_kind c = Coordinator.UnitaryKVCacheCoordinator /\
       Coordinator.kv_cache_config c = config /\ Coordinator.c_dcp_world_size c = 1 /\
       Coordinator.c_pcp_world_size c = 1 /\ Coordinator.c_block_size c = block_size spec) ->
    std_ok (Z.to_nat (num_blocks config)) (block_size spec) max_len caching s /\
    forall rid, std_clear s rid) as Hdone.
  { intros c Hconf Hco Hml Hca Hng Hst Hk.
    assert (managers s = [m]) as Hms by (unfold managers; by rewrite Hco).
    assert (block_pool s = p) as Hpool by (unfold block_pool; by rewrite Hco).
    split; [|intros rid; unfold std_clear; rewrite Hms; by repeat constructor].
    exists m, (usable (Z.to_nat (num_blocks config))). constructor; try done; [by rewrite Hpool|].
    intros Hcach. destruct (Hk Hcach) as (K1 & K2 & K3 & K4 & K5). exists g.
    constructor; rewrite ?Hconf, ?K2, ?K3, ?K4, ?K5; done. }
  destruct caching; simpl in Hinit.
  - fold spec in Hinit. rewrite Z.eqb_refl in Hinit. simpl in Hinit. injection Hinit as <-.
    eapply Hdone; try done. simpl. intros ->. by eexists.
  - injection Hinit as <-. eapply Hdone; try done. simpl. intros ->. by eexists.
Qed.
