(* ===== verification/EngineLoop.v ===== *)
(** * The busy loop of the engine

    The theorems about the engine as a whole: over any caches that keep the promises
    of [KVCacheLaws] and [EncoderCacheLaws], and over the real managers of
    kv_cache_manager.py and encoder_cache_manager.py. *)

From stdpp Require Import sorting.
From S2P Require Import Prelude FreeQueue Request BlockHash BlockPool CacheSpec SingleType Ownership.
From S2P Require Import Coordinator KVManager EncoderCache EncoderSched RequestQueue.
From S2P Require Import SchedUtils KVCache Scheduler SchedInv SchedBooks SchedPlan SchedRunning.
From S2P Require Import SchedWaiting SchedStep SchedUpdate SchedCalls Engine EngineSafe.
From S2P Require Import FullManager KVStandard.
From stdpp Require Import options.

#[local] Set Default Proof Using "Type".

Section loop.
Context {KV EC : Type} `{Hkv : KVCache KV} `{Htok : Tokens} `{Hec : EncoderCache EC} `{SetIter}.
Context `{StrSetIter} (c : Scheduler.Config) (size : mm_key -> Z) (use_spec_decode : bool).
Context `{!KVCacheLaws KV (Scheduler.max_model_len c)} `{!EncoderCacheLaws EC size}.
Implicit Types (s : @Scheduler.t KV EC) (p : @EngineCoreProc.t KV EC) (w : World).
Implicit Types (out : Scheduler.SchedulerOutput).

Abbreviation ids l := (obj_id <$> l).
Abbreviation requests := (Scheduler.requests (KV := KV) (EC := EC)).
Abbreviation on p := (EngineCoreProc.scheduler_of (KV := KV) (EC := EC) p).
Abbreviation reachable := (loop_reachable c size use_spec_decode).
Abbreviation iteration := (EngineCoreProc.busy_iteration c use_spec_decode).

(** What holds of the scheduler between two iterations. *)
Record orderly s : Prop := {
  (** every known request is in exactly one queue, once *)
  od_queues : exists wl sl, queue_rep (Scheduler.policy c) (Scheduler.waiting s) wl
    /\ queue_rep (Scheduler.policy c) (Scheduler.skipped_waiting s) sl
    /\ (requests s).*2 ≡ₚ Scheduler.running s ++ ids (wl ++ sl)
    /\ NoDup (Scheduler.running s ++ ids (wl ++ sl)) /\ NoDup (requests s).*1
    /\ forall q r, q ∈ wl ++ sl -> Scheduler.objects s !! obj_id q = Some r ->
         waiting_status (status r) /\ num_computed_tokens r = 0
         /\ kvc_clear (max_len := Scheduler.max_model_len c) (Scheduler.kv_cache_manager s) (request_id r);
  od_limit : len (Scheduler.running s) <= Scheduler.max_num_running_reqs c;
  (** a running request has a slot for every token it has computed *)
  od_running : forall o r, o ∈ Scheduler.running s -> Scheduler.objects s !! o = Some r ->
    status r = RUNNING /\ 0 <= num_computed_tokens r <= num_tokens r
    /\ num_tokens r <= Scheduler.max_model_len c - 1
    /\ kvc_room (max_len := Scheduler.max_model_len c) (Scheduler.kv_cache_manager s)
         (request_id r) (num_computed_tokens r);
  (** and only running requests hold anything *)
  od_clear : forall rid,
    (forall o r, o ∈ Scheduler.running s -> Scheduler.objects s !! o = Some r -> request_id r <> rid) ->
    kvc_clear (max_len := Scheduler.max_model_len c) (Scheduler.kv_cache_manager s) rid;
}.

Lemma scheduler_orderly s : scheduler_ok c size s -> orderly s.
Proof.
  intros (wl & sl & Hs & _). split.
  - exists wl, sl. split; [apply Hs|]. split; [apply Hs|]. pose proof (i_known Hs) as Hk.
    pose proof (i_distinct Hs) as Hd. rewrite app_nil_r in Hk, Hd. split; [done|]. split; [done|].
    split; [apply Hs|]. intros q r Hq Hr. split; [|split].
    + by apply (i_queued Hs (q := q) (r := r)); [rewrite app_nil_r|].
    + by apply (i_queued Hs (q := q) (r := r)); [rewrite app_nil_r|].
    + eapply (queued_clear c size _ s wl sl [] (obj_id q) r Hs); [|done].
      apply list_elem_of_fmap_2. by rewrite app_nil_r.
  - apply Hs.
  - intros o r Ho Hr. destruct (i_running Hs Ho Hr) as (Hst & Hroom & Hn & _).
    destruct (known_object Hs (o := o)) as (r' & Hr' & _ & _ & Hok); [set_solver|]. simplify_eq.
    pose proof (rk_tokens Hok). split_and!; try done; lia.
  - apply Hs.
Qed.

Lemma reachable_engines timeout p :
  config_ok c size -> reachable timeout p -> EngineCoreProc.engines_running p = false.
Proof.
  intros Hc. induction 1 as [kv enc|p arrived w p' Hp IH Hit Hrun|p _ IH]; [done| |done].
  pose proof (iteration_run c size use_spec_decode timeout p arrived w Hc
    (reachable_ok _ _ _ _ _ Hc Hp) Hit) as Hs.
  unfold succeeds in Hs. rewrite Hrun in Hs. destruct Hs. congruence.
Qed.





(** C19. Aborted requests are forgotten: after [abort_requests] the engine knows
    exactly the other requests, none of the aborted ones is in a queue or holds
    anything, and the other requests' objects are untouched; ids that are not known
    (any more) are ignored. *)
Theorem abort_forgets timeout p l
    (Hc : config_ok c size) (Hp : reachable timeout p) :
  exists e', EngineCore.abort_requests l (EngineCoreProc.core p) = Ret tt e' /\
    let s' := EngineCore.scheduler e' in
    orderly s' /\
    (forall rid, dict_get rid (requests s') = if decide (rid ∈ l) then None else dict_get rid (requests (on p))) /\
    (forall rid o, rid ∉ l -> dict_get rid (requests (on p)) = Some o ->
       Scheduler.objects s' !! o = Scheduler.objects (on p) !! o) /\
    (forall rid, rid ∈ l ->
       kvc_clear (max_len := Scheduler.max_model_len c) (Scheduler.kv_cache_manager s') rid).
Proof.
  destruct (reachable_ok _ _ _ _ _ Hc Hp) as (wl & sl & Hs & Hprev).
  destruct (succeeds_inv _ _ _ (finish_requests_run c size _ _ wl sl (Some (str_set_iter l)) FINISHED_ABORTED
    Hs ltac:(done) (set_iter_NoDup l))) as (aborted & s' & Hrun & Hf).
  assert (forall rid, rid ∈ str_set_iter l <-> rid ∈ l) as Hiter.
  { intros rid. by rewrite str_set_iter_perm, elem_of_remove_dups. }
  simpl in Hf. exists (EngineCore.set_scheduler s' (EngineCoreProc.core p)). split.
  { unfold EngineCore.abort_requests, EngineCore.on_scheduler, zoom, bind.
    change (EngineCore.scheduler (EngineCoreProc.core p)) with (on p). by rewrite Hrun. }
  simpl. assert (scheduler_ok c size s') as Hok.
  { eexists _, _. split; [apply Hf|]. by eapply finished_prev. }
  assert (forall rid, dict_get rid (requests s') = if decide (rid ∈ l) then None else dict_get rid (requests (on p))) as Hd.
  { intros rid. assert (dict_get rid (requests s') = _) as -> by apply Hf.
    repeat case_decide; try done; exfalso; naive_solver. }
  split; [by apply scheduler_orderly|]. split; [done|]. split.
  - intros rid o Hn Ho. apply Hf. rewrite (known_objects_elem c size _ _ wl sl [] _ o Hs).
    intros (rid' & Hin & Ho'). apply dict_get_Some in Ho.
    destruct (i_objects Hs Ho) as (r & Hr & Hid & _). destruct (i_objects Hs Ho') as (r' & Hr' & Hid' & _).
    simplify_eq. by apply Hn, Hiter.
  - intros rid Hin. apply (od_clear _ (scheduler_orderly _ Hok)). intros o r Ho Hr <-.
    destruct (known_object (fd_inv _ _ _ _ _ _ _ _ Hf) (o := o)) as (r' & Hr' & _ & Hk & _); [set_solver|].
    simplify_eq. apply (dict_get_NoDup _ _ _ (i_ids (fd_inv _ _ _ _ _ _ _ _ Hf))) in Hk.
    rewrite Hd, decide_True in Hk; done.
Qed.
End loop.

(** ** Over the real cache managers *)

Section real.
Context `{HashEnv} `{SetIter} `{StrSetIter}.
Context (hash_function : bytes * list Z * option (list extra_key) -> bytes) (NONE_HASH : bytes).
Context (config : KVCacheConfig) (caching : bool) (bs cap : Z) (size : mm_key -> Z).
Context (c : Scheduler.Config) (use_spec_decode : bool).
Hypothesis Hcf : collision_free hash_function NONE_HASH.
Hypothesis Hbs : 0 < bs.

#[local] Instance real_tokens : Tokens := standard_tokens hash_function NONE_HASH bs caching.

#[local] Instance real_laws : KVCacheLaws KVCacheManager.t (Scheduler.max_model_len c) :=
  standard_laws hash_function NONE_HASH (Z.to_nat (num_blocks config)) bs (Scheduler.max_model_len c)
    caching Hbs Hcf.

#[local] Instance real_encoder_laws : EncoderCacheLaws EncoderCacheManager.t size := manager_laws cap size.

Definition real_engine := @EngineCoreProc.t KVCacheManager.t EncoderCacheManager.t.

Definition real_config_ok : Prop := config_ok (EC := EncoderCacheManager.t) c size.

Definition real_reachable (timeout : Z) : real_engine -> Prop :=
  loop_reachable c size use_spec_decode timeout.

Definition real_iteration_ok (timeout : Z) : real_engine -> list EngineCoreProc.client_request -> World -> Prop :=
  iteration_ok c size timeout.

Definition real_iteration (timeout : Z) (arrived : list EngineCoreProc.client_request) (w : World)
  : M real_engine bool :=
  EngineCoreProc.busy_iteration c use_spec_decode timeout arrived w.

(** A new engine around new cache managers. *)
Lemma real_start timeout kv g mb eagle log :
  kv_cache_groups config = [g] -> 0 < num_blocks config -> block_size (kv_cache_spec g) = bs ->
  Manager.spec_manager_map (kv_cache_spec g) = Some FullAttentionManager -> 0 <= cap ->
  KVCacheManager.init config (Scheduler.max_model_len c) bs mb caching eagle log false 1 1 = inr kv ->
  real_reachable timeout (engine_init c kv (EncoderCacheManager.init cap)).
Proof using Type.
  intros Hg Hnum Eb Hmap Hcap Hinit. rewrite <- Eb in Hinit.
  destruct (standard_init config g _ mb caching eagle log kv Hg Hnum ltac:(by rewrite Eb) Hmap Hinit)
    as [Hok Hclear]. rewrite Eb in Hok.
  apply reach_init; [exact Hok|exact Hclear|]. by apply CacheInv.ok_init.
Qed.

(** The blocks of a manager in such a state. *)
Lemma standard_partition n kv m free :
  standard n bs (Scheduler.max_model_len c) caching kv m free ->
  free ++ remove_dups (held_by m) ≡ₚ usable n /\
  BlockPool.get_num_free_blocks (KVCacheManager.block_pool kv) = len free.
Proof using Type.
  intros Hs. pose proof (mr_pool _ _ _ _ _ (fo_rep _ _ _ _ _ (sd_full _ _ _ _ _ _ _ Hs))) as Hp.
  pose proof (pool_partition _ _ _ _ _ Hp) as Hpart. cbn [fst snd] in Hpart. rewrite !app_nil_r in Hpart.
  split; [done|]. apply (rep_num _ _ (pc_queue _ _ _ (pr_core _ _ _ _ _ Hp))).
Qed.

End real.

(** ** Witnesses *)

#[local] Existing Instance demo_env.
#[local] Existing Instance some_iter.

#[local] Instance str_dups_iter : StrSetIter :=
  {| str_set_iter := remove_dups; str_set_iter_perm l := reflexivity _ |}.

Definition loop_config : Scheduler.Config := {|
  Scheduler.policy := FCFS; Scheduler.max_num_running_reqs := 2; Scheduler.max_num_scheduled_tokens := 8;
  Scheduler.max_model_len := 32; Scheduler.long_prefill_token_threshold := 0;
  Scheduler.enable_chunked_prefill := true; Scheduler.max_loras := None; Scheduler.use_eagle := false;
  Scheduler.num_spec_tokens := 0; Scheduler.num_lookahead_tokens := 0;
  Scheduler.scheduler_reserve_full_isl := true; Scheduler.mamba_block_size := None;
  Scheduler.max_num_encoder_input_tokens := 0;
  Scheduler.encoder_config := {| is_encoder_decoder := false; no_chunked_mm_input := false;
                                 ec_has_cache_item := None |};
  Scheduler.needs_kv_cache_zeroing := true; Scheduler.num_kv_cache_groups := 1;
  Scheduler.async_scheduling := false; Scheduler.use_pp := false;
  Scheduler.use_v2_model_runner := false; Scheduler.log_stats := true |}.

(** A model that answers token 42 to every request. *)
Definition loop_world : World := {|
  grammar_ready _ := true;
  execute_model out := {|
    Scheduler.sampled_token_ids := (fun x => (x.1, [42])) <$> Scheduler.so_num_scheduled_tokens out;
    Scheduler.pooled := ∅ |};
  late_aborts := []; grammar_rejects _ _ := false; take_draft_token_ids := None;
  validate_tokens _ l := l |}.

Definition loop_request : Request := demo_hashed_request "a" [5; 6; 7; 8; 9].
Definition loop_kv_config : KVCacheConfig := demo_config [demo_full_spec 8].
Definition loop_kv : KVCacheManager.t := demo_km [demo_full_spec 8].

Definition loop_start : real_engine := engine_init loop_config loop_kv (EncoderCacheManager.init 8).

Definition loop_step (timeout : Z) (arrived : list EngineCoreProc.client_request) : M real_engine bool :=
  real_iteration demo_hash demo_none_hash true 2 loop_config false timeout arrived loop_world.

(** A test for the promise of the model runner. *)
Definition answers_test (s : @Scheduler.t KVCacheManager.t EncoderCacheManager.t)
    (out : Scheduler.SchedulerOutput) (mo : Scheduler.ModelRunnerOutput) : bool :=
  forallb (fun x =>
    match dict_get x.1 (Scheduler.requests s) with
    | None => true
    | Some o =>
        match Scheduler.objects s !! o, dict_get x.1 (Scheduler.sampled_token_ids mo) with
        | None, _ => true
        | Some _, None => false
        | Some r, Some gen =>
            (is_none (pooling_params r) || (len gen =? 0))
            && (is_some (pooling_params r)
                || (drafts_of (Scheduler.so_scheduled_spec_decode_tokens out) x.1 <=? 0)
                || ((1 <=? len gen)
                    && (len gen <=? drafts_of (Scheduler.so_scheduled_spec_decode_tokens out) x.1 + 1)))
        end
    end) (Scheduler.so_num_scheduled_tokens out).

Lemma answers_test_sound s out mo : answers_test s out mo = true -> answers s out mo.
Proof.
  unfold answers_test. rewrite forallb_forall. intros Ht rid n o r Hin Ho Hr.
  apply list_elem_of_In in Hin. specialize (Ht _ Hin). simpl in Ht. rewrite Ho, Hr in Ht.
  destruct (dict_get rid (Scheduler.sampled_token_ids mo)) as [gen|] eqn:Hg; [|done].
  apply andb_true_iff in Ht as [H1 H2]. exists gen. split; [done|]. split.
  - intros Hp. destruct (pooling_params r); [|done]. simpl in H1. apply len_zero_nil. by apply Z.eqb_eq.
  - intros Hp Hd. rewrite Hp in H2. simpl in H2. apply orb_true_iff in H2 as [H2|H2]; bool_to_prop; lia.
Qed.

(** Conditions on an iteration with [loop_world], as a computation. *)
Definition world_test (timeout : Z) (arrived : list EngineCoreProc.client_request) (p : real_engine) : bool :=
  match EngineCoreProc._handle_shutdown timeout p with
  | Ret true p0 =>
      match EngineCoreProc._process_input_queue arrived p0 with
      | Ret true p1 =>
          match Scheduler.schedule loop_config (grammar_ready loop_world) (EngineCoreProc.scheduler_of p1) with
          | Ret out s1 => answers_test s1 out (execute_model loop_world out)
          | Raise _ _ => true
          end
      | _ => true
      end
  | _ => true
  end.

Definition loop_size (_ : mm_key) : Z := 0.

Lemma loop_bs : 0 < 2.
Proof. lia. Qed.

#[local] Instance loop_tokens : Tokens := real_tokens demo_hash demo_none_hash true 2.
#[local] Instance loop_laws : KVCacheLaws KVCacheManager.t (Scheduler.max_model_len loop_config) :=
  real_laws demo_hash demo_none_hash loop_kv_config true 2 loop_config demo_collision_free loop_bs.
#[local] Instance loop_encoder_laws : EncoderCacheLaws EncoderCacheManager.t loop_size :=
  real_encoder_laws 8 loop_size.

Abbreviation loop_reached := (real_reachable demo_hash demo_none_hash loop_kv_config true 2 8 loop_size
  loop_config false demo_collision_free loop_bs 0).
Abbreviation loop_allowed := (real_iteration_ok demo_hash demo_none_hash loop_kv_config true 2 loop_size
  loop_config demo_collision_free loop_bs 0).

Lemma loop_config_ok : real_config_ok 8 loop_size loop_config.
Proof. split; simpl; try lia; done. Qed.

Lemma loop_start_reached : loop_reached loop_start.
Proof.
  apply (real_start demo_hash demo_none_hash loop_kv_config true 2 8 loop_size loop_config false
    demo_collision_free loop_bs 0 loop_kv (demo_group (demo_full_spec 8)) None false true); done.
Qed.

Lemma loop_request_new : request_new (KV := KVCacheManager.t) loop_config loop_size loop_request.
Proof.
  assert (mm_features loop_request = []) as Hmm by (vm_compute; reflexivity).
  split; [|left; vm_compute; reflexivity|vm_compute; reflexivity].
  split; try (vm_compute; done).
  - split; rewrite ?Hmm; try done. unfold consistent. rewrite Hmm. done.
  - intros sp Hsp. assert (min_tokens sp = min_tokens (default sp (sampling_params loop_request))) as -> by (by rewrite Hsp).
    vm_compute. done.
  - intros _. vm_compute. by eexists.
Qed.

Lemma loop_iteration_allowed p arrived :
  world_test 0 arrived p = true -> arrivals_ok loop_config loop_size p arrived ->
  loop_allowed p arrived loop_world.
Proof.
  intros Ht Harr. split; [done|]. intros p0 p1 H0 H1. unfold world_test in Ht. rewrite H0 in Ht.
  rewrite H1 in Ht. split; [|done|done]. intros out s1 Hrun. apply answers_test_sound.
  change (EngineCore.scheduler (EngineCoreProc.core p1)) with (EngineCoreProc.scheduler_of p1) in Hrun.
  by rewrite Hrun in Ht.
Qed.


(** The engine after it served its first request. *)
Definition loop_arrived : list EngineCoreProc.client_request := [EngineCoreProc.ADD loop_request].
Definition loop_first : real_engine := state_of (loop_step 0 loop_arrived loop_start).

Lemma loop_start_allowed : loop_allowed loop_start loop_arrived loop_world.
Proof.
  apply loop_iteration_allowed; [vm_compute; reflexivity|]. split.
  - intros [?|?%not_elem_of_nil]%elem_of_cons; done.
  - intros _. simpl. apply Forall_cons. split; [exact loop_request_new|by apply Forall_nil].
  - intros _. apply (bool_decide_unpack _). vm_compute. exact I.
  - intros _. apply (bool_decide_unpack _). vm_compute. exact I.
Qed.

Lemma loop_first_reached : loop_reached loop_first.
Proof.
  destruct (loop_step 0 loop_arrived loop_start) as [b p'|e p'] eqn:E.
  - assert (b = true) as ->.
    { apply (f_equal (fun o => match o with Ret b _ => b | Raise _ _ => true end)) in E.
      transitivity (match loop_step 0 loop_arrived loop_start with Ret b _ => b | Raise _ _ => true end);
        [by rewrite E|vm_compute; reflexivity]. }
    unfold loop_first. rewrite E. cbn [state_of].
    eapply reach_iteration; [exact loop_start_reached|exact loop_start_allowed|exact E].
  - exfalso. apply (f_equal (fun o => match o with Ret _ _ => true | Raise _ _ => false end)) in E.
    vm_compute in E. discriminate.
Qed.






Lemma abort_forgets_witness :
  exists e', EngineCore.abort_requests ["a"%string; "b"%string] (EngineCoreProc.core loop_first) = Ret tt e' /\
    dict_get "a"%string (Scheduler.requests (EngineCore.scheduler e')) = None.
Proof.
  destruct (abort_forgets loop_config loop_size false 0 loop_first ["a"%string; "b"%string] loop_config_ok
    loop_first_reached) as (e' & Hrun & _ & Hd & _).
  exists e'. split; [exact Hrun|]. rewrite Hd. reflexivity.
Defined.
