(* ===== verification/Planning.v ===== *)
(** * Planning the KV cache

    Models the part of v1/core/kv_cache_utils.py that turns the specifications of all
    attention layers and the memory of the workers into KV-cache groups, tensors and a
    number of blocks, and [_initialize_kv_caches] of v1/engine/core.py around it.

    The state of the monad is the configuration: the search for a length that fits
    changes [max_model_len] and restores it.  A group holds one specification or, while
    planning, the specifications of all its layers ([UniformTypeKVCacheSpecs]).  Python
    ints are unbounded; [1.5 * n] is compared exactly.  Padding a layer for DeepSeek-V4
    writes into its specification object; every layer has an object of its own, so the
    model replaces the value.  What is only logged is left out. *)

From stdpp Require Import sorting.
From S2P Require Import Prelude CacheSpec.
From stdpp Require Import options.

(** [a // b] and [a % b] *)
Definition py_div {S} (a b : Z) : M S Z := if b =? 0 then raise ZeroDivisionError else ret (a / b).
Definition py_mod {S} (a b : Z) : M S Z := if b =? 0 then raise ZeroDivisionError else ret (a mod b).

Definition py_min (l : list Z) : exn + Z :=
  match l with [] => inl ValueError | x :: l => inr (foldl Z.min x l) end.

Definition sum_list (l : list Z) : Z := foldr Z.add 0 l.

(** [l[i::n]] for [0 <= i] and [0 < n] *)
Definition stride {A} (i n : Z) (l : list A) : list A :=
  (filter (fun p => i <= p.1 /\ (p.1 - i) mod n = 0) (zip (py_range 0 (len l)) l)).*2.

(** [zip( *ls)]: as long as the shortest list. *)
Definition py_zip {A} (ls : list (list A)) : list (list A) :=
  match length <$> ls with
  | [] => []
  | n :: ns => (fun i => omap (fun l => l !! i) ls) <$> seq 0 (foldl Nat.min n ns)
  end.

(** [d[k].append(v)] of a [defaultdict(list)] *)
Definition dict_append {K V} `{EqDecision K} (k : K) (v : V) (d : list (K * list V)) : list (K * list V) :=
  dict_set k (default [] (dict_get k d) ++ [v]) d.

Module Planning.

(** What planning reads of the configuration. *)
Record Config := {
  vllm : VllmConfig;
  cache_block_size : Z;
  enable_prefix_caching : bool;
  cfg_hash_block_size : option Z;
  kv_transfer_config : bool;  (** whether there is one *)
  num_gpu_blocks_override : option Z;
  disable_hybrid_kv_cache_manager : bool;
  original_max_model_len : Z;
  use_eagle : bool;  (** a speculative configuration that uses EAGLE *)
}.

Definition with_max_model_len (n : Z) (v : VllmConfig) : VllmConfig :=
  {| max_model_len := n;
     decode_context_parallel_size := decode_context_parallel_size v;
     prefill_context_parallel_size := prefill_context_parallel_size v;
     max_num_batched_tokens := max_num_batched_tokens v;
     max_num_encoder_input_tokens := max_num_encoder_input_tokens v;
     cfg_mamba_cache_mode := cfg_mamba_cache_mode v |}.

Definition set_vllm (v : VllmConfig) (c : Config) : Config :=
  {| vllm := v; cache_block_size := cache_block_size c;
     enable_prefix_caching := enable_prefix_caching c;
     cfg_hash_block_size := cfg_hash_block_size c; kv_transfer_config := kv_transfer_config c;
     num_gpu_blocks_override := num_gpu_blocks_override c;
     disable_hybrid_kv_cache_manager := disable_hybrid_kv_cache_manager c;
     original_max_model_len := original_max_model_len c; use_eagle := use_eagle c |}.

Definition set_max_model_len (n : Z) (c : Config) : Config :=
  set_vllm (with_max_model_len n (vllm c)) c.

Definition set_cache_block_size (b : Z) (c : Config) : Config :=
  {| vllm := vllm c; cache_block_size := b;
     enable_prefix_caching := enable_prefix_caching c;
     cfg_hash_block_size := cfg_hash_block_size c; kv_transfer_config := kv_transfer_config c;
     num_gpu_blocks_override := num_gpu_blocks_override c;
     disable_hybrid_kv_cache_manager := disable_hybrid_kv_cache_manager c;
     original_max_model_len := original_max_model_len c; use_eagle := use_eagle c |}.

Inductive group_spec :=
  | One (s : KVCacheSpec)
  | Uniform (u : UniformTypeKVCacheSpecs).

(** [KVCacheGroupSpec] and [KVCacheConfig] while planning. *)
Record group := MkGroup {
  g_layer_names : list string;
  g_spec : group_spec;
  g_is_eagle_group : bool;
}.

Record plan := MkPlan {
  p_num_blocks : Z;
  p_tensors : list KVCacheTensor;
  p_groups : list group;
}.

Definition uniform_of (g : group) : option UniformTypeKVCacheSpecs :=
  match g_spec g with Uniform u => Some u | One _ => None end.

Definition is_uniform_group (g : group) : bool := is_some (uniform_of g).

(** ** Block sizes of the scheduler *)

Definition py_lcm (l : list Z) : Z := foldl Z.lcm 1 l.
Definition py_gcd (l : list Z) : Z := foldl Z.gcd 0 l.

Definition resolve_kv_cache_block_sizes (kv_cache_config : KVCacheConfig) : M Config (Z * Z) :=
  c <- get ;;
  let dcp := decode_context_parallel_size (vllm c) in
  let pcp := prefill_context_parallel_size (vllm c) in
  let groups := kv_cache_groups kv_cache_config in
  if len groups <=? 1 then
    let bs := cache_block_size c * dcp * pcp in ret (bs, bs)
  else if (negb (dcp =? 1) || negb (pcp =? 1))%bool then raise ValueError
  else
    let group_block_sizes := (fun g => block_size (kv_cache_spec g)) <$> groups in
    let scheduler_block_size := py_lcm group_block_sizes in
    if negb (enable_prefix_caching c || kv_transfer_config c)
    then ret (scheduler_block_size, scheduler_block_size)
    else if existsb (fun g => is_mamba (kv_cache_spec g)
                              && negb (block_size (kv_cache_spec g) =? cache_block_size c))%bool groups
    then ret (scheduler_block_size, scheduler_block_size)
    else
      let hash_block_size := default (py_gcd group_block_sizes) (cfg_hash_block_size c) in
      if hash_block_size =? 0 then raise ZeroDivisionError
      else if existsb (fun bs => negb (bs mod hash_block_size =? 0)) group_block_sizes
      then raise ValueError
      else ret (scheduler_block_size, hash_block_size).

(** ** Memory of layers and groups *)

Section planning.
Context `{Torch}.

Definition page_size {S} (g : group_spec) : M S Z :=
  of_result match g with One s => page_size_bytes s | Uniform u => u_page_size_bytes u end.

Definition spec_max_memory_usage_bytes (g : group_spec) : M Config Z :=
  c <- get ;;
  of_result match g with
            | One s => CacheSpec.max_memory_usage_bytes s (vllm c)
            | Uniform u => u_max_memory_usage_bytes u (vllm c)
            end.

Definition _check_enough_kv_cache_memory (available_memory : Z) (get_needed_memory : M Config Z)
    (estimate_max_model_len : Z -> M Config Z) : M Config unit :=
  if available_memory <=? 0 then raise ValueError else
  needed_memory <- get_needed_memory ;;
  if available_memory <? needed_memory
  then estimate_max_model_len available_memory ;;; raise ValueError
  else ret tt.

Definition max_memory_usage_bytes (kv_cache_specs : list group_spec) : M Config Z :=
  l <- mmapM spec_max_memory_usage_bytes kv_cache_specs ;; ret (sum_list l).

(** The loop of both binary searches. *)
Fixpoint search (fuel : nat) (fits : Z -> M Config bool) (left right result : Z) : M Config Z :=
  if left <=? right then
    match fuel with
    | O => raise OutOfFuel
    | S fuel =>
        let mid := (left + right) / 2 in
        b <- fits mid ;;
        if b : bool then search fuel fits (mid + 1) right mid
        else search fuel fits left (mid - 1) result
    end
  else ret result.

(** [try: ... finally: vllm_config.model_config.max_model_len = original] *)
Definition restoring {A} (m : M Config A) : M Config A := fun c =>
  match m c with
  | Ret a c' => Ret a (set_max_model_len (max_model_len (vllm c)) c')
  | Raise e c' => Raise e (set_max_model_len (max_model_len (vllm c)) c')
  end.

Definition fits_in (needed : M Config Z) (available_memory model_len : Z) : M Config bool :=
  modify (set_max_model_len model_len) ;;;
  memory_needed <- needed ;;
  ret (memory_needed <=? available_memory).

Definition binary_search (needed : M Config Z) (available_memory : Z) : M Config Z :=
  c <- get ;;
  let original := max_model_len (vllm c) in
  restoring (
    b <- fits_in needed available_memory 1 ;;
    if b : bool
    then search (Z.to_nat (original + 1)) (fits_in needed available_memory) 1 original 1
    else ret 0).

Definition estimate_max_model_len (kv_cache_spec : list (string * KVCacheSpec))
    (available_memory : Z) : M Config Z :=
  binary_search (max_memory_usage_bytes (One <$> kv_cache_spec.*2)) available_memory.

Definition check_enough_kv_cache_memory (kv_cache_spec : list (string * KVCacheSpec))
    (available_memory : Z) : M Config unit :=
  match kv_cache_spec with
  | [] => ret tt
  | _ => _check_enough_kv_cache_memory available_memory
           (max_memory_usage_bytes (One <$> kv_cache_spec.*2)) (estimate_max_model_len kv_cache_spec)
  end.

(** ** Groups *)

Definition create_kv_cache_group_specs {S} (kv_cache_spec : list (string * KVCacheSpec))
    (grouped_layer_names : list (list string)) : M S (list group) :=
  mmapM (fun layer_names_one_group =>
           layer_specs <- mmapM (fun n => of_option KeyError (dict_get n kv_cache_spec))
                            layer_names_one_group ;;
           merged_layer_spec <- of_result (merge layer_specs) ;;
           ret (MkGroup layer_names_one_group (One merged_layer_spec) false))
        grouped_layer_names.

(** Only [AssertionError] is caught. *)
Definition is_kv_cache_spec_uniform {S} (kv_cache_spec : list (string * KVCacheSpec)) : M S bool :=
  match kv_cache_spec with
  | [] => ret true
  | _ => match merge kv_cache_spec.*2 with
         | inr _ => ret true
         | inl AssertionError => ret false
         | inl e => raise e
         end
  end.

(** The concurrency is the quotient of the two numbers. *)
Definition get_max_concurrency_for_kv_cache_config (p : plan) : M Config (Z * Z) :=
  num_layer_per_group <- of_result (py_max ((fun g => len (g_layer_names g)) <$> p_groups p)) ;;
  usage <- max_memory_usage_bytes (g_spec <$> p_groups p) ;;
  g <- of_option IndexError (head (p_groups p)) ;;
  page <- page_size (g_spec g) ;;
  let max_memory_usage_per_request := num_layer_per_group * usage in
  let memory_per_block := page * num_layer_per_group in
  if memory_per_block =? 0 then raise ZeroDivisionError else
  let num_block_per_request := cdiv max_memory_usage_per_request memory_per_block in
  if num_block_per_request =? 0 then raise ZeroDivisionError
  else ret (p_num_blocks p, num_block_per_request).

Definition may_override_num_blocks (num_blocks : Z) : M Config Z :=
  c <- get ;; ret (default num_blocks (num_gpu_blocks_override c)).

Definition get_page_sizes {S} (u : UniformTypeKVCacheSpecs) : M S (list Z) :=
  l <- of_result (all_results (page_size_bytes <$> (u_kv_cache_specs u).*2)) ;;
  ret (py_set l).

(** How often the most common page size occurs. *)
Definition get_num_layer_tuples {S} (u : UniformTypeKVCacheSpecs) : M S Z :=
  l <- of_result (all_results (page_size_bytes <$> (u_kv_cache_specs u).*2)) ;;
  match (fun ps => len (filter (fun x => x = ps) l)) <$> py_set l with
  | [] => raise IndexError
  | x :: counts => ret (foldl Z.max x counts)
  end.

Definition get_uniform_page_size {S} (kv_cache_specs : list group_spec) : M S Z :=
  page_sizes <- mmapM page_size kv_cache_specs ;;
  match py_set page_sizes with
  | [p] => ret p
  | _ => raise AssertionError
  end.

Definition group_size_of {S} (kv_cache_groups : list group) : M S Z :=
  of_result (py_max ((fun g => len (g_layer_names g)) <$> kv_cache_groups)).

(** [cast(UniformTypeKVCacheSpecs, group.kv_cache_spec)], where it is one *)
Definition as_uniform {S} (g : group) : M S UniformTypeKVCacheSpecs :=
  of_option AttributeError (uniform_of g).

Definition _pool_bytes_per_block {S} (kv_cache_groups : list group) : M S Z :=
  match kv_cache_groups with
  | [MkGroup _ (Uniform u) _] => page_size (Uniform u)
  | _ =>
      if forallb is_uniform_group kv_cache_groups then
        g <- of_option IndexError (head kv_cache_groups) ;;
        full_mla_spec <- as_uniform g ;;
        sizes <- get_page_sizes full_mla_spec ;;
        counts <- mmapM (fun g => u <- as_uniform g ;; get_num_layer_tuples u) kv_cache_groups ;;
        num_layer_tuples <- of_result (py_max counts) ;;
        ret (sum_list sizes * num_layer_tuples)
      else
        group_size <- group_size_of kv_cache_groups ;;
        page_size <- get_uniform_page_size (g_spec <$> kv_cache_groups) ;;
        ret (page_size * group_size)
  end.

Definition get_num_blocks (num_layers available_memory page_size : Z) : M Config Z :=
  q <- py_div available_memory page_size ;;
  num_blocks <- py_div q num_layers ;;
  may_override_num_blocks (Z.max num_blocks 0).

Definition _get_kv_cache_groups_uniform_spec {S} (kv_cache_specs : list (string * KVCacheSpec))
  : M S (list group) :=
  create_kv_cache_group_specs kv_cache_specs [kv_cache_specs.*1].

Definition _get_kv_cache_groups_uniform_type (spec : UniformTypeKVCacheSpecs) : list group :=
  [MkGroup (u_kv_cache_specs spec).*1 (Uniform spec) false].

Definition is_kv_cache_page_size_uniform {S} (kv_cache_spec : list (string * KVCacheSpec)) : M S bool :=
  page_sizes <- mmapM (fun s => of_result (page_size_bytes s)) kv_cache_spec.*2 ;;
  ret (len (py_set page_sizes) =? 1).

Definition unify_layer {S} (max_page_size : Z) (layer : string * KVCacheSpec)
  : M S (string * KVCacheSpec) :=
  let '(layer_name, layer_spec) := layer in
  layer_page_size <- of_result (page_size_bytes layer_spec) ;;
  if layer_page_size =? max_page_size then ret (layer_name, layer_spec)
  else
    r <- py_mod max_page_size layer_page_size ;;
    if negb (r =? 0) then raise NotImplementedError else
    let ratio := max_page_size / layer_page_size in
    let new_block_size := block_size layer_spec * ratio in
    new_spec <- of_result (copy_with_new_block_size new_block_size layer_spec) ;;
    new_page_size <- of_result (page_size_bytes new_spec) ;;
    assert (new_page_size =? max_page_size) ;;;
    ret (layer_name, new_spec).

Definition unify_kv_cache_spec_page_size {S} (kv_cache_spec : list (string * KVCacheSpec))
  : M S (list (string * KVCacheSpec)) :=
  page_sizes <- mmapM (fun s => of_result (page_size_bytes s)) kv_cache_spec.*2 ;;
  if len (py_set page_sizes) <=? 1 then ret kv_cache_spec
  else
    max_page_size <- of_result (py_max page_sizes) ;;
    mmapM (unify_layer max_page_size) kv_cache_spec.

Definition is_kv_cache_type_attention_free (kv_cache_spec : list (string * KVCacheSpec)) : bool :=
  match kv_cache_spec with [] => true | _ => false end.

Definition same_type_layers (kv_cache_spec : list (string * KVCacheSpec))
  : list (KVCacheSpec * list string) :=
  foldl (fun d l => dict_append l.2 l.1 d) [] kv_cache_spec.

(** The layers of one type, dealt out to as many groups as needed. *)
Definition split_layers {A} (group_size : Z) (layers : list A) : list (list A) :=
  let num_groups := cdiv (len layers) group_size in
  (fun i => stride i num_groups layers) <$> py_range 0 num_groups.

Definition _get_kv_cache_groups_uniform_page_size {S} (kv_cache_spec : list (string * KVCacheSpec))
  : M S (list group) :=
  let layers := (same_type_layers kv_cache_spec).*2 in
  min_num_layers <- of_result (py_min (len <$> layers)) ;;
  max_num_layers <- of_result (py_max (len <$> layers)) ;;
  let group_size := if 2 * max_num_layers <? 3 * min_num_layers
                    then max_num_layers else min_num_layers in
  create_kv_cache_group_specs kv_cache_spec (layers ≫= split_layers group_size).

(** [self.head_size_v = self.head_size] unless it is given ([FullAttentionSpec.__post_init__]) *)
Definition default_full_fields (a : AttentionSpec) (window chunk : option Z) : FullFields :=
  {| f_head_size_v := head_size a; f_sliding_window := window; f_attention_chunk_size := chunk |}.

(** The fields [unify_hybrid_kv_cache_specs] hands over; the quantisation mode gets its default. *)
Definition converted (block_size : Z) (a : AttentionSpec) : AttentionSpec :=
  {| a_block_size := block_size; num_kv_heads := num_kv_heads a; head_size := head_size a;
     dtype := dtype a; kv_quant_mode := NONE; a_page_size_padded := a_page_size_padded a |}.

Definition convert_spec {S} (uniform_block_size : option Z) (spec : KVCacheSpec) : M S KVCacheSpec :=
  match spec with
  | SlidingWindowMLASpec a _ m =>
      let a' := converted (default (a_block_size a) uniform_block_size) a in
      of_result (_apply_alignment_padding (MLAAttentionSpec a' (default_full_fields a' None None) m))
  | SlidingWindowSpec a w _ =>
      let a' := converted (a_block_size a) a in
      ret (FullAttentionSpec a' (default_full_fields a' (Some w) None))
  | ChunkedLocalAttentionSpec a c =>
      let a' := converted (a_block_size a) a in
      ret (FullAttentionSpec a' (default_full_fields a' None (Some c)))
  | s => ret s
  end.

Definition is_sliding_window (s : KVCacheSpec) : bool := is_some (sliding_window_of s).
Definition is_chunked_local (s : KVCacheSpec) : bool :=
  match s with ChunkedLocalAttentionSpec _ _ => true | _ => false end.

Definition uniform_or_uniform_type {S} (kv_cache_spec : list (string * KVCacheSpec)) : M S bool :=
  b <- is_kv_cache_spec_uniform kv_cache_spec ;;
  if b : bool then ret true else of_result (is_uniform_type kv_cache_spec.*2).

(** The dictionary is changed in place: the new one. *)
Definition unify_hybrid_kv_cache_specs {S} (kv_cache_spec : list (string * KVCacheSpec))
  : M S (list (string * KVCacheSpec)) :=
  uniform <- uniform_or_uniform_type kv_cache_spec ;;
  if uniform : bool then ret kv_cache_spec else
  let values := kv_cache_spec.*2 in
  let has_full_attention := existsb is_full values in
  let has_sliding_window := existsb is_sliding_window values in
  let has_chunked_local_attention := existsb is_chunked_local values in
  let has_swa_mla := existsb is_swa_mla values in
  uniform_block_size <-
    (if has_swa_mla
     then assert has_full_attention ;;; ret (block_size <$> head (filter (fun s => is_full s) values))
     else ret None) ;;
  kv_cache_spec <-
    (if (has_full_attention && (has_sliding_window || has_chunked_local_attention))%bool
     then mmapM (fun l => s <- convert_spec uniform_block_size l.2 ;; ret (l.1, s)) kv_cache_spec
     else ret kv_cache_spec) ;;
  uniform <- uniform_or_uniform_type kv_cache_spec ;;
  if uniform : bool then ret kv_cache_spec else raise ValueError.

(** ** Groups of DeepSeek-V4 *)

Definition group_and_unify_kv_cache_specs {S} (kv_cache_spec : list (string * KVCacheSpec))
  : M S (option (list UniformTypeKVCacheSpecs)) :=
  if negb (existsb is_swa_mla kv_cache_spec.*2) then ret None else
  let mla_specs := filter (fun l => is_mla l.2) kv_cache_spec in
  let grouped_swa_mla_specs :=
    foldl (fun d l => match l.2 with
                      | SlidingWindowMLASpec a w _ => dict_append (a_block_size a, w) l d
                      | _ => d
                      end) [] kv_cache_spec in
  assert (0 <? len mla_specs) ;;;
  mla <- of_result (from_specs mla_specs) ;;
  mla_uniform_spec <- of_option AssertionError mla ;;
  swa_uniform_specs <- mmapM (fun d => u <- of_result (from_specs d) ;; of_option AssertionError u)
                         grouped_swa_mla_specs.*2 ;;
  ret (Some (mla_uniform_spec :: swa_uniform_specs)).

Definition padding (values : list Z) (d : Z) : Z :=
  sum_list ((fun x => (d - x mod d) mod d) <$> values).

(** [best]: the best [d] so far and its padding. *)
Definition better (values : list Z) (best : Z * option Z) (d : Z) : Z * option Z :=
  let '(best_d, best_pad) := best in
  let pad := padding values d in
  match best_pad with
  | None => (d, Some pad)
  | Some best => if ((pad <? best) || ((pad =? best) && (best_d <? d)))%bool then (d, Some pad)
                 else (best_d, best_pad)
  end.

Definition _approximate_gcd (values : list Z) (lower_bound : option Z) : exn + Z :=
  match py_max values with
  | inl e => inl e
  | inr max_d =>
      if existsb (fun x => x <=? 0) values then inl ValueError
      else
        let min_d := Z.max 1 (default 1 lower_bound) in
        if max_d <? min_d then inr min_d
        else inr (foldl (better values) (min_d, None) (py_range min_d (max_d + 1))).1
  end.

Definition set_page_size_padded (candidate : Z) (s : KVCacheSpec) : KVCacheSpec :=
  match s with
  | SlidingWindowMLASpec a w m => SlidingWindowMLASpec (with_page_size_padded (Some candidate) a) w m
  | s => s
  end.

(** The layers of one group of [SlidingWindowMLASpec]s with their pages padded, and
    their names by page size. *)
Definition pad_layers {S} (size_to_candidate : list (Z * Z)) (specs : list (string * KVCacheSpec))
  : M S (list (string * KVCacheSpec) * list (Z * list string)) :=
  mfold (fun acc l =>
           current_size <- of_result (page_size_bytes l.2) ;;
           candidate <- of_option KeyError (dict_get current_size size_to_candidate) ;;
           let spec := if current_size <? candidate then set_page_size_padded candidate l.2 else l.2 in
           ret (acc.1 ++ [(l.1, spec)], dict_append candidate l.1 acc.2))
        specs ([], []).

Definition nearest_larger {S} (all_page_sizes : list Z) (ps : Z) : M S (Z * Z) :=
  candidate <- of_result (py_min (filter (fun x => ps <= x) all_page_sizes)) ;;
  ret (ps, candidate).

Definition split_swa_group {S} (all_page_sizes : list Z) (num_layer_tuples : Z)
    (sm_spec : UniformTypeKVCacheSpecs) : M S (list group) :=
  sm_page_sizes <- get_page_sizes sm_spec ;;
  max_sm <- of_result (py_max sm_page_sizes) ;;
  max_all <- of_result (py_max all_page_sizes) ;;
  assert (max_sm <=? max_all) ;;;
  size_to_candidate <- mmapM (nearest_larger all_page_sizes) sm_page_sizes ;;
  x <- pad_layers size_to_candidate (u_kv_cache_specs sm_spec) ;;
  let '(specs, layers_per_size) := x in
  assert (len (py_set ((fun b => len b.2) <$> layers_per_size)) =? 1) ;;;
  num_layers_per_size <- of_option StopIteration (len ∘ snd <$> head layers_per_size) ;;
  let num_tuple_groups := cdiv num_layers_per_size num_layer_tuples in
  let layer_tuples := py_zip layers_per_size.*2 in
  mmapM (fun i =>
           let group_layer_names := concat (stride i num_tuple_groups layer_tuples) in
           group_layer_specs <-
             mmapM (fun n => s <- of_option KeyError (dict_get n specs) ;; ret (n, s))
               group_layer_names ;;
           u <- of_result (from_specs group_layer_specs) ;;
           sub_sm_spec <- of_option AssertionError u ;;
           ret (MkGroup group_layer_names (Uniform sub_sm_spec) false))
        (py_range 0 num_tuple_groups).

(** The numbers of layer tuples, rounded up, are not used any more. *)
Definition _get_kv_cache_groups_uniform_groups {S} (grouped_specs : list UniformTypeKVCacheSpecs)
  : M S (list group) :=
  match grouped_specs with
  | [] => raise AssertionError
  | full_mla_spec :: swa_mla_specs =>
      assert (forallb is_mla (u_kv_cache_specs full_mla_spec).*2) ;;;
      let full_mla_group :=
        MkGroup (u_kv_cache_specs full_mla_spec).*1 (Uniform full_mla_spec) false in
      num_layer_tuples_per_group <- mmapM get_num_layer_tuples grouped_specs ;;
      num_layer_tuples <-
        of_result (_approximate_gcd num_layer_tuples_per_group (head num_layer_tuples_per_group)) ;;
      assert (forallb (fun u => forallb is_swa_mla (u_kv_cache_specs u).*2) swa_mla_specs) ;;;
      all_page_sizes <- get_page_sizes full_mla_spec ;;
      swa_mla_groups <- mmapM (split_swa_group all_page_sizes num_layer_tuples) swa_mla_specs ;;
      ret (full_mla_group :: concat swa_mla_groups)
  end.

Definition flag_eagle (g : group) : group := MkGroup (g_layer_names g) (g_spec g) true.

(** The first group that holds the layer. *)
Fixpoint flag_group_of (layer : string) (kv_cache_groups : list group) : list group :=
  match kv_cache_groups with
  | [] => []
  | g :: gs => if decide (layer ∈ g_layer_names g) then flag_eagle g :: gs
               else g :: flag_group_of layer gs
  end.

Definition _annotate_eagle_groups_deepseek_v4 (kv_cache_spec : list (string * KVCacheSpec))
    (kv_cache_groups : list group) : M Config (list group) :=
  c <- get ;;
  if negb (use_eagle c) then ret kv_cache_groups
  else if negb (existsb (fun s => bool_decide ((mla_fields s ≫= model_version) = Some "deepseek_v4"%string))
                  kv_cache_spec.*2)
  then ret kv_cache_groups
  else
    last_layer <- of_option StopIteration (last kv_cache_spec.*1) ;;
    ret (flag_group_of last_layer kv_cache_groups).

Definition get_kv_cache_groups (kv_cache_spec : list (string * KVCacheSpec)) : M Config (list group) :=
  c <- get ;;
  kv_cache_spec <- (if disable_hybrid_kv_cache_manager c
                    then unify_hybrid_kv_cache_specs kv_cache_spec else ret kv_cache_spec) ;;
  if is_kv_cache_type_attention_free kv_cache_spec then ret [] else
  uniform <- is_kv_cache_spec_uniform kv_cache_spec ;;
  if uniform : bool then _get_kv_cache_groups_uniform_spec kv_cache_spec else
  uniform_spec <- of_result (from_specs kv_cache_spec) ;;
  match uniform_spec with
  | Some u => ret (_get_kv_cache_groups_uniform_type u)
  | None =>
      grouped_specs <- group_and_unify_kv_cache_specs kv_cache_spec ;;
      match grouped_specs with
      | Some grouped_specs =>
          kv_cache_groups <- _get_kv_cache_groups_uniform_groups grouped_specs ;;
          _annotate_eagle_groups_deepseek_v4 kv_cache_spec kv_cache_groups
      | None =>
          kv_cache_spec <- unify_kv_cache_spec_page_size kv_cache_spec ;;
          _get_kv_cache_groups_uniform_page_size kv_cache_spec
      end
  end.

(** ** Tensors and number of blocks *)

Definition bucket_layers {S} (g : group) : M S (list (Z * list string)) :=
  u <- of_option AssertionError (uniform_of g) ;;
  mfold (fun b name =>
           s <- of_option KeyError (dict_get name (u_kv_cache_specs u)) ;;
           ps <- of_result (page_size_bytes s) ;;
           ret (dict_append ps name b)) (g_layer_names g) [].

(** The layers that share slot [tuple_idx] of page size [ps]. *)
Definition slot_layers (bucketed : list (list (Z * list string))) (tuple_idx ps : Z) : list string :=
  bucketed ≫= (fun b => match dict_get ps b with
                        | Some bucket => option_list (bucket !! Z.to_nat tuple_idx)
                        | None => []
                        end).

Definition _get_kv_cache_config_deepseek_v4 (kv_cache_groups : list group) (available_memory : Z)
  : M Config (Z * list KVCacheTensor) :=
  g <- of_option IndexError (head kv_cache_groups) ;;
  full_mla_spec <- of_option AssertionError (uniform_of g) ;;
  sizes <- get_page_sizes full_mla_spec ;;
  let page_sizes := merge_sort Z.le sizes in
  let layer_tuple_page_bytes := sum_list page_sizes in
  bucketed <- mmapM bucket_layers kv_cache_groups ;;
  num_layer_tuples <- of_result (py_max (bucketed ≫= (fun b => (fun x => len x.2) <$> b))) ;;
  n <- py_div available_memory (layer_tuple_page_bytes * num_layer_tuples) ;;
  num_blocks <- may_override_num_blocks n ;;
  ret (num_blocks,
       py_range 0 num_layer_tuples ≫= (fun tuple_idx =>
         (fun ps => {| size := ps * num_blocks; shared_by := slot_layers bucketed tuple_idx ps |})
           <$> page_sizes)).

(** The layers that share the [i]-th tensor: one of each group. *)
Definition shared_layers (kv_cache_groups : list group) (i : Z) : list string :=
  kv_cache_groups ≫= (fun g => option_list (g_layer_names g !! Z.to_nat i)).

Definition get_kv_cache_config_from_groups (kv_cache_groups : list group) (available_memory : Z)
  : M Config plan :=
  match kv_cache_groups with
  | [] => ret (MkPlan 1 [] kv_cache_groups)
  | [MkGroup names (Uniform u) _] =>
      page <- page_size (Uniform u) ;;
      n <- py_div available_memory page ;;
      num_blocks <- may_override_num_blocks n ;;
      kv_cache_tensors <-
        mmapM (fun layer_name =>
                 s <- of_option KeyError (dict_get layer_name (u_kv_cache_specs u)) ;;
                 p <- of_result (page_size_bytes s) ;;
                 ret {| size := p * num_blocks; shared_by := [layer_name] |}) names ;;
      ret (MkPlan num_blocks kv_cache_tensors kv_cache_groups)
  | _ =>
      if forallb is_uniform_group kv_cache_groups then
        x <- _get_kv_cache_config_deepseek_v4 kv_cache_groups available_memory ;;
        ret (MkPlan x.1 x.2 kv_cache_groups)
      else
        group_size <- group_size_of kv_cache_groups ;;
        page_size <- get_uniform_page_size (g_spec <$> kv_cache_groups) ;;
        assert (0 <? group_size) ;;;
        num_blocks <- get_num_blocks group_size available_memory page_size ;;
        let kv_cache_tensors :=
          (fun i => {| size := page_size * num_blocks; shared_by := shared_layers kv_cache_groups i |})
            <$> py_range 0 group_size in
        ret (MkPlan num_blocks kv_cache_tensors kv_cache_groups)
  end.

(** ** Fitting the memory of the workers *)

Definition max_memory_usage_pages_of (g : group) : M Config Z :=
  u <- as_uniform g ;; c <- get ;; of_result (max_memory_usage_pages u (vllm c)).

Definition _max_memory_usage_bytes_from_groups (kv_cache_groups : list group) : M Config Z :=
  match kv_cache_groups with
  | [] => ret 0
  | [MkGroup _ (Uniform u) _] => max_memory_usage_bytes (One <$> (u_kv_cache_specs u).*2)
  | _ =>
      if forallb is_uniform_group kv_cache_groups then
        g <- of_option IndexError (head kv_cache_groups) ;;
        full_mla_spec <- as_uniform g ;;
        sizes <- get_page_sizes full_mla_spec ;;
        let layer_tuple_bytes := sum_list sizes in
        counts <- mmapM (fun g => u <- as_uniform g ;; get_num_layer_tuples u) kv_cache_groups ;;
        num_layer_tuples <- of_result (py_max counts) ;;
        pages <- mmapM max_memory_usage_pages_of kv_cache_groups ;;
        ret (sum_list ((fun n => num_layer_tuples * n * layer_tuple_bytes) <$> pages))
      else
        group_size <- group_size_of kv_cache_groups ;;
        page_size <- get_uniform_page_size (g_spec <$> kv_cache_groups) ;;
        blocks <- mmapM (fun g => m <- spec_max_memory_usage_bytes (g_spec g) ;;
                                  if page_size =? 0 then raise ZeroDivisionError
                                  else ret (cdiv m page_size)) kv_cache_groups ;;
        ret (group_size * page_size * sum_list blocks)
  end.

Definition _estimate_max_model_len_from_groups (kv_cache_groups : list group)
    (available_memory : Z) : M Config Z :=
  binary_search (_max_memory_usage_bytes_from_groups kv_cache_groups) available_memory.

(** The smallest of the workers' lengths and the one so far. *)
Definition fit_worker (auto_fit_max : Z) (w : list group * Z) : M Config Z :=
  match w.1 with
  | [] => ret auto_fit_max
  | groups =>
      worker_max <- _estimate_max_model_len_from_groups groups w.2 ;;
      ret (if worker_max <? auto_fit_max then worker_max else auto_fit_max)
  end.

Definition is_empty {A} (l : list A) : bool := match l with [] => true | _ => false end.

Definition _auto_fit_max_model_len (projected_groups_per_worker : list (list group))
    (available_memory : list Z) : M Config unit :=
  if forallb is_empty projected_groups_per_worker then ret tt else
  c <- get ;;
  let original_max := max_model_len (vllm c) in
  of_option IndexError (head available_memory) ;;;
  auto_fit_max <- mfold fit_worker (zip projected_groups_per_worker available_memory) original_max ;;
  if auto_fit_max <=? 0 then raise ValueError
  else if original_max <=? auto_fit_max then ret tt
  else modify (set_max_model_len auto_fit_max).

Definition project_group {S} (worker_spec : list (string * KVCacheSpec)) (g : group) : M S group :=
  let worker_layer_names := filter (fun n => n ∈ worker_spec.*1) (g_layer_names g) in
  let here := negb (is_empty worker_layer_names) in
  group_spec <-
    match g_spec g with
    | Uniform u =>
        if here then
          specs <- mmapM (fun n => s <- of_option KeyError (dict_get n (u_kv_cache_specs u)) ;;
                                   ret (n, s)) worker_layer_names ;;
          ret (Uniform {| u_block_size := u_block_size u; u_kv_cache_specs := specs |})
        else ret (Uniform u)
    | One s => ret (One s)
    end ;;
  ret (MkGroup worker_layer_names group_spec (g_is_eagle_group g && here)).

Definition _project_kv_cache_groups_to_worker {S} (global_kv_cache_groups : list group)
    (worker_spec : list (string * KVCacheSpec)) : M S (list group) :=
  mmapM (project_group worker_spec) global_kv_cache_groups.

(** ** All workers *)

Definition merge_layer {S} (merged : list (string * KVCacheSpec)) (l : string * KVCacheSpec)
  : M S (list (string * KVCacheSpec)) :=
  match dict_get l.1 merged with
  | None => ret (dict_set l.1 l.2 merged)
  | Some s => assert (bool_decide (s = l.2)) ;;; ret merged
  end.

Definition merge_workers {S} (kv_cache_specs : list (list (string * KVCacheSpec)))
  : M S (list (string * KVCacheSpec)) :=
  mfold merge_layer (concat kv_cache_specs) [].

(** The memory the override stands for. *)
Definition adjust_memory (override : Z) (w : list group * Z) : M Config Z :=
  match w.1 with
  | [] => ret w.2
  | groups =>
      bytes_per_block <- _pool_bytes_per_block groups ;;
      py_div w.2 bytes_per_block ;;;
      ret (override * bytes_per_block)
  end.

Definition check_worker (w : list group * Z) : M Config unit :=
  match w.1 with
  | [] => ret tt
  | groups =>
      _check_enough_kv_cache_memory w.2 (_max_memory_usage_bytes_from_groups groups)
        (_estimate_max_model_len_from_groups groups)
  end.

Definition config_worker (w : list group * list (string * KVCacheSpec) * Z) : M Config plan :=
  let '(projected_groups, kv_cache_spec_one_worker, available_memory_one_worker) := w in
  assert (sum_list ((fun g => len (g_layer_names g)) <$> projected_groups)
          =? len kv_cache_spec_one_worker) ;;;
  get_kv_cache_config_from_groups projected_groups available_memory_one_worker.

Definition shrink_tensor {S} (num_blocks_old min_num_blocks : Z) (t : KVCacheTensor) : M S KVCacheTensor :=
  r <- py_mod (size t) num_blocks_old ;;
  assert (r =? 0) ;;;
  ret {| size := size t / num_blocks_old * min_num_blocks; shared_by := shared_by t |}.

(** Only the errors of [_report_kv_cache_config] are visible. *)
Definition _report_kv_cache_config (p : plan) : M Config unit :=
  get_max_concurrency_for_kv_cache_config p ;;; ret tt.

Definition shrink_plan (min_num_blocks : Z) (p : plan) : M Config plan :=
  kv_cache_tensors <- mmapM (shrink_tensor (p_num_blocks p) min_num_blocks) (p_tensors p) ;;
  let p' := MkPlan min_num_blocks kv_cache_tensors (p_groups p) in
  (match p_groups p with [] => ret tt | _ => _report_kv_cache_config p' end) ;;;
  ret p'.

Definition get_kv_cache_configs (kv_cache_specs : list (list (string * KVCacheSpec)))
    (available_memory : list Z) : M Config (list plan) :=
  merged_kv_cache_specs <- merge_workers kv_cache_specs ;;
  global_kv_cache_groups <- get_kv_cache_groups merged_kv_cache_specs ;;
  projected_groups_per_worker <-
    mmapM (_project_kv_cache_groups_to_worker global_kv_cache_groups) kv_cache_specs ;;
  c <- get ;;
  available_memory <-
    match num_gpu_blocks_override c with
    | Some override => mmapM (adjust_memory override) (zip projected_groups_per_worker available_memory)
    | None => ret available_memory
    end ;;
  (if original_max_model_len c =? -1
   then _auto_fit_max_model_len projected_groups_per_worker available_memory else ret tt) ;;;
  mfor (zip projected_groups_per_worker available_memory) check_worker ;;;
  kv_cache_configs <-
    mmapM config_worker (zip (zip projected_groups_per_worker kv_cache_specs) available_memory) ;;
  min_num_blocks <- of_result (py_min (p_num_blocks <$> kv_cache_configs)) ;;
  mmapM (shrink_plan min_num_blocks) kv_cache_configs.

Definition scheduler_group {S} (g : group) : M S KVCacheGroupSpec :=
  s <- match g_spec g with
       | One s => ret s
       | Uniform u => of_option StopIteration (head (u_kv_cache_specs u).*2)
       end ;;
  ret {| layer_names := g_layer_names g; kv_cache_spec := s; is_eagle_group := g_is_eagle_group g |}.

Definition generate_scheduler_kv_cache_config {S} (kv_cache_configs : list plan) : M S KVCacheConfig :=
  match kv_cache_configs with
  | [] => raise IndexError
  | cfg :: _ =>
      assert (forallb (fun p => p_num_blocks p =? p_num_blocks cfg) kv_cache_configs) ;;;
      groups <- mmapM scheduler_group (p_groups cfg) ;;
      ret {| num_blocks := p_num_blocks cfg; kv_cache_tensors := p_tensors cfg;
             kv_cache_groups := groups |}
  end.

(** [EngineCore._initialize_kv_caches], between what the executor reports and what it
    is given: the workers' plans and the scheduler's.  Elastic scaling and
    [validate_block_size] of the configuration are left out. *)
Definition _initialize_kv_caches (kv_cache_specs : list (list (string * KVCacheSpec)))
    (determine_available_memory : list Z) : M Config (list plan * KVCacheConfig) :=
  let has_kv_cache := existsb (fun s => negb (is_empty s)) kv_cache_specs in
  available_gpu_memory <-
    (if has_kv_cache
     then of_option IndexError (head determine_available_memory) ;;; ret determine_available_memory
     else ret (py_repeat 0 (len kv_cache_specs))) ;;
  assert (len kv_cache_specs =? len available_gpu_memory) ;;;
  kv_cache_configs <- get_kv_cache_configs kv_cache_specs available_gpu_memory ;;
  scheduler_kv_cache_config <- generate_scheduler_kv_cache_config kv_cache_configs ;;
  (match kv_cache_groups scheduler_kv_cache_config with
   | [] => ret tt
   | groups =>
       b <- of_result (py_min ((fun g => block_size (kv_cache_spec g)) <$> groups)) ;;
       modify (set_cache_block_size b)
   end) ;;;
  ret (kv_cache_configs, scheduler_kv_cache_config).

(** What [EngineCore.__init__] hands to the scheduler. *)
Definition start_up (kv_cache_specs : list (list (string * KVCacheSpec)))
    (determine_available_memory : list Z) : M Config (list plan * KVCacheConfig * (Z * Z)) :=
  x <- _initialize_kv_caches kv_cache_specs determine_available_memory ;;
  sizes <- resolve_kv_cache_block_sizes x.2 ;;
  ret (x, sizes).

End planning.
End Planning.

(** ** Concrete data for the witnesses *)

Definition demo_torch : Torch :=
  {| element_size d := if String.eqb d "float32" then 4 else if String.eqb d "bfloat16" then 2 else 1 |}.

Definition demo_plan_attn (b : Z) : AttentionSpec :=
  {| a_block_size := b; num_kv_heads := 2; head_size := 64; dtype := "bfloat16";
     kv_quant_mode := NONE; a_page_size_padded := None |}.
Definition demo_plan_full (b : Z) : KVCacheSpec :=
  FullAttentionSpec (demo_plan_attn b)
    {| f_head_size_v := 64; f_sliding_window := None; f_attention_chunk_size := None |}.
Definition demo_plan_window (b w : Z) : KVCacheSpec := SlidingWindowSpec (demo_plan_attn b) w 64.

(** Two full-attention and three sliding-window layers. *)
Definition demo_plan_layers : list (string * KVCacheSpec) :=
  [("full.0", demo_plan_full 16); ("window.0", demo_plan_window 16 32);
   ("window.1", demo_plan_window 16 32); ("full.1", demo_plan_full 16);
   ("window.2", demo_plan_window 16 32)]%string.

Definition demo_plan_config (max_len original : Z) (override : option Z) : Planning.Config := {|
  Planning.vllm := {| max_model_len := max_len; decode_context_parallel_size := 1;
                      prefill_context_parallel_size := 1; max_num_batched_tokens := 64;
                      max_num_encoder_input_tokens := 0; cfg_mamba_cache_mode := "none" |};
  Planning.cache_block_size := 16; Planning.enable_prefix_caching := true;
  Planning.cfg_hash_block_size := None; Planning.kv_transfer_config := false;
  Planning.num_gpu_blocks_override := override; Planning.disable_hybrid_kv_cache_manager := false;
  Planning.original_max_model_len := original; Planning.use_eagle := false |}.
