(* ===== verification/PlanMemory.v ===== *)
(** * Planning: the memory a request needs

    The memory the specifications ask for grows with the model length, so both binary
    searches of [Planning] find the largest length that fits. *)

From S2P Require Import Prelude CacheSpec Planning.
From stdpp Require Import options.
Import Planning.

(** ** Computations of a number that depends on the length *)

Lemma set_max_model_len_twice a b c : set_max_model_len a (set_max_model_len b c) = set_max_model_len a c.
Proof. done. Qed.

Lemma set_max_model_len_same c : set_max_model_len (max_model_len (vllm c)) c = c.
Proof. by destruct c as [[] ? ? ? ? ? ? ? ?]. Qed.

(** At every length [n] the computation returns [f n], changes nothing, and [f] grows. *)
Definition measured {A} (le : A -> A -> Prop) (m : M Config A) (c : Config) (f : Z -> A) : Prop :=
  (forall n, m (set_max_model_len n c) = Ret (f n) (set_max_model_len n c)) /\
  (forall a b, a <= b -> le (f a) (f b)).

Lemma measured_ret {A} (le : A -> A -> Prop) (x : A) c : le x x -> measured le (ret x) c (fun _ => x).
Proof. by split. Qed.

Lemma measured_bind_const {A B} (le : B -> B -> Prop) (m : M Config A) (k : A -> M Config B) c x f :
  (forall n, m (set_max_model_len n c) = Ret x (set_max_model_len n c)) ->
  measured le (k x) c f -> measured le (bind m k) c f.
Proof. intros Hm [Hk Hle]. split; [|done]. intros n. unfold bind. by rewrite Hm, Hk. Qed.

Lemma measured_fmap {A B} (leA : A -> A -> Prop) (leB : B -> B -> Prop) (m : M Config A) (g : A -> B) c f :
  measured leA m c f -> (forall x y, leA x y -> leB (g x) (g y)) ->
  measured leB (x <- m ;; ret (g x)) c (fun n => g (f n)).
Proof.
  intros [Hm Hle] Hg. split; [|by auto]. intros n. unfold bind. by rewrite Hm.
Qed.

Lemma measured_mmapM {A} (F : A -> M Config Z) l c :
  Forall (fun x => exists f, measured Z.le (F x) c f) l ->
  exists f, measured (Forall2 Z.le) (mmapM F l) c f /\ forall n, length (f n) = length l.
Proof.
  induction 1 as [|x l [f [Hf Hle]] _ (fs & [Hfs Hles] & Hlen)].
  { exists (fun _ => []). split; [|done]. apply measured_ret. constructor. }
  exists (fun n => f n :: fs n). split; [|intros n; simpl; by rewrite Hlen].
  split; [|intros a b Hab; constructor; auto].
  intros n. simpl. unfold bind. by rewrite Hf, Hfs.
Qed.

Lemma sum_list_mono l l' : Forall2 Z.le l l' -> sum_list l <= sum_list l'.
Proof. unfold sum_list. induction 1; simpl; lia. Qed.

Lemma foldl_max_mono l l' x x' : x <= x' -> Forall2 Z.le l l' -> foldl Z.max x l <= foldl Z.max x' l'.
Proof. intros Hx Hl. revert x x' Hx. induction Hl; simpl; intros; [done|]. apply IHHl. lia. Qed.

Lemma foldl_max_ge l x : x <= foldl Z.max x l /\ Forall (fun y => y <= foldl Z.max x l) l.
Proof.
  revert x. induction l as [|y l IH]; intros x; simpl; [split; [lia|constructor]|].
  destruct (IH (Z.max x y)) as [H1 H2]. split; [lia|]. constructor; [lia|done].
Qed.

Lemma py_max_ge l m : py_max l = inr m -> Forall (fun y => y <= m) l.
Proof.
  destruct l as [|x l]; simpl; intros Hm; simplify_eq. destruct (foldl_max_ge l x). by constructor.
Qed.

(** ** What a specification needs *)

(** The blocks a request of [max_model_len] tokens may need of a layer. *)
Definition pages (s : KVCacheSpec) (v : VllmConfig) : Z :=
  match s with
  | FullAttentionSpec a _ | TQFullAttentionSpec a _ _ | MLAAttentionSpec a _ _
  | SinkFullAttentionSpec a _ _ =>
      let world := decode_context_parallel_size v * prefill_context_parallel_size v in
      cdiv (if 1 <? world then cdiv (max_model_len v) world else max_model_len v) (a_block_size a)
  | ChunkedLocalAttentionSpec _ _ | SlidingWindowSpec _ _ _ | SlidingWindowMLASpec _ _ _ =>
      default 0 (max_admission_blocks_per_request s (max_num_batched_tokens v) (max_model_len v))
  | MambaSpec m =>
      if String.eqb (cfg_mamba_cache_mode v) "all" then cdiv (max_model_len v) (m_block_size m)
      else if String.eqb (cfg_mamba_cache_mode v) "align" then 2 + num_speculative_blocks m
      else 1 + num_speculative_blocks m
  | EncoderOnlyAttentionSpec _ => 0
  | CrossAttentionSpec a => cdiv (max_num_encoder_input_tokens v) (a_block_size a)
  end.

Section memory.
Context `{Torch}.

Lemma max_memory_pages s v m p :
  CacheSpec.max_memory_usage_bytes s v = inr m -> page_size_bytes s = inr p -> m = pages s v * p.
Proof.
  unfold CacheSpec.max_memory_usage_bytes. intros Hm Hp. rewrite Hp in Hm.
  destruct s; simpl in Hm |- *; repeat case_match; simplify_eq; try done; lia.
Qed.

(** Specifications planning can size: their page size is defined and positive, and
    sliding windows come without context parallelism. *)
Record sizeable (v : VllmConfig) (s : KVCacheSpec) : Prop := {
  sz_block : 0 < block_size s;
  sz_page : exists p, page_size_bytes s = inr p /\ 0 < p;
  sz_window : is_some (sliding_window_of s) = true -> decode_context_parallel_size v = 1;
}.

Lemma max_memory_defined v s p :
  sizeable v s -> page_size_bytes s = inr p -> CacheSpec.max_memory_usage_bytes s v = inr (pages s v * p).
Proof.
  intros [Hb _ Hw] Hp. unfold CacheSpec.max_memory_usage_bytes. rewrite Hp.
  destruct s; simpl in *; try (f_equal; lia); try done; try (rewrite (Hw eq_refl); done);
    repeat case_match; try done; f_equal; lia.
Qed.

Lemma pages_mono s v a b :
  0 < block_size s -> a <= b -> pages s (with_max_model_len a v) <= pages s (with_max_model_len b v).
Proof.
  intros Hb Hab. destruct s; simpl in *; repeat case_match; try lia;
    repeat (apply Z.add_le_mono_r || apply cdiv_mono); lia.
Qed.

Lemma sizeable_len v s n : sizeable v s -> sizeable (with_max_model_len n v) s.
Proof. by intros [? ? ?]. Qed.

Lemma measured_spec c s :
  sizeable (vllm c) s ->
  exists f, measured Z.le (spec_max_memory_usage_bytes (One s)) c f.
Proof.
  intros Hs. destruct (sz_page _ _ Hs) as (p & Hp & Hpos).
  exists (fun n => pages s (with_max_model_len n (vllm c)) * p). split.
  - intros n. unfold spec_max_memory_usage_bytes, bind, get.
    change (vllm (set_max_model_len n c)) with (with_max_model_len n (vllm c)).
    by rewrite (max_memory_defined _ s p (sizeable_len _ _ n Hs) Hp).
  - intros a b Hab. pose proof (pages_mono s (vllm c) a b (sz_block _ _ Hs) Hab). nia.
Qed.

Lemma measured_max_memory c l :
  Forall (sizeable (vllm c)) l ->
  exists f, measured Z.le (max_memory_usage_bytes (One <$> l)) c f.
Proof.
  intros Hl. destruct (measured_mmapM spec_max_memory_usage_bytes (One <$> l) c) as (f & Hf & _).
  { apply Forall_fmap. eapply Forall_impl; [exact Hl|]. intros s Hs. by apply measured_spec. }
  exists (fun n => sum_list (f n)). eapply measured_fmap; [exact Hf|apply sum_list_mono].
Qed.

(** ** What a group needs *)

Definition group_sizeable (v : VllmConfig) (g : group) : Prop :=
  match g_spec g with
  | One s => sizeable v s
  | Uniform u => u_kv_cache_specs u <> [] /\ Forall (sizeable v) (u_kv_cache_specs u).*2
  end.

(** Groups the planner makes: sizeable, and with one page size unless each group keeps
    the specifications of its layers. *)
Record groups_sizeable (v : VllmConfig) (gs : list group) : Prop := {
  gs_groups : Forall (group_sizeable v) gs;
  gs_page : forallb is_uniform_group gs = false ->
            exists p, 0 < p /\ Forall (fun g => forall S (s : S), page_size (g_spec g) s = Ret p s) gs;
}.

Lemma all_results_fmap {A B} (f : A -> exn + B) (g : A -> B) l :
  Forall (fun x => f x = inr (g x)) l -> all_results (f <$> l) = inr (g <$> l).
Proof. induction 1 as [|x l Hx _ IH]; [done|]. csimpl. by rewrite Hx, IH. Qed.

Lemma page_sizes_defined v l :
  Forall (sizeable v) l ->
  exists ps, all_results (page_size_bytes <$> l) = inr ps /\ Forall (fun p => 0 < p) ps /\
    length ps = length l.
Proof.
  induction 1 as [|s l Hs _ (ps & IH & Hpos & Hlen)]; [by exists []|].
  destruct (sz_page _ _ Hs) as (p & Hp & Hp0). exists (p :: ps). csimpl. rewrite Hp, IH, Hlen.
  split; [done|]. split; [by constructor|done].
Qed.

Lemma max_pages_defined v u s l :
  (u_kv_cache_specs u).*2 = s :: l -> Forall (sizeable v) (s :: l) ->
  max_memory_usage_pages u v = inr (foldl Z.max (pages s v) ((fun s => pages s v) <$> l)).
Proof.
  unfold max_memory_usage_pages. intros -> Hl.
  rewrite (all_results_fmap _ (fun s => pages s v)); [done|].
  eapply Forall_impl; [exact Hl|]. intros x Hx. destruct (sz_page _ _ Hx) as (p & Hp & Hp0).
  cbv beta. rewrite (max_memory_defined v x p Hx Hp), Hp. f_equal. apply cdiv_mul. lia.
Qed.

Lemma measured_pages c u :
  u_kv_cache_specs u <> [] -> Forall (sizeable (vllm c)) (u_kv_cache_specs u).*2 ->
  exists f, (forall n, max_memory_usage_pages u (with_max_model_len n (vllm c)) = inr (f n)) /\
    forall a b, a <= b -> f a <= f b.
Proof.
  intros Hne Hl. destruct (u_kv_cache_specs u).*2 as [|s l] eqn:E.
  { by apply fmap_nil_inv in E. }
  exists (fun n => let v := with_max_model_len n (vllm c) in
           foldl Z.max (pages s v) ((fun s => pages s v) <$> l)). split.
  - intros n. apply max_pages_defined; [done|]. eapply Forall_impl; [exact Hl|].
    intros x Hx. by apply sizeable_len.
  - intros a b Hab. apply Forall_cons in Hl as [Hs Hl]. apply foldl_max_mono.
    { apply pages_mono; [apply Hs|done]. }
    apply Forall2_fmap_2. apply Forall_Forall2_diag. eapply Forall_impl; [exact Hl|].
    intros x Hx. apply pages_mono; [apply Hx|done].
Qed.

Lemma sum_list_nonneg l : Forall (fun p => 0 < p) l -> 0 <= sum_list l.
Proof. unfold sum_list. induction 1; simpl; lia. Qed.

Lemma measured_group c g :
  group_sizeable (vllm c) g -> exists f, measured Z.le (spec_max_memory_usage_bytes (g_spec g)) c f.
Proof.
  unfold group_sizeable. destruct (g_spec g) as [s|u]; [apply measured_spec|].
  intros [Hne Hl]. destruct (measured_pages c u Hne Hl) as (f & Hf & Hle).
  destruct (page_sizes_defined _ _ Hl) as (ps & Hps & Hpos & _).
  exists (fun n => f n * sum_list ps). split.
  - intros n. unfold spec_max_memory_usage_bytes, u_max_memory_usage_bytes, u_page_size_bytes, bind, get.
    change (vllm (set_max_model_len n c)) with (with_max_model_len n (vllm c)).
    by rewrite Hf, Hps.
  - intros a b Hab. specialize (Hle a b Hab). pose proof (sum_list_nonneg ps Hpos). nia.
Qed.

Lemma mmapM_const {S A B} (P : B -> Prop) (F : A -> M S B) l :
  Forall (fun x => exists y, P y /\ forall s, F x s = Ret y s) l ->
  exists ys, Forall P ys /\ length ys = length l /\ forall s, mmapM F l s = Ret ys s.
Proof.
  induction 1 as [|x l (y & Hy & HF) _ (ys & Hys & Hlen & IH)]; [by exists []|].
  exists (y :: ys). split; [by constructor|]. split; [simpl; by rewrite Hlen|].
  intros s. simpl. unfold bind. by rewrite HF, IH.
Qed.

Lemma py_max_nonneg l : l <> [] -> Forall (Z.le 0) l -> exists m, py_max l = inr m /\ 0 <= m.
Proof.
  intros Hne Hl. destruct l as [|x l]; [done|]. simpl. apply Forall_cons in Hl as [Hx Hl].
  exists (foldl Z.max x l). split; [done|]. clear Hne. revert x Hx.
  induction Hl; simpl; intros; [done|]. apply IHHl. lia.
Qed.

Lemma page_sizes_run {S} v u :
  Forall (sizeable v) (u_kv_cache_specs u).*2 ->
  exists ps, 0 <= sum_list ps /\ forall s : S, get_page_sizes u s = Ret ps s.
Proof.
  intros Hl. destruct (page_sizes_defined _ _ Hl) as (ps & Hps & Hpos & _).
  exists (py_set ps). split.
  - apply sum_list_nonneg. rewrite Forall_forall in *. intros x Hx. apply Hpos.
    by apply elem_of_remove_dups.
  - intros s. unfold get_page_sizes, bind. by rewrite Hps.
Qed.

Lemma layer_tuples_run {S} v u :
  u_kv_cache_specs u <> [] -> Forall (sizeable v) (u_kv_cache_specs u).*2 ->
  exists n, 0 <= n /\ forall s : S, get_num_layer_tuples u s = Ret n s.
Proof.
  intros Hne Hl. destruct (page_sizes_defined _ _ Hl) as (ps & Hps & Hpos & Hlen).
  unfold get_num_layer_tuples, bind. rewrite Hps. simpl.
  set (counts := (fun x => len (filter (fun y => y = x) ps)) <$> py_set ps).
  assert (Hc : counts <> []).
  { destruct ps as [|x ps]; [by destruct (u_kv_cache_specs u)|].
    assert (Hx : x ∈ py_set (x :: ps)) by (apply elem_of_remove_dups; left).
    unfold counts. destruct (py_set (x :: ps)); [by apply not_elem_of_nil in Hx|done]. }
  destruct (py_max_nonneg counts Hc) as (m & Hm & H0).
  { apply Forall_fmap. apply Forall_true. intros x. apply len_nonneg. }
  exists m. split; [done|]. intros s. destruct counts as [|x l]; [done|]. simpl in Hm. by simplify_eq.
Qed.

Lemma uniform_group v g :
  is_uniform_group g = true -> group_sizeable v g ->
  exists u, uniform_of g = Some u /\ u_kv_cache_specs u <> [] /\ Forall (sizeable v) (u_kv_cache_specs u).*2.
Proof.
  unfold is_uniform_group, uniform_of, group_sizeable. destruct (g_spec g) as [|u]; [done|].
  intros _ [? ?]. eauto.
Qed.

Lemma group_size_run {S} gs :
  gs <> [] -> exists n, 0 <= n /\ forall s : S, group_size_of gs s = Ret n s.
Proof.
  intros Hne. destruct (py_max_nonneg ((fun g => len (g_layer_names g)) <$> gs)) as (m & Hm & H0).
  { intros E. by apply fmap_nil_inv in E. }
  { apply Forall_fmap, Forall_true. intros g. apply len_nonneg. }
  exists m. split; [done|]. intros s. unfold group_size_of. by rewrite Hm.
Qed.

Lemma py_set_all (p : Z) l : l <> [] -> Forall (fun x => x = p) l -> py_set l = [p].
Proof.
  intros Hne Hl. induction Hl as [|x l -> Hl IH]; [done|]. unfold py_set in *. simpl.
  destruct l as [|y l]; [done|]. apply Forall_cons in Hl as [-> _].
  destruct (decide_rel elem_of p (p :: l)) as [_|Hn]; [by apply IH|]. destruct Hn. left.
Qed.

Lemma uniform_page_run {S} p gs :
  gs <> [] -> Forall (fun g => forall S (s : S), page_size (g_spec g) s = Ret p s) gs ->
  forall s : S, get_uniform_page_size (g_spec <$> gs) s = Ret p s.
Proof.
  intros Hne Hp s. destruct (mmapM_const (S := S) (fun x => x = p) page_size (g_spec <$> gs))
    as (ps & Hps & Hlen & Hrun).
  { apply Forall_fmap. eapply Forall_impl; [exact Hp|]. intros g Hg. exists p. split; [done|].
    intros s'. apply Hg. }
  unfold get_uniform_page_size, bind. rewrite Hrun, (py_set_all p ps); [done| |done].
  intros ->. rewrite length_fmap in Hlen. by destruct gs.
Qed.

(** The branches of [_max_memory_usage_bytes_from_groups] for several groups. *)
Definition needed_general (kv_cache_groups : list group) : M Config Z :=
  if forallb is_uniform_group kv_cache_groups then
    g <- of_option IndexError (head kv_cache_groups) ;;
    full_mla_spec <- as_uniform g ;;
    sizes <- get_page_sizes full_mla_spec ;;
    counts <- mmapM (fun g => u <- as_uniform g ;; get_num_layer_tuples u) kv_cache_groups ;;
    num_layer_tuples <- of_result (py_max counts) ;;
    pages <- mmapM max_memory_usage_pages_of kv_cache_groups ;;
    ret (sum_list ((fun n => num_layer_tuples * n * sum_list sizes) <$> pages))
  else
    group_size <- group_size_of kv_cache_groups ;;
    page_size <- get_uniform_page_size (g_spec <$> kv_cache_groups) ;;
    blocks <- mmapM (fun g => m <- spec_max_memory_usage_bytes (g_spec g) ;;
                              if page_size =? 0 then raise ZeroDivisionError
                              else ret (cdiv m page_size)) kv_cache_groups ;;
    ret (group_size * page_size * sum_list blocks).

Lemma measured_general c gs :
  gs <> [] -> groups_sizeable (vllm c) gs ->
  exists f, measured Z.le (needed_general gs) c f.
Proof.
  intros Hne [Hgs Hpage]. unfold needed_general.
  destruct (forallb is_uniform_group gs) eqn:Hall.
  - assert (Hu : Forall (fun g => exists u, uniform_of g = Some u /\ u_kv_cache_specs u <> []
                     /\ Forall (sizeable (vllm c)) (u_kv_cache_specs u).*2) gs).
    { rewrite Forall_forall in *. intros g Hg. apply uniform_group; [|by apply Hgs].
      rewrite forallb_forall in Hall. apply Hall. by apply list_elem_of_In. }
    clear Hall Hpage. destruct gs as [|g gs]; [done|].
    destruct (mmapM_const (Z.le 0)
                (fun g => u <- as_uniform g ;; get_num_layer_tuples (S := Config) u) (g :: gs))
      as (counts & Hcounts & Hlen & Hcrun).
    { eapply Forall_impl; [exact Hu|]. intros g' (u & Hg & Hne' & Hl).
      destruct (layer_tuples_run (S := Config) (vllm c) u Hne' Hl) as (n & Hn & Hrun).
      exists n. split; [done|]. intros s. unfold bind, as_uniform. rewrite Hg. apply Hrun. }
    destruct (py_max_nonneg counts) as (k & Hk & Hk0); [by destruct counts|done|].
    destruct (measured_mmapM max_memory_usage_pages_of (g :: gs) c) as (f & Hf & _).
    { eapply Forall_impl; [exact Hu|]. intros g' (u & Hg & Hne' & Hl).
      destruct (measured_pages c u Hne' Hl) as (f & Hf & Hle). exists f. split; [|done].
      intros n. unfold max_memory_usage_pages_of, as_uniform, bind, get. rewrite Hg.
      change (vllm (set_max_model_len n c)) with (with_max_model_len n (vllm c)).
      simpl. by rewrite Hf. }
    apply Forall_cons in Hu as [(u & Hg & Hne' & Hl) _].
    destruct (page_sizes_run (S := Config) (vllm c) u Hl) as (ps & Hps & Hprun).
    exists (fun n => sum_list ((fun x => k * x * sum_list ps) <$> f n)).
    apply (measured_bind_const _ _ _ _ g); [done|].
    apply (measured_bind_const _ _ _ _ u); [intros n; unfold as_uniform; by rewrite Hg|].
    apply (measured_bind_const _ _ _ _ ps); [by intros n|].
    apply (measured_bind_const _ _ _ _ counts); [by intros n|].
    apply (measured_bind_const _ _ _ _ k); [intros n; by rewrite Hk|].
    apply (measured_fmap (Forall2 Z.le) Z.le _
             (fun pages => sum_list ((fun n => k * n * sum_list ps) <$> pages)) c f Hf).
    intros x y Hxy. apply sum_list_mono. apply Forall2_fmap_2. eapply Forall2_impl; [exact Hxy|]. intros a b Hab.
    apply Z.mul_le_mono_nonneg_r; [done|]. by apply Z.mul_le_mono_nonneg_l.
  - destruct (Hpage eq_refl) as (p & Hp0 & Hp).
    destruct (group_size_run (S := Config) gs Hne) as (k & Hk0 & Hk).
    destruct (measured_mmapM (fun g => m <- spec_max_memory_usage_bytes (g_spec g) ;;
                 if p =? 0 then raise ZeroDivisionError else ret (cdiv m p)) gs c) as (f & Hf & _).
    { eapply Forall_impl; [exact Hgs|]. intros g Hg.
      destruct (measured_group c g Hg) as (f & Hf). exists (fun n => cdiv (f n) p).
      rewrite (proj2 (Z.eqb_neq p 0)) by lia.
      apply (measured_fmap Z.le Z.le _ (fun m => cdiv m p) c f Hf).
      intros x y Hxy. by apply cdiv_mono. }
    exists (fun n => k * p * sum_list (f n)).
    apply (measured_bind_const _ _ _ _ k); [by intros n|].
    apply (measured_bind_const _ _ _ _ p).
    { intros n. by apply (uniform_page_run p gs Hne Hp). }
    apply (measured_fmap (Forall2 Z.le) Z.le _ (fun blocks => k * p * sum_list blocks) c f Hf).
    intros x y Hxy. apply Z.mul_le_mono_nonneg_l; [nia|by apply sum_list_mono].
Qed.

Lemma measured_needed c gs :
  groups_sizeable (vllm c) gs ->
  exists f, measured Z.le (_max_memory_usage_bytes_from_groups gs) c f.
Proof.
  intros Hok. destruct gs as [|[names [s|u] eagle] [|g gs]].
  - exists (fun _ => 0). by apply measured_ret.
  - by apply (measured_general c [MkGroup names (One s) eagle]).
  - by apply (measured_general c (MkGroup names (One s) eagle :: g :: gs)).
  - destruct Hok as [Hgs _]. apply Forall_singleton in Hgs as [_ Hl]. by apply measured_max_memory.
  - by apply (measured_general c (MkGroup names (Uniform u) eagle :: g :: gs)).
Qed.

(** ** The binary search *)

(** [search] with a test that holds up to some length and fails beyond. *)
Lemma search_largest (fits : Z -> M Config bool) (P : Z -> bool) (c : Config) (R : Z)
    (Hfits : forall n k, fits n (set_max_model_len k c) = Ret (P n) (set_max_model_len n c))
    (Hanti : forall a b, a <= b -> P b = true -> P a = true) :
  forall fuel left right result k,
  P result = true -> result <= R -> (left = result + 1 \/ left = result) ->
  left - 1 <= right -> right <= R -> (forall n, right < n -> n <= R -> P n = false) ->
  right - left + 1 < Z.of_nat fuel ->
  exists n k', search fuel fits left right result (set_max_model_len k c)
                 = Ret n (set_max_model_len k' c) /\
    P n = true /\ result <= n /\ n <= R /\ forall m, n < m -> m <= R -> P m = false.
Proof.
  induction fuel as [|fuel IH]; intros left right result k Hres HresR Hleft Hlr HrR Hbeyond Hfuel.
  { simpl. destruct (Z.leb_spec left right); [lia|]. exists result, k. split; [done|].
    do 3 (split; [done|]). intros m Hm HmR. destruct (decide (right < m)); [by apply Hbeyond|lia]. }
  simpl. destruct (Z.leb_spec left right) as [Hle|Hgt].
  2:{ exists result, k. split; [done|]. do 3 (split; [done|]). intros m Hm HmR. apply Hbeyond; lia. }
  set (mid := (left + right) / 2).
  assert (Hmid : left <= mid /\ mid <= right).
  { unfold mid. split; [apply Z.div_le_lower_bound|apply Z.div_le_upper_bound]; lia. }
  unfold bind. rewrite Hfits. destruct (P mid) eqn:HP.
  - destruct (IH (mid + 1) right mid mid) as (n & k' & Hrun & Hn & Hge & HnR & Hmax);
      try done; try lia. exists n, k'. split; [done|]. split; [done|]. split; [lia|done].
  - destruct (IH left (mid - 1) result mid) as (n & k' & Hrun & Hn & Hge & HnR & Hmax);
      try done; try lia.
    { intros n Hn HnR. destruct (decide (right < n)); [by apply Hbeyond|].
      destruct (P n) eqn:HPn; [|done]. rewrite (Hanti mid n) in HP; [done|lia|done]. }
    exists n, k'. done.
Qed.

Lemma binary_search_largest (needed : M Config Z) avail c f :
  measured Z.le needed c f -> 1 <= max_model_len (vllm c) ->
  exists n, binary_search needed avail c = Ret n c /\
    (n = 0 \/ f n <= avail) /\ 0 <= n /\ n <= max_model_len (vllm c) /\
    forall m, n < m -> m <= max_model_len (vllm c) -> avail < f m.
Proof.
  intros [Hf Hmono] Hlen. set (R := max_model_len (vllm c)) in *.
  assert (Hfits : forall n k, fits_in needed avail n (set_max_model_len k c)
                              = Ret (f n <=? avail) (set_max_model_len n c)).
  { intros n k. unfold fits_in, bind, modify. rewrite set_max_model_len_twice. by rewrite Hf. }
  unfold binary_search, restoring. unfold bind at 1, get. fold R.
  assert (Hstart : fits_in needed avail 1 c = Ret (f 1 <=? avail) (set_max_model_len 1 c)).
  { rewrite <- (set_max_model_len_same c) at 1. apply Hfits. }
  unfold bind at 1. rewrite Hstart. destruct (f 1 <=? avail) eqn:H1.
  - destruct (search_largest (fits_in needed avail) (fun n => f n <=? avail) c R) with
      (fuel := Z.to_nat (R + 1)) (left := 1) (right := R) (result := 1) (k := 1)
      as (n & k' & Hrun & Hn & Hge & HnR & Hmax); try done; try lia.
    { intros a b Hab. specialize (Hmono a b Hab). lia. }
    exists n. cbv beta in *. rewrite Hrun. rewrite set_max_model_len_twice.
    change R with (max_model_len (vllm c)) at 1. rewrite set_max_model_len_same.
    split; [done|]. split; [right; lia|]. split; [lia|]. split; [done|].
    intros m Hm HmR. specialize (Hmax m Hm HmR). lia.
  - exists 0. simpl. unfold ret. rewrite set_max_model_len_twice.
    change R with (max_model_len (vllm c)) at 1. rewrite set_max_model_len_same.
    split; [done|]. split; [by left|]. split; [done|]. split; [lia|].
    intros m Hm HmR. specialize (Hmono 1 m). lia.
Qed.

(** C10. The length estimate is exact and has no side effect: for any groups whose
    specifications can be sized, the binary search returns the largest length up to
    [max_model_len] at which one request fits the given memory, 0 if none does, and
    restores [max_model_len]. *)
Theorem estimate_largest c gs available_memory
    (Hok : groups_sizeable (vllm c) gs) (Hlen : 1 <= max_model_len (vllm c)) :
  exists n, _estimate_max_model_len_from_groups gs available_memory c = Ret n c /\
    0 <= n /\ n <= max_model_len (vllm c) /\
    forall m, 1 <= m -> m <= max_model_len (vllm c) ->
      exists needed, _max_memory_usage_bytes_from_groups gs (set_max_model_len m c)
                       = Ret needed (set_max_model_len m c) /\
        (m <= n <-> needed <= available_memory).
Proof.
  destruct (measured_needed c gs Hok) as (f & Hf).
  destruct (binary_search_largest _ available_memory c f Hf Hlen) as (n & Hrun & Hn & H0 & HR & Hmax).
  destruct Hf as [Hf Hmono]. exists n. split; [done|]. split; [done|]. split; [done|].
  intros m Hm HmR. exists (f m). split; [apply Hf|]. split; intros Hle.
  - destruct Hn as [->|Hn]; [lia|]. specialize (Hmono m n Hle). lia.
  - destruct (decide (n < m)) as [Hlt|]; [|lia]. specialize (Hmax m Hlt HmR). lia.
Qed.

End memory.

(** ** Witness *)

#[local] Existing Instance demo_torch.

(** 24 blocks of memory for two tensors: of 2560 tokens 160 fit the three groups. *)
Definition demo_groups : list group :=
  [MkGroup ["full.0"; "full.1"] (One (demo_plan_full 16)) false;
   MkGroup ["window.0"; "window.2"] (One (demo_plan_window 16 32)) false;
   MkGroup ["window.1"] (One (demo_plan_window 16 32)) false]%string.

Lemma demo_sizeable s : s ∈ demo_plan_layers.*2 -> sizeable (vllm (demo_plan_config 2560 (-1) None)) s.
Proof.
  intros Hs. split.
  - revert s Hs. apply Forall_forall. repeat (constructor; [reflexivity|]). constructor.
  - exists 8192. revert s Hs. apply Forall_forall. repeat (constructor; [by split|]). constructor.
  - done.
Qed.

Lemma estimate_largest_witness :
  groups_sizeable (vllm (demo_plan_config 2560 (-1) None)) demo_groups /\
  exists n, _estimate_max_model_len_from_groups demo_groups 400000 (demo_plan_config 2560 (-1) None)
    = Ret n (demo_plan_config 2560 (-1) None) /\ 0 <= n.
Proof.
  assert (Hok : groups_sizeable (vllm (demo_plan_config 2560 (-1) None)) demo_groups).
  { split.
    - repeat (constructor; [apply demo_sizeable; set_solver|]). constructor.
    - intros _. exists 8192. split; [done|]. repeat (constructor; [done|]). constructor. }
  split; [exact Hok|].
  destruct (estimate_largest (demo_plan_config 2560 (-1) None) demo_groups 400000 Hok) as (n & Hn & H0 & _).
  - vm_compute. discriminate.
  - exists n. by split.
Defined.
