(* ===== verification/PlanSizes.v ===== *)
(** * Planning: block sizes and group sizes

    The sizes planning chooses: the block size of the scheduler and of block hashing,
    and the number of layer tuples per group that wastes least. *)

From S2P Require Import Prelude CacheSpec Planning PlanMemory.
From stdpp Require Import options.
Import Planning.

(** ** Greatest common divisor and least common multiple of a list *)

Lemma gcd_fold l x d : (d | foldl Z.gcd x l) <-> (d | x) /\ Forall (fun y => (d | y)) l.
Proof.
  revert x. induction l as [|y l IH]; intros x; simpl; [by split; [|intros []]|].
  rewrite IH, Forall_cons. split.
  - intros [Hd Hl]. split; [|split; [|done]]; etrans; eauto using Z.gcd_divide_l, Z.gcd_divide_r.
  - intros (Hx & Hy & Hl). split; [by apply Z.gcd_greatest|done].
Qed.

Lemma lcm_fold l x m : (foldl Z.lcm x l | m) <-> (x | m) /\ Forall (fun y => (y | m)) l.
Proof.
  revert x. induction l as [|y l IH]; intros x; simpl; [by split; [|intros []]|].
  rewrite IH, Forall_cons. split.
  - intros [Hd Hl]. split; [|split; [|done]].
    + eapply Z.divide_trans; [apply Z.divide_lcm_l|exact Hd].
    + eapply Z.divide_trans; [apply Z.divide_lcm_r|exact Hd].
  - intros (Hx & Hy & Hl). split; [by apply Z.lcm_least|done].
Qed.

Lemma py_lcm_spec l m : (py_lcm l | m) <-> Forall (fun b => (b | m)) l.
Proof. unfold py_lcm. rewrite lcm_fold. split; [by intros []|]. split; [apply Z.divide_1_l|done]. Qed.

Lemma py_gcd_spec l d : (d | py_gcd l) <-> Forall (fun b => (d | b)) l.
Proof. unfold py_gcd. rewrite gcd_fold. split; [by intros []|]. split; [apply Z.divide_0_r|done]. Qed.

Lemma lcm_fold_nonneg l x : 0 <= x -> 0 <= foldl Z.lcm x l.
Proof. revert x. induction l as [|y l IH]; intros x Hx; simpl; [done|]. apply IH, Z.lcm_nonneg. Qed.

Lemma py_lcm_positive l : Forall (fun b => 0 < b) l -> 0 < py_lcm l.
Proof.
  intros Hpos. pose proof (lcm_fold_nonneg l 1 ltac:(lia)) as Hn. fold (py_lcm l) in Hn.
  apply Z.le_neq. split; [done|]. intros E.
  assert (Hlcm : exists m, 0 < m /\ Forall (fun b => (b | m)) l).
  { clear -Hpos. induction Hpos as [|b l Hb _ (m & Hm & IH)]; [by exists 1|]. exists (b * m).
    split; [nia|]. constructor; [apply Z.divide_factor_l|]. eapply Forall_impl; [exact IH|].
    intros x Hx. by apply Z.divide_mul_r. }
  destruct Hlcm as (m & Hm & Hall). apply py_lcm_spec in Hall. rewrite <- E in Hall.
  apply Z.divide_0_l in Hall. lia.
Qed.

Lemma py_gcd_nonzero l : l <> [] -> Forall (fun b => 0 < b) l -> py_gcd l <> 0.
Proof.
  intros Hne Hpos E. pose proof (proj1 (py_gcd_spec l 0)) as Hall. rewrite E in Hall.
  specialize (Hall (Z.divide_refl 0)). destruct Hpos as [|b l Hb _]; [done|].
  apply Forall_cons in Hall as [Hall _]. apply Z.divide_0_l in Hall. lia.
Qed.

Lemma divides_lcm l h : l <> [] -> Forall (fun b => (h | b)) l -> (h | py_lcm l).
Proof.
  intros Hne Hh. pose proof (proj1 (py_lcm_spec l _) (Z.divide_refl _)) as Hall.
  destruct l as [|b l]; [done|]. apply Forall_cons in Hh as [Hb _]. apply Forall_cons in Hall as [Hall _].
  by etrans.
Qed.

Lemma indivisible_spec l h :
  h <> 0 -> existsb (fun bs => negb (bs mod h =? 0)) l = false <-> Forall (fun b => (h | b)) l.
Proof.
  intros Hh. induction l as [|b l IH]; simpl; [by split|]. rewrite Forall_cons, orb_false_iff, IH.
  rewrite negb_false_iff, Z.eqb_eq. by rewrite Z.mod_divide.
Qed.

(** ** Block sizes *)

Definition group_sizes (cfg : KVCacheConfig) : list Z := (fun g => block_size (kv_cache_spec g)) <$> kv_cache_groups cfg.


(** ** The number of layer tuples *)

Lemma py_range_snoc a b : a <= b -> py_range a (b + 1) = py_range a b ++ [b].
Proof.
  intros Hab. unfold py_range. replace (Z.to_nat (b + 1 - a)) with (S (Z.to_nat (b - a))) by lia.
  rewrite seq_S, fmap_app. simpl. do 2 f_equal. lia.
Qed.

Lemma py_max_elem values m : py_max values = inr m -> m ∈ values.
Proof.
  destruct values as [|x l]; simpl; intros Hm; simplify_eq. revert x.
  induction l as [|y l IH]; intros x; simpl; [left|]. specialize (IH (Z.max x y)).
  apply elem_of_cons in IH as [IH|IH]; [|by right; right]. rewrite IH.
  destruct (Z.max_spec x y) as [[_ ->]|[_ ->]]; [right; left|left].
Qed.

(** [best] is the best of the sizes up to [hi]. *)
Definition best_of (values : list Z) (lo hi : Z) (best : Z * option Z) : Prop :=
  best.2 = Some (padding values best.1) /\ lo <= best.1 /\ best.1 <= hi /\
  forall d, lo <= d -> d <= hi ->
    padding values best.1 < padding values d \/ (padding values best.1 = padding values d /\ d <= best.1).

Lemma better_best values lo hi best :
  lo <= hi -> best_of values lo hi best -> best_of values lo (hi + 1) (better values best (hi + 1)).
Proof.
  destruct best as [b p]. unfold best_of. simpl. intros Hle (-> & Hlo & Hhi & Hbest). unfold better.
  set (pb := padding values b) in *. set (ph := padding values (hi + 1)).
  destruct (Z.ltb_spec ph pb) as [Hlt|Hge]; simpl.
  - split; [done|]. split; [lia|]. split; [lia|]. intros d Hd Hdh.
    destruct (decide (d = hi + 1)) as [->|]; [right; lia|]. fold ph. destruct (Hbest d); lia.
  - destruct (Z.eqb_spec ph pb) as [E|Hne]; simpl.
    + destruct (Z.ltb_spec b (hi + 1)); [|lia]. simpl. split; [done|]. split; [lia|]. split; [lia|].
      intros d Hd Hdh. destruct (decide (d = hi + 1)) as [->|]; [right; lia|]. fold ph. destruct (Hbest d); lia.
    + fold pb. split; [done|]. split; [lia|]. split; [lia|]. intros d Hd Hdh.
      destruct (decide (d = hi + 1)) as [->|]; [left; fold ph; lia|]. apply Hbest; lia.
Qed.

Lemma better_all values lo n :
  best_of values lo (lo + Z.of_nat n)
    (foldl (better values) (lo, None) (py_range lo (lo + Z.of_nat n + 1))).
Proof.
  induction n as [|n IH].
  - rewrite py_range_cons, py_range_nil by lia. simpl. unfold best_of. simpl. split; [done|].
    split; [lia|]. split; [lia|]. intros d Hd Hdh. right. replace d with lo by lia. lia.
  - replace (lo + Z.of_nat (S n) + 1) with (lo + Z.of_nat n + 1 + 1) by lia.
    rewrite py_range_snoc by lia. rewrite foldl_app. simpl.
    replace (lo + Z.of_nat (S n)) with (lo + Z.of_nat n + 1) by lia. apply better_best; [lia|exact IH].
Qed.

(** The padding of one value: rounding it up to a multiple. *)
Lemma padding_spec values d :
  0 < d -> padding values d = sum_list ((fun x => cdiv x d * d - x) <$> values).
Proof.
  intros Hd. unfold padding. f_equal. apply list_fmap_ext. intros _ x _.
  pose proof (Z.div_mod x d ltac:(lia)) as Hdm. pose proof (Z.mod_pos_bound x d Hd) as Hb.
  rewrite cdiv_ceil by done. destruct (decide (x mod d = 0)) as [E|E].
  - rewrite E, Z.sub_0_r, Z_mod_same_full.
    replace (x + d - 1) with (d - 1 + (x / d) * d) by lia. rewrite Z.div_add by lia.
    rewrite Z.div_small by lia. lia.
  - rewrite Z.mod_small by lia.
    replace (x + d - 1) with (x mod d - 1 + (x / d + 1) * d) by lia. rewrite Z.div_add by lia.
    rewrite Z.div_small by lia. lia.
Qed.

(** C40. The brute-force search for the number of layer tuples returns a minimum: at
    least the given bound, which it returns when no value reaches it, and otherwise the
    number for which rounding all values up adds least, the larger one of equals.
    An empty list and values that are not positive are refused with [ValueError]. *)
Theorem approximate_gcd_best values lower_bound (Hlb : 1 <= lower_bound) :
  match _approximate_gcd values (Some lower_bound) with
  | inr d =>
      let cost e := sum_list ((fun x => cdiv x e * e - x) <$> values) in
      values <> [] /\ Forall (fun x => 0 < x) values /\ lower_bound <= d /\
      (Forall (fun x => x < lower_bound) values -> d = lower_bound) /\
      (d = lower_bound \/ exists x, x ∈ values /\ d <= x) /\
      forall e x, x ∈ values -> lower_bound <= e -> e <= x -> cost d < cost e \/ (cost d = cost e /\ e <= d)
  | inl e => e = ValueError /\ (values = [] \/ exists x, x ∈ values /\ x <= 0)
  end.
Proof.
  unfold _approximate_gcd. destruct (py_max values) as [e|m] eqn:Em.
  { destruct values; simpl in Em; simplify_eq. auto. }
  assert (Hne : values <> []) by (intros ->; done).
  pose proof (py_max_ge _ _ Em) as Hmax. pose proof (py_max_elem _ _ Em) as Hm.
  destruct (existsb _ values) eqn:Ex.
  { split; [done|]. right. apply existsb_exists in Ex as (x & Hx & Hx0). apply list_elem_of_In in Hx.
    exists x. split; [done|lia]. }
  assert (Hpos : Forall (fun x => 0 < x) values).
  { apply Forall_forall. intros x Hx. destruct (Z.leb_spec x 0) as [Hle|]; [|done].
    assert (Ht : existsb (fun x => x <=? 0) values = true); [|by rewrite Ht in Ex].
    apply existsb_exists. exists x. split; [by apply list_elem_of_In|lia]. }
  rewrite Forall_forall in Hmax. change (default 1 (Some lower_bound)) with lower_bound.
  rewrite (Z.max_r 1 lower_bound) by lia.
  destruct (Z.ltb_spec m lower_bound) as [Hlt|Hge].
  - do 2 (split; [done|]). split; [lia|]. split; [done|]. split; [by left|].
    intros e x Hx He Hex. specialize (Hmax x Hx). lia.
  - pose proof (better_all values lower_bound (Z.to_nat (m - lower_bound))) as Hbest.
    replace (lower_bound + Z.of_nat (Z.to_nat (m - lower_bound))) with m in Hbest by lia.
    destruct (foldl _ _ _) as [d p]. destruct Hbest as (_ & Hlo & Hhi & Hbest). cbn [fst] in *.
    split; [done|]. split; [done|]. split; [done|]. split.
    { intros Hall. rewrite Forall_forall in Hall. specialize (Hall m Hm). lia. }
    split; [right; by exists m|]. intros e x Hx He Hex. specialize (Hmax x Hx).
    rewrite <- !padding_spec by lia. apply Hbest; lia.
Qed.

(** ** Witnesses *)

Definition demo_sized_config : KVCacheConfig :=
  {| num_blocks := 8; kv_cache_tensors := [];
     kv_cache_groups := [{| layer_names := []; kv_cache_spec := demo_plan_full 16; is_eagle_group := false |};
                         {| layer_names := []; kv_cache_spec := demo_plan_window 24 48; is_eagle_group := false |}] |}.


Lemma approximate_gcd_best_witness :
  _approximate_gcd [11; 21; 20] (Some 11) = inr 11 /\ 11 <= 11.
Proof.
  split; [vm_compute; reflexivity|].
  pose proof (approximate_gcd_best [11; 21; 20] 11 ltac:(lia)) as Hb.
  change (_approximate_gcd [11; 21; 20] (Some 11)) with (@inr exn Z 11) in Hb. apply Hb.
Defined.

(** ** Where planning does not do what it means to *)

#[local] Existing Instance demo_torch.

Definition scaled_attn : AttentionSpec :=
  {| a_block_size := 16; num_kv_heads := 2; head_size := 64; dtype := "int8"; kv_quant_mode := INT8_PER_TOKEN_HEAD;
     a_page_size_padded := None |}.
Definition plain_attn : AttentionSpec := demo_plan_attn 16.
Definition plain_fields : FullFields := default_full_fields plain_attn None None.

(** Without the hybrid manager a sliding-window layer becomes a full-attention layer that
    has lost its quantisation mode: its pages have no room for the scales any more. *)
Theorem unified_window_loses_scales :
  exists full window window' : KVCacheSpec,
    unify_hybrid_kv_cache_specs [("full.0", full); ("window.0", window)]%string tt
      = Ret [("full.0", full); ("window.0", window')]%string tt /\
    page_size_bytes window = inr 4352 /\ page_size_bytes window' = inr 4096.
Proof.
  exists (FullAttentionSpec scaled_attn plain_fields), (SlidingWindowSpec scaled_attn 32 64).
  eexists. repeat split; vm_compute; reflexivity.
Qed.

(** A layer with TurboQuant slots passes for one with plain pages when a plain layer comes
    first: the layers count as uniform and the group gets the plain layer's page size. *)
Theorem merged_slots_forgotten :
  exists plain turbo : KVCacheSpec,
    page_size_bytes plain = inr 8192 /\ page_size_bytes turbo = inr 2176 /\
    is_kv_cache_spec_uniform [("boundary", plain); ("middle", turbo)]%string tt = Ret true tt /\
    get_kv_cache_groups [("boundary", plain); ("middle", turbo)]%string (demo_plan_config 64 64 None)
      = Ret [MkGroup ["boundary"; "middle"]%string (One plain) false] (demo_plan_config 64 64 None).
Proof.
  exists (FullAttentionSpec plain_attn plain_fields), (TQFullAttentionSpec plain_attn plain_fields 68).
  repeat split; vm_compute; reflexivity.
Qed.
