(* ===== verification/PlanGroups.v ===== *)
(** * Planning: groups partition the layers

    What the planner makes of the layers, whatever their types: every layer ends in
    exactly one group.  Planning reads the configuration and changes it only when it
    fits [max_model_len]; [reads] is the judgement for the parts that only read. *)

From S2P Require Import Prelude CacheSpec Planning PlanMemory.
From stdpp Require Import options.
Import Planning.

(** ** Methods that only read *)

Definition reads {S A} (m : M S A) (s : S) (Q : A -> Prop) : Prop :=
  returns m s (fun a s' => s' = s /\ Q a).

Section reads.
Context {S : Type}.
Implicit Types s : S.

Lemma reads_ret {A} (a : A) s (Q : A -> Prop) : Q a -> reads (ret a) s Q.
Proof. by split. Qed.

Lemma reads_raise {A} e s (Q : A -> Prop) : reads (raise e) s Q.
Proof. done. Qed.

Lemma reads_bind {A B} (m : M S A) (k : A -> M S B) s (P : A -> Prop) (Q : B -> Prop) :
  reads m s P -> (forall a, P a -> reads (k a) s Q) -> reads (bind m k) s Q.
Proof.
  unfold reads, returns, bind. destruct (m s) as [a s'|]; [|done]. intros [-> Ha] Hk. by apply Hk.
Qed.

Lemma reads_mono {A} (m : M S A) s (P Q : A -> Prop) :
  reads m s P -> (forall a, P a -> Q a) -> reads m s Q.
Proof. unfold reads, returns. destruct (m s); naive_solver. Qed.

Lemma reads_get s (Q : S -> Prop) : Q s -> reads get s Q.
Proof. by split. Qed.

Lemma reads_result {A} (r : exn + A) s : reads (of_result r) s (fun a => r = inr a).
Proof. by destruct r. Qed.

Lemma reads_option {A} e (o : option A) s : reads (of_option e o) s (fun a => o = Some a).
Proof. by destruct o. Qed.

Lemma reads_assert b s : reads (assert b) s (fun _ => b = true).
Proof. by destruct b. Qed.

Lemma reads_div a b s : reads (py_div a b) s (fun q => b <> 0 /\ q = a / b).
Proof. unfold py_div. destruct (Z.eqb_spec b 0); [done|]. by apply reads_ret. Qed.

Lemma reads_mod a b s : reads (py_mod a b) s (fun q => b <> 0 /\ q = a mod b).
Proof. unfold py_mod. destruct (Z.eqb_spec b 0); [done|]. by apply reads_ret. Qed.

Lemma reads_mmapM {A B} (f : A -> M S B) (R : A -> B -> Prop) l s :
  (forall x, x ∈ l -> reads (f x) s (R x)) -> reads (mmapM f l) s (fun ys => Forall2 R l ys).
Proof.
  induction l as [|x l IH]; intros Hf; [by apply reads_ret|]. simpl.
  eapply reads_bind; [apply Hf; left|]. intros y Hy.
  eapply reads_bind; [apply IH; intros z Hz; apply Hf; by right|]. intros ys Hys.
  apply reads_ret. by constructor.
Qed.

Lemma reads_mfor {A} (f : A -> M S unit) (P : A -> Prop) l s :
  (forall x, x ∈ l -> reads (f x) s (fun _ => P x)) -> reads (mfor l f) s (fun _ => Forall P l).
Proof.
  induction l as [|x l IH]; intros Hf; [by apply reads_ret|]. simpl.
  eapply reads_bind; [apply Hf; left|]. intros y Hy.
  eapply reads_mono; [apply IH; intros z Hz; apply Hf; by right|]. intros ? Hl. by constructor.
Qed.

Lemma reads_mfold {A B} (f : B -> A -> M S B) (I : list A -> B -> Prop) l b s :
  I [] b ->
  (forall pre x post b, l = pre ++ x :: post -> I pre b -> reads (f b x) s (I (pre ++ [x]))) ->
  reads (mfold f l b) s (I l).
Proof.
  intros HI Hf. cut (forall post pre b, l = pre ++ post -> I pre b -> reads (mfold f post b) s (I l)).
  { intros H. by apply (H l []). }
  clear b HI. induction post as [|x post IH]; intros pre b Hl Hb; simpl.
  { rewrite app_nil_r in Hl. subst. by apply reads_ret. }
  eapply reads_bind; [by eapply Hf|]. intros b' Hb'. apply (IH (pre ++ [x])); [|done].
  by rewrite <- app_assoc.
Qed.

Lemma reads_run {A} (m : M S A) s (Q : A -> Prop) a s' : reads m s Q -> m s = Ret a s' -> s' = s /\ Q a.
Proof. unfold reads, returns. intros H E. by rewrite E in H. Qed.

(** A method that only reads, with nothing said about its value. *)
Lemma reads_any {A} (m : M S A) s (Q : A -> Prop) : reads m s Q -> reads m s (fun _ => True).
Proof. intros H. by eapply reads_mono. Qed.
End reads.

Create HintDb reads.
#[export] Hint Resolve reads_ret reads_raise reads_get reads_result reads_option reads_assert
  reads_div reads_mod : reads.

(** [read as a Ha]: the next method returns [a] and only reads. *)
Ltac read_bind := eapply reads_bind; [solve [eauto with reads]|].

(** ** Dealing a list out *)

Section deal.
Context {A : Type} (k : A -> Z).

Lemma deal_skip x l ks :
  (k x ∉ ks) ->
  concat ((fun i => filter (fun y => k y = i) (x :: l)) <$> ks)
  = concat ((fun i => filter (fun y => k y = i) l) <$> ks).
Proof.
  intros Hx. f_equal. apply list_fmap_ext. intros j i Hi.
  apply filter_cons_False. intros E. apply Hx. rewrite E. by eapply list_elem_of_lookup_2.
Qed.

Lemma deal_cons x l ks :
  NoDup ks -> k x ∈ ks ->
  concat ((fun i => filter (fun y => k y = i) (x :: l)) <$> ks)
  ≡ₚ x :: concat ((fun i => filter (fun y => k y = i) l) <$> ks).
Proof.
  induction 1 as [|i ks Hi Hnd IH]; intros Hx; [by apply not_elem_of_nil in Hx|].
  csimpl. destruct (decide (k x = i)) as [E|Hne].
  - rewrite filter_cons_True by done. simpl. subst i. by rewrite (deal_skip x l ks).
  - rewrite filter_cons_False by done. apply elem_of_cons in Hx as [Hx|Hx]; [done|].
    rewrite (IH Hx). by rewrite Permutation_middle.
Qed.

Lemma deal_perm l ks :
  NoDup ks -> (forall x, x ∈ l -> k x ∈ ks) ->
  concat ((fun i => filter (fun y => k y = i) l) <$> ks) ≡ₚ l.
Proof.
  intros Hnd. induction l as [|x l IH]; intros Hl.
  - clear Hl Hnd. induction ks; [done|]. csimpl. done.
  - rewrite deal_cons; [|done|apply Hl; left]. f_equiv. apply IH. intros y Hy. apply Hl. by right.
Qed.
End deal.

Lemma zip_range_snd {A} (l : list A) : (zip (py_range 0 (len l)) l).*2 = l.
Proof.
  apply snd_zip. unfold py_range, len. rewrite length_fmap, length_seq. lia.
Qed.

Lemma zip_range_fst {A} (l : list A) p : p ∈ zip (py_range 0 (len l)) l -> 0 <= p.1.
Proof.
  destruct p as [i x]. intros Hp. apply elem_of_zip_l in Hp. simpl. apply elem_of_py_range in Hp. lia.
Qed.

Lemma stride_index n i j : 0 < n -> 0 <= i -> 0 <= j -> j < n ->
  (j <= i /\ (i - j) mod n = 0 <-> i mod n = j).
Proof.
  intros Hn Hi Hj Hjn. split.
  - intros [Hji Hmod]. apply Z.mod_divide in Hmod as [q Hq]; [|lia].
    replace i with (j + q * n) by lia. rewrite Z_mod_plus_full. apply Z.mod_small. lia.
  - intros E. pose proof (Z.div_mod i n). pose proof (Z.div_pos i n Hi Hn).
    split; [nia|]. replace (i - j) with (i / n * n) by lia. apply Z_mod_mult.
Qed.

Lemma filter_iff_elem {A} (P Q : A -> Prop) `{!forall x, Decision (P x)} `{!forall x, Decision (Q x)} (l : list A) :
  (forall x, x ∈ l -> (P x <-> Q x)) -> filter P l = filter Q l.
Proof.
  induction l as [|x l IH]; intros Hl; [done|].
  assert (Hx : P x <-> Q x) by (apply Hl; left).
  assert (IH' : filter P l = filter Q l) by (apply IH; intros y Hy; apply Hl; by right).
  destruct (decide (P x)) as [HP|HP].
  - rewrite !filter_cons_True by naive_solver. by rewrite IH'.
  - rewrite !filter_cons_False by naive_solver. done.
Qed.

Lemma concat_fmap_snd {A B} (ls : list (list (A * B))) : (concat ls).*2 = concat ((fun l => l.*2) <$> ls).
Proof. induction ls as [|l ls IH]; [done|]. csimpl. by rewrite fmap_app, IH. Qed.

(** The strides of a list are a partition of it. *)
Lemma stride_partition {A} n (l : list A) :
  0 < n -> concat ((fun i => stride i n l) <$> py_range 0 n) ≡ₚ l.
Proof.
  intros Hn. set (z := zip (py_range 0 (len l)) l).
  transitivity (concat ((fun i => filter (fun p => p.1 mod n = i) z) <$> py_range 0 n)).*2.
  2:{ rewrite (deal_perm (fun p => p.1 mod n) z); [by unfold z; rewrite zip_range_snd|apply NoDup_py_range|].
      intros p Hp. apply elem_of_py_range. apply Z.mod_pos_bound. done. }
  rewrite concat_fmap_snd, <- list_fmap_compose. match goal with |- ?a ≡ₚ ?b => replace a with b; [done|] end. f_equal.
  apply list_fmap_ext. intros j i Hi. apply list_elem_of_lookup_2, elem_of_py_range in Hi.
  unfold stride, compose. f_equal. apply filter_iff_elem. intros p Hp.
  symmetry. apply stride_index; try lia. by apply zip_range_fst in Hp.
Qed.

(** ** Layers of one type *)

Lemma dict_append_concat {K V} `{EqDecision K} (k : K) (v : V) d :
  concat (dict_append k v d).*2 ≡ₚ v :: concat d.*2.
Proof.
  unfold dict_append. induction d as [|[k' l] d IH]; [done|]. simpl.
  destruct (decide (k = k')) as [->|Hne]; simpl.
  - rewrite <- app_assoc. simpl. by rewrite Permutation_middle.
  - rewrite IH. by rewrite Permutation_middle.
Qed.

Lemma dict_append_Forall {K V} `{EqDecision K} (P : K -> V -> Prop) k v d :
  P k v -> Forall (fun e => e.2 <> [] /\ Forall (P e.1) e.2) d ->
  Forall (fun e => e.2 <> [] /\ Forall (P e.1) e.2) (dict_append k v d).
Proof.
  intros Hv. unfold dict_append. induction 1 as [|[k' l] d [Hne Hl] Hd IH]; simpl.
  { constructor; [|constructor]. split; [done|by constructor]. }
  destruct (decide (k = k')) as [->|]; simpl; constructor; try done.
  simpl. split; [by destruct l|]. apply Forall_app. split; [done|by constructor].
Qed.

Lemma same_type_partition d :
  concat (same_type_layers d).*2 ≡ₚ d.*1 /\
  Forall (fun e => e.2 <> [] /\ Forall (fun n => (n, e.1) ∈ d) e.2) (same_type_layers d).
Proof.
  unfold same_type_layers.
  cut (forall post pre acc, d = pre ++ post -> concat acc.*2 ≡ₚ pre.*1 ->
         Forall (fun e => e.2 <> [] /\ Forall (fun n => (n, e.1) ∈ d) e.2) acc ->
         concat (foldl (fun d l => dict_append l.2 l.1 d) acc post).*2 ≡ₚ d.*1 /\
         Forall (fun e => e.2 <> [] /\ Forall (fun n => (n, e.1) ∈ d) e.2)
           (foldl (fun d l => dict_append l.2 l.1 d) acc post)).
  { intros Hcut. apply (Hcut d [] []); [done|done|constructor]. }
  induction post as [|[n s] post IH]; intros pre acc Hd Hperm Hacc; simpl.
  { rewrite app_nil_r in Hd. by subst pre. }
  apply (IH (pre ++ [(n, s)])).
  - by rewrite <- app_assoc.
  - rewrite dict_append_concat, Hperm, fmap_app. simpl. by rewrite Permutation_app_comm.
  - apply (dict_append_Forall (fun s n => (n, s) ∈ d)); [|done]. rewrite Hd.
    apply elem_of_app. right. left.
Qed.

Lemma split_partition {A} group_size (layers : list A) :
  0 < group_size -> concat (split_layers group_size layers) ≡ₚ layers.
Proof.
  intros Hg. unfold split_layers. destruct layers as [|x l]; [done|].
  apply stride_partition. pose proof (cdiv_bounds (len (x :: l)) group_size Hg).
  pose proof (len_nonneg l). rewrite len_cons in *. nia.
Qed.

Lemma concat_bind_perm {A} (f : list A -> list (list A)) ls :
  (forall l, l ∈ ls -> concat (f l) ≡ₚ l) -> concat (ls ≫= f) ≡ₚ concat ls.
Proof.
  induction ls as [|l ls IH]; intros Hf; [done|]. csimpl. rewrite concat_app.
  rewrite (Hf l) by left. rewrite IH; [done|]. intros l' Hl'. apply Hf. by right.
Qed.

(** ** Merged and converted specifications *)

Section groups.
Context `{Torch}.

(** Specifications with positive dimensions and page size, none of them DeepSeek-V4's
    sliding windows. *)
Record well_sized (s : KVCacheSpec) : Prop := {
  ws_page : forall p, page_size_bytes s = inr p -> 0 < p;
  ws_dims : forall a, attention_of s = Some a ->
              0 < a_block_size a /\ 0 < num_kv_heads a /\ 0 < head_size a /\ 0 < element_size (dtype a);
  ws_plain : is_swa_mla s = false;
}.

(** What planning and managing a group of layers depends on. *)
Definition same_cost (s s' : KVCacheSpec) : Prop :=
  page_size_bytes s = page_size_bytes s' /\ forall v, pages s v = pages s' v.

Lemma merge_full_head s0 a0 f0 specs a f :
  attention_of s0 = Some a0 -> full_fields s0 = Some f0 ->
  merge_full_fields (s0 :: specs) = inr (a, f) -> a = a0 /\ f_head_size_v f = f_head_size_v f0.
Proof.
  intros Ha Hf. unfold merge_full_fields. case_match; [done|]. case_match; [done|].
  csimpl. rewrite Ha, Hf. simpl. intros Hm. repeat case_match; by simplify_eq.
Qed.

Lemma full_page_size a f f' :
  f_head_size_v f = f_head_size_v f' -> full_real_page_size_bytes a f = full_real_page_size_bytes a f'.
Proof. unfold full_real_page_size_bytes. by intros ->. Qed.

Lemma merge_mla_head a0 f0 m0 specs s :
  merge_mla (MLAAttentionSpec a0 f0 m0 :: specs) = inr s -> same_cost s (MLAAttentionSpec a0 f0 m0).
Proof.
  unfold merge_mla. case_match; [done|]. intros Hm.
  destruct (py_set (cache_dtype_str <$> _)) as [|d [|]] eqn:Ed; try done.
  destruct (py_set (compress_ratio <$> _)) as [|r [|]] eqn:Er; try done.
  destruct (py_set (model_version <$> _)) as [|mv [|]] eqn:Emv; try done.
  simpl in Hm. simplify_eq.
  assert (cache_dtype_str m0 = d) as <- by (apply (py_set_single _ _ _ Ed); simpl; left).
  assert (compress_ratio m0 = r) as <- by (apply (py_set_single _ _ _ Er); simpl; left).
  assert (model_version m0 = mv) as <- by (apply (py_set_single _ _ _ Emv); simpl; left).
  split; [|done]. unfold page_size_bytes. simpl. by unfold mla_real_page_size_bytes.
Qed.

Lemma merge_head s0 specs s :
  is_swa_mla s0 = false -> merge (s0 :: specs) = inr s -> same_cost s s0.
Proof.
  assert (Heq : forall s0, merge_equal (s0 :: specs) = inr s -> same_cost s s0).
  { intros s1 Hm. apply merge_equal_head in Hm. simpl in Hm. by simplify_eq. }
  destruct s0 as [a0 f0|a0 f0 slot|a0 f0 m0|a0 f0 sink|a0 ch|a0 w hv|a0 w m0|m0|a0|a0];
    intros Hswa Hm; try done; cbn [merge] in Hm; try (by apply Heq); try (by apply merge_mla_head in Hm).
  - destruct (merge_full_fields _) as [|[a f]] eqn:E; simplify_eq.
    apply (merge_full_head _ a0 f0) in E as [-> Hhv]; [|done|done]. split; [|done].
    unfold page_size_bytes. simpl. by rewrite (full_page_size a0 f f0 Hhv).
  - unfold merge_tq in Hm. destruct (merge_full_fields _) as [|[a f]] eqn:E; simplify_eq.
    apply (merge_full_head _ a0 f0) in E as [-> Hhv]; [|done|done].
    csimpl in Hm. destruct (mapM tq_slot_size_of specs) as [slots|] eqn:Es; simpl in Hm; [|done].
    case_match; simplify_eq. split; [|done].
    unfold page_size_bytes. simpl. by rewrite (full_page_size a0 f f0 Hhv).
  - destruct (merge_full_fields _) as [|[a f]] eqn:E; simplify_eq.
    apply (merge_full_head _ a0 f0) in E as [-> Hhv]; [|done|done]. split; [|done].
    unfold page_size_bytes. simpl. by rewrite (full_page_size a0 f f0 Hhv).
Qed.

Lemma py_set_small {A} `{EqDecision A} (l : list A) x y :
  (1 <? len (py_set l)) = false -> x ∈ l -> y ∈ l -> x = y.
Proof.
  intros Hlen Hx Hy. destruct (py_set l) as [|a [|b r]] eqn:E.
  - apply (elem_of_remove_dups l x) in Hx. unfold py_set in E. rewrite E in Hx.
    by apply not_elem_of_nil in Hx.
  - by rewrite (py_set_single l a x E Hx), (py_set_single l a y E Hy).
  - rewrite !len_cons in Hlen. pose proof (len_nonneg r). lia.
Qed.

(** All layers of a uniform type need the same number of blocks. *)
Lemma uniform_type_pages l v s s' :
  is_uniform_type l = inr true -> s ∈ l -> s' ∈ l -> pages s v = pages s' v.
Proof.
  unfold is_uniform_type. destruct (1 <? _) eqn:Hbs; [done|].
  assert (Hblock : forall x y, x ∈ l -> y ∈ l -> block_size x = block_size y).
  { intros x y Hx Hy. apply (py_set_small (block_size <$> l)); [done|by apply list_elem_of_fmap_2..]. }
  destruct l as [|one l]; [done|]. intros Hu.
  cut (forall x, x ∈ one :: l -> pages x v = pages one v).
  { intros Hc Hs Hs'. by rewrite (Hc s Hs), (Hc s' Hs'). }
  intros x Hx. assert (Hone : one ∈ one :: l) by left. specialize (Hblock x one Hx Hone).
  destruct one; simplify_eq; match goal with Hf : forallb _ _ = true |- _ =>
    rewrite forallb_elem in Hf; specialize (Hf x Hx) end;
    destruct x; simpl in *; try done; rewrite ?bool_decide_eq_true, ?Z.eqb_eq in *; simplify_eq;
    try done; rewrite ?Hblock; try done.
  match goal with Hs : num_speculative_blocks _ = _ |- _ => by rewrite Hs end.
Qed.

(** What grouping keeps of [well_sized]. *)
Definition priced (s : KVCacheSpec) : Prop :=
  (forall p, page_size_bytes s = inr p -> 0 < p) /\ is_swa_mla s = false.

Lemma well_sized_priced s : well_sized s -> priced s.
Proof. by intros [? _ ?]. Qed.

Lemma pad_page_positive padded real p : 0 < real -> pad_page padded real = inr p -> 0 < p.
Proof. unfold pad_page. intros Hr Hp. repeat case_match; simplify_eq; lia. Qed.

Lemma converted_well_sized a f window chunk :
  (0 < a_block_size a /\ 0 < num_kv_heads a /\ 0 < head_size a /\ 0 < element_size (dtype a)) ->
  f = default_full_fields a window chunk -> kv_quant_mode a = NONE ->
  well_sized (FullAttentionSpec a f).
Proof.
  intros (Hb & Hh & Hs & He) -> Hq. split; [|by intros ? [= <-]|done].
  intros p. unfold page_size_bytes. simpl. rewrite Hq. simpl. apply pad_page_positive.
  unfold full_real_page_size_bytes. rewrite Hq. simpl. repeat apply Z.mul_pos_pos; lia.
Qed.

Lemma convert_well_sized {S} b s (st : S) : well_sized s -> reads (convert_spec b s) st well_sized.
Proof.
  intros Hs. destruct s; simpl; try (by apply reads_ret).
  - apply reads_ret. eapply converted_well_sized; [apply (ws_dims _ Hs _ eq_refl)|done|done].
  - apply reads_ret. eapply converted_well_sized; [apply (ws_dims _ Hs _ eq_refl)|done|done].
  - pose proof (ws_plain _ Hs) as E. simpl in E. discriminate E.
Qed.

Lemma uniform_or_reads {S} d (st : S) : reads (uniform_or_uniform_type d) st (fun _ => True).
Proof.
  unfold uniform_or_uniform_type, is_kv_cache_spec_uniform.
  eapply (reads_bind _ _ _ (fun _ => True)); [by repeat case_match|].
  intros [] _; [by apply reads_ret|]. by destruct (is_uniform_type _).
Qed.

Lemma mmapM_layers {S} (f : string * KVCacheSpec -> M S (string * KVCacheSpec))
    (P : KVCacheSpec -> Prop) d (st : S) :
  (forall l, l ∈ d -> reads (f l) st (fun l' => l'.1 = l.1 /\ P l'.2)) ->
  reads (mmapM f d) st (fun d' => d'.*1 = d.*1 /\ Forall P d'.*2).
Proof.
  intros Hf. eapply reads_mono.
  { apply (reads_mmapM f (fun l l' => l'.1 = l.1 /\ P l'.2)). exact Hf. }
  intros d' Hd. clear Hf.
  induction Hd as [|l l' d d' [Hn HP] _ [IH1 IH2]]; [by split|]. csimpl. rewrite Hn, IH1.
  split; [done|by constructor].
Qed.

Lemma unify_hybrid_reads {S} d (st : S) :
  Forall well_sized d.*2 ->
  reads (unify_hybrid_kv_cache_specs d) st (fun d' => d'.*1 = d.*1 /\ Forall well_sized d'.*2).
Proof.
  intros Hd. unfold unify_hybrid_kv_cache_specs.
  eapply reads_bind; [apply uniform_or_reads|]. intros [] _; [by apply reads_ret|].
  eapply (reads_bind _ _ _ (fun _ => True)).
  { case_match; [|by apply reads_ret]. eapply reads_bind; [apply reads_assert|]. by intros. }
  intros b _. eapply (reads_bind _ _ _ (fun d' => d'.*1 = d.*1 /\ Forall well_sized d'.*2)).
  { case_match; [|by apply reads_ret]. apply mmapM_layers. intros [n s] Hl.
    eapply reads_bind; [apply convert_well_sized|].
    { rewrite Forall_forall in Hd. apply Hd. apply list_elem_of_fmap. by exists (n, s). }
    intros s' Hs'. by apply reads_ret. }
  intros d' Hd'. eapply reads_bind; [apply uniform_or_reads|]. intros [] _; [by apply reads_ret|done].
Qed.

(** The shape of what [get_kv_cache_groups] returns for the layers [names]. *)
Definition plain_group (g : group) : Prop :=
  g_is_eagle_group g = false /\
  exists s, g_spec g = One s /\ forall p, page_size_bytes s = inr p -> 0 < p.

Inductive shape (names : list string) : list group -> Prop :=
  | shape_free : names = [] -> shape names []
  | shape_type u :
      (u_kv_cache_specs u).*1 = names -> names <> [] -> Forall priced (u_kv_cache_specs u).*2 ->
      is_uniform_type (u_kv_cache_specs u).*2 = inr true ->
      shape names [MkGroup names (Uniform u) false]
  | shape_plain gs :
      gs <> [] -> Forall plain_group gs -> concat (g_layer_names <$> gs) ≡ₚ names -> shape names gs.

Lemma create_reads {S} d names (st : S) :
  Forall priced d.*2 ->
  reads (create_kv_cache_group_specs d names) st
    (fun gs => g_layer_names <$> gs = names /\ Forall plain_group gs).
Proof.
  intros Hd. unfold create_kv_cache_group_specs.
  eapply reads_mono.
  { apply (reads_mmapM _ (fun ns g => g_layer_names g = ns /\ plain_group g)). intros ns _.
    eapply reads_bind.
    { apply (reads_mmapM _ (fun n s => dict_get n d = Some s)). intros n _. apply reads_option. }
    intros specs Hspecs. eapply reads_bind; [apply reads_result|]. intros s Hs. apply reads_ret.
    split; [done|]. split; [done|]. exists s. split; [done|]. destruct specs as [|s0 specs]; [done|].
    apply Forall2_cons_inv_r in Hspecs as (n & ns' & Hn & _ & _).
    apply dict_get_Some in Hn. rewrite Forall_forall in Hd.
    destruct (Hd s0) as [Hpos Hswa]; [apply list_elem_of_fmap; by exists (n, s0)|].
    destruct (merge_head _ _ _ Hswa Hs) as [Hpage _]. by rewrite Hpage. }
  intros gs Hgs. clear Hd. induction Hgs as [|ns g names gs [Hn Hg] _ [IH1 IH2]]; [by split|].
  csimpl. rewrite Hn, IH1. split; [done|by constructor].
Qed.

Lemma py_max_positive l m : Forall (Z.lt 0) l -> py_max l = inr m -> 0 < m.
Proof.
  destruct l as [|x l]; simpl; intros Hl Hm; simplify_eq. apply Forall_cons in Hl as [Hx Hl].
  revert x Hx. induction Hl; simpl; intros; [done|]. apply IHHl. lia.
Qed.

Lemma py_min_positive l m : Forall (Z.lt 0) l -> py_min l = inr m -> 0 < m.
Proof.
  destruct l as [|x l]; simpl; intros Hl Hm; simplify_eq. apply Forall_cons in Hl as [Hx Hl].
  revert x Hx. induction Hl; simpl; intros; [done|]. apply IHHl. lia.
Qed.

Lemma unify_page_size_reads {S} d (st : S) :
  Forall priced d.*2 ->
  reads (unify_kv_cache_spec_page_size d) st (fun d' => d'.*1 = d.*1 /\ Forall priced d'.*2).
Proof.
  intros Hd. unfold unify_kv_cache_spec_page_size.
  eapply reads_bind.
  { apply (reads_mmapM _ (fun s p => page_size_bytes s = inr p)). intros s _. apply reads_result. }
  intros sizes Hsizes. destruct (_ <=? 1); [by apply reads_ret|].
  eapply reads_bind; [apply reads_result|]. intros m Hm.
  assert (Hpos : 0 < m).
  { apply (py_max_positive sizes); [|done]. clear Hm. induction Hsizes as [|s p l sizes Hp _ IH]; [done|].
    apply Forall_cons in Hd as [[Hs _] Hl]. constructor; [by apply Hs|by apply IH]. }
  apply mmapM_layers. intros [n s] Hl. unfold unify_layer.
  assert (Hs : priced s).
  { rewrite Forall_forall in Hd. apply Hd. apply list_elem_of_fmap. by exists (n, s). }
  eapply reads_bind; [apply reads_result|]. intros p Hp. destruct (p =? m); [by apply reads_ret|].
  eapply reads_bind; [apply reads_mod|]. intros r _. destruct (negb (r =? 0)); [done|].
  eapply reads_bind; [apply reads_result|]. intros s' Hs'.
  eapply reads_bind; [apply reads_result|]. intros p' Hp'.
  eapply reads_bind; [apply reads_assert|]. intros ? Heq. apply reads_ret. split; [done|].
  apply Z.eqb_eq in Heq. subst p'. change (priced s'). split; [intros q Hq; rewrite Hp' in Hq; by simplify_eq|].
  destruct Hs as [_ Hswa]. destruct s; simpl in Hs'; try (by destruct Hswa); try (by simplify_eq);
    try done. repeat case_match; by simplify_eq.
Qed.

Lemma uniform_page_groups_reads {S} d (st : S) :
  d.*1 <> [] -> Forall priced d.*2 ->
  reads (_get_kv_cache_groups_uniform_page_size d) st (shape d.*1).
Proof.
  intros Hne Hd. unfold _get_kv_cache_groups_uniform_page_size.
  destruct (same_type_partition d) as [Hperm Hall]. set (layers := (same_type_layers d).*2) in *.
  assert (Hlayers : forall l, l ∈ layers -> l <> []).
  { intros l Hl. apply list_elem_of_fmap in Hl as (e & -> & He). rewrite Forall_forall in Hall.
    by apply Hall. }
  eapply reads_bind; [apply reads_result|]. intros lo Hlo.
  eapply reads_bind; [apply reads_result|]. intros hi Hhi.
  assert (Hsize : 0 < lo /\ 0 < hi).
  { assert (Hpos : Forall (Z.lt 0) (len <$> layers)).
    { apply Forall_fmap, Forall_forall. intros l Hl. specialize (Hlayers l Hl).
      destruct l; [done|]. simpl. rewrite len_cons. pose proof (len_nonneg l). lia. }
    by split; [apply (py_min_positive _ _ Hpos)|apply (py_max_positive _ _ Hpos)]. }
  set (group_size := if 2 * hi <? 3 * lo then hi else lo).
  assert (Hg : 0 < group_size) by (unfold group_size; case_match; lia).
  eapply reads_mono; [by apply create_reads|]. intros gs [Hnames Hplain].
  assert (Hp : concat (g_layer_names <$> gs) ≡ₚ d.*1).
  { rewrite Hnames, (concat_bind_perm (split_layers group_size) layers); [done|].
    intros l _. by apply split_partition. }
  apply shape_plain; [|done|done]. intros ->. simpl in Hp. by apply Permutation_nil_l in Hp.
Qed.

(** For layers of any types (DeepSeek-V4's sliding windows apart) grouping only reads
    the configuration, and every layer is in exactly one group. *)
Lemma groups_shape c d (Hd : Forall well_sized d.*2) :
  reads (get_kv_cache_groups d) c (shape d.*1).
Proof.
  unfold get_kv_cache_groups. eapply reads_bind; [by apply (reads_get c (fun c' => c' = c))|]. intros ? ->.
  eapply (reads_bind _ _ _ (fun d' => d'.*1 = d.*1 /\ Forall well_sized d'.*2)).
  { destruct (disable_hybrid_kv_cache_manager c); [by apply unify_hybrid_reads|by apply reads_ret]. }
  intros d' [<- Hd']. assert (Hp : Forall priced d'.*2).
  { eapply Forall_impl; [exact Hd'|]. apply well_sized_priced. }
  destruct (decide (d' = [])) as [->|Hne]; [apply reads_ret; by constructor|].
  replace (is_kv_cache_type_attention_free d') with false by (by destruct d').
  eapply (reads_bind _ _ _ (fun _ => True)).
  { unfold is_kv_cache_spec_uniform. by repeat case_match. }
  intros [] _.
  { eapply reads_mono; [by apply create_reads|]. intros gs [Hnames Hplain]. apply shape_plain; [|done|].
    - by intros ->.
    - rewrite Hnames. simpl. by rewrite app_nil_r. }
  eapply reads_bind; [apply reads_result|]. intros [u|] Hu.
  { apply reads_ret. unfold from_specs in Hu. repeat case_match; simplify_eq.
    by apply (shape_type (_ :: _).*1 {| u_block_size := _; u_kv_cache_specs := _ :: _ |}). }
  unfold group_and_unify_kv_cache_specs.
  replace (existsb is_swa_mla d'.*2) with false.
  2:{ clear - Hp. symmetry. induction Hp as [|s l [_ Hs] _ IH]; [done|]. simpl. by rewrite Hs. }
  eapply reads_bind; [by apply (reads_ret None _ (fun o => o = None))|]. intros o ->.
  eapply reads_bind; [by apply unify_page_size_reads|]. intros d'' [Hn Hp''].
  rewrite <- Hn. apply uniform_page_groups_reads; [|done]. rewrite Hn. by destruct d'.
Qed.
End groups.
