(* ===== verification/PlanFits.v ===== *)
(** * Planning: what is planned fits

    From the groups to the tensors of all workers: the layers of a worker have their
    tensors, the tensors fit the worker's memory, all workers have the same number of
    blocks, and it is enough for a request of [max_model_len] tokens. *)

From S2P Require Import Prelude CacheSpec Planning PlanMemory PlanGroups.
From stdpp Require Import options.
Import Planning.

Section fits.
Context `{Torch}.

(** The blocks a request of [max_model_len] tokens may need of a group: the scheduler
    uses the first specification of a uniform group. *)
Definition demand (v : VllmConfig) (g : group) : Z :=
  match g_spec g with
  | One s => pages s v
  | Uniform u => match (u_kv_cache_specs u).*2 with s :: _ => pages s v | [] => 0 end
  end.

(** ** Plain groups *)

Definition plain_page (page : Z) (g : group) : Prop :=
  exists s, g_spec g = One s /\ page_size_bytes s = inr page /\ 0 < page.

Lemma plain_not_uniform gs : gs <> [] -> Forall plain_group gs -> forallb is_uniform_group gs = false.
Proof.
  intros Hne Hgs. destruct Hgs as [|g gs (_ & s & Hs & _) _]; [done|]. simpl.
  unfold is_uniform_group, uniform_of. by rewrite Hs.
Qed.

Lemma plain_page_reads {S} gs (st : S) :
  gs <> [] -> Forall plain_group gs ->
  reads (get_uniform_page_size (g_spec <$> gs)) st (fun page => Forall (plain_page page) gs).
Proof.
  intros Hne Hgs. unfold get_uniform_page_size.
  eapply reads_bind.
  { apply (reads_mmapM page_size (fun sp p => match sp with One s => page_size_bytes s = inr p
                                              | Uniform _ => True end)).
    intros [s|u] _; [apply reads_result|]. eapply reads_mono; [apply reads_result|done]. }
  intros sizes Hsizes. destruct (py_set sizes) as [|page [|]] eqn:Epage; try done.
  apply reads_ret. clear Hne. assert (Hall : forall x, x ∈ sizes -> x = page).
  { intros x. by apply py_set_single. }
  clear Epage. revert sizes Hsizes Hall.
  induction Hgs as [|g gs (_ & s & Hs & Hpos) _ IH]; intros sizes Hsizes Hall; [constructor|].
  csimpl in Hsizes. rewrite Hs in Hsizes. apply Forall2_cons_inv_l in Hsizes as (p & sizes' & Hp & Hrest & ->).
  assert (p = page) as -> by (apply Hall; left). constructor; [exists s; auto|].
  apply (IH sizes'); [done|]. intros x Hx. apply Hall. by right.
Qed.

Lemma group_size_reads {S} gs (st : S) :
  reads (group_size_of gs) st (fun k => py_max ((fun g => len (g_layer_names g)) <$> gs) = inr k).
Proof. apply reads_result. Qed.

Lemma plain_blocks_reads gs page c :
  Forall (plain_page page) gs ->
  reads (mmapM (fun g => m <- spec_max_memory_usage_bytes (g_spec g) ;;
                         if page =? 0 then raise ZeroDivisionError else ret (cdiv m page)) gs) c
    (fun blocks => blocks = demand (vllm c) <$> gs).
Proof.
  intros Hgs. eapply reads_mono.
  { apply (reads_mmapM _ (fun g b => b = demand (vllm c) g)). intros g Hg.
    rewrite Forall_forall in Hgs. destruct (Hgs g Hg) as (s & Hs & Hp & Hpos).
    unfold spec_max_memory_usage_bytes, demand. rewrite Hs.
    eapply reads_bind.
    { eapply reads_bind; [by apply (reads_get c (fun c' => c' = c))|]. intros ? ->. apply reads_result. }
    intros m Hm. cbv beta in Hm. pose proof (max_memory_pages s (vllm c) m page Hm Hp) as ->.
    rewrite (proj2 (Z.eqb_neq page 0)) by lia. apply reads_ret. apply cdiv_mul. done. }
  intros bs Hbs. clear Hgs. induction Hbs as [|g b gs bs -> _ IH]; [done|]. csimpl. by rewrite IH.
Qed.

(** The branch of several tensors shared by one layer of each group. *)
Definition config_general (kv_cache_groups : list group) (available_memory : Z) : M Config plan :=
  group_size <- group_size_of kv_cache_groups ;;
  page_size <- get_uniform_page_size (g_spec <$> kv_cache_groups) ;;
  assert (0 <? group_size) ;;;
  num_blocks <- get_num_blocks group_size available_memory page_size ;;
  ret (MkPlan num_blocks
         ((fun i => {| size := page_size * num_blocks; shared_by := shared_layers kv_cache_groups i |})
            <$> py_range 0 group_size) kv_cache_groups).

Lemma plain_config gs avail :
  gs <> [] -> Forall plain_group gs -> get_kv_cache_config_from_groups gs avail = config_general gs avail.
Proof.
  intros Hne Hgs. pose proof (plain_not_uniform gs Hne Hgs) as Hforall.
  destruct gs as [|[names [s|u] e] [|g gs]]; try done; unfold get_kv_cache_config_from_groups;
    rewrite Hforall; done.
Qed.

Lemma plain_needed gs :
  gs <> [] -> Forall plain_group gs ->
  _max_memory_usage_bytes_from_groups gs =
    (group_size <- group_size_of gs ;;
     page_size <- get_uniform_page_size (g_spec <$> gs) ;;
     blocks <- mmapM (fun g => m <- spec_max_memory_usage_bytes (g_spec g) ;;
                               if page_size =? 0 then raise ZeroDivisionError
                               else ret (cdiv m page_size)) gs ;;
     ret (group_size * page_size * sum_list blocks)).
Proof.
  intros Hne Hgs. pose proof (plain_not_uniform gs Hne Hgs) as Hforall.
  destruct gs as [|[names [s|u] e] [|g gs]]; try done; unfold _max_memory_usage_bytes_from_groups;
    rewrite Hforall; done.
Qed.

Lemma plain_pool {S} gs (st : S) :
  gs <> [] -> Forall plain_group gs ->
  _pool_bytes_per_block gs st =
    (group_size <- group_size_of gs ;;
     page_size <- get_uniform_page_size (g_spec <$> gs) ;;
     ret (page_size * group_size)) st.
Proof.
  intros Hne Hgs. pose proof (plain_not_uniform gs Hne Hgs) as Hforall.
  destruct gs as [|[names [s|u] e] [|g gs]]; try done; unfold _pool_bytes_per_block;
    rewrite Hforall; done.
Qed.

(** ** Sharing out the layers *)

Lemma concat_app_perm {A B} (f g : A -> list B) l :
  concat ((fun i => f i ++ g i) <$> l) ≡ₚ concat (f <$> l) ++ concat (g <$> l).
Proof.
  induction l as [|x l IH]; [done|]. csimpl. rewrite IH, <- !app_assoc. apply Permutation_app_head.
  rewrite !app_assoc. apply Permutation_app_tail, Permutation_app_comm.
Qed.

Lemma concat_lookup {A} (l : list A) n :
  concat ((fun i => option_list (l !! i)) <$> seq 0 n) = take n l.
Proof.
  induction n as [|n IH]; [done|]. rewrite seq_S, fmap_app, concat_app, IH. simpl. rewrite app_nil_r.
  destruct (l !! n) as [x|] eqn:E; simpl.
  - by rewrite (take_S_r l n x E).
  - apply lookup_ge_None in E. by rewrite app_nil_r, !take_ge by lia.
Qed.

Lemma shared_partition gs k :
  Forall (fun g => len (g_layer_names g) <= k) gs ->
  concat ((fun i => shared_layers gs i) <$> py_range 0 k) ≡ₚ concat (g_layer_names <$> gs).
Proof.
  induction 1 as [|g gs Hg _ IH].
  - unfold shared_layers. simpl. induction (py_range 0 k); [done|]. by csimpl.
  - unfold shared_layers in *. csimpl.
    rewrite (concat_app_perm (fun i => option_list (g_layer_names g !! Z.to_nat i))
               (fun i => gs ≫= (fun g => option_list (g_layer_names g !! Z.to_nat i)))), IH.
    f_equiv. unfold py_range. rewrite <- list_fmap_compose.
    transitivity (concat ((fun i => option_list (g_layer_names g !! i)) <$> seq 0 (Z.to_nat (k - 0)))).
    { match goal with |- ?a ≡ₚ ?b => replace a with b; [done|] end. f_equal. apply list_fmap_ext. intros _ i _. simpl.
      by rewrite Z.add_0_l, Nat2Z.id. }
    rewrite concat_lookup, take_ge; [done|]. unfold len in Hg. lia.
Qed.

(** ** The bytes of one block *)

(** What the groups of a worker look like. *)
Inductive worker_shape (gs : list group) : Prop :=
  | worker_plain : gs <> [] -> Forall plain_group gs -> worker_shape gs
  | worker_uniform names u e :
      gs = [MkGroup names (Uniform u) e] -> u_kv_cache_specs u <> [] ->
      Forall priced (u_kv_cache_specs u).*2 ->
      (forall v s s', s ∈ (u_kv_cache_specs u).*2 -> s' ∈ (u_kv_cache_specs u).*2 ->
         pages s v = pages s' v) ->
      names = [] \/ ((u_kv_cache_specs u).*1 = names /\ NoDup names) -> worker_shape gs.

Inductive unit_of (gs : list group) : Z -> Prop :=
  | unit_plain page k :
      gs <> [] -> Forall (plain_page page) gs ->
      py_max ((fun g => len (g_layer_names g)) <$> gs) = inr k -> unit_of gs (page * k)
  | unit_uniform names u e U :
      gs = [MkGroup names (Uniform u) e] -> u_page_size_bytes u = inr U -> unit_of gs U.

Lemma unit_of_unique gs U U' : unit_of gs U -> unit_of gs U' -> U = U'.
Proof.
  destruct 1 as [page k Hne Hp Hk|names u e U Hgs HU]; destruct 1 as [page' k' _ Hp' Hk'|names' u' e' U' Hgs' HU'].
  - destruct gs as [|g gs]; [done|]. apply Forall_cons in Hp as [(s & Hs & Hps & _) _].
    apply Forall_cons in Hp' as [(s' & Hs' & Hps' & _) _].
    assert (s = s') as <- by congruence. assert (page = page') as <- by congruence.
    assert (k = k') as <- by congruence. done.
  - subst gs. apply Forall_singleton in Hp as (s & Hs & _). done.
  - subst gs. apply Forall_singleton in Hp' as (s & Hs & _). done.
  - rewrite Hgs in Hgs'. injection Hgs' as _ <- _. congruence.
Qed.

Lemma pool_reads {S} gs (st : S) : worker_shape gs -> reads (_pool_bytes_per_block gs) st (unit_of gs).
Proof.
  intros [Hne Hgs|names u e -> _ _ _ _].
  - unfold reads, returns. rewrite (plain_pool gs st Hne Hgs).
    eapply reads_bind; [apply group_size_reads|]. intros k Hk.
    eapply reads_bind; [by apply plain_page_reads|]. intros page Hpage.
    apply reads_ret. by constructor.
  - simpl. eapply reads_mono; [apply reads_result|]. intros U HU. by eapply unit_uniform.
Qed.

Lemma sum_list_scale k l : sum_list ((fun x => k * x) <$> l) = k * sum_list l.
Proof. unfold sum_list. induction l as [|x l IH]; [simpl; lia|]. csimpl. lia. Qed.

Lemma all_results_Forall2 {A B} (f : A -> exn + B) l ys :
  all_results (f <$> l) = inr ys -> Forall2 (fun x y => f x = inr y) l ys.
Proof.
  revert ys. induction l as [|x l IH]; intros ys; csimpl; [intros ?; by simplify_eq|].
  destruct (f x) as [|y] eqn:E; [done|]. destruct (all_results (f <$> l)) as [|r]; [done|].
  intros ?. simplify_eq. constructor; [done|by apply IH].
Qed.

Lemma demand_single v names u e s :
  s ∈ (u_kv_cache_specs u).*2 ->
  (forall v s s', s ∈ (u_kv_cache_specs u).*2 -> s' ∈ (u_kv_cache_specs u).*2 -> pages s v = pages s' v) ->
  pages s v = demand v (MkGroup names (Uniform u) e).
Proof.
  unfold demand. simpl. intros Hs Hpages. destruct (u_kv_cache_specs u).*2 as [|s0 l].
  { by apply not_elem_of_nil in Hs. }
  apply Hpages; [done|left].
Qed.

Lemma uniform_needed c names u e :
  (forall v s s', s ∈ (u_kv_cache_specs u).*2 -> s' ∈ (u_kv_cache_specs u).*2 -> pages s v = pages s' v) ->
  reads (max_memory_usage_bytes (One <$> (u_kv_cache_specs u).*2)) c
    (fun m => forall U, u_page_size_bytes u = inr U -> m = U * demand (vllm c) (MkGroup names (Uniform u) e)).
Proof.
  intros Hpages. set (d := demand (vllm c) (MkGroup names (Uniform u) e)).
  assert (Hd : Forall (fun s => pages s (vllm c) = d) (u_kv_cache_specs u).*2).
  { apply Forall_forall. intros s Hs. by apply demand_single. }
  eapply reads_bind.
  { apply (reads_mmapM _ (fun g m => match g with One s => CacheSpec.max_memory_usage_bytes s (vllm c) = inr m
                                     | Uniform _ => True end)).
    intros [s|] _; [|eapply reads_bind; [by apply (reads_get c (fun c' => c' = c))|];
                     intros ? ->; eapply reads_mono; [apply reads_result|done]].
    eapply reads_bind; [by apply (reads_get c (fun c' => c' = c))|]. intros ? ->. apply reads_result. }
  intros ms Hms. apply reads_ret. intros U HU. unfold u_page_size_bytes in HU.
  destruct (all_results _) as [|ps] eqn:Eps; simplify_eq. apply all_results_Forall2 in Eps.
  fold (sum_list ps). revert ps Eps ms Hms Hd. generalize (u_kv_cache_specs u).*2 as l. clear.
  intros l ps Hps. induction Hps as [|s p l ps Hp _ IH]; intros ms Hms Hd.
  { apply Forall2_nil_inv_l in Hms as ->. done. }
  apply Forall2_cons_inv_l in Hms as (m & ms' & Hm & Hms & ->). apply Forall_cons in Hd as [Hs Hd].
  pose proof (max_memory_pages s (vllm c) m p Hm Hp) as Hmp. rewrite Hs in Hmp.
  specialize (IH ms' Hms Hd). unfold sum_list in *. simpl. lia.
Qed.

Lemma needed_reads gs c :
  worker_shape gs ->
  reads (_max_memory_usage_bytes_from_groups gs) c
    (fun m => forall U, unit_of gs U -> m = U * sum_list (demand (vllm c) <$> gs)).
Proof.
  intros [Hne Hgs|names u e -> _ _ Hpages _].
  - rewrite (plain_needed gs Hne Hgs).
    eapply reads_bind; [apply group_size_reads|]. intros k Hk.
    eapply reads_bind; [by apply plain_page_reads|]. intros page Hpage.
    eapply reads_bind; [by apply plain_blocks_reads|]. intros bs ->.
    apply reads_ret. intros U HU. rewrite (unit_of_unique gs U (page * k) HU); [lia|by constructor].
  - eapply reads_mono; [by apply (uniform_needed c names u e)|]. intros m Hm U HU. csimpl.
    unfold sum_list. simpl. rewrite Z.add_0_r. apply Hm. destruct HU as [page k _ Hp _|]; [|by simplify_eq].
    apply Forall_singleton in Hp as (s & Hs & _). done.
Qed.

(** ** The plan of one worker *)

(** Before the numbers of blocks are made equal. *)
Record laid_out (c : Config) (gs : list group) (avail : Z) (p : plan) (U : Z) : Prop := {
  lo_groups : p_groups p = gs;
  lo_unit : unit_of gs U;
  lo_positive : 0 < U;
  lo_blocks : p_num_blocks p = default (avail / U) (num_gpu_blocks_override c);
  lo_names : concat (shared_by <$> p_tensors p) ≡ₚ concat (g_layer_names <$> gs);
  lo_sizes : exists pgs, Forall (Z.lt 0) pgs /\ sum_list pgs <= U /\
    size <$> p_tensors p = (fun pg => pg * p_num_blocks p) <$> pgs;
}.

Lemma sum_list_replicate n (x : Z) : sum_list (replicate n x) = Z.of_nat n * x.
Proof. unfold sum_list. induction n as [|n IH]; simpl; lia. Qed.

Lemma fmap_const_replicate {A B} (l : list A) (y : B) : (fun _ => y) <$> l = replicate (length l) y.
Proof. induction l as [|x l IH]; [done|]. csimpl. by rewrite IH. Qed.

Lemma concat_singletons {A} (l : list A) : concat ((fun x => [x]) <$> l) = l.
Proof. induction l as [|x l IH]; [done|]. csimpl. by rewrite IH. Qed.

Lemma override_reads n c :
  reads (may_override_num_blocks n) c (fun b => b = default n (num_gpu_blocks_override c)).
Proof.
  unfold may_override_num_blocks. eapply reads_bind; [by apply (reads_get c (fun c' => c' = c))|].
  intros ? ->. by apply reads_ret.
Qed.

Lemma plain_config_reads gs avail c :
  gs <> [] -> Forall plain_group gs -> 0 < avail ->
  reads (get_kv_cache_config_from_groups gs avail) c (fun p => exists U, laid_out c gs avail p U).
Proof.
  intros Hne Hgs Havail. rewrite (plain_config gs avail Hne Hgs). unfold config_general.
  eapply reads_bind; [apply group_size_reads|]. intros k Hk. cbv beta in Hk.
  eapply reads_bind; [by apply plain_page_reads|]. intros page Hpage. cbv beta in Hpage.
  eapply reads_bind; [apply reads_assert|]. intros ? Hk0%Z.ltb_lt.
  assert (Hpage0 : 0 < page).
  { destruct gs as [|g gs]; [done|]. by apply Forall_cons in Hpage as [(? & _ & _ & ?) _]. }
  eapply (reads_bind _ _ _ (fun n => n = default (avail / (page * k)) (num_gpu_blocks_override c))).
  { unfold get_num_blocks. eapply reads_bind; [apply reads_div|]. intros ? [_ ->].
    eapply reads_bind; [apply reads_div|]. intros ? [_ ->].
    rewrite Z.div_div by lia. rewrite Z.max_l by (apply Z.div_pos; nia). apply override_reads. }
  intros n Hn. apply reads_ret. exists (page * k). split; simpl; try done.
  - by constructor.
  - nia.
  - rewrite <- list_fmap_compose.
    rewrite <- (shared_partition gs k); [done|]. apply py_max_ge in Hk.
    rewrite Forall_fmap in Hk. exact Hk.
  - exists (replicate (Z.to_nat k) page). split; [by apply Forall_replicate|].
    rewrite sum_list_replicate. split; [nia|]. rewrite <- list_fmap_compose, fmap_replicate.
    unfold compose. simpl. rewrite fmap_const_replicate. f_equal. unfold py_range.
    rewrite length_fmap, length_seq. lia.
Qed.

Lemma u_page_positive u U :
  u_kv_cache_specs u <> [] -> Forall priced (u_kv_cache_specs u).*2 -> u_page_size_bytes u = inr U ->
  exists ps, U = sum_list ps /\ Forall (Z.lt 0) ps /\ 0 < U /\
    Forall2 (fun s p => page_size_bytes s = inr p) (u_kv_cache_specs u).*2 ps.
Proof.
  unfold u_page_size_bytes. intros Hne Hpr HU. destruct (all_results _) as [|ps] eqn:Eps; [done|].
  apply all_results_Forall2 in Eps. injection HU as <-. fold (sum_list ps). exists ps.
  assert (Hpos : Forall (Z.lt 0) ps).
  { clear Hne. induction Eps as [|s p l ps Hp _ IH]; [done|]. apply Forall_cons in Hpr as [[Hs _] Hl].
    constructor; [by apply Hs|by apply IH]. }
  split; [done|]. split; [done|]. split; [|done].
  destruct Hpos as [|p ps Hp Hps].
  { apply Forall2_nil_inv_r in Eps. by destruct (u_kv_cache_specs u). }
  unfold sum_list. simpl. pose proof (sum_list_nonneg ps) as Hn. unfold sum_list in Hn.
  assert (0 <= foldr Z.add 0 ps); [|lia]. apply Hn. eapply Forall_impl; [exact Hps|]. intros; simpl; lia.
Qed.

Lemma layer_tensors (G : string -> option KVCacheSpec) d ps ts n :
  Forall (fun l => G l.1 = Some l.2) d ->
  Forall2 (fun s p => page_size_bytes s = inr p) d.*2 ps ->
  Forall2 (fun x t => shared_by t = [x] /\ exists s p,
             G x = Some s /\ page_size_bytes s = inr p /\ size t = p * n) d.*1 ts ->
  shared_by <$> ts = (fun x => [x]) <$> d.*1 /\ size <$> ts = (fun pg => pg * n) <$> ps.
Proof.
  revert ps ts. induction d as [|[x s] d IH]; intros ps ts Hget Hps Hts.
  { apply Forall2_nil_inv_l in Hts as ->. apply Forall2_nil_inv_l in Hps as ->. done. }
  apply Forall2_cons_inv_l in Hts as (t & ts' & (Ht & s' & p' & Hs' & Hp' & Hsz) & Hts & ->).
  apply Forall2_cons_inv_l in Hps as (p & ps' & Hp & Hps & ->). apply Forall_cons in Hget as [Hx Hget].
  simpl in Hx, Hp, Ht, Hs'. rewrite Hx in Hs'. injection Hs' as <-. rewrite Hp in Hp'. injection Hp' as <-.
  destruct (IH ps' ts' Hget Hps Hts) as [IH1 IH2]. csimpl. rewrite Ht, Hsz, IH1, IH2. done.
Qed.

Lemma uniform_config_reads names u e avail c :
  u_kv_cache_specs u <> [] -> Forall priced (u_kv_cache_specs u).*2 ->
  names = [] \/ ((u_kv_cache_specs u).*1 = names /\ NoDup names) ->
  reads (get_kv_cache_config_from_groups [MkGroup names (Uniform u) e] avail) c
    (fun p => exists U, laid_out c [MkGroup names (Uniform u) e] avail p U).
Proof.
  intros Hne Hpr Hnames. simpl. eapply reads_bind; [apply reads_result|]. intros U HU. cbv beta in HU.
  destruct (u_page_positive u U Hne Hpr HU) as (ps & HUps & Hpos & HU0 & Hps).
  eapply reads_bind; [apply reads_div|]. intros ? [_ ->].
  eapply reads_bind; [apply override_reads|]. intros n Hn. cbv beta in Hn.
  eapply (reads_bind _ _ _ (fun ts => shared_by <$> ts = (fun n => [n]) <$> names /\
            exists pgs, Forall (Z.lt 0) pgs /\ sum_list pgs <= U /\ size <$> ts = (fun pg => pg * n) <$> pgs)).
  2:{ intros ts [Hshared Hsizes]. apply reads_ret. exists U. split; simpl; try done.
      - by eapply unit_uniform.
      - by rewrite Hshared, app_nil_r, concat_singletons. }
  eapply reads_mono.
  { apply (reads_mmapM _ (fun x t => shared_by t = [x] /\ exists s p,
             dict_get x (u_kv_cache_specs u) = Some s /\ page_size_bytes s = inr p /\ size t = p * n)).
    intros x _. eapply reads_bind; [apply reads_option|]. intros s Hs.
    eapply reads_bind; [apply reads_result|]. intros p Hp. apply reads_ret. split; [done|].
    by exists s, p. }
  intros ts Hts. destruct Hnames as [->|[Hnames Hnd]].
  { apply Forall2_nil_inv_l in Hts as ->. split; [done|]. exists []. split; [done|]. simpl. split; [|done].
    unfold sum_list. simpl. lia. }
  cut (shared_by <$> ts = (fun x => [x]) <$> names /\ size <$> ts = (fun pg => pg * n) <$> ps).
  { intros [H1 H2]. split; [done|]. exists ps. split; [done|]. split; [lia|done]. }
  subst names. apply (layer_tensors (fun x => dict_get x (u_kv_cache_specs u)) (u_kv_cache_specs u)); try done.
  apply Forall_forall. intros [x s] Hl. by apply dict_get_NoDup.
Qed.
End fits.
