(* ===== verification/PlanWorkers.v ===== *)
(** * Planning: all workers

    [get_kv_cache_configs]: the layers of all workers are grouped together, the groups
    projected to each worker, checked against its memory and laid out, and the numbers
    of blocks made equal. *)

From S2P Require Import Prelude CacheSpec Planning PlanMemory PlanGroups PlanFits.
From stdpp Require Import options.
Import Planning.

Abbreviation layers := (list (string * KVCacheSpec)).

Section workers.
Context `{Torch}.

(** ** Merging the layers of all workers *)

Lemma merge_workers_reads {S} (ws : list layers) (st : S) :
  reads (merge_workers ws) st (fun d =>
    NoDup d.*1 /\ (forall x, x ∈ d.*1 <-> x ∈ (concat ws).*1) /\ (forall l, l ∈ d -> l ∈ concat ws)).
Proof.
  unfold merge_workers. set (ls := concat ws).
  apply (reads_mfold merge_layer (fun pre d =>
           NoDup d.*1 /\ (forall x, x ∈ d.*1 <-> x ∈ pre.*1) /\ (forall l, l ∈ d -> l ∈ pre))).
  { split; [constructor|]. split; [done|]. intros l Hl. by apply not_elem_of_nil in Hl. }
  intros pre [n s] post d _ (Hnd & Hkeys & Hin). unfold merge_layer. simpl.
  destruct (dict_get n d) as [s'|] eqn:Eget.
  - eapply reads_bind; [apply reads_assert|]. intros _ _. apply reads_ret. split; [done|].
    split; [|intros l Hl; apply elem_of_app; left; by apply Hin].
    intros x. rewrite Hkeys, fmap_app, elem_of_app. simpl. split; [by left|].
    intros [Hx|Hx%list_elem_of_singleton]; [done|]. subst x. apply Hkeys, dict_get_elem. by rewrite Eget.
  - apply reads_ret. assert (Hn : n ∉ d.*1).
    { rewrite dict_get_elem, Eget. by intros []. }
    rewrite dict_set_new by done. rewrite fmap_app. simpl. split; [|split].
    + apply NoDup_app. split; [done|]. split; [|apply NoDup_singleton].
      intros x Hx Hx'%list_elem_of_singleton. by subst x.
    + intros x. rewrite fmap_app, !elem_of_app, Hkeys. done.
    + intros l Hl. apply elem_of_app in Hl as [Hl|Hl]; apply elem_of_app; [left; by apply Hin|by right].
Qed.

(** ** Projecting the groups *)

Definition here (w : layers) (names : list string) : list string := filter (fun n => n ∈ w.*1) names.

Lemma filter_concat (w : layers) ls : concat (here w <$> ls) = here w (concat ls).
Proof. unfold here. induction ls as [|l ls IH]; [done|]. csimpl. by rewrite filter_app, IH. Qed.

Lemma project_plain {S} w gs (st : S) :
  Forall plain_group gs ->
  reads (_project_kv_cache_groups_to_worker gs w) st (fun gs' =>
    Forall plain_group gs' /\ length gs' = length gs /\
    g_layer_names <$> gs' = here w <$> (g_layer_names <$> gs) /\
    forall v, demand v <$> gs' = demand v <$> gs).
Proof.
  intros Hgs. unfold _project_kv_cache_groups_to_worker. eapply reads_mono.
  { apply (reads_mmapM _ (fun g g' => plain_group g' /\ g_layer_names g' = here w (g_layer_names g) /\
             g_spec g' = g_spec g)).
    intros g Hg. rewrite Forall_forall in Hgs. destruct (Hgs g Hg) as (He & s & Hs & Hpos).
    unfold project_group. rewrite Hs, He. apply reads_ret. split; [|done]. split; [done|]. by exists s. }
  intros gs' Hgs'. clear Hgs. induction Hgs' as [|g g' gs gs' (Hp & Hn & Hsp) _ (IH1 & IH2 & IH3 & IH4)].
  { done. }
  split; [by constructor|]. csimpl. rewrite Hn, IH3, IH2. split; [done|]. split; [done|].
  intros v. unfold demand at 1 3. by rewrite Hsp, IH4.
Qed.

Lemma project_uniform {S} w u (st : S) :
  u_kv_cache_specs u <> [] -> NoDup (u_kv_cache_specs u).*1 -> Forall priced (u_kv_cache_specs u).*2 ->
  is_uniform_type (u_kv_cache_specs u).*2 = inr true ->
  let g := MkGroup (u_kv_cache_specs u).*1 (Uniform u) false in
  reads (_project_kv_cache_groups_to_worker [g] w) st (fun gs' =>
    worker_shape gs' /\ length gs' = 1%nat /\
    g_layer_names <$> gs' = [here w (u_kv_cache_specs u).*1] /\
    forall v, demand v <$> gs' = demand v <$> [g]).
Proof.
  intros Hne Hnd Hpr Hu g. unfold _project_kv_cache_groups_to_worker.
  assert (Hpages : forall v s s', s ∈ (u_kv_cache_specs u).*2 -> s' ∈ (u_kv_cache_specs u).*2 ->
                     pages s v = pages s' v).
  { intros v s s'. by apply uniform_type_pages. }
  cut (reads (project_group w g) st (fun g' => worker_shape [g'] /\
         g_layer_names g' = here w (u_kv_cache_specs u).*1 /\ forall v, demand v g' = demand v g)).
  { intros Hg. unfold mmapM. eapply reads_bind; [exact Hg|]. intros g' (H1 & H2 & H3).
    apply reads_ret. split; [done|]. csimpl. rewrite H2. split; [done|]. split; [done|].
    intros v. by rewrite H3. }
  unfold project_group, g. cbn [g_spec g_layer_names g_is_eagle_group]. fold (here w (u_kv_cache_specs u).*1).
  destruct (here w (u_kv_cache_specs u).*1) as [|n names] eqn:Ehere.
  { apply reads_ret. split; [|done]. eapply worker_uniform; [done|done|done|done|by left]. }
  rewrite <- Ehere. set (names' := here w (u_kv_cache_specs u).*1) in *. cbn [negb is_empty].
  replace (is_empty names') with false by (by rewrite Ehere). simpl.
  eapply (reads_bind _ _ _ (fun sp => exists d, sp = Uniform {| u_block_size := u_block_size u; u_kv_cache_specs := d |} /\
            d.*1 = names' /\ forall l, l ∈ d -> l ∈ u_kv_cache_specs u)).
  { eapply reads_bind.
    { apply (reads_mmapM _ (fun n l => l.1 = n /\ l ∈ u_kv_cache_specs u)). intros x _.
      eapply reads_bind; [apply reads_option|]. intros s Hs. apply reads_ret. split; [done|].
      by apply dict_get_Some. }
    intros d Hd. apply reads_ret. exists d. split; [done|]. clear Ehere. revert Hd. generalize names'.
    intros l. induction 1 as [|x y l d [Hx Hin] _ [IH1 IH2]]; [split; [done|set_solver]|].
    csimpl. rewrite Hx, IH1. split; [done|]. intros z [->|Hz]%elem_of_cons; [done|by apply IH2]. }
  intros sp (d & -> & Hd & Hin). apply reads_ret.
  assert (Hin2 : forall s, s ∈ d.*2 -> s ∈ (u_kv_cache_specs u).*2).
  { intros s (l & -> & Hl)%list_elem_of_fmap. apply list_elem_of_fmap. eauto. }
  assert (Hdne : d <> []) by (intros ->; by rewrite Ehere in Hd).
  split; [|split; [done|]].
  - eapply worker_uniform; [done|done| | |].
    + simpl. apply Forall_forall. intros s Hs. rewrite Forall_forall in Hpr. by apply Hpr, Hin2.
    + intros v s s' Hs Hs'. apply Hpages; by apply Hin2.
    + right. split; [done|]. unfold names', here. by apply NoDup_filter.
  - intros v. unfold demand. simpl. destruct d as [|[x s] d]; [done|]. simpl.
    change (match (u_kv_cache_specs u).*2 with s0 :: _ => pages s0 v | [] => 0 end)
      with (demand v (MkGroup (u_kv_cache_specs u).*1 (Uniform u) false)).
    apply demand_single; [|done]. apply Hin2. left.
Qed.

(** What the planner knows of a worker's groups. *)
Lemma project_reads {S} names gs (w : layers) (st : S) :
  shape names gs -> NoDup names ->
  reads (_project_kv_cache_groups_to_worker gs w) st (fun gs' =>
    (gs = [] -> gs' = []) /\ (gs <> [] -> gs' <> [] /\ worker_shape gs') /\
    concat (g_layer_names <$> gs') ≡ₚ here w names /\
    forall v, demand v <$> gs' = demand v <$> gs).
Proof.
  intros Hs Hnd. destruct Hs as [->|u Hn Hne Hpr Hu|gs Hne Hgs Hperm].
  - apply reads_ret. done.
  - subst names. eapply reads_mono; [apply project_uniform; try done|].
    + intros E. by rewrite E in Hne.
    + intros gs' (H1 & H2 & H3 & H4). split; [done|]. split; [intros _; split; [by intros ->|done]|].
      rewrite H3. simpl. by rewrite app_nil_r.
  - eapply reads_mono; [by apply project_plain|]. intros gs' (H1 & H2 & H3 & H4).
    split; [done|]. split; [|split; [|done]].
    + intros _. assert (gs' <> []) by (intros ->; by destruct gs). split; [done|by apply worker_plain].
    + rewrite H3, filter_concat. unfold here. by rewrite Hperm.
Qed.

(** ** Checking the memory *)

(** Only [max_model_len] changes. *)
Definition refits {A} (m : M Config A) (c : Config) : Prop :=
  returns m c (fun _ c' => exists n, c' = set_max_model_len n c).

Lemma check_enough_reads needed estimate avail c (P : Z -> Prop) :
  reads needed c P ->
  reads (_check_enough_kv_cache_memory avail needed estimate) c
    (fun _ => 0 < avail /\ exists m, P m /\ m <= avail).
Proof.
  intros Hn. unfold _check_enough_kv_cache_memory. destruct (Z.leb_spec avail 0) as [|Havail]; [done|].
  eapply reads_bind; [exact Hn|]. intros m Hm. destruct (Z.ltb_spec avail m) as [|Hle].
  - unfold reads, returns, bind. by destruct (estimate avail c).
  - apply reads_ret. split; [done|]. by exists m.
Qed.

Lemma search_refits (needed : M Config Z) avail c :
  (forall k, reads needed (set_max_model_len k c) (fun _ => True)) ->
  forall fuel left right result k,
  returns (search fuel (fits_in needed avail) left right result) (set_max_model_len k c)
    (fun _ c' => exists n, c' = set_max_model_len n c).
Proof.
  intros Hn. induction fuel as [|fuel IH]; intros left right result k; simpl.
  { case_match; [done|]. by exists k. }
  case_match; [|by exists k]. unfold fits_in at 1, modify. apply returns_bind. unfold returns at 1, bind at 1.
  rewrite set_max_model_len_twice. pose proof (Hn ((left + right) / 2)) as Hrun.
  unfold reads, returns in Hrun. unfold bind at 1.
  destruct (needed (set_max_model_len ((left + right) / 2) c)) as [m c'|]; [|done].
  destruct Hrun as [-> _]. simpl. case_match; apply IH.
Qed.

Lemma binary_search_reads (needed : M Config Z) avail c :
  (forall k, reads needed (set_max_model_len k c) (fun _ => True)) ->
  reads (binary_search needed avail) c (fun _ => True).
Proof.
  intros Hn. unfold binary_search. eapply reads_bind; [by apply (reads_get c (fun c' => c' = c))|].
  intros ? ->. unfold reads, returns, restoring. unfold bind at 1, fits_in at 1, modify, bind at 1, bind at 1.
  pose proof (Hn 1) as Hrun. unfold reads, returns in Hrun.
  destruct (needed (set_max_model_len 1 c)) as [m c'|]; [|done]. destruct Hrun as [-> _]. simpl.
  destruct (m <=? avail).
  - pose proof (search_refits needed avail c Hn (Z.to_nat (max_model_len (vllm c) + 1)) 1
                  (max_model_len (vllm c)) 1 1) as Hs. unfold returns in Hs.
    destruct (search _ _ _ _ _ _) as [n c'|]; [|done]. destruct Hs as [n' ->].
    by rewrite set_max_model_len_twice, set_max_model_len_same.
  - simpl. by rewrite set_max_model_len_twice, set_max_model_len_same.
Qed.

Lemma estimate_reads gs avail c :
  worker_shape gs -> reads (_estimate_max_model_len_from_groups gs avail) c (fun _ => True).
Proof.
  intros Hgs. apply binary_search_reads. intros k. eapply reads_any. by apply needed_reads.
Qed.

Definition worker_ok (gs : list group) : Prop := gs = [] \/ worker_shape gs.

Lemma auto_fit_refits gss avails c :
  Forall worker_ok gss -> refits (_auto_fit_max_model_len gss avails) c.
Proof.
  intros Hgs. assert (Hsame : exists n, c = set_max_model_len n c).
  { exists (max_model_len (vllm c)). by rewrite set_max_model_len_same. }
  unfold refits, _auto_fit_max_model_len. destruct (forallb is_empty gss); [done|].
  apply returns_bind. unfold returns at 1. simpl. apply returns_bind. unfold returns at 1.
  destruct avails as [|a avails]; [done|]. simpl. apply returns_bind.
  eapply returns_mono.
  { apply (reads_mfold fit_worker (fun _ _ => True) (zip gss (a :: avails))); [done|].
    intros pre [gs m] post b Heq _. unfold fit_worker. destruct gs as [|g gs]; [by apply reads_ret|].
    cbn [fst snd]. eapply reads_bind; [apply estimate_reads|intros n _; by apply reads_ret].
    assert (Hin : (g :: gs, m) ∈ zip gss (a :: avails)) by (rewrite Heq; apply elem_of_app; right; left).
    apply elem_of_zip_l in Hin. rewrite Forall_forall in Hgs. by destruct (Hgs _ Hin). }
  intros n c' [-> _]. unfold returns. destruct (n <=? 0); [done|].
  destruct (_ <=? n); [exact Hsame|]. by exists n.
Qed.

Lemma adjust_reads override gs m c :
  worker_ok gs ->
  reads (adjust_memory override (gs, m)) c
    (fun m' => (gs = [] /\ m' = m) \/ exists U, unit_of gs U /\ m' = override * U).
Proof.
  intros Hgs. unfold adjust_memory. destruct gs as [|g gs]; [apply reads_ret; by left|].
  destruct Hgs as [|Hgs]; [done|]. cbn [fst snd]. eapply reads_bind; [by apply pool_reads|]. intros U HU.
  eapply reads_bind; [apply reads_div|]. intros q _. apply reads_ret. right. by exists U.
Qed.

(** A worker whose groups were checked and laid out in its (adjusted) memory. *)
Record served (c : Config) (gs : list group) (m : Z) (p : plan) (U : Z) : Prop := {
  sv_laid : laid_out c gs m p U;
  sv_memory : 0 < m;
  sv_needed : U * sum_list (demand (vllm c) <$> gs) <= m;
}.

Definition adjusted (c : Config) (gs : list group) (m m' : Z) : Prop :=
  match num_gpu_blocks_override c with
  | None => m' = m
  | Some o => gs = [] \/ exists U, unit_of gs U /\ m' = o * U
  end.

(** Enough blocks for the longest request. *)
Lemma served_blocks c gs m m' p U :
  served c gs m' p U -> adjusted c gs m m' -> gs <> [] -> sum_list (demand (vllm c) <$> gs) <= p_num_blocks p.
Proof.
  intros [[_ Hunit HU Hblocks _ _] Hm Hneed] Hadj Hne. rewrite Hblocks. unfold adjusted in Hadj.
  destruct (num_gpu_blocks_override c) as [o|]; simpl.
  - destruct Hadj as [|(U' & HU' & ->)]; [done|]. rewrite (unit_of_unique gs U' U HU' Hunit) in Hneed. nia.
  - apply Z.div_le_lower_bound; lia.
Qed.

Lemma check_reads gs m c :
  worker_ok gs ->
  reads (check_worker (gs, m)) c (fun _ => gs <> [] ->
    0 < m /\ forall U, unit_of gs U -> U * sum_list (demand (vllm c) <$> gs) <= m).
Proof.
  intros Hgs. unfold check_worker. destruct gs as [|g gs]; [by apply reads_ret|].
  destruct Hgs as [|Hgs]; [done|]. cbn [fst snd].
  eapply reads_mono; [by apply check_enough_reads, needed_reads|].
  intros _ (Hm & n & Hn & Hle) _. split; [done|]. intros U HU. by rewrite <- (Hn U HU).
Qed.

Lemma config_reads gs w m c :
  worker_ok gs -> (gs <> [] -> 0 < m) ->
  reads (config_worker (gs, w, m)) c (fun p =>
    (gs = [] -> p = MkPlan 1 [] []) /\ (gs <> [] -> exists U, laid_out c gs m p U)).
Proof.
  intros Hgs Hm. unfold config_worker. eapply reads_bind; [apply reads_assert|]. intros _ _.
  destruct (decide (gs = [])) as [->|Hne]; [by apply reads_ret|].
  destruct Hgs as [|Hgs]; [done|]. 
  apply (reads_mono _ _ (fun p => exists U, laid_out c gs m p U)); [|intros p Hp; by split].
  destruct Hgs as [_ Hpl|names u e -> Hu Hpr _ Hnames].
  - apply plain_config_reads; auto.
  - by apply uniform_config_reads.
Qed.

(** ** Equal numbers of blocks *)

Lemma spec_memory_reads g c : reads (spec_max_memory_usage_bytes g) c (fun _ => True).
Proof.
  unfold spec_max_memory_usage_bytes. eapply reads_bind; [by apply (reads_get c (fun _ => True))|].
  intros ? _. eapply reads_any, reads_result.
Qed.

Lemma report_reads p c : reads (_report_kv_cache_config p) c (fun _ => True).
Proof.
  unfold _report_kv_cache_config. eapply reads_bind; [|intros x Hx; by apply reads_ret].
  unfold get_max_concurrency_for_kv_cache_config.
  eapply reads_bind; [apply reads_result|]. intros k _.
  eapply reads_bind.
  { unfold max_memory_usage_bytes. eapply reads_bind; [|intros l Hl; by apply (reads_ret _ _ (fun _ => True))].
    apply (reads_mmapM _ (fun _ _ => True)). intros x _. apply spec_memory_reads. }
  intros m _. eapply reads_bind; [apply reads_option|]. intros g _.
  eapply reads_bind; [apply reads_result|]. intros page _.
  repeat case_match; try done; by apply (reads_ret _ _ (fun _ => True)).
Qed.

Lemma shrink_reads n p c :
  reads (shrink_plan n p) c (fun p' =>
    p_num_blocks p' = n /\ p_groups p' = p_groups p /\
    shared_by <$> p_tensors p' = shared_by <$> p_tensors p /\
    forall pgs, size <$> p_tensors p = (fun pg => pg * p_num_blocks p) <$> pgs ->
      size <$> p_tensors p' = (fun pg => pg * n) <$> pgs).
Proof.
  unfold shrink_plan. eapply reads_bind.
  { apply (reads_mmapM _ (fun t t' => p_num_blocks p <> 0 /\ shared_by t' = shared_by t /\
             size t' = size t / p_num_blocks p * n)).
    intros t _. unfold shrink_tensor. eapply reads_bind; [apply reads_mod|]. intros r [Hne _].
    eapply reads_bind; [apply reads_assert|]. intros _ _. by apply reads_ret. }
  intros ts Hts. eapply (reads_bind _ _ _ (fun _ => True)).
  { destruct (p_groups p); [by apply reads_ret|apply report_reads]. }
  intros _ _. apply reads_ret. simpl. split; [done|]. split; [done|]. cbv beta in Hts.
  revert Hts. generalize (p_tensors p) (p_num_blocks p). intros ts0 old Hts.
  induction Hts as [|t t' ts0 ts (Hold & Hsh & Hsz) _ [IH1 IH2]].
  { split; [done|]. by intros [|? ?]. }
  csimpl. rewrite Hsh, IH1. split; [done|]. intros [|pg pgs] Hpgs; [done|].
  csimpl in *. injection Hpgs as Hpg Hpgs. f_equal; [|by apply IH2].
  rewrite Hsz, Hpg, Z.div_mul by done. done.
Qed.

(** ** The whole plan *)

(** What the plan of a worker promises. *)
Record worker_planned (c : Config) (w : layers) (memory n : Z) (p : plan) : Prop := {
  wp_blocks : p_num_blocks p = n;
  wp_groups : concat (g_layer_names <$> p_groups p) ≡ₚ w.*1;
  wp_tensors : concat (shared_by <$> p_tensors p) ≡ₚ w.*1;
  wp_sizes : Forall (fun t => exists page, 0 < page /\ size t = page * n) (p_tensors p);
  wp_fits : num_gpu_blocks_override c = None -> w <> [] -> sum_list (size <$> p_tensors p) <= memory;
  wp_serves : sum_list (demand (vllm c) <$> p_groups p) <= n;
  wp_usable : Forall (fun g => forall u, uniform_of g = Some u -> u_kv_cache_specs u <> []) (p_groups p);
}.

Lemma worker_usable gs :
  worker_shape gs -> Forall (fun g => forall u, uniform_of g = Some u -> u_kv_cache_specs u <> []) gs.
Proof.
  intros [_ Hgs|names u e -> Hu _ _ _].
  - eapply Forall_impl; [exact Hgs|]. intros g (_ & s & Hs & _) u. unfold uniform_of. by rewrite Hs.
  - apply Forall_singleton. intros u' Hu'. unfold uniform_of in Hu'. simpl in Hu'. by simplify_eq.
Qed.

Lemma zip_lookup {A B} (l : list A) (k : list B) i x :
  zip l k !! i = Some x <-> l !! i = Some x.1 /\ k !! i = Some x.2.
Proof.
  destruct x as [a b]. rewrite lookup_zip_with_Some. simpl. split.
  - intros (a' & b' & E & Ha & Hb). by simplify_eq.
  - intros [Ha Hb]. by exists a, b.
Qed.

Lemma here_perm w names :
  NoDup w.*1 -> NoDup names -> (forall x, x ∈ w.*1 -> x ∈ names) -> here w names ≡ₚ w.*1.
Proof.
  intros Hw Hn Hin. apply NoDup_Permutation; [by apply NoDup_filter|done|].
  intros x. unfold here. rewrite list_elem_of_filter. naive_solver.
Qed.

Lemma py_min_spec l n : py_min l = inr n -> n ∈ l /\ Forall (fun x => n <= x) l.
Proof.
  destruct l as [|x l]; simpl; intros Hn; simplify_eq.
  cut (forall l x, foldl Z.min x l ∈ x :: l /\ Forall (fun y => foldl Z.min x l <= y) (x :: l)).
  { intros Hc. apply Hc. }
  clear. induction l as [|y l IH]; intros x; simpl.
  { split; [left|]. constructor; [lia|constructor]. }
  destruct (IH (Z.min x y)) as [Hin Hall]. apply Forall_cons in Hall as [Hle Hall]. split.
  - apply elem_of_cons in Hin as [Hin|Hin]; [|by right; right].
    destruct (Z.min_spec x y) as [[_ E]|[_ E]]; rewrite E in Hin at 2; rewrite Hin; [left|right; left].
  - constructor; [lia|]. constructor; [lia|done].
Qed.

(** One worker, after its blocks were cut to the common number. *)
Lemma shrunk_planned c gs w memory m n p U p' :
  served c gs m p U -> adjusted c gs memory m -> worker_shape gs -> n <= p_num_blocks p ->
  sum_list (demand (vllm c) <$> gs) <= n ->
  concat (g_layer_names <$> gs) ≡ₚ w.*1 ->
  p_num_blocks p' = n -> p_groups p' = p_groups p ->
  shared_by <$> p_tensors p' = shared_by <$> p_tensors p ->
  (forall pgs, size <$> p_tensors p = (fun pg => pg * p_num_blocks p) <$> pgs ->
     size <$> p_tensors p' = (fun pg => pg * n) <$> pgs) ->
  worker_planned c w memory n p'.
Proof.
  intros [[Hgroups Hunit HU Hblocks Hnames (pgs & Hpos & Hsum & Hsizes)] Hm Hneed] Hadj Hshape Hn Hserve
    Hperm Hb Hg Hsh Hsz. specialize (Hsz pgs Hsizes). split.
  - done.
  - by rewrite Hg, Hgroups.
  - rewrite Hsh, Hnames. done.
  - assert (Hall : Forall (fun z => exists page, 0 < page /\ z = page * n) (size <$> p_tensors p')).
    { rewrite Hsz. apply Forall_fmap. eapply Forall_impl; [exact Hpos|]. intros pg Hpg. by exists pg. }
    rewrite Forall_fmap in Hall. exact Hall.
  - intros Hover _. unfold adjusted in Hadj. rewrite Hover in Hadj. subst m.
    rewrite Hsz, (list_fmap_ext (fun pg => pg * n) (fun pg => n * pg) pgs) by (intros; lia).
    rewrite sum_list_scale. rewrite Hblocks, Hover in Hn. simpl in Hn.
    pose proof (Z.mul_div_le memory U HU). assert (0 <= sum_list pgs) by (by apply sum_list_nonneg).
    destruct (Z.le_gt_cases 0 n); nia.
  - by rewrite Hg, Hgroups.
  - rewrite Hg, Hgroups. by apply worker_usable.
Qed.

Lemma returns_reads {S A B} (m : M S A) (k : A -> M S B) s (P : A -> Prop) (Q : B -> S -> Prop) :
  reads m s P -> (forall a, P a -> returns (k a) s Q) -> returns (bind m k) s Q.
Proof.
  unfold reads, returns, bind. destruct (m s) as [a s'|]; [|done]. intros [-> Ha] Hk. by apply Hk.
Qed.

(** Projected groups of the workers [ws]. *)
Definition projected (names : list string) (gs : list group) (w : layers) (gs' : list group) : Prop :=
  (gs = [] -> gs' = []) /\ (gs <> [] -> gs' <> [] /\ worker_shape gs') /\
  concat (g_layer_names <$> gs') ≡ₚ here w names /\
  forall v, demand v <$> gs' = demand v <$> gs.

Lemma projected_ok names gs w gs' : projected names gs w gs' -> worker_ok gs'.
Proof.
  intros (Hnil & Hne & _). destruct (decide (gs = [])) as [E|E]; [left; by apply Hnil|right; by apply Hne].
Qed.

Lemma adjust_all_reads c names gs (ws : list layers) gss ms :
  length ms = length ws -> Forall2 (projected names gs) ws gss ->
  reads (match num_gpu_blocks_override c with
         | Some override => mmapM (adjust_memory override) (zip gss ms)
         | None => ret ms
         end) c (fun ms' => length ms' = length ws /\
    forall i gs' m m', gss !! i = Some gs' -> ms !! i = Some m -> ms' !! i = Some m' -> adjusted c gs' m m').
Proof.
  intros Hlen Hproj. pose proof (Forall2_length _ _ _ Hproj) as Hlen'. unfold adjusted.
  destruct (num_gpu_blocks_override c) as [o|].
  2:{ apply reads_ret. split; [done|]. intros i gs' m m' _ Hm Hm'. congruence. }
  eapply reads_mono.
  { apply (reads_mmapM _ (fun x m' => (x.1 = [] /\ m' = x.2) \/ exists U, unit_of x.1 U /\ m' = o * U)).
    intros [gs' m] Hx. apply adjust_reads. apply elem_of_zip_l in Hx.
    apply list_elem_of_lookup in Hx as [i Hi]. apply (Forall2_lookup_r _ _ _ _ _ Hproj) in Hi as (w & _ & Hp).
    by eapply projected_ok. }
  intros ms' Hms'. pose proof (Forall2_length _ _ _ Hms') as Hl. rewrite length_zip_with in Hl. split; [lia|].
  intros i gs' m m' Hgs' Hm Hm'.
  pose proof (Forall2_lookup_lr _ _ _ i (gs', m) m' Hms') as Hr. simpl in Hr.
  destruct Hr as [[-> _]|Hr]; [by apply zip_lookup|done|by left|by right].
Qed.

(** From the check on: the configuration stays. *)
Lemma plan_workers_reads c names gs (ws : list layers) gss ms ms' :
  NoDup names -> Forall (fun w => NoDup w.*1 /\ forall x, x ∈ w.*1 -> x ∈ names) ws ->
  Forall2 (projected names gs) ws gss -> length ms = length ws -> length ms' = length ws ->
  (forall i gs' m m', gss !! i = Some gs' -> ms !! i = Some m -> ms' !! i = Some m' -> adjusted c gs' m m') ->
  reads (mfor (zip gss ms') check_worker ;;;
         kv_cache_configs <- mmapM config_worker (zip (zip gss ws) ms') ;;
         min_num_blocks <- of_result (py_min (p_num_blocks <$> kv_cache_configs)) ;;
         mmapM (shrink_plan min_num_blocks) kv_cache_configs) c
    (fun plans => exists n, length plans = length ws /\
       forall i w m p, ws !! i = Some w -> ms !! i = Some m -> plans !! i = Some p -> worker_planned c w m n p).
Proof.
  intros Hnames Hws Hproj Hlen Hlen' Hadj. pose proof (Forall2_length _ _ _ Hproj) as Hlen2.
  assert (Hok : forall i gs', gss !! i = Some gs' -> worker_ok gs').
  { intros i gs' Hi. apply (Forall2_lookup_r _ _ _ _ _ Hproj) in Hi as (w & _ & Hp). by eapply projected_ok. }
  eapply reads_bind.
  { apply (reads_mfor check_worker (fun x => x.1 <> [] ->
      0 < x.2 /\ forall U, unit_of x.1 U -> U * sum_list (demand (vllm c) <$> x.1) <= x.2)).
    intros [gs' m] Hx. apply check_reads. apply elem_of_zip_l, list_elem_of_lookup in Hx as [i Hi]. eauto. }
  intros ? Hcheck. cbv beta in Hcheck. rewrite Forall_forall in Hcheck.
  assert (Hch : forall i gs' m, gss !! i = Some gs' -> ms' !! i = Some m -> gs' <> [] ->
            0 < m /\ forall U, unit_of gs' U -> U * sum_list (demand (vllm c) <$> gs') <= m).
  { intros i gs' m Hg Hm. apply (Hcheck (gs', m)). eapply list_elem_of_lookup_2. by apply (zip_lookup _ _ i). }
  clear Hcheck. eapply reads_bind.
  { apply (reads_mmapM config_worker (fun x p => (x.1.1 = [] -> p = MkPlan 1 [] []) /\
             (x.1.1 <> [] -> exists U, laid_out c x.1.1 x.2 p U))).
    intros [[gs' w] m] Hx. apply list_elem_of_lookup in Hx as [i Hi].
    apply zip_lookup in Hi as [Hi Hm]. apply zip_lookup in Hi as [Hg _]. simpl in *.
    apply config_reads; [eauto|]. intros Hne. by destruct (Hch i gs' m Hg Hm Hne). }
  intros plans1 Hplans1. cbv beta in Hplans1. pose proof (Forall2_length _ _ _ Hplans1) as Hl1.
  rewrite !length_zip_with in Hl1. eapply reads_bind; [apply reads_result|]. intros n Hn.
  eapply reads_mono.
  { apply (reads_mmapM (shrink_plan n) (fun p p' => p_num_blocks p' = n /\ p_groups p' = p_groups p /\
      shared_by <$> p_tensors p' = shared_by <$> p_tensors p /\
      forall pgs, size <$> p_tensors p = (fun pg => pg * p_num_blocks p) <$> pgs ->
        size <$> p_tensors p' = (fun pg => pg * n) <$> pgs)).
    intros p _. apply shrink_reads. }
  intros plans Hplans. pose proof (Forall2_length _ _ _ Hplans) as Hl2. exists n. split; [lia|].
  apply py_min_spec in Hn as [Hn Hmin]. rewrite Forall_fmap in Hmin.
  assert (Hin : forall i p, plans1 !! i = Some p -> exists w gs' m m',
            ws !! i = Some w /\ gss !! i = Some gs' /\ ms !! i = Some m /\ ms' !! i = Some m' /\
            projected names gs w gs' /\ adjusted c gs' m m' /\
            (gs' = [] -> p = MkPlan 1 [] []) /\ (gs' <> [] -> exists U, served c gs' m' p U)).
  { intros i p Hp. apply (Forall2_lookup_r _ _ _ _ _ Hplans1) in Hp as ([[gs' w] m'] & Hx & Hnil & Hne).
    apply zip_lookup in Hx as [Hx Hm']. apply zip_lookup in Hx as [Hg Hw]. simpl in *.
    assert (Hm : exists m, ms !! i = Some m).
    { apply lookup_lt_is_Some. apply lookup_lt_Some in Hw. lia. }
    destruct Hm as [m Hm]. exists w, gs', m, m'.
    pose proof (Forall2_lookup_lr _ _ _ _ _ _ Hproj Hw Hg) as Hpr.
    do 6 (split; [eauto|]). split; [done|]. intros E. destruct (Hne E) as [U HU]. exists U.
    destruct (Hch i gs' m' Hg Hm' E) as [Hpos Hneed]. split; [done|done|]. apply Hneed, HU. }
  assert (Hserve : gs <> [] -> sum_list (demand (vllm c) <$> gs) <= n).
  { intros Hgs. apply list_elem_of_fmap in Hn as (p & -> & Hp). apply list_elem_of_lookup in Hp as [i Hp].
    destruct (Hin i p Hp) as (w & gs' & m & m' & _ & _ & _ & _ & Hpr & Ha & _ & Hsv).
    destruct Hpr as (_ & Hne' & _ & Hd). destruct (Hne' Hgs) as [Hne _]. destruct (Hsv Hne) as [U HU].
    rewrite <- Hd. by eapply served_blocks. }
  intros i w m p' Hw Hm Hp'. apply (Forall2_lookup_r _ _ _ _ _ Hplans) in Hp' as (p & Hp & Hb & Hg & Hsh & Hsz).
  destruct (Hin i p Hp) as (w' & gs' & m0 & m' & Hw' & _ & Hm0 & _ & Hpr & Ha & Hnil & Hsv).
  assert (w' = w) as -> by congruence. assert (m0 = m) as -> by congruence.
  destruct Hpr as (Hpnil & Hpne & Hperm & Hd).
  assert (Hw1 : here w names ≡ₚ w.*1).
  { rewrite Forall_forall in Hws. destruct (Hws w) as [? ?]; [by eapply list_elem_of_lookup_2|].
    by apply here_perm. }
  rewrite Hw1 in Hperm. assert (Hnp : n <= p_num_blocks p).
  { rewrite Forall_forall in Hmin. apply Hmin. by eapply list_elem_of_lookup_2. }
  destruct (decide (gs = [])) as [E|E].
  - specialize (Hpnil E). subst gs'. specialize (Hnil eq_refl). subst p. simpl in *.
    apply Permutation_nil_l in Hperm. destruct w as [|? w]; [|done].
    assert (Ht : p_tensors p' = []) by (by destruct (p_tensors p')).
    split; rewrite ?Hg, ?Ht; simpl; try done.
    apply list_elem_of_fmap in Hn as (p & -> & Hpin). apply list_elem_of_lookup in Hpin as [j Hj].
    destruct (Hin j p Hj) as (wj & gj & _ & _ & _ & _ & _ & _ & (Hjn & _) & _ & Hj1 & _).
    by rewrite (Hj1 (Hjn E)).
  - destruct (Hpne E) as [Hne Hshape]. destruct (Hsv Hne) as [U HU].
    apply (shrunk_planned c gs' w m m' n p U p'); try done. rewrite Hd. by apply Hserve.
Qed.

(** The scheduler's configuration can be made from a plan, and counts alike. *)
Lemma scheduler_groups {S} v gs (st : S) :
  Forall (fun g => forall u, uniform_of g = Some u -> u_kv_cache_specs u <> []) gs ->
  exists groups, mmapM scheduler_group gs st = Ret groups st /\
    (fun g => pages (kv_cache_spec g) v) <$> groups = demand v <$> gs.
Proof.
  induction 1 as [|g gs Hg _ (groups & IH & Hd)]; [by exists []|].
  assert (Hs : exists g', scheduler_group g st = Ret g' st /\ pages (kv_cache_spec g') v = demand v g).
  { unfold scheduler_group, demand, uniform_of in *. destruct (g_spec g) as [s|u]; [by eexists|].
    specialize (Hg u eq_refl). destruct (u_kv_cache_specs u) as [|[x s] l]; [done|]. by eexists. }
  destruct Hs as (g' & Hrun & Hg'). exists (g' :: groups). split.
  - simpl. unfold bind. by rewrite Hrun, IH.
  - csimpl. by rewrite Hg', Hd.
Qed.

Lemma scheduler_config {S} v n p plans (st : S) :
  Forall (fun p => p_num_blocks p = n) (p :: plans) ->
  Forall (fun g => forall u, uniform_of g = Some u -> u_kv_cache_specs u <> []) (p_groups p) ->
  exists cfg, generate_scheduler_kv_cache_config (p :: plans) st = Ret cfg st /\ num_blocks cfg = n /\
    (fun g => pages (kv_cache_spec g) v) <$> kv_cache_groups cfg = demand v <$> p_groups p.
Proof.
  intros Hn Hg. destruct (scheduler_groups v (p_groups p) st Hg) as (groups & Hrun & Hd).
  unfold generate_scheduler_kv_cache_config.
  assert (Hall : forallb (fun q => p_num_blocks q =? p_num_blocks p) (p :: plans) = true).
  { apply forallb_elem. intros q Hq. rewrite Forall_forall in Hn. rewrite (Hn q Hq), (Hn p) by left.
    apply Z.eqb_refl. }
  rewrite Hall. eexists. unfold bind. simpl. rewrite Hrun. split; [done|]. simpl.
  by apply Forall_cons in Hn as [-> _].
Qed.

Lemma configs_returns c (ws : list layers) ms :
  length ms = length ws -> Forall (fun w => NoDup w.*1 /\ Forall well_sized w.*2) ws ->
  returns (get_kv_cache_configs ws ms) c (fun plans c' => exists n k,
    c' = set_max_model_len k c /\ (original_max_model_len c <> -1 -> c' = c) /\ length plans = length ws /\
    forall i w m p, ws !! i = Some w -> ms !! i = Some m -> plans !! i = Some p ->
      worker_planned c' w m n p).
Proof.
  intros Hlen Hws. rewrite Forall_forall in Hws. unfold get_kv_cache_configs.
  eapply returns_reads; [apply merge_workers_reads|]. intros d (Hnd & Hkeys & Hin).
  assert (Hd : Forall well_sized d.*2).
  { apply Forall_forall. intros s (l & -> & Hl)%list_elem_of_fmap. apply Hin in Hl.
    apply elem_of_concat in Hl as (w & Hl & Hw). destruct (Hws w Hw) as [_ Hs].
    rewrite Forall_forall in Hs. apply Hs, list_elem_of_fmap. eauto. }
  eapply returns_reads; [by apply groups_shape|]. intros gs Hgs.
  eapply returns_reads.
  { apply (reads_mmapM _ (projected d.*1 gs)). intros w _. by apply project_reads. }
  intros gss Hproj. cbv beta in Hproj.
  eapply returns_reads; [by apply (reads_get c (fun c' => c' = c))|]. intros ? ->.
  eapply returns_reads; [by apply (adjust_all_reads c d.*1 gs ws gss ms)|]. intros ms' [Hlen' Hadj].
  apply returns_bind. eapply (returns_mono _ _ (fun _ c1 => (exists k, c1 = set_max_model_len k c) /\
      (original_max_model_len c <> -1 -> c1 = c))).
  { destruct (Z.eqb_spec (original_max_model_len c) (-1)) as [E|E].
    - eapply returns_mono; [apply auto_fit_refits|intros ? c1 Hc1; by split].
      apply Forall_forall. intros gs' Hg. apply list_elem_of_lookup in Hg as [i Hi].
      apply (Forall2_lookup_r _ _ _ _ _ Hproj) in Hi as (w & _ & Hp). by eapply projected_ok.
    - split; [|done]. exists (max_model_len (vllm c)). by rewrite set_max_model_len_same. }
  intros ? c1 [[k ->] Hsame]. eapply returns_mono.
  { apply (plan_workers_reads (set_max_model_len k c) d.*1 gs ws gss ms ms'); try done.
    apply Forall_forall. intros w Hw. destruct (Hws w Hw) as [Hndw _]. split; [done|]. intros x Hx.
    apply Hkeys. apply list_elem_of_fmap in Hx as (l & -> & Hl). apply list_elem_of_fmap. exists l.
    split; [done|]. apply elem_of_concat. eauto. }
  intros plans c2 [-> (n & Hl & Hp)]. exists n, k. by do 3 (split; [done|]).
Qed.

Lemma no_plans c c' ws ms : get_kv_cache_configs ws ms c <> Ret [] c'.
Proof.
  unfold get_kv_cache_configs. intros Hrun.
  do 7 (apply bind_ret_inv in Hrun as (? & ? & _ & Hrun)).
  apply bind_ret_inv in Hrun as (plans & c1 & _ & Hrun).
  apply bind_ret_inv in Hrun as (n & c2 & Hmin & Hrun).
  destruct plans as [|p plans]; [done|].
  simpl in Hrun. by do 2 apply bind_ret_inv in Hrun as (? & ? & _ & Hrun).
Qed.

End workers.

(** ** Witness *)

#[local] Existing Instance demo_torch.

(** Two workers with different memories; [max_model_len] is fitted. *)
Definition demo_fit : outcome Config (list plan) :=
  get_kv_cache_configs [demo_plan_layers; demo_plan_layers] [600000; 400000] (demo_plan_config 2560 (-1) None).

Lemma demo_well_sized : Forall well_sized demo_plan_layers.*2.
Proof.
  repeat (constructor; [split; [intros p Hp; vm_compute in Hp; by simplify_eq|
                                intros a Ha; vm_compute in Ha; simplify_eq; by repeat split|done]|]).
  constructor.
Qed.

Definition demo_plans : list plan := match demo_fit with Ret plans _ => plans | Raise _ _ => [] end.
Definition demo_fitted : Config := set_max_model_len 160 (demo_plan_config 2560 (-1) None).

Lemma demo_fit_run :
  get_kv_cache_configs [demo_plan_layers; demo_plan_layers] [600000; 400000]
    (demo_plan_config 2560 (-1) None) = Ret demo_plans demo_fitted.
Proof. vm_compute. reflexivity. Qed.

