(* ===== verification/StartUp.v ===== *)
(** * Starting up: from the layers to the running engine

    Planning a standard model (all layers full attention of one size) and building the
    engine from the plan. *)

From S2P Require Import Prelude FreeQueue Request BlockHash BlockPool CacheSpec SingleType Ownership Coordinator.
From S2P Require Import KVManager EncoderCache EncoderSched RequestQueue SchedUtils KVCache Scheduler.
From S2P Require Import SchedInv Engine EngineSafe FullManager KVStandard EngineLoop.
From S2P Require Import Planning PlanMemory PlanSizes PlanGroups PlanFits PlanWorkers.
From stdpp Require Import options.

Section start_up.
Context `{Torch}.
Context (a : AttentionSpec) (f : FullFields) (names : list string) (cp : Planning.Config) (p memory : Z).

(** All layers have this specification. *)
Definition standard_spec : KVCacheSpec := FullAttentionSpec a f.
Definition standard_layers : list (string * KVCacheSpec) := (fun n => (n, standard_spec)) <$> names.

Record standard_model : Prop := {
  sm_names : NoDup names;
  sm_some : names <> [];
  sm_window : f_sliding_window f = None;
  sm_chunk : f_attention_chunk_size f = None;
  sm_block : 0 < a_block_size a;
  sm_page : page_size_bytes standard_spec = inr p;
  sm_positive : 0 < p;
  sm_len : 1 <= max_model_len (Planning.vllm cp);
  sm_dcp : decode_context_parallel_size (Planning.vllm cp) = 1;
  sm_pcp : prefill_context_parallel_size (Planning.vllm cp) = 1;
  sm_override : Planning.num_gpu_blocks_override cp = None;
  sm_original : Planning.original_max_model_len cp <> -1;
}.

Hypothesis Hm : standard_model.

Import Planning.

Definition standard_group : group := MkGroup names (One standard_spec) false.
Definition request_blocks : Z := cdiv (max_model_len (vllm cp)) (a_block_size a).
Definition planned_blocks : Z := memory / p / len names.

Lemma layer_names_eq : standard_layers.*1 = names.
Proof using Type.
  unfold standard_layers. rewrite <- list_fmap_compose. apply list_fmap_id.
Qed.

Lemma layer_specs_eq : standard_layers.*2 = replicate (length names) standard_spec.
Proof using Type.
  unfold standard_layers. rewrite <- list_fmap_compose. apply fmap_const_replicate.
Qed.

Lemma names_positive : 0 < len names.
Proof using Hm.
  pose proof (sm_some Hm) as Hne. unfold len. destruct (length names) as [|k] eqn:E; [|lia].
  by apply length_zero_iff_nil in E.
Qed.

Lemma layer_get n : n ∈ names -> dict_get n standard_layers = Some standard_spec.
Proof using Hm.
  intros Hn. apply dict_get_NoDup; [rewrite layer_names_eq; apply Hm|].
  apply list_elem_of_fmap. by exists n.
Qed.

Lemma remove_dups_replicate {A} `{EqDecision A} n (x : A) : py_set (replicate (S n) x) = [x].
Proof using Type.
  induction n as [|n IH]; [done|]. unfold py_set in *. change (replicate (S (S n)) x) with (x :: replicate (S n) x).
  cbn [remove_dups]. destruct (decide_rel elem_of x (replicate (S n) x)) as [_|Hn]; [done|]. destruct Hn. left.
Qed.

Lemma merge_standard n : merge (replicate (S n) standard_spec) = inr standard_spec.
Proof using Hm.
  destruct Hm as [_ _ Hw Hc _ _ _ _ _ _ _ _].
  cbn [replicate]. unfold merge, standard_spec at 1. unfold merge_full_fields.
  assert (Hall : forall (P : KVCacheSpec -> bool), P standard_spec = true ->
            forallb P (standard_spec :: replicate n standard_spec) = true).
  { intros P HP. apply forallb_elem. intros x Hx. apply elem_of_cons in Hx as [->|Hx]; [done|].
    by apply elem_of_replicate in Hx as [-> _]. }
  rewrite Hall by done. cbn [negb].
  assert (Hmla : existsb is_mla (standard_spec :: replicate n standard_spec) = false).
  { clear Hall. simpl. by induction n as [|n IH]. }
  rewrite Hmla.
  assert (Homap : forall (g : FullFields -> option Z), g f = None ->
            omap (fun s => full_fields s ≫= g) (standard_spec :: replicate n standard_spec) = []).
  { intros g Hg. simpl. rewrite Hg. clear Hall Hmla. induction n as [|n IH]; [done|]. simpl. by rewrite Hg. }
  rewrite !Homap by done.
  assert (Hbind : exists rest, (standard_spec :: replicate n standard_spec) ≫=
            (fun s => match attention_of s, full_fields s with
                      | Some a, Some f => [(a, f)] | _, _ => [] end) = (a, f) :: rest) by by eexists.
  destruct Hbind as [rest ->]. cbn [py_set remove_dups merge_window_sizes].
  rewrite Hall by by rewrite bool_decide_true. simpl.
  unfold standard_spec. do 2 f_equal. destruct f. simpl in *. by subst.
Qed.

Lemma specs_cons : exists k, standard_layers.*2 = replicate (S k) standard_spec.
Proof using Hm.
  rewrite layer_specs_eq. pose proof names_positive as Hn. unfold len in Hn.
  destruct (length names) as [|k]; [lia|by exists k].
Qed.

Lemma uniform_standard {S} (st : S) : is_kv_cache_spec_uniform standard_layers st = Ret true st.
Proof using Hm.
  destruct specs_cons as [k Hk]. unfold is_kv_cache_spec_uniform.
  destruct standard_layers as [|l ls] eqn:E; [done|]. rewrite <- E in *. rewrite Hk.
  by rewrite (merge_standard k).
Qed.

Lemma merge_one_worker {S} d (st : S) : NoDup d.*1 -> merge_workers [d] st = Ret d st.
Proof using Type.
  intros Hnd. unfold merge_workers. simpl. rewrite app_nil_r.
  cut (forall post pre, d = pre ++ post -> mfold merge_layer post pre st = Ret d st).
  { intros Hc. by apply (Hc d []). }
  induction post as [|[n s] post IH]; intros pre Hd; simpl; [by rewrite app_nil_r in Hd; subst|].
  unfold bind, merge_layer. simpl. rewrite Hd, fmap_app in Hnd. csimpl in Hnd.
  apply NoDup_app_cons_inv in Hnd as [Hn _].
  assert (Hget : dict_get n pre = None).
  { destruct (dict_get n pre) as [x|] eqn:E; [|done]. destruct Hn. apply dict_get_elem. by rewrite E. }
  rewrite Hget. unfold ret. rewrite dict_set_new.
  - apply IH. by rewrite <- app_assoc.
  - intros Hin. apply dict_get_elem in Hin as [x Hx]. congruence.
Qed.

Lemma mmapM_run {S A B} (F : A -> M S B) (g : A -> B) l (st : S) :
  (forall x, x ∈ l -> F x st = Ret (g x) st) -> mmapM F l st = Ret (g <$> l) st.
Proof using Type.
  induction l as [|x l IH]; intros HF; [done|]. simpl. unfold bind. rewrite HF by left.
  rewrite IH by (intros y Hy; apply HF; by right). done.
Qed.

Lemma standard_groups : get_kv_cache_groups standard_layers cp = Ret [standard_group] cp.
Proof using Hm.
  destruct specs_cons as [k Hk]. unfold get_kv_cache_groups, bind at 1, get.
  assert (Hunify : (if disable_hybrid_kv_cache_manager cp
            then unify_hybrid_kv_cache_specs standard_layers else ret standard_layers) cp
            = Ret standard_layers cp).
  { destruct (disable_hybrid_kv_cache_manager cp); [|done].
    unfold unify_hybrid_kv_cache_specs, uniform_or_uniform_type, bind. by rewrite uniform_standard. }
  unfold bind at 1. rewrite Hunify. replace (is_kv_cache_type_attention_free standard_layers) with false.
  2:{ destruct standard_layers; [done|done]. }
  unfold bind at 1. rewrite uniform_standard.
  unfold _get_kv_cache_groups_uniform_spec, create_kv_cache_group_specs. simpl. unfold bind.
  rewrite layer_names_eq, (mmapM_run _ (fun _ => standard_spec)).
  2:{ intros n Hn. unfold of_option. by rewrite layer_get. }
  rewrite fmap_const_replicate, <- layer_specs_eq, Hk, (merge_standard k). done.
Qed.

Lemma project_standard {S} (st : S) :
  _project_kv_cache_groups_to_worker [standard_group] standard_layers st = Ret [standard_group] st.
Proof using Hm.
  unfold _project_kv_cache_groups_to_worker. simpl. unfold bind, project_group. simpl.
  unfold bind, ret. rewrite list_filter_all; [done|]. intros n Hn. by rewrite layer_names_eq.
Qed.

Lemma standard_max_memory : spec_max_memory_usage_bytes (One standard_spec) cp = Ret (request_blocks * p) cp.
Proof using Hm.
  unfold spec_max_memory_usage_bytes, bind, get.
  assert (Hs : sizeable (vllm cp) standard_spec).
  { split; [apply Hm| |done]. exists p. by destruct Hm. }
  rewrite (max_memory_defined _ _ p Hs (sm_page Hm)). simpl. unfold ret. do 2 f_equal.
  unfold request_blocks. by rewrite (sm_dcp Hm), (sm_pcp Hm).
Qed.

Lemma standard_size {S} (st : S) : group_size_of [standard_group] st = Ret (len names) st.
Proof using Type. done. Qed.

Lemma standard_page {S} (st : S) : get_uniform_page_size (g_spec <$> [standard_group]) st = Ret p st.
Proof using Hm.
  unfold get_uniform_page_size. simpl. unfold bind, page_size. by rewrite (sm_page Hm).
Qed.

Lemma request_blocks_positive : 1 <= request_blocks.
Proof using Hm.
  unfold request_blocks. pose proof (sm_len Hm). pose proof (sm_block Hm) as Hb.
  pose proof (cdiv_bounds (max_model_len (vllm cp)) (a_block_size a) Hb). nia.
Qed.

Lemma standard_needed :
  _max_memory_usage_bytes_from_groups [standard_group] cp = Ret (len names * p * request_blocks) cp.
Proof using Hm.
  rewrite plain_needed; [|done|].
  2:{ apply Forall_singleton. split; [done|]. exists standard_spec. split; [done|].
      intros q Hq. rewrite (sm_page Hm) in Hq. simplify_eq. apply Hm. }
  unfold bind at 1. rewrite standard_size. unfold bind at 1. rewrite standard_page.
  pose proof (sm_positive Hm). rewrite (proj2 (Z.eqb_neq p 0)) by lia.
  simpl. unfold bind. rewrite standard_max_memory. simpl. unfold ret, sum_list. simpl.
  rewrite cdiv_mul by done. do 2 f_equal. lia.
Qed.

Definition standard_plan : plan :=
  MkPlan planned_blocks
    ((fun i => {| size := p * planned_blocks; shared_by := shared_layers [standard_group] i |})
       <$> py_range 0 (len names)) [standard_group].

Lemma standard_config_run :
  0 < memory -> get_kv_cache_config_from_groups [standard_group] memory cp = Ret standard_plan cp.
Proof using Hm.
  intros Hmem. rewrite plain_config; [|done|].
  2:{ apply Forall_singleton. split; [done|]. exists standard_spec. split; [done|].
      intros q Hq. rewrite (sm_page Hm) in Hq. simplify_eq. apply Hm. }
  unfold config_general. unfold bind at 1. rewrite standard_size. unfold bind at 1. rewrite standard_page.
  pose proof names_positive as Hn. pose proof (sm_positive Hm) as Hp.
  rewrite (proj2 (Z.ltb_lt 0 (len names)) Hn). unfold bind, assert, ret, get_num_blocks, py_div.
  rewrite !(proj2 (Z.eqb_neq _ 0)) by lia. unfold bind, ret, may_override_num_blocks, get, bind.
  rewrite (sm_override Hm). simpl. rewrite Z.max_l; [done|].
  apply Z.div_pos; [|done]. apply Z.div_pos; lia.
Qed.

Lemma report_standard q :
  p_groups q = [standard_group] -> _report_kv_cache_config q cp = Ret tt cp.
Proof using Hm.
  intros Hq. unfold _report_kv_cache_config, get_max_concurrency_for_kv_cache_config. rewrite Hq.
  pose proof names_positive as Hn. pose proof (sm_positive Hm) as Hp. pose proof request_blocks_positive as Hr.
  assert (Hmax : of_result (py_max ((fun g => len (g_layer_names g)) <$> [standard_group])) cp
                 = Ret (len names) cp) by done.
  assert (Huse : max_memory_usage_bytes (g_spec <$> [standard_group]) cp = Ret (request_blocks * p) cp).
  { unfold max_memory_usage_bytes. simpl. unfold bind. rewrite standard_max_memory. simpl.
    unfold ret, sum_list. simpl. f_equal. lia. }
  assert (Hpage : page_size (g_spec standard_group) cp = Ret p cp).
  { unfold page_size. cbn [g_spec standard_group]. by rewrite (sm_page Hm). }
  unfold bind at 1. unfold bind at 1. rewrite Hmax. unfold bind at 1. rewrite Huse.
  unfold bind at 1. cbn [head of_option ret]. unfold bind at 1. rewrite Hpage.
  rewrite (proj2 (Z.eqb_neq (p * len names) 0)) by nia.
  replace (len names * (request_blocks * p)) with (request_blocks * (p * len names)) by lia.
  rewrite cdiv_mul by nia. rewrite (proj2 (Z.eqb_neq request_blocks 0)) by lia. done.
Qed.

Lemma shrink_standard :
  planned_blocks <> 0 -> shrink_plan planned_blocks standard_plan cp = Ret standard_plan cp.
Proof using Hm.
  intros Hne. unfold shrink_plan. unfold bind at 1.
  rewrite (mmapM_run _ (fun t => t)).
  - rewrite list_fmap_id. unfold bind. cbn [p_groups standard_plan].
    rewrite report_standard by done. done.
  - intros t Ht. apply list_elem_of_fmap in Ht as (i & -> & _).
    unfold shrink_tensor, bind, py_mod. simpl. rewrite (proj2 (Z.eqb_neq planned_blocks 0) Hne).
    unfold ret. rewrite Z_mod_mult. simpl. unfold ret. by rewrite Z.div_mul.
Qed.

Definition standard_scheduler_config : KVCacheConfig :=
  {| num_blocks := planned_blocks; kv_cache_tensors := p_tensors standard_plan;
     kv_cache_groups := [{| layer_names := names; kv_cache_spec := standard_spec; is_eagle_group := false |}] |}.

(** What one request needs. *)
Definition standard_needed_bytes : Z := len names * p * request_blocks.

Lemma estimate_standard :
  exists n, _estimate_max_model_len_from_groups [standard_group] memory cp = Ret n cp.
Proof using Hm.
  assert (Hs : sizeable (vllm cp) standard_spec).
  { split; [apply Hm| |done]. exists p. by destruct Hm. }
  assert (Hok : groups_sizeable (vllm cp) [standard_group]).
  { split; [by apply Forall_singleton|]. intros _. exists p. split; [apply Hm|].
    apply Forall_singleton. intros S st. unfold page_size. cbn [g_spec standard_group]. by rewrite (sm_page Hm). }
  destruct (measured_needed cp _ Hok) as [g Hg].
  destruct (binary_search_largest _ memory cp g Hg (sm_len Hm)) as (n & Hn & _). by exists n.
Qed.

Lemma config_worker_standard :
  0 < memory -> config_worker ([standard_group], standard_layers, memory) cp = Ret standard_plan cp.
Proof using Hm.
  intros Hmem. unfold config_worker. unfold bind at 1.
  replace (sum_list _ =? len standard_layers) with true; [by apply standard_config_run|].
  unfold sum_list, standard_layers, len. simpl. rewrite length_fmap. lia.
Qed.

Lemma planned_positive : standard_needed_bytes <= memory -> request_blocks <= planned_blocks.
Proof using Hm.
  intros Hfit. pose proof names_positive. pose proof (sm_positive Hm). unfold planned_blocks.
  rewrite Z.div_div by lia. unfold standard_needed_bytes in Hfit. apply Z.div_le_lower_bound; nia.
Qed.

Lemma configs_standard :
  get_kv_cache_configs [standard_layers] [memory] cp =
    if (0 <? memory) && (standard_needed_bytes <=? memory)
    then Ret [standard_plan] cp else Raise ValueError cp.
Proof using Hm.
  unfold get_kv_cache_configs. unfold bind at 1.
  rewrite merge_one_worker by (rewrite layer_names_eq; apply Hm).
  unfold bind at 1. rewrite standard_groups. unfold bind at 1. cbn [mmapM]. unfold bind at 1 2.
  rewrite project_standard. unfold ret at 1 2. unfold bind at 1, get. rewrite (sm_override Hm).
  unfold bind at 1, ret at 1. rewrite (proj2 (Z.eqb_neq _ _) (sm_original Hm)). unfold bind at 1, ret at 1.
  cbn [zip zip_with mfor]. unfold bind at 1. unfold bind at 1. unfold check_worker. cbn [fst snd].
  unfold _check_enough_kv_cache_memory.
  destruct (Z.leb_spec memory 0) as [Hle|Hpos]; [by rewrite (proj2 (Z.ltb_ge 0 memory) Hle)|].
  rewrite (proj2 (Z.ltb_lt 0 memory) Hpos). unfold bind at 1. rewrite standard_needed.
  fold standard_needed_bytes. cbn [andb].
  destruct (Z.leb_spec standard_needed_bytes memory) as [Hfit|Hlarge].
  2:{ rewrite (proj2 (Z.ltb_lt _ _) Hlarge). unfold bind.
      destruct (estimate_standard) as [n ->]. done. }
  rewrite (proj2 (Z.ltb_ge _ _) Hfit). unfold ret at 1. unfold ret at 1. unfold bind at 1.
  rewrite (mmapM_run _ (fun _ => standard_plan)).
  2:{ intros x Hx. apply list_elem_of_singleton in Hx as ->. by apply config_worker_standard. }
  unfold bind at 1. cbn [fmap list_fmap py_min foldl of_result]. unfold ret at 1.
  cbn [p_num_blocks standard_plan].
  rewrite (mmapM_run _ (fun _ => standard_plan)); [done|].
  intros x Hx. apply list_elem_of_singleton in Hx as ->. apply shrink_standard.
  pose proof (planned_positive Hfit). pose proof request_blocks_positive. lia.
Qed.

Lemma start_up_standard :
  Planning.start_up [standard_layers] [memory] cp =
    if (0 <? memory) && (standard_needed_bytes <=? memory)
    then Ret ([standard_plan], standard_scheduler_config, (a_block_size a, a_block_size a))
           (set_cache_block_size (a_block_size a) cp)
    else Raise ValueError cp.
Proof using Hm.
  unfold Planning.start_up, _initialize_kv_caches. unfold bind at 1. unfold bind at 1.
  assert (Hkv : existsb (fun s => negb (is_empty s)) [standard_layers] = true).
  { simpl. destruct specs_cons as [k Hk]. by destruct standard_layers. }
  rewrite Hkv. unfold bind at 1. cbn [head of_option]. unfold ret at 1 2. unfold bind at 1.
  change (assert (len [standard_layers] =? len [memory]) cp) with (@Ret Config unit tt cp).
  unfold bind at 1. rewrite configs_standard.
  destruct ((0 <? memory) && (standard_needed_bytes <=? memory))%bool; [|done].
  unfold bind at 1. unfold generate_scheduler_kv_cache_config.
  cbn [forallb]. rewrite Z.eqb_refl. unfold bind at 1, assert, ret at 1.
  cbn [andb mmapM p_groups standard_plan]. unfold bind, scheduler_group, ret, modify, get. simpl.
  unfold resolve_kv_cache_block_sizes, bind, get, ret. simpl.
  rewrite (sm_dcp Hm), (sm_pcp Hm), !Z.mul_1_r. done.
Qed.
End start_up.

(** ** The engine of a plan *)

Lemma standard_manager_init `{HashEnv} config g max_len mb caching eagle log :
  kv_cache_groups config = [g] -> 0 < num_blocks config ->
  Manager.spec_manager_map (kv_cache_spec g) = Some FullAttentionManager ->
  exists kv, KVCacheManager.init config max_len (block_size (kv_cache_spec g)) mb caching eagle log false 1 1
    = inr kv.
Proof.
  intros Hgs Hnum Hmap.
  unfold KVCacheManager.init, Coordinator.get_kv_cache_coordinator, Coordinator.init. rewrite Hgs.
  destruct (pool_init_spec (num_blocks config) caching (block_size (kv_cache_spec g)) false Hnum)
    as (q & Hq & _).
  assert (Hmk : forall n, exists m, Coordinator.make_managers [g] n max_len caching 0 1 1 q = Ret [m] q).
  { intros n. unfold Coordinator.make_managers, Manager.get_manager_for_kv_cache_spec, bind, ret.
    rewrite Hmap. destruct (kv_cache_spec g); try done; eexists; reflexivity. }
  destruct (Hmk (default max_len mb)) as [m Hm].
  change (len [g] =? 1) with true. destruct caching; cbn [negb]; cbv iota; rewrite Hq, Hm;
    [|by eexists].
  rewrite Z.eqb_refl. by eexists.
Qed.

Section engine.
Context `{Torch} `{HashEnv} `{SetIter} `{StrSetIter}.
Context (hash_function : bytes * list Z * option (list extra_key) -> bytes) (NONE_HASH : bytes).

(** C9. A standard model starts, or is refused for lack of memory, and nothing else:
    when all layers have full attention of one specification, start-up raises
    [ValueError] exactly if one request of [max_model_len] tokens does not fit the
    memory.  Otherwise it plans one group of all layers with one tensor per layer and as
    many blocks as fit the memory, resolves both block sizes to the layers' block size,
    and the cache manager built from this configuration is the initial state of an
    engine the theorems about the busy loop apply to. *)
Theorem standard_model_starts a f names cp p memory sc size cap use_spec_decode timeout mb caching eagle log
    (Hm : standard_model a f names cp p)
    (Hcf : collision_free hash_function NONE_HASH) (Hcap : 0 <= cap)
    (Hlen : Scheduler.max_model_len sc = max_model_len (Planning.vllm cp)) :
  let needed := len names * p * cdiv (max_model_len (Planning.vllm cp)) (a_block_size a) in
  match Planning.start_up [standard_layers a f names] [memory] cp with
  | Raise e cp' => e = ValueError /\ cp' = cp /\ (memory <= 0 \/ memory < needed)
  | Ret (plans, cfg, (scheduler_block_size, hash_block_size)) cp' =>
      0 < memory /\ needed <= memory /\
      cp' = Planning.set_cache_block_size (a_block_size a) cp /\
      (exists plan, plans = [plan]) /\ num_blocks cfg = memory / p / len names /\
      kv_cache_groups cfg = [{| layer_names := names; kv_cache_spec := FullAttentionSpec a f;
                                is_eagle_group := false |}] /\
      (CacheSpec.size <$> kv_cache_tensors cfg) = replicate (length names) (p * num_blocks cfg) /\
      scheduler_block_size = a_block_size a /\ hash_block_size = a_block_size a /\
      exists kv, KVCacheManager.init cfg (Scheduler.max_model_len sc) hash_block_size mb caching eagle log
                   false 1 1 = inr kv /\
        forall Hbs : 0 < a_block_size a,
        real_reachable hash_function NONE_HASH cfg caching (a_block_size a) cap size sc use_spec_decode Hcf Hbs
          timeout (engine_init sc kv (EncoderCacheManager.init cap))
  end.
Proof.
  intros needed. rewrite (start_up_standard a f names cp p memory Hm).
  unfold standard_needed_bytes, request_blocks. fold needed.
  pose proof (planned_positive a f names cp p memory Hm) as Hplanned.
  pose proof (request_blocks_positive a f names cp p Hm) as Hblocks.
  unfold request_blocks, planned_blocks, standard_needed_bytes, request_blocks in *. fold needed in Hplanned.
  destruct (Z.ltb_spec 0 memory) as [Hpos|Hneg]; [|by split; [|split; [|left]]].
  destruct (Z.leb_spec needed memory) as [Hfit|Hlarge]; [|by split; [|split; [|right]]].
  specialize (Hplanned Hfit). simpl.
  split; [done|]. split; [done|]. split; [done|]. split; [by eexists|]. split; [done|]. split; [done|].
  split.
  { rewrite <- list_fmap_compose. unfold compose. simpl. rewrite fmap_const_replicate. f_equal.
    unfold py_range, len. rewrite length_fmap, length_seq. lia. }
  split; [done|]. split; [done|].
  set (cfg := standard_scheduler_config a f names p memory).
  assert (Hnum : 0 < num_blocks cfg) by (unfold cfg; simpl; unfold planned_blocks; lia).
  destruct (standard_manager_init cfg _ (Scheduler.max_model_len sc) mb caching eagle log eq_refl Hnum eq_refl)
    as [kv Hkv].
  exists kv. split; [exact Hkv|]. intros Hbs.
  by apply (real_start hash_function NONE_HASH cfg caching (a_block_size a) cap size sc use_spec_decode Hcf Hbs
           timeout kv _ mb eagle log eq_refl Hnum eq_refl eq_refl Hcap).
Qed.
End engine.

(** ** Witnesses and an example *)

#[local] Existing Instance demo_torch.
#[local] Existing Instance demo_env.
#[local] Existing Instance some_iter.
#[local] Existing Instance str_dups_iter.

Definition short_attn : AttentionSpec := demo_plan_attn 2.
Definition short_fields : FullFields :=
  {| f_head_size_v := 64; f_sliding_window := None; f_attention_chunk_size := None |}.
Definition short_names : list string := ["layer.0"; "layer.1"]%string.

(** Two layers of pages of 1024 bytes. *)
Lemma short_model : standard_model short_attn short_fields short_names (demo_plan_config 32 32 None) 1024.
Proof.
  split; try done; try (vm_compute; done).
  apply (bool_decide_unpack _). vm_compute. exact I.
Qed.

Lemma standard_model_starts_witness :
  exists plans cfg, Planning.start_up [standard_layers short_attn short_fields short_names] [40000]
    (demo_plan_config 32 32 None)
    = Ret (plans, cfg, (2, 2)) (Planning.set_cache_block_size 2 (demo_plan_config 32 32 None)) /\
    num_blocks cfg = 19.
Proof.
  pose proof (standard_model_starts demo_hash demo_none_hash short_attn short_fields short_names
    (demo_plan_config 32 32 None) 1024 40000 loop_config loop_size 8 false 0 None true false true
    short_model demo_collision_free ltac:(lia) eq_refl) as Hs. cbv zeta in Hs.
  destruct (Planning.start_up _ _ _) as [[[plans cfg] [sb hb]] cp'|e cp'] eqn:E.
  - destruct Hs as (_ & _ & -> & _ & Hn & _ & _ & -> & -> & _). exists plans, cfg. split; [done|exact Hn].
  - destruct Hs as (_ & _ & [Hs|Hs]); vm_compute in Hs; by destruct Hs.
Defined.

(** Memory for three blocks; the length is fitted to it. *)
Definition starving_config : Planning.Config := demo_plan_config 100 (-1) None.
Definition starving_layers : list (string * KVCacheSpec) :=
  standard_layers short_attn short_fields ["layer.0"%string].

Definition starving_scheduler : Scheduler.Config := {|
  Scheduler.policy := FCFS; Scheduler.max_num_running_reqs := 2; Scheduler.max_num_scheduled_tokens := 8;
  Scheduler.max_model_len := 6; Scheduler.long_prefill_token_threshold := 0;
  Scheduler.enable_chunked_prefill := true; Scheduler.max_loras := None; Scheduler.use_eagle := false;
  Scheduler.num_spec_tokens := 0; Scheduler.num_lookahead_tokens := 0;
  Scheduler.scheduler_reserve_full_isl := true; Scheduler.mamba_block_size := None;
  Scheduler.max_num_encoder_input_tokens := 0;
  Scheduler.encoder_config := {| is_encoder_decoder := false; no_chunked_mm_input := false;
                                 ec_has_cache_item := None |};
  Scheduler.needs_kv_cache_zeroing := true; Scheduler.num_kv_cache_groups := 1;
  Scheduler.async_scheduling := false; Scheduler.use_pp := false;
  Scheduler.use_v2_model_runner := false; Scheduler.log_stats := false |}.

Definition starving_start (cfg : KVCacheConfig) : option real_engine :=
  match KVCacheManager.init cfg 6 2 (Some 8) true false false false 1 1 with
  | inr kv => Some (engine_init starving_scheduler kv (EncoderCacheManager.init 8))
  | inl _ => None
  end.

Definition starving_step (arrived : list EngineCoreProc.client_request) : M real_engine bool :=
  real_iteration demo_hash demo_none_hash true 2 starving_scheduler false 0 arrived loop_world.

Definition starving_plan : outcome Planning.Config (list Planning.plan * KVCacheConfig * (Z * Z)) :=
  Planning.start_up [starving_layers] [3 * 1024] starving_config.

(** The loop without new requests. *)
Fixpoint starving_idle (n : nat) (e : real_engine) : option real_engine :=
  match n with
  | O => Some e
  | S n => match starving_step [] e with Ret true e' => starving_idle n e' | _ => None end
  end.

(** The engine after the first iteration, in which the request arrives. *)
Definition starving_first : option real_engine :=
  match starving_plan with
  | Ret (_, cfg, _) _ =>
      match starving_start cfg with
      | Some e => match starving_step [EngineCoreProc.ADD loop_request] e with
                  | Ret true e' => Some e'
                  | _ => None
                  end
      | None => None
      end
  | _ => None
  end.

Definition starving_scheduler_of (e : real_engine) : Scheduler.t :=
  EngineCore.scheduler (EngineCoreProc.core e).

Lemma starving_fixed :
  match starving_first with
  | Some e => starving_step [] e = Ret true e /\
              Scheduler.get_num_unfinished_requests (starving_scheduler_of e) = 1 /\
              Scheduler.running (starving_scheduler_of e) = []
  | None => False
  end.
Proof. vm_compute. repeat split. Qed.

Lemma starving_idle_fixed n e : starving_step [] e = Ret true e -> starving_idle n e = Some e.
Proof. intros He. induction n as [|n IH]; [done|]. cbn [starving_idle]. by rewrite He. Qed.

(** C21. Memory planning counts the null block as if a request could use it.  With memory
    for three blocks the length fitted automatically is that of three blocks (6 tokens of
    blocks of 2), and a request of five prompt tokens is within it; but only two of the
    blocks can be handed out, so the engine started from this plan leaves the request
    waiting in every later iteration, without any other request or error. *)
Theorem longest_request_starves :
  (exists plan cfg cp', starving_plan = Ret (plan, cfg, (2, 2)) cp' /\
     num_blocks cfg = 3 /\ max_model_len (Planning.vllm cp') = 6) /\
  num_tokens loop_request = 5 /\
  forall n, exists e, (starving_first ≫= starving_idle n) = Some e /\
    Scheduler.get_num_unfinished_requests (starving_scheduler_of e) = 1 /\
    Scheduler.running (starving_scheduler_of e) = [].
Proof.
  split; [do 3 eexists; vm_compute; repeat split|]. split; [reflexivity|].
  intros n. pose proof starving_fixed as Hfix.
  destruct starving_first as [e|]; [|done]. destruct Hfix as (Hstep & Hn & Hrun).
  exists e. split; [exact (starving_idle_fixed n e Hstep)|done].
Qed.
