(* ===== verification/BlockTable.v ===== *)
(** * Block tables and slot mapping

    Models v1/worker/block_table.py: the table that maps the blocks of every request of
    the batch to rows the kernels read, and the mapping of tokens to slots of the cache.
    Also [select_common_block_size] and [prepare_kernel_block_sizes] of
    v1/worker/utils.py, which choose the kernels' block size, and
    [get_dcp_local_seq_lens] of v1/attention/backends/utils.py.

    A numpy or torch tensor is the list of its rows, a fixed-width integer an unbounded
    one.  The Triton kernel's programs run one after the other and its chunks of
    [BLOCK_SIZE] offsets as one loop: they write disjoint offsets.  A load or store
    outside of a tensor, undefined on the device, is an [IndexError]. *)

From stdpp Require Import sorting.
From S2P Require Import Prelude CacheSpec Planning.
From stdpp Require Import options.

(** ** Arrays *)

(** [a[i]] *)
Definition np_at {A} (l : list A) (i : Z) : exn + A :=
  match py_index l i with Some x => inr x | None => inl IndexError end.

(** [a[i] = v] *)
Definition np_put {A} (i : Z) (v : A) (l : list A) : exn + list A :=
  let j := if i <? 0 then i + len l else i in
  if ((j <? 0) || (len l <=? j))%bool then inl IndexError else inr (<[Z.to_nat j := v]> l).

(** [a[lo:hi] = vals]: as many values as cells, or one for all of them *)
Definition np_write {A} (lo hi : Z) (vals l : list A) : exn + list A :=
  let lo := slice_bound (len l) lo in
  let hi := Z.max lo (slice_bound (len l) hi) in
  let write vs := inr (take (Z.to_nat lo) l ++ vs ++ drop (Z.to_nat hi) l) in
  if len vals =? hi - lo then write vals
  else match vals with
       | [v] => write (py_repeat v (hi - lo))
       | _ => inl ValueError
       end.

Definition PAD_SLOT_ID : Z := -1.

Module BlockTable.

(** What [__init__] fixes. *)
Record Config := {
  max_num_reqs : Z;
  max_num_batched_tokens : Z;
  block_size : Z;  (** of the kernels *)
  blocks_per_kv_block : Z;
  use_hybrid_blocks : bool;
  max_num_blocks_per_req : Z;
  pcp_world_size : Z;
  pcp_rank : Z;
  dcp_world_size : Z;
  dcp_rank : Z;
  cp_kv_cache_interleave_size : Z;
}.

(** [block_table] is a [CpuGpuBuffer]: the host's rows and the device's.  Of
    [slot_mapping] only the device's copy is used. *)
Record t := Mk {
  cfg : Config;
  block_table : list (list Z);
  block_table_gpu : list (list Z);
  num_blocks_per_row : list Z;
  slot_mapping : list Z;
}.

Definition set_table (b : list (list Z)) (s : t) : t :=
  Mk (cfg s) b (block_table_gpu s) (num_blocks_per_row s) (slot_mapping s).
Definition set_gpu (b : list (list Z)) (s : t) : t :=
  Mk (cfg s) (block_table s) b (num_blocks_per_row s) (slot_mapping s).
Definition set_num (n : list Z) (s : t) : t :=
  Mk (cfg s) (block_table s) (block_table_gpu s) n (slot_mapping s).
Definition set_slots (l : list Z) (s : t) : t :=
  Mk (cfg s) (block_table s) (block_table_gpu s) (num_blocks_per_row s) l.

(** [torch.zeros(rows, columns)] *)
Definition zeros (rows columns : Z) : list (list Z) := py_repeat (py_repeat 0 columns) rows.

(** [block_size]: of the kernels; the arguments at the end are those of the two process
    groups and the interleaving. *)
Definition make (block_size blocks_per_kv_block : Z) (use_hybrid_blocks : bool)
    (max_num_reqs max_num_blocks_per_req max_num_batched_tokens
     pcp_world_size pcp_rank dcp_world_size dcp_rank interleave : Z) : t :=
  let width := max_num_blocks_per_req * blocks_per_kv_block in
  Mk {| max_num_reqs := max_num_reqs; max_num_batched_tokens := max_num_batched_tokens;
        block_size := block_size; blocks_per_kv_block := blocks_per_kv_block;
        use_hybrid_blocks := use_hybrid_blocks; max_num_blocks_per_req := width;
        pcp_world_size := pcp_world_size; pcp_rank := pcp_rank; dcp_world_size := dcp_world_size;
        dcp_rank := dcp_rank; cp_kv_cache_interleave_size := interleave |}
     (zeros max_num_reqs width) (zeros max_num_reqs width) (py_repeat 0 max_num_reqs)
     (py_repeat 0 max_num_batched_tokens).

Definition init (kv_block_size max_num_reqs max_num_blocks_per_req max_num_batched_tokens
    kernel_block_size pcp_world_size pcp_rank dcp_world_size dcp_rank interleave : Z) : exn + t :=
  let table ratio hybrid :=
    make kernel_block_size ratio hybrid max_num_reqs max_num_blocks_per_req max_num_batched_tokens
      pcp_world_size pcp_rank dcp_world_size dcp_rank interleave in
  if kernel_block_size =? kv_block_size then inr (table 1 false)
  else if kernel_block_size =? 0 then inl ZeroDivisionError
  else if negb (kv_block_size mod kernel_block_size =? 0) then inl ValueError
  else inr (table (kv_block_size / kernel_block_size) true).

(** ** Rows *)

Definition map_to_kernel_blocks (kv_manager_block_ids : list Z) (blocks_per_kv_block : Z) : list Z :=
  if blocks_per_kv_block =? 1 then kv_manager_block_ids
  else kv_manager_block_ids ≫= (fun b =>
         (fun k => b * blocks_per_kv_block + k) <$> py_range 0 blocks_per_kv_block).

Definition kernel_ids (c : Config) (block_ids : list Z) : list Z :=
  if use_hybrid_blocks c then map_to_kernel_blocks block_ids (blocks_per_kv_block c) else block_ids.

(** [self.block_table.np[row_idx, lo:hi] = vals] *)
Definition write_row (row_idx lo hi : Z) (vals : list Z) : M t unit :=
  s <- get ;;
  row <- of_result (np_at (block_table s) row_idx) ;;
  row' <- of_result (np_write lo hi vals row) ;;
  b <- of_result (np_put row_idx row' (block_table s)) ;;
  put (set_table b s).

Definition set_num_blocks (row_idx n : Z) : M t unit :=
  s <- get ;;
  l <- of_result (np_put row_idx n (num_blocks_per_row s)) ;;
  put (set_num l s).

Definition append_row (block_ids : list Z) (row_idx : Z) : M t unit :=
  match block_ids with
  | [] => ret tt
  | _ =>
      s <- get ;;
      let block_ids := kernel_ids (cfg s) block_ids in
      let num_blocks := len block_ids in
      start <- of_result (np_at (num_blocks_per_row s) row_idx) ;;
      set_num_blocks row_idx (start + num_blocks) ;;;
      write_row row_idx start (start + num_blocks) block_ids
  end.

Definition add_row (block_ids : list Z) (row_idx : Z) : M t unit :=
  set_num_blocks row_idx 0 ;;; append_row block_ids row_idx.

Definition clear_row (row_idx : Z) : M t unit :=
  s <- get ;;
  num_blocks <- of_result (np_at (num_blocks_per_row s) row_idx) ;;
  (if 0 <? num_blocks then write_row row_idx 0 num_blocks [0] else ret tt) ;;;
  set_num_blocks row_idx 0.

Definition move_row (src tgt : Z) : M t unit :=
  s <- get ;;
  num_blocks <- of_result (np_at (num_blocks_per_row s) src) ;;
  row <- of_result (np_at (block_table s) src) ;;
  write_row tgt 0 num_blocks (py_take row num_blocks) ;;;
  set_num_blocks tgt num_blocks.

(** [a[[src, tgt]] = a[[tgt, src]]] *)
Definition np_swap {A} (src tgt : Z) (l : list A) : exn + list A :=
  match np_at l tgt, np_at l src with
  | inr x, inr y =>
      match np_put src x l with inr l => np_put tgt y l | inl e => inl e end
  | inl e, _ | _, inl e => inl e
  end.

Definition swap_row (src tgt : Z) : M t unit :=
  s <- get ;;
  n <- of_result (np_swap src tgt (num_blocks_per_row s)) ;;
  put (set_num n s) ;;;
  b <- of_result (np_swap src tgt (block_table s)) ;;
  modify (set_table b).

(** [CpuGpuBuffer.copy_to_gpu] *)
Definition commit_block_table (num_reqs : Z) : M t unit :=
  modify (fun s => set_gpu (py_take (block_table s) num_reqs ++ py_drop (block_table_gpu s) num_reqs) s).

Definition clear : M t unit :=
  modify (fun s =>
    let zero (l : list (list Z)) := (fun row : list Z => (fun _ => 0) <$> row) <$> l in
    set_table (zero (block_table s)) (set_gpu (zero (block_table_gpu s)) s)).

(** ** Slots *)

Definition total_cp_world_size (c : Config) : Z := pcp_world_size c * dcp_world_size c.
Definition total_cp_rank (c : Config) : Z := pcp_rank c * dcp_world_size c + dcp_rank c.

Section slots.
Context (block_size TOTAL_CP_WORLD_SIZE TOTAL_CP_RANK CP_KV_CACHE_INTERLEAVE_SIZE : Z).

Definition virtual_block_size : Z := block_size * TOTAL_CP_WORLD_SIZE.

Definition is_local (virtual_block_offsets : Z) : bool :=
  (virtual_block_offsets / CP_KV_CACHE_INTERLEAVE_SIZE) mod TOTAL_CP_WORLD_SIZE =? TOTAL_CP_RANK.

Definition local_block_offsets (virtual_block_offsets : Z) : Z :=
  virtual_block_offsets / (TOTAL_CP_WORLD_SIZE * CP_KV_CACHE_INTERLEAVE_SIZE)
    * CP_KV_CACHE_INTERLEAVE_SIZE
  + virtual_block_offsets mod CP_KV_CACHE_INTERLEAVE_SIZE.

(** The slot of position [pos] whose kernel block is [block_number]. *)
Definition slot_id (block_number pos : Z) : Z :=
  let virtual_block_offsets := pos - pos / virtual_block_size * virtual_block_size in
  if is_local virtual_block_offsets
  then block_number * block_size + local_block_offsets virtual_block_offsets
  else PAD_SLOT_ID.

(** The token at [offset] in the program of request [req_idx]. *)
Definition token_slot (table : list (list Z)) (stride : Z) (positions : list Z)
    (req_idx offset : Z) : exn + Z :=
  match np_at positions offset with
  | inl e => inl e
  | inr pos =>
      match concat table !! Z.to_nat (req_idx * stride + pos / virtual_block_size) with
      | Some block_number => inr (slot_id block_number pos)
      | None => inl IndexError
      end
  end.
End slots.

Definition store_slot (offset slot : Z) : M t unit :=
  s <- get ;; l <- of_result (np_put offset slot (slot_mapping s)) ;; put (set_slots l s).

(** One program of [_compute_slot_mapping_kernel]. *)
Definition slot_program (num_reqs : Z) (query_start_loc positions : list Z) (req_idx : Z) : M t unit :=
  s <- get ;;
  let c := cfg s in
  if req_idx =? num_reqs then
    mfor (py_range (len positions) (max_num_batched_tokens c)) (fun offset => store_slot offset PAD_SLOT_ID)
  else
    start_idx <- of_result (np_at query_start_loc req_idx) ;;
    end_idx <- of_result (np_at query_start_loc (req_idx + 1)) ;;
    mfor (py_range start_idx end_idx) (fun offset =>
      slot <- of_result (token_slot (block_size c) (total_cp_world_size c) (total_cp_rank c)
                           (cp_kv_cache_interleave_size c) (block_table_gpu s)
                           (max_num_blocks_per_req c) positions req_idx offset) ;;
      store_slot offset slot).

Definition compute_slot_mapping (num_reqs : Z) (query_start_loc positions : list Z) : M t unit :=
  mfor (py_range 0 (num_reqs + 1)) (slot_program num_reqs query_start_loc positions).

End BlockTable.

(** ** One table per KV-cache group *)

Module MultiGroupBlockTable.

Definition t := list BlockTable.t.

(** The [i]-th table handles the [i]-th argument. *)
Fixpoint each {A} (args : list A) (f : A -> M BlockTable.t unit) (tables : t) : outcome t unit :=
  match tables with
  | [] => Ret tt []
  | s :: tables =>
      match args with
      | [] => Raise IndexError (s :: tables)
      | a :: args =>
          match f a s with
          | Raise e s => Raise e (s :: tables)
          | Ret _ s =>
              match each args f tables with
              | Ret _ tables => Ret tt (s :: tables)
              | Raise e tables => Raise e (s :: tables)
              end
          end
      end
  end.

(** The same call for all tables. *)
Definition all (m : M BlockTable.t unit) : M t unit := fun tables =>
  each ((fun _ => tt) <$> tables) (fun _ => m) tables.

Definition init (max_num_reqs max_model_len max_num_batched_tokens : Z)
    (block_sizes kernel_block_sizes : list Z) (max_num_blocks : option (list Z))
    (pcp_world_size pcp_rank dcp_world_size dcp_rank interleave : Z) : exn + t :=
  if negb (len kernel_block_sizes =? len block_sizes) then inl ValueError
  else
    let total_cp_world_size := dcp_world_size * pcp_world_size in
    let max_num_blocks :=
      default ((fun block_size => cdiv max_model_len (block_size * total_cp_world_size)) <$> block_sizes)
        max_num_blocks in
    if negb (len max_num_blocks =? len block_sizes) then inl ValueError
    else all_results ((fun x : Z * Z * Z =>
           BlockTable.init x.1.1 max_num_reqs x.2 max_num_batched_tokens x.1.2
             pcp_world_size pcp_rank dcp_world_size dcp_rank interleave)
           <$> zip (zip block_sizes kernel_block_sizes) max_num_blocks).

Definition append_row (block_ids : list (list Z)) (row_idx : Z) : M t unit :=
  each block_ids (fun ids => BlockTable.append_row ids row_idx).
Definition add_row (block_ids : list (list Z)) (row_idx : Z) : M t unit :=
  each block_ids (fun ids => BlockTable.add_row ids row_idx).
Definition clear_row (row_idx : Z) : M t unit := all (BlockTable.clear_row row_idx).
Definition move_row (src tgt : Z) : M t unit := all (BlockTable.move_row src tgt).
Definition swap_row (src tgt : Z) : M t unit := all (BlockTable.swap_row src tgt).
Definition compute_slot_mapping (num_reqs : Z) (query_start_loc positions : list Z) : M t unit :=
  all (BlockTable.compute_slot_mapping num_reqs query_start_loc positions).
Definition commit_block_table (num_reqs : Z) : M t unit := all (BlockTable.commit_block_table num_reqs).
Definition clear : M t unit := all BlockTable.clear.

End MultiGroupBlockTable.

(** ** The kernels' block size *)

(** An [int] or [MultipleOf(base)]; what [get_supported_kernel_block_sizes] lists. *)
Inductive supported_size := Int (n : Z) | MultipleOf (base : Z).

Definition size_matches (block_size : Z) (s : supported_size) : bool :=
  match s with
  | Int n => block_size =? n
  | MultipleOf base => block_size mod base =? 0
  end.

Definition block_size_is_supported (backends : list (list supported_size)) (block_size : Z) : bool :=
  forallb (existsb (size_matches block_size)) backends.

Definition int_sizes (backends : list (list supported_size)) : list Z :=
  concat backends ≫= (fun s => match s with Int n => [n] | MultipleOf _ => [] end).

(** [sorted(set(l), reverse=True)] *)
Definition sorted_desc (l : list Z) : list Z := rev (merge_sort Z.le (remove_dups l)).

Fixpoint first_supported (kv_manager_block_size : Z) (backends : list (list supported_size))
    (sizes : list Z) : exn + Z :=
  match sizes with
  | [] => inl ValueError
  | supported_size :: sizes =>
      if supported_size =? 0 then inl ZeroDivisionError
      else if negb (kv_manager_block_size mod supported_size =? 0)
      then first_supported kv_manager_block_size backends sizes
      else if block_size_is_supported backends supported_size then inr supported_size
      else first_supported kv_manager_block_size backends sizes
  end.

Definition select_common_block_size (kv_manager_block_size : Z)
    (backends : list (list supported_size)) : exn + Z :=
  if block_size_is_supported backends kv_manager_block_size then inr kv_manager_block_size
  else first_supported kv_manager_block_size backends (sorted_desc (int_sizes backends)).

(** The kernel block size of a group, [None] for encoder-only layers.  All layers of a
    group that is not merged have the same type, the first one decides. *)
Definition kernel_block_size_of (g : Planning.group) (attn_group : option (list (list supported_size)))
  : exn + option Z :=
  let first := match Planning.g_spec g with
               | Planning.One s => inr (s, CacheSpec.block_size s)
               | Planning.Uniform u =>
                   match (u_kv_cache_specs u).*2 with
                   | s :: _ => inr (s, u_block_size u)
                   | [] => inl StopIteration
                   end
               end in
  match first with
  | inl e => inl e
  | inr (EncoderOnlyAttentionSpec _, _) => inr None
  | inr (MambaSpec m, _) => inr (Some (m_block_size m))
  | inr (_, kv_manager_block_size) =>
      match attn_group with
      | None => inl IndexError
      | Some group_backends =>
          match select_common_block_size kv_manager_block_size group_backends with
          | inr n => inr (Some n)
          | inl e => inl e
          end
      end
  end.

(** [attn_groups]: the kernel block sizes the backends of each group support. *)
Definition prepare_kernel_block_sizes (groups : list Planning.group)
    (attn_groups : list (list (list supported_size))) : exn + list Z :=
  match all_results (imap (fun i g => kernel_block_size_of g (attn_groups !! i)) groups) with
  | inr l => inr (omap id l)
  | inl e => inl e
  end.

(** ** Lengths under context parallelism *)

(** [torch.clip(x, lo, hi)] *)
Definition clip (x lo hi : Z) : Z := Z.min (Z.max x lo) hi.

(** One element of [get_dcp_local_seq_lens]. *)
Definition dcp_local_seq_len (seq_len dcp_size dcp_rank cp_kv_cache_interleave_size : Z) : Z :=
  let base := seq_len / cp_kv_cache_interleave_size / dcp_size * cp_kv_cache_interleave_size in
  let remainder := seq_len - base * dcp_size in
  base + clip (remainder - dcp_rank * cp_kv_cache_interleave_size) 0 cp_kv_cache_interleave_size.

Definition get_dcp_local_seq_lens (seq_lens : list Z) (dcp_size : Z) (dcp_rank : option Z)
    (cp_kv_cache_interleave_size : Z) : list (list Z) :=
  let rank_offsets := match dcp_rank with None => py_range 0 dcp_size | Some r => [r] end in
  (fun n => (fun r => dcp_local_seq_len n dcp_size r cp_kv_cache_interleave_size) <$> rank_offsets)
    <$> seq_lens.
