(* ===== verification/SlotMapping.v ===== *)
(** * Slots: what the block tables promise

    The rows of a table follow the calls; the slot of a token lies in the block of its
    position; under context parallelism every token is stored by exactly one rank and
    the local lengths count them; the kernels' block size is the best one possible. *)

From stdpp Require Import sorting.
From S2P Require Import Prelude CacheSpec Planning BlockTable.
From stdpp Require Import options.

#[local] Set Default Proof Using "Type*".

(** ** The kernels' block size *)

Section kernel_size.
Context (kv_manager_block_size : Z) (backends : list (list supported_size)).

Definition size_positive (s : supported_size) : Prop :=
  match s with Int n | MultipleOf n => 0 < n end.

Hypothesis Hkv : 0 < kv_manager_block_size.
Hypothesis Hpos : Forall (Forall size_positive) backends.

(** A size the backends support that divides the manager's. *)
Definition usable_size (b : Z) : Prop :=
  0 < b /\ (b | kv_manager_block_size) /\ block_size_is_supported backends b = true.

Lemma int_sizes_elem b : b ∈ int_sizes backends <-> exists l, l ∈ backends /\ Int b ∈ l.
Proof using Type.
  unfold int_sizes. rewrite list_elem_of_bind. split.
  - intros ([n|n] & Hb & Hin); [|by apply not_elem_of_nil in Hb].
    apply list_elem_of_singleton in Hb as ->. apply elem_of_concat in Hin as (l & ? & ?). eauto.
  - intros (l & Hl & Hb). exists (Int b). split; [by apply list_elem_of_singleton|].
    apply elem_of_concat. eauto.
Qed.

(** A usable size that no backend lists as an int is a multiple of a base everywhere, and
    so is the manager's size. *)
Lemma usable_listed b :
  block_size_is_supported backends kv_manager_block_size = false -> usable_size b ->
  b ∈ int_sizes backends.
Proof using Hpos.
  intros Hno (Hb & Hdiv & Hsup). destruct (decide (b ∈ int_sizes backends)) as [|Hin]; [done|].
  assert (block_size_is_supported backends kv_manager_block_size = true) as Hyes; [|congruence].
  apply forallb_forall. intros l Hl. unfold block_size_is_supported in Hsup.
  rewrite forallb_forall in Hsup. specialize (Hsup l Hl). apply existsb_exists in Hsup as (x & Hx & Hm).
  apply list_elem_of_In in Hl, Hx. apply existsb_exists. exists x. split; [by apply list_elem_of_In|].
  destruct x as [n|base]; simpl in *.
  - apply Z.eqb_eq in Hm. subst n. destruct Hin. apply int_sizes_elem. eauto.
  - rewrite Forall_forall in Hpos. specialize (Hpos l Hl). rewrite Forall_forall in Hpos.
    specialize (Hpos _ Hx). simpl in Hpos. apply Z.eqb_eq in Hm. apply Z.eqb_eq.
    apply Z.mod_divide in Hm; [|lia]. apply Z.mod_divide; [lia|]. by transitivity b.
Qed.

Lemma first_supported_spec l :
  StronglySorted (fun x y => y <= x) l -> Forall (fun x => 0 < x) l ->
  match first_supported kv_manager_block_size backends l with
  | inr n => n ∈ l /\ usable_size n /\ forall b, b ∈ l -> usable_size b -> b <= n
  | inl e => e = ValueError /\ forall b, b ∈ l -> ~ usable_size b
  end.
Proof using Type.
  induction l as [|x l IH]; intros Hs Hp; simpl.
  { split; [done|]. intros b []%not_elem_of_nil. }
  inversion Hs as [|? ? Hs' Hx]; subst. inversion Hp as [|? ? Hx0 Hp']; subst.
  rewrite Forall_forall in Hx. specialize (IH Hs' Hp').
  rewrite (proj2 (Z.eqb_neq x 0)) by lia.
  assert (forall b, usable_size b -> b = x -> usable_size x) as Hsub by (by intros ? ? ->).
  destruct (Z.eqb_spec (kv_manager_block_size mod x) 0) as [Hm|Hm]; simpl.
  - destruct (block_size_is_supported backends x) eqn:Esup.
    + split; [by left|]. split.
      { split; [done|]. split; [|done]. apply Z.mod_divide; [lia|done]. }
      intros b [->|Hb]%elem_of_cons _; [lia|]. by apply Hx.
    + destruct (first_supported _ _ l).
      * destruct IH as [-> IH]. split; [done|]. intros b [->|Hb]%elem_of_cons Hu; [|by apply (IH b)].
        destruct Hu as (_ & _ & Hu). congruence.
      * destruct IH as (Hin & Hu & IH). split; [by right|]. split; [done|].
        intros b [->|Hb]%elem_of_cons Hub; [|by apply IH]. destruct Hub as (_ & _ & Hub). congruence.
  - assert (~ usable_size x) as Hnx.
    { intros (_ & Hd & _). apply Hm. apply Z.mod_divide; [lia|done]. }
    destruct (first_supported _ _ l).
    + destruct IH as [-> IH]. split; [done|]. by intros b [->|Hb]%elem_of_cons Hu; [|apply (IH b)].
    + destruct IH as (Hin & Hu & IH). split; [by right|]. split; [done|].
      by intros b [->|Hb]%elem_of_cons Hub; [|apply IH].
Qed.

Lemma sorted_desc_sorted l : StronglySorted (fun x y => y <= x) (sorted_desc l).
Proof using Type.
  unfold sorted_desc. pose proof (StronglySorted_merge_sort Z.le (remove_dups l)) as Hs.
  induction Hs as [|x k _ IH Hx]; simpl; [constructor|].
  clear -IH Hx. apply Forall_rev in Hx. induction (rev k) as [|y k' IHk]; simpl.
  - constructor; constructor.
  - inversion IH; subst. inversion Hx; subst. constructor; [by apply IHk|].
    apply Forall_app. split; [done|]. constructor; [lia|done].
Qed.

Lemma sorted_desc_elem x l : x ∈ sorted_desc l <-> x ∈ l.
Proof using Type.
  unfold sorted_desc. rewrite <- (Permutation_rev (merge_sort Z.le _)), merge_sort_Permutation. apply elem_of_remove_dups.
Qed.

(** C24. The block size of the attention kernels is the largest size that divides the
    block size of the KV-cache manager and that all backends support; there is a
    [ValueError] exactly if no such size exists.  This is the argument of the comments
    in the source: only sizes listed as integers need to be tried. *)
Theorem common_block_size_best :
  match select_common_block_size kv_manager_block_size backends with
  | inr n => usable_size n /\ forall b, usable_size b -> b <= n
  | inl e => e = ValueError /\ forall b, ~ usable_size b
  end.
Proof using Hkv Hpos.
  unfold select_common_block_size. destruct (block_size_is_supported backends kv_manager_block_size) eqn:E.
  - split; [by split|]. intros b (? & Hd & _). by apply Z.divide_pos_le.
  - pose proof (first_supported_spec (sorted_desc (int_sizes backends)) (sorted_desc_sorted _)) as Hf.
    assert (Forall (fun x => 0 < x) (sorted_desc (int_sizes backends))) as Hall.
    { apply Forall_forall. intros x Hx. rewrite sorted_desc_elem, int_sizes_elem in Hx.
      destruct Hx as (l & Hl & Hx). rewrite Forall_forall in Hpos. specialize (Hpos l Hl).
      rewrite Forall_forall in Hpos. exact (Hpos _ Hx). }
    specialize (Hf Hall).
    assert (forall b, usable_size b -> b ∈ sorted_desc (int_sizes backends)) as Hin.
    { intros b Hb. apply sorted_desc_elem. by apply usable_listed. }
    destruct (first_supported _ _ _).
    + destruct Hf as [-> Hf]. split; [done|]. intros b Hb. by apply (Hf b); [apply Hin|].
    + destruct Hf as (_ & Hu & Hf). split; [done|]. intros b Hb. by apply Hf; [apply Hin|].
Qed.
End kernel_size.

(** ** Context parallelism *)

Section context_parallel.
Context (block_size N I : Z).
Hypothesis (Hbs : 0 < block_size) (HN : 0 < N) (HI : 0 < I) (Hdiv : (I | block_size)).

Let V : Z := BlockTable.virtual_block_size block_size N.

Lemma offset_mod pos : pos - pos / V * V = pos mod V.
Proof using Hbs HN. unfold V, BlockTable.virtual_block_size. rewrite Z.mod_eq by nia. lia. Qed.

(** A position of a virtual block: round [q], rank [k], place [r]. *)
Lemma offset_split v : 0 <= v < V ->
  exists q k r, v = (q * N + k) * I + r /\ 0 <= q /\ (q + 1) * I <= block_size /\ 0 <= k < N /\ 0 <= r < I /\
    BlockTable.local_block_offsets N I v = q * I + r /\
    forall rank, BlockTable.is_local N rank I v = true <-> rank = k.
Proof using Hbs HN HI Hdiv.
  intros Hv. unfold V, BlockTable.virtual_block_size in Hv.
  exists (v / I / N), ((v / I) mod N), (v mod I).
  pose proof (Z.div_mod v I ltac:(lia)) as E1. pose proof (Z.div_mod (v / I) N ltac:(lia)) as E2.
  pose proof (Z.mod_pos_bound v I HI). pose proof (Z.mod_pos_bound (v / I) N HN).
  assert (0 <= v / I) by (apply Z.div_pos; lia). assert (0 <= v / I / N) by (apply Z.div_pos; lia).
  split; [nia|]. split; [done|].
  assert (v / I / N < block_size / I) as Hq.
  { destruct Hdiv as [d ->]. rewrite Z.div_mul by lia. apply Z.div_lt_upper_bound; [done|].
    apply Z.div_lt_upper_bound; [done|]. nia. }
  split; [destruct Hdiv as [d ->]; rewrite Z.div_mul in Hq by lia; nia|].
  split; [done|]. split; [done|]. split.
  - unfold BlockTable.local_block_offsets. by rewrite (Z.mul_comm N I), <- Z.div_div by lia.
  - intros rank. unfold BlockTable.is_local. rewrite Z.eqb_eq. by split.
Qed.

(** Every token has exactly one rank; its place is inside the block; and no two tokens of
    a block have the same place on the same rank. *)
Lemma cp_partition pos : 0 <= pos ->
  0 <= BlockTable.local_block_offsets N I (pos mod V) < block_size /\
  exists k, 0 <= k < N /\ forall rank, BlockTable.is_local N rank I (pos mod V) = true <-> rank = k.
Proof using Hbs HN HI Hdiv.
  intros Hp. assert (0 < V) as HV by (unfold V, BlockTable.virtual_block_size; nia).
  destruct (offset_split (pos mod V)) as (q & k & r & _ & Hq & Hq' & Hk & Hr & -> & Hl); [by apply Z.mod_pos_bound|].
  split; [nia|]. by exists k.
Qed.

Lemma cp_injective pos pos' rank :
  BlockTable.is_local N rank I (pos mod V) = true -> BlockTable.is_local N rank I (pos' mod V) = true ->
  BlockTable.local_block_offsets N I (pos mod V) = BlockTable.local_block_offsets N I (pos' mod V) ->
  pos mod V = pos' mod V.
Proof using Hbs HN HI Hdiv.
  assert (0 < V) as HV by (unfold V, BlockTable.virtual_block_size; nia).
  destruct (offset_split (pos mod V)) as (q & k & r & -> & Hq & _ & Hk & Hr & -> & ->); [by apply Z.mod_pos_bound|].
  destruct (offset_split (pos' mod V)) as (q' & k' & r' & -> & Hq' & _ & Hk' & Hr' & -> & ->); [by apply Z.mod_pos_bound|].
  intros -> -> E. assert (q = q') by nia. subst. nia.
Qed.

Lemma rank_of_position pos rank : 0 <= pos ->
  BlockTable.is_local N rank I (pos mod V) = ((pos / I) mod N =? rank).
Proof using Hbs HN HI Hdiv.
  intros Hp. unfold BlockTable.is_local. f_equal. unfold V, BlockTable.virtual_block_size.
  destruct Hdiv as [d ->]. rewrite (Z.mod_eq pos (d * I * N)) by nia.
  replace (pos - d * I * N * (pos / (d * I * N))) with (pos + (- (d * N * (pos / (d * I * N)))) * I) by lia.
  rewrite Z.div_add by lia.
  replace (pos / I + - (d * N * (pos / (d * I * N)))) with (pos / I + (- (d * (pos / (d * I * N)))) * N) by lia.
  by rewrite Z_mod_plus_full.
Qed.

Lemma local_len_step n rank : 0 <= n -> 0 <= rank < N ->
  dcp_local_seq_len (n + 1) N rank I
    = dcp_local_seq_len n N rank I + (if (n / I) mod N =? rank then 1 else 0).
Proof using HN HI.
  clear V Hdiv Hbs. intros Hn Hr. unfold dcp_local_seq_len, clip.
  pose proof (Z.div_mod n I ltac:(lia)) as E1. pose proof (Z.mod_pos_bound n I HI).
  pose proof (Z.div_mod (n / I) N ltac:(lia)) as E2. pose proof (Z.mod_pos_bound (n / I) N HN).
  set (q := n / I / N) in *. set (k := (n / I) mod N) in *. set (r := n mod I) in *.
  assert ((n + 1) / I = if decide (r + 1 = I) then n / I + 1 else n / I) as ->.
  { case_decide; symmetry; apply (Z.div_unique _ _ _ (if decide (r + 1 = I) then 0 else r + 1));
      case_decide; try lia; nia. }
  assert (forall x, (if decide (r + 1 = I) then n / I + 1 else n / I) / N * I = x ->
    x = if decide (r + 1 = I /\ k + 1 = N) then (q + 1) * I else q * I) as Hb.
  { intros x <-. case_decide as D1; case_decide as D2; try (destruct D2; lia).
    - f_equal. symmetry. apply (Z.div_unique _ _ _ 0); [lia|]. destruct D2. nia.
    - f_equal. symmetry. apply (Z.div_unique _ _ _ (k + 1)); [lia|]. nia.
    - done. }
  rewrite (Hb _ eq_refl). clear Hb.
  assert (rank < k -> rank * I + I <= k * I) by nia. assert (k < rank -> k * I + I <= rank * I) by nia.
  assert (n = q * I * N + k * I + r) as En by nia. assert (0 <= rank * I) by nia.
  destruct (decide (r + 1 = I /\ k + 1 = N)) as [[D1 D2]|D].
  - assert ((q + 1) * I * N = n + 1) as -> by nia. replace ((q + 1) * I) with (q * I + I) by lia.
    assert (k * I + I = N * I) by nia. destruct (Z.eqb_spec k rank); [subst rank|]; lia.
  - destruct (Z.eqb_spec k rank); [subst rank|]; lia.
Qed.

Lemma local_len_count (m : nat) rank : 0 <= rank < N ->
  dcp_local_seq_len (Z.of_nat m) N rank I =
    len (filter (fun pos => BlockTable.is_local N rank I (pos mod V) = true) (py_range 0 (Z.of_nat m))).
Proof using Hbs HN HI Hdiv.
  intros Hr. induction m as [|m IH].
  { unfold dcp_local_seq_len, clip. simpl Z.of_nat. rewrite py_range_nil, filter_nil, !Z.div_0_l by lia.
    change (len (@nil Z)) with 0. nia. }
  rewrite Nat2Z.inj_succ, <- Z.add_1_r, local_len_step, IH by lia.
  assert (py_range 0 (Z.of_nat m + 1) = py_range 0 (Z.of_nat m) ++ [Z.of_nat m]) as ->.
  { unfold py_range. rewrite !Z.sub_0_r, Z2Nat.inj_add, !Nat2Z.id, Nat.add_1_r by lia.
    by rewrite seq_S, fmap_app. }
  rewrite filter_app, len_app. f_equal. rewrite filter_cons, filter_nil, rank_of_position by lia.
  by destruct ((Z.of_nat m / I) mod N =? rank).
Qed.

End context_parallel.

(** ** Arrays *)

Lemma np_at_nat {A} (l : list A) (i : nat) x : l !! i = Some x -> np_at l (Z.of_nat i) = inr x.
Proof. intros Hx. unfold np_at. by rewrite py_index_nonneg, Nat2Z.id, Hx by lia. Qed.

Lemma np_put_nat {A} (l : list A) (i : nat) v :
  (i < length l)%nat -> np_put (Z.of_nat i) v l = inr (<[i := v]> l).
Proof.
  intros Hi. unfold np_put. rewrite (proj2 (Z.ltb_ge (Z.of_nat i) 0)) by lia. cbv zeta.
  rewrite (proj2 (Z.ltb_ge (Z.of_nat i) 0)), (proj2 (Z.leb_gt _ _)) by (unfold len; lia).
  by rewrite Nat2Z.id.
Qed.

Lemma np_write_exact {A} lo hi (vals l : list A) :
  0 <= lo -> lo + len vals = hi -> hi <= len l ->
  np_write lo hi vals l = inr (take (Z.to_nat lo) l ++ vals ++ drop (Z.to_nat hi) l).
Proof.
  intros Hlo Hv Hhi. pose proof (len_nonneg vals). unfold np_write, slice_bound.
  rewrite (proj2 (Z.ltb_ge lo 0)), (proj2 (Z.ltb_ge hi 0)) by lia.
  rewrite !Z.min_l, Z.max_r by lia. by rewrite (proj2 (Z.eqb_eq _ _)) by lia.
Qed.

Lemma np_write_same {A} lo hi (v : A) (l : list A) :
  0 <= lo -> lo <= hi -> hi <= len l ->
  np_write lo hi [v] l = inr (take (Z.to_nat lo) l ++ py_repeat v (hi - lo) ++ drop (Z.to_nat hi) l).
Proof.
  intros Hlo Hle Hhi. unfold np_write, slice_bound.
  rewrite (proj2 (Z.ltb_ge lo 0)), (proj2 (Z.ltb_ge hi 0)) by lia.
  rewrite !Z.min_l, Z.max_r by lia. destruct (Z.eqb_spec (len [v]) (hi - lo)) as [E|]; [|done].
  by rewrite <- E.
Qed.

(** ** The rows of a table *)

Section rows.
Import BlockTable.

(** The ids of every row. *)
Definition rows (s : t) : list (list Z) :=
  zip_with (fun n row => take (Z.to_nat n) row) (num_blocks_per_row s) (block_table s).

Record wf (s : t) : Prop := {
  wf_num : length (num_blocks_per_row s) = Z.to_nat (max_num_reqs (cfg s));
  wf_table : length (block_table s) = Z.to_nat (max_num_reqs (cfg s));
  wf_gpu : length (block_table_gpu s) = Z.to_nat (max_num_reqs (cfg s));
  wf_width : Forall (fun row => len row = max_num_blocks_per_req (cfg s)) (block_table s);
  wf_width_gpu : Forall (fun row => len row = max_num_blocks_per_req (cfg s)) (block_table_gpu s);
  wf_bounds : Forall (fun n => 0 <= n <= max_num_blocks_per_req (cfg s)) (num_blocks_per_row s);
  wf_slots : len (slot_mapping s) = max_num_batched_tokens (cfg s);
}.

(** The device and the slots are as before, the rows are [rows']. *)
Definition becomes (s : t) (rows' : list (list Z)) (s' : t) : Prop :=
  wf s' /\ cfg s' = cfg s /\ block_table_gpu s' = block_table_gpu s /\ slot_mapping s' = slot_mapping s /\
  rows s' = rows'.

Lemma row_lookup s (i : nat) : wf s -> Z.of_nat i < max_num_reqs (cfg s) ->
  exists n row, num_blocks_per_row s !! i = Some n /\ block_table s !! i = Some row /\
    0 <= n <= max_num_blocks_per_req (cfg s) /\ len row = max_num_blocks_per_req (cfg s) /\
    rows s !! i = Some (take (Z.to_nat n) row).
Proof.
  intros Hw Hi. pose proof (wf_num s Hw). pose proof (wf_table s Hw).
  destruct (lookup_lt_is_Some_2 (num_blocks_per_row s) i ltac:(lia)) as [n Hn].
  destruct (lookup_lt_is_Some_2 (block_table s) i ltac:(lia)) as [row Hrow].
  exists n, row. split; [done|]. split; [done|].
  split; [by apply (Forall_lookup_1 _ _ _ _ (wf_bounds s Hw) Hn)|].
  split; [by apply (Forall_lookup_1 _ _ _ _ (wf_width s Hw) Hrow)|].
  unfold rows. by rewrite lookup_zip_with, Hn, Hrow.
Qed.

(** Setting the count and the cells of a row. *)
Lemma set_row_becomes s (i : nat) n row :
  wf s -> Z.of_nat i < max_num_reqs (cfg s) -> 0 <= n <= max_num_blocks_per_req (cfg s) ->
  len row = max_num_blocks_per_req (cfg s) ->
  becomes s (<[i := take (Z.to_nat n) row]> (rows s))
    (set_table (<[i := row]> (block_table s)) (set_num (<[i := n]> (num_blocks_per_row s)) s)).
Proof.
  intros Hw Hi Hn Hrow. split; [|split; [done|split; [done|split; [done|]]]].
  - destruct Hw. constructor; simpl; rewrite ?length_insert; try done; by apply Forall_insert.
  - unfold rows. simpl. symmetry. exact (insert_zip_with (fun n row => take (Z.to_nat n) row) _ _ i n row).
Qed.

Lemma append_row_spec s (i : nat) ids row :
  wf s -> Z.of_nat i < max_num_reqs (cfg s) -> rows s !! i = Some row ->
  len row + len (kernel_ids (cfg s) ids) <= max_num_blocks_per_req (cfg s) ->
  succeeds (append_row ids (Z.of_nat i)) s (fun _ s' =>
    becomes s (<[i := row ++ kernel_ids (cfg s) ids]> (rows s)) s').
Proof.
  intros Hw Hi Hrow Hfit. destruct (row_lookup s i Hw Hi) as (n & cells & En & Ec & Hn & Hc & Er).
  rewrite Er in Hrow. injection Hrow as <-.
  assert (len (take (Z.to_nat n) cells) = n) as Hlen by (rewrite len_take; lia). rewrite Hlen in Hfit.
  destruct ids as [|b ids].
  { assert (kernel_ids (cfg s) [] = []) as ->.
    { unfold kernel_ids, map_to_kernel_blocks. by repeat case_match. }
    rewrite app_nil_r, list_insert_id by done. by split. }
  unfold append_row. set (k := kernel_ids (cfg s) (b :: ids)) in *.
  pose proof (len_nonneg k). sstep. sstep. fold k. cbv zeta. sstep. eapply succeeds_of_result; [by apply np_at_nat|].
  unfold set_num_blocks, write_row. sstep. sstep. sstep. sstep.
  eapply succeeds_of_result; [apply np_put_nat; by apply lookup_lt_Some in En|].
  sstep. sstep. sstep. sstep. eapply succeeds_of_result; [by apply np_at_nat|]. cbn [set_num block_table].
  sstep. eapply succeeds_of_result; [by apply np_write_exact; lia|].
  sstep. eapply succeeds_of_result; [apply np_put_nat; by apply lookup_lt_Some in Ec|]. sstep.
  set (cells' := take (Z.to_nat n) cells ++ k ++ drop (Z.to_nat (n + len k)) cells).
  assert (len cells' = max_num_blocks_per_req (cfg s)) as Hc'.
  { unfold cells'. rewrite !len_app, len_take, len_drop. lia. }
  pose proof (set_row_becomes s i (n + len k) cells' Hw Hi ltac:(lia) Hc') as Hb.
  assert (take (Z.to_nat (n + len k)) cells' = take (Z.to_nat n) cells ++ k) as Et.
  { unfold cells'. rewrite app_assoc. rewrite take_app_le, take_ge; [done| |];
      rewrite length_app, length_take; unfold len in *; lia. }
  rewrite Et in Hb. exact Hb.
Qed.

Lemma becomes_trans s rows1 s1 rows2 s2 : becomes s rows1 s1 -> becomes s1 rows2 s2 -> becomes s rows2 s2.
Proof.
  intros (_ & E1 & E2 & E3 & _) (Hw & F1 & F2 & F3 & F4). split; [done|]. by rewrite <- E1, <- E2, <- E3.
Qed.

Lemma becomes_refl s : wf s -> becomes s (rows s) s.
Proof. by intros Hw; split. Qed.

Lemma set_num_spec s (i : nat) n cells :
  wf s -> Z.of_nat i < max_num_reqs (cfg s) -> 0 <= n <= max_num_blocks_per_req (cfg s) ->
  block_table s !! i = Some cells ->
  succeeds (set_num_blocks (Z.of_nat i) n) s (fun _ s' =>
    becomes s (<[i := take (Z.to_nat n) cells]> (rows s)) s' /\ block_table s' = block_table s).
Proof.
  intros Hw Hi Hn Hc. unfold set_num_blocks. sstep. sstep. sstep.
  destruct (row_lookup s i Hw Hi) as (n0 & cells0 & En & Ec & _ & Hlen & _).
  rewrite Hc in Ec. injection Ec as <-.
  eapply succeeds_of_result; [apply np_put_nat; by apply lookup_lt_Some in En|]. sstep. split; [|done].
  pose proof (set_row_becomes s i n cells Hw Hi Hn Hlen) as Hb. by rewrite (list_insert_id _ _ _ Hc) in Hb.
Qed.

Lemma add_row_spec s (i : nat) ids :
  wf s -> Z.of_nat i < max_num_reqs (cfg s) ->
  len (kernel_ids (cfg s) ids) <= max_num_blocks_per_req (cfg s) ->
  succeeds (add_row ids (Z.of_nat i)) s (fun _ s' =>
    becomes s (<[i := kernel_ids (cfg s) ids]> (rows s)) s').
Proof.
  intros Hw Hi Hfit. unfold add_row. sstep.
  destruct (row_lookup s i Hw Hi) as (n & cells & En & Ec & Hn & _ & Er).
  eapply succeeds_mono; [apply (set_num_spec s i 0 cells); try done; lia|].
  intros [] s1 [Hb1 _]. pose proof Hb1 as (Hw1 & E1 & _ & _ & Er1). simpl in Er1.
  eapply succeeds_mono; [apply (append_row_spec s1 i ids []); rewrite ?E1; try done|].
  - rewrite Er1. apply list_lookup_insert_eq. by apply lookup_lt_Some in Er.
  - intros [] s2 Hb2. eapply becomes_trans; [exact Hb1|]. rewrite E1 in Hb2.
    by rewrite Er1, list_insert_insert_eq in Hb2.
Qed.

Lemma write_row_spec s (i : nat) lo hi vals cells n :
  wf s -> Z.of_nat i < max_num_reqs (cfg s) -> block_table s !! i = Some cells ->
  num_blocks_per_row s !! i = Some n -> forall cells',
  np_write lo hi vals cells = inr cells' -> len cells' = max_num_blocks_per_req (cfg s) ->
  succeeds (write_row (Z.of_nat i) lo hi vals) s (fun _ s' =>
    becomes s (<[i := take (Z.to_nat n) cells']> (rows s)) s' /\
    num_blocks_per_row s' = num_blocks_per_row s /\ block_table s' = <[i := cells']> (block_table s)).
Proof.
  intros Hw Hi Hc Hn cells' Hwr Hlen. unfold write_row. sstep. sstep. sstep.
  eapply succeeds_of_result; [by apply np_at_nat|]. sstep. sstep. sstep.
  eapply succeeds_of_result; [apply np_put_nat; by apply lookup_lt_Some in Hc|]. sstep.
  split; [|done].
  pose proof (set_row_becomes s i n cells' Hw Hi (Forall_lookup_1 _ _ _ _ (wf_bounds s Hw) Hn) Hlen) as Hb.
  by rewrite (list_insert_id _ _ _ Hn) in Hb.
Qed.

Lemma clear_row_spec s (i : nat) :
  wf s -> Z.of_nat i < max_num_reqs (cfg s) ->
  succeeds (clear_row (Z.of_nat i)) s (fun _ s' => becomes s (<[i := []]> (rows s)) s').
Proof.
  intros Hw Hi. destruct (row_lookup s i Hw Hi) as (n & cells & En & Ec & Hn & Hl & Er).
  unfold clear_row. sstep. sstep. sstep. eapply succeeds_of_result; [by apply np_at_nat|]. sstep.
  destruct (Z.ltb_spec 0 n).
  - eapply succeeds_mono.
    { eapply write_row_spec; [exact Hw|exact Hi|exact Ec|exact En|apply np_write_same; lia|].
      rewrite !len_app, len_take, len_replicate, len_drop. lia. }
    intros [] s1 (Hb1 & En1 & Et1). pose proof Hb1 as (Hw1 & E1 & _ & _ & Er1).
    eapply succeeds_mono; [eapply (set_num_spec s1 i 0); rewrite ?E1; try done; [lia|]|].
    + rewrite Et1. apply list_lookup_insert_eq. by apply lookup_lt_Some in Ec.
    + intros [] s2 [Hb2 _]. eapply becomes_trans; [exact Hb1|].
      by rewrite Er1, list_insert_insert_eq in Hb2.
  - sstep. eapply succeeds_mono; [apply (set_num_spec s i 0 cells); try done; lia|].
    by intros [] s2 [Hb2 _].
Qed.

Lemma move_row_spec s (i j : nat) row :
  wf s -> Z.of_nat i < max_num_reqs (cfg s) -> Z.of_nat j < max_num_reqs (cfg s) -> rows s !! i = Some row ->
  succeeds (move_row (Z.of_nat i) (Z.of_nat j)) s (fun _ s' => becomes s (<[j := row]> (rows s)) s').
Proof.
  intros Hw Hi Hj Hrow. destruct (row_lookup s i Hw Hi) as (n & cells & En & Ec & Hn & Hl & Er).
  destruct (row_lookup s j Hw Hj) as (n' & cells' & En' & Ec' & Hn' & Hl' & _).
  rewrite Er in Hrow. injection Hrow as <-. set (row := take (Z.to_nat n) cells).
  assert (len row = n) as Hlen by (unfold row; rewrite len_take; lia).
  unfold move_row. sstep. sstep. sstep. eapply succeeds_of_result; [by apply np_at_nat|]. sstep.
  eapply succeeds_of_result; [by apply np_at_nat|]. sstep. rewrite py_take_nonneg by lia. fold row.
  eapply succeeds_mono.
  { eapply write_row_spec; [exact Hw|exact Hj|exact Ec'|exact En'|apply np_write_exact; lia|].
    rewrite !len_app, len_take, len_drop. lia. }
  intros [] s1 (Hb1 & En1 & Et1). pose proof Hb1 as (Hw1 & E1 & _ & _ & Er1).
  eapply succeeds_mono; [eapply (set_num_spec s1 j n); rewrite ?E1; try done|].
  - rewrite Et1. apply list_lookup_insert_eq. by apply lookup_lt_Some in Ec'.
  - intros [] s2 [Hb2 _]. eapply becomes_trans; [exact Hb1|]. rewrite Er1, list_insert_insert_eq in Hb2.
    simpl in Hb2. rewrite take_app_length' in Hb2 by (unfold len in *; lia). exact Hb2.
Qed.

Lemma np_swap_nat {A} (l : list A) (i j : nat) x y :
  l !! i = Some x -> l !! j = Some y ->
  np_swap (Z.of_nat i) (Z.of_nat j) l = inr (<[j := x]> (<[i := y]> l)).
Proof.
  intros Hi Hj. unfold np_swap. rewrite (np_at_nat _ _ _ Hi), (np_at_nat _ _ _ Hj).
  rewrite np_put_nat by (by apply lookup_lt_Some in Hi).
  by rewrite np_put_nat by (rewrite length_insert; by apply lookup_lt_Some in Hj).
Qed.

Lemma swap_row_spec s (i j : nat) row row' :
  wf s -> Z.of_nat i < max_num_reqs (cfg s) -> Z.of_nat j < max_num_reqs (cfg s) ->
  rows s !! i = Some row -> rows s !! j = Some row' ->
  succeeds (swap_row (Z.of_nat i) (Z.of_nat j)) s (fun _ s' =>
    becomes s (<[j := row]> (<[i := row']> (rows s))) s').
Proof.
  intros Hw Hi Hj Hrow Hrow'. destruct (row_lookup s i Hw Hi) as (n & cells & En & Ec & Hn & Hl & Er).
  destruct (row_lookup s j Hw Hj) as (n' & cells' & En' & Ec' & Hn' & Hl' & Er').
  rewrite Er in Hrow. injection Hrow as <-. rewrite Er' in Hrow'. injection Hrow' as <-.
  unfold swap_row. sstep. sstep. sstep. eapply succeeds_of_result; [by apply np_swap_nat|]. sstep. sstep. sstep.
  eapply succeeds_of_result; [by apply np_swap_nat|]. sstep.
  pose proof (set_row_becomes s i n' cells' Hw Hi Hn' Hl') as Hb1. pose proof Hb1 as (Hw1 & E1 & _ & _ & Er1).
  eapply becomes_trans; [exact Hb1|]. rewrite <- E1 in Hj, Hn, Hl.
  pose proof (set_row_becomes _ j n cells Hw1 Hj Hn Hl) as Hb2. rewrite Er1 in Hb2. exact Hb2.
Qed.

Lemma commit_spec s n :
  wf s -> 0 <= n <= max_num_reqs (cfg s) ->
  succeeds (commit_block_table n) s (fun _ s' =>
    wf s' /\ cfg s' = cfg s /\ rows s' = rows s /\ block_table s' = block_table s /\
    num_blocks_per_row s' = num_blocks_per_row s /\ slot_mapping s' = slot_mapping s /\
    forall i, Z.of_nat i < n -> block_table_gpu s' !! i = block_table s !! i).
Proof.
  intros Hw Hn. unfold commit_block_table. sstep. rewrite py_take_nonneg, py_drop_nonneg by lia.
  pose proof Hw as [H1 H2 H3 H4 H5 H6 H7]. split; [|do 5 (split; [done|])].
  - constructor; simpl; try done.
    + rewrite length_app, length_take, length_drop. lia.
    + apply Forall_app. split; [by apply Forall_take|by apply Forall_drop].
  - intros i Hi. simpl. rewrite lookup_app_l by (rewrite length_take; lia). apply lookup_take_lt. lia.
Qed.
End rows.

(** ** The slots *)

Lemma concat_rows_lookup (W : Z) (table : list (list Z)) (i : nat) k row :
  Forall (fun r => len r = W) table -> table !! i = Some row -> 0 <= k < W ->
  concat table !! Z.to_nat (Z.of_nat i * W + k) = row !! Z.to_nat k.
Proof.
  intros Hall. revert i. induction Hall as [|r table Hr _ IH]; intros i Hi Hk; [done|].
  simpl. unfold len in Hr. destruct i as [|i]; simpl in Hi.
  - injection Hi as ->. by rewrite lookup_app_l by lia.
  - rewrite lookup_app_r by nia. rewrite <- (IH i Hi Hk). f_equal. nia.
Qed.

Section slots.
Import BlockTable.

Lemma store_loop (f : Z -> exn + Z) (m : nat) lo hi s :
  Z.of_nat m = hi - lo -> 0 <= lo -> hi <= len (slot_mapping s) ->
  (forall j, lo <= j < hi -> exists v, f j = inr v) ->
  succeeds (mfor (py_range lo hi) (fun o => slot <- of_result (f o) ;; store_slot o slot)) s (fun _ s' =>
    exists l, s' = set_slots l s /\ length l = length (slot_mapping s) /\
      forall j : nat, l !! j = if decide (lo <= Z.of_nat j < hi)
                              then match f (Z.of_nat j) with inr v => Some v | inl _ => None end
                              else slot_mapping s !! j).
Proof.
  revert lo s. induction m as [|m IH]; intros lo s Hm Hlo Hhi Hf.
  { rewrite py_range_nil by lia. exists (slot_mapping s). split; [by destruct s|]. split; [done|].
    intros j. by rewrite decide_False by lia. }
  rewrite py_range_cons by lia. destruct (Hf lo ltac:(lia)) as [v Hv].
  cbn [mfor]. sstep. sstep. eapply succeeds_of_result; [exact Hv|].
  rewrite <- (Z2Nat.id lo Hlo) at 1. unfold store_slot. sstep. sstep. sstep.
  eapply succeeds_of_result; [apply np_put_nat; unfold len in *; lia|]. sstep.
  set (s1 := set_slots _ s).
  assert (length (slot_mapping s1) = length (slot_mapping s)) as Hl1 by apply length_insert.
  eapply succeeds_mono; [apply (IH (lo + 1) s1)|]; [lia|lia|unfold len in *; lia|intros; apply Hf; lia|].
  intros [] s2 (l & -> & Hl & Hall). exists l. split; [done|]. split; [by rewrite Hl|].
  intros j. rewrite Hall. case_decide as D1; case_decide as D2; try lia; [done| |].
  - assert (Z.of_nat j = lo) as E by lia. rewrite E, Hv. simpl. rewrite <- E, Nat2Z.id.
    apply list_lookup_insert_eq. unfold len in *. lia.
  - simpl. apply list_lookup_insert_ne. lia.
Qed.

Definition world (s : t) : Z := total_cp_world_size (cfg s).
Definition rank (s : t) : Z := total_cp_rank (cfg s).
Definition interleave (s : t) : Z := cp_kv_cache_interleave_size (cfg s).
Definition virtual (s : t) : Z := virtual_block_size (block_size (cfg s)) (world s).

(** The tokens of [n] requests, one after the other, each with its position. *)
Record token_batch (n : nat) (query_start_loc positions : list Z) : Prop := {
  tb_length : length query_start_loc = S n;
  tb_first : query_start_loc !! 0%nat = Some 0;
  tb_order i a b : query_start_loc !! i = Some a -> query_start_loc !! S i = Some b -> a <= b;
  tb_last : query_start_loc !! n = Some (len positions);
  tb_positions : Forall (fun p => 0 <= p) positions;
}.

(** Token [j] belongs to request [i] and has position [p]. *)
Definition token_of (query_start_loc positions : list Z) (i j : nat) (p : Z) : Prop :=
  exists a b, query_start_loc !! i = Some a /\ query_start_loc !! S i = Some b /\
    a <= Z.of_nat j < b /\ positions !! j = Some p.

Lemma starts_le n qsl positions (i k : nat) a b :
  token_batch n qsl positions -> (i <= k)%nat -> qsl !! i = Some a -> qsl !! k = Some b -> a <= b.
Proof.
  intros Hb Hik Ha. revert b. induction Hik as [|k Hik IH]; intros b Hk.
  { rewrite Ha in Hk. by injection Hk as <-. }
  destruct (lookup_lt_is_Some_2 qsl k) as [c Hc]; [apply lookup_lt_Some in Hk; lia|].
  pose proof (tb_order _ _ _ Hb _ _ _ Hc Hk). specialize (IH _ Hc). lia.
Qed.

Lemma starts_bounds n qsl positions (i : nat) a :
  token_batch n qsl positions -> qsl !! i = Some a -> 0 <= a <= len positions.
Proof.
  intros Hb Ha. pose proof (lookup_lt_Some _ _ _ Ha) as Hi. rewrite (tb_length _ _ _ Hb) in Hi. split.
  - eapply starts_le; [done| |apply (tb_first _ _ _ Hb)|exact Ha]. lia.
  - eapply starts_le; [done| |exact Ha|apply (tb_last _ _ _ Hb)]. lia.
Qed.

(** The kernel's table is the host's for the first [n] rows, and every token has a block. *)
Definition covered (n : nat) qsl positions s : Prop :=
  (forall i, (i < n)%nat -> block_table_gpu s !! i = block_table s !! i) /\
  forall i j p, (i < n)%nat -> token_of qsl positions i j p ->
    exists ids b, rows s !! i = Some ids /\ ids !! Z.to_nat (p / virtual s) = Some b.

(** The slot of a token. *)
Definition slot_of s (i : nat) (p : Z) : option Z :=
  ids ← rows s !! i; b ← ids !! Z.to_nat (p / virtual s);
  Some (slot_id (block_size (cfg s)) (world s) (rank s) (interleave s) b p).

Lemma token_slot_spec n qsl positions s (i j : nat) p :
  wf s -> 0 < virtual s -> Z.of_nat n <= max_num_reqs (cfg s) -> token_batch n qsl positions ->
  covered n qsl positions s -> (i < n)%nat -> token_of qsl positions i j p ->
  exists v, slot_of s i p = Some v /\
    token_slot (block_size (cfg s)) (world s) (rank s) (interleave s) (block_table_gpu s)
      (max_num_blocks_per_req (cfg s)) positions (Z.of_nat i) (Z.of_nat j) = inr v.
Proof.
  intros Hw HV Hn Hb [Hgpu Hcov] Hi Ht. destruct (Hcov i j p Hi Ht) as (ids & b & Hids & Hblk).
  destruct Ht as (a & a' & Ha & Ha' & Hj & Hp).
  assert (0 <= p) as Hp0 by apply (Forall_lookup_1 _ _ _ _ (tb_positions _ _ _ Hb) Hp).
  destruct (row_lookup s i Hw ltac:(lia)) as (m & cells & Em & Ec & Hm & Hl & Er).
  rewrite Er in Hids. injection Hids as <-.
  apply lookup_take_Some in Hblk as Hblk'. destruct Hblk' as [Hcell Hlt].
  unfold slot_of. rewrite Er. cbn [mbind option_bind]. rewrite Hblk. cbn [mbind option_bind].
  eexists. split; [reflexivity|]. unfold token_slot. rewrite (np_at_nat _ _ _ Hp).
  fold (virtual s). assert (0 <= p / virtual s) by (apply Z.div_pos; lia).
  rewrite (concat_rows_lookup (max_num_blocks_per_req (cfg s)) _ i _ cells);
    [|apply (wf_width_gpu s Hw)|by rewrite Hgpu|lia].
  by rewrite Hcell.
Qed.

(** After [k] programs. *)
Definition programs_done (k : nat) qsl positions s (l : list Z) : Prop :=
  length l = length (slot_mapping s) /\
  forall i j p, (i < k)%nat -> token_of qsl positions i j p -> l !! j = slot_of s i p.

Lemma program_spec n qsl positions s l (k : nat) :
  wf s -> 0 < virtual s -> Z.of_nat n <= max_num_reqs (cfg s) -> token_batch n qsl positions ->
  covered n qsl positions s -> len positions <= max_num_batched_tokens (cfg s) -> (k < n)%nat ->
  programs_done k qsl positions s l ->
  succeeds (slot_program (Z.of_nat n) qsl positions (Z.of_nat k)) (set_slots l s) (fun _ s' =>
    exists l', s' = set_slots l' s /\ programs_done (S k) qsl positions s l').
Proof.
  intros Hw HV Hn Hb Hcov Hfit Hk [Hlen Hdone]. unfold slot_program. sstep. sstep.
  rewrite (proj2 (Z.eqb_neq _ _)) by lia. pose proof (tb_length _ _ _ Hb) as Hq.
  destruct (lookup_lt_is_Some_2 qsl k ltac:(lia)) as [a Ha].
  destruct (lookup_lt_is_Some_2 qsl (S k) ltac:(lia)) as [b Hb'].
  sstep. eapply succeeds_of_result; [by apply np_at_nat|]. sstep.
  replace (Z.of_nat k + 1) with (Z.of_nat (S k)) by lia.
  eapply succeeds_of_result; [by apply np_at_nat|].
  destruct (starts_bounds _ _ _ _ _ Hb Ha). destruct (starts_bounds _ _ _ _ _ Hb Hb').
  pose proof (tb_order _ _ _ Hb _ _ _ Ha Hb'). pose proof (wf_slots s Hw) as Hslots.
  assert (forall j : nat, a <= Z.of_nat j < b -> exists p, token_of qsl positions k j p) as Htok.
  { intros j Hj. destruct (lookup_lt_is_Some_2 positions j) as [p Hp]; [unfold len in *; lia|].
    exists p, a, b. done. }
  cbn [set_slots cfg block_table_gpu].
  eapply succeeds_mono; [apply (store_loop _ (Z.to_nat (b - a)) a b (set_slots l s))|].
  - lia.
  - lia.
  - simpl. unfold len in *. lia.
  - intros j Hj. destruct (Htok (Z.to_nat j) ltac:(lia)) as [p Hp].
    destruct (token_slot_spec n qsl positions s k (Z.to_nat j) p) as (v & _ & Hv); try done.
    rewrite Z2Nat.id in Hv by lia. by exists v.
  - intros [] s' (l' & -> & Hl' & Hall). exists l'. split; [done|]. split; [simpl in Hl'; lia|].
    intros i j p Hi Ht. rewrite Hall. destruct (decide (i = k)) as [->|Hne].
    + pose proof Ht as (a1 & b1 & Ha1 & Hb1 & Hj & _). rewrite Ha in Ha1. rewrite Hb' in Hb1.
      injection Ha1 as <-. injection Hb1 as <-. rewrite decide_True by done.
      destruct (token_slot_spec n qsl positions s k j p) as (v & -> & Hv); try done.
      unfold world, rank, interleave in Hv. by rewrite Hv.
    + pose proof Ht as (a1 & b1 & Ha1 & Hb1 & Hj & _).
      assert (b1 <= a) by (eapply starts_le; [exact Hb| |exact Hb1|exact Ha]; lia).
      rewrite decide_False by lia. apply Hdone; [lia|done].
Qed.

(** After all programs every token has its slot and the rest is padded. *)
Lemma slots_computed n qsl positions s :
  wf s -> 0 < virtual s -> Z.of_nat n <= max_num_reqs (cfg s) -> token_batch n qsl positions ->
  covered n qsl positions s -> len positions <= max_num_batched_tokens (cfg s) ->
  succeeds (compute_slot_mapping (Z.of_nat n) qsl positions) s (fun _ s' =>
    exists l, s' = set_slots l s /\ programs_done n qsl positions s l /\
      forall j : nat, len positions <= Z.of_nat j < max_num_batched_tokens (cfg s) -> l !! j = Some PAD_SLOT_ID).
Proof.
  intros Hw HV Hn Hb Hcov Hfit. unfold compute_slot_mapping.
  eapply succeeds_mono; [apply succeeds_mfor with (I := fun pre todo s' => exists l, s' = set_slots l s /\
    programs_done (length pre) qsl positions s l /\ (length pre <= S n)%nat /\
    ((length pre = S n) -> forall j : nat, len positions <= Z.of_nat j < max_num_batched_tokens (cfg s) ->
       l !! j = Some PAD_SLOT_ID))|].
  - exists (slot_mapping s). split; [by destruct s|]. split; [|simpl; split; [lia|done]].
    split; [done|]. intros i j p Hi. simpl in Hi. lia.
  - intros pre k todo s' Hl (l & -> & Hdone & Hle & _).
    assert (k = Z.of_nat (length pre) /\ (length pre < S n)%nat) as [-> Hlt].
    { assert (Hlk : (pre ++ k :: todo) !! length pre = Some k) by (by rewrite list_lookup_middle).
      rewrite <- Hl in Hlk. unfold py_range in Hlk. rewrite list_lookup_fmap in Hlk.
      destruct (seq 0 (Z.to_nat (Z.of_nat n + 1 - 0)) !! length pre) as [x|] eqn:Ex; [|done].
      apply lookup_seq in Ex as [-> Hx]. simpl in Hlk. injection Hlk as <-. lia. }
    rewrite length_app. simpl length. replace (length pre + 1)%nat with (S (length pre)) by lia.
    destruct (decide (length pre = n)) as [E|].
    + rewrite E. unfold slot_program. sstep. sstep. rewrite Z.eqb_refl. destruct Hdone as [Hll Hdone].
      pose proof (wf_slots s Hw) as Hslots. pose proof (len_nonneg positions).
      eapply succeeds_mono; [eapply (store_loop (fun _ => inr PAD_SLOT_ID) (Z.to_nat (max_num_batched_tokens (cfg s) - len positions)))|].
      * simpl. lia.
      * lia.
      * simpl. unfold len in *. lia.
      * intros. by eexists.
      * intros [] s' (l' & -> & Hl' & Hall). exists l'. split; [done|]. simpl in Hl', Hall.
        split; [|split; [lia|]].
        -- split; [lia|]. intros i j p Hi Ht. rewrite Hall.
           assert (i < n)%nat as Hin.
           { destruct Ht as (a & b & _ & Hb1 & _). apply lookup_lt_Some in Hb1.
             rewrite (tb_length _ _ _ Hb) in Hb1. lia. }
           rewrite decide_False; [apply Hdone; [lia|done]|].
           destruct Ht as (_ & _ & _ & _ & _ & Hp). apply lookup_lt_Some in Hp. unfold len. lia.
        -- intros _ j Hj. rewrite Hall. by rewrite decide_True.
    + eapply succeeds_mono; [by apply (program_spec n qsl positions s l); [..|lia|]|].
      intros [] s' (l' & -> & Hdone'). exists l'. split; [done|]. split; [done|]. split; [lia|].
      intros. lia.
  - intros [] s' (l & -> & Hdone & _ & Hpad).
    assert (length (py_range 0 (Z.of_nat n + 1)) = S n) as El.
    { pose proof (len_py_range 0 (Z.of_nat n + 1)). unfold len in *. lia. }
    rewrite El in *. exists l. split; [done|]. split; [|by apply Hpad].
    destruct Hdone as [Hll Hdone]. split; [done|]. intros i j p Hi. apply Hdone. lia.
Qed.
End slots.

(** ** From the blocks of the KV-cache manager to slots *)

Section mapping.
Import BlockTable.
Context (kv_block_size : Z).

(** What [init] makes of the block sizes. *)
Record split_ok (c : Config) : Prop := {
  so_size : 0 < block_size c;
  so_ratio : 0 < blocks_per_kv_block c;
  so_split : kv_block_size = block_size c * blocks_per_kv_block c;
  so_plain : use_hybrid_blocks c = false -> blocks_per_kv_block c = 1;
}.

Lemma table_init_ok max_num_reqs width max_tokens kernel_block_size pw pr dw dr inter s :
  0 < kv_block_size -> 0 < kernel_block_size -> 0 <= max_num_reqs -> 0 <= width -> 0 <= max_tokens ->
  init kv_block_size max_num_reqs width max_tokens kernel_block_size pw pr dw dr inter = inr s ->
  wf s /\ split_ok (cfg s) /\ rows s = replicate (Z.to_nat max_num_reqs) [].
Proof.
  intros Hkv Hk Hr Hwd Ht. unfold init.
  cbv zeta. intros Hs.
  assert (exists ratio hyb, s = make kernel_block_size ratio hyb max_num_reqs width max_tokens pw pr dw dr inter
    /\ 0 < ratio /\ kv_block_size = kernel_block_size * ratio /\ (hyb = false -> ratio = 1))
    as (ratio & hyb & -> & Hra & Hsp & Hpl).
  { destruct (Z.eqb_spec kernel_block_size kv_block_size) as [E|E].
    { injection Hs as <-. exists 1, false. split; [done|]. lia. }
    rewrite (proj2 (Z.eqb_neq kernel_block_size 0)) in Hs by lia.
    destruct (Z.eqb_spec (kv_block_size mod kernel_block_size) 0) as [Hm|]; [|done]. injection Hs as <-.
    eexists _, true. split; [done|]. pose proof (Z.div_mod kv_block_size kernel_block_size ltac:(lia)).
    split; [|split; [lia|done]]. nia. }
  assert (forall A (x : A) (P : A -> Prop) k, P x -> Forall P (py_repeat x k)) as Hrep.
  { intros A x P k HP. unfold py_repeat. by apply Forall_replicate. }
  assert (len (py_repeat 0 (width * ratio)) = width * ratio) as Hrow by (rewrite len_replicate; nia).
  unfold make. split; [|split].
  - constructor; simpl; unfold zeros, py_repeat; rewrite ?length_replicate; try done.
    + by apply (Hrep (list Z) (py_repeat 0 (width * ratio)) (fun row => len row = width * ratio) max_num_reqs).
    + by apply (Hrep (list Z) (py_repeat 0 (width * ratio)) (fun row => len row = width * ratio) max_num_reqs).
    + apply Forall_replicate. nia.
    + unfold len. rewrite length_replicate. lia.
  - by constructor.
  - unfold rows. simpl. unfold zeros, py_repeat. rewrite zip_with_replicate_l.
    + by rewrite fmap_replicate.
    + by rewrite length_replicate.
Qed.

Lemma map_to_kernel_lookup ids ratio k : 1 < ratio -> 0 <= k ->
  map_to_kernel_blocks ids ratio !! Z.to_nat k =
    (fun b => b * ratio + k mod ratio) <$> ids !! Z.to_nat (k / ratio).
Proof.
  intros Hr. unfold map_to_kernel_blocks. rewrite (proj2 (Z.eqb_neq ratio 1)) by lia.
  revert k. induction ids as [|b ids IH]; intros k Hk; simpl; [done|].
  set (l := (fun k0 => b * ratio + k0) <$> py_range 0 ratio).
  assert (length l = Z.to_nat ratio) as Hl.
  { unfold l. rewrite length_fmap. pose proof (len_py_range 0 ratio). unfold len in *. lia. }
  destruct (Z.lt_ge_cases k ratio) as [Hlt|Hge].
  - rewrite lookup_app_l by lia. rewrite Z.div_small, Z.mod_small by lia. simpl.
    unfold l, py_range. rewrite !list_lookup_fmap, Z.sub_0_r.
    rewrite lookup_seq_lt by lia. simpl. f_equal. lia.
  - rewrite lookup_app_r by lia. rewrite Hl, <- Z2Nat.inj_sub by lia. rewrite IH by lia.
    assert (k mod ratio = (k - ratio) mod ratio /\ k / ratio = (k - ratio) / ratio + 1) as [-> ->].
    { replace k with (k - ratio + 1 * ratio) at 1 3 by lia. by rewrite Z.div_add, Z_mod_plus_full by lia. }
    assert (0 <= (k - ratio) / ratio) by (apply Z.div_pos; lia).
    by replace (Z.to_nat ((k - ratio) / ratio + 1)) with (S (Z.to_nat ((k - ratio) / ratio))) by lia.
Qed.

Lemma kernel_ids_lookup c ids k : split_ok c -> 0 <= k ->
  kernel_ids c ids !! Z.to_nat k =
    (fun b => b * blocks_per_kv_block c + k mod blocks_per_kv_block c)
      <$> ids !! Z.to_nat (k / blocks_per_kv_block c).
Proof.
  intros Hc Hk. pose proof (so_ratio c Hc) as Hr. unfold kernel_ids.
  destruct (Z.eq_dec (blocks_per_kv_block c) 1) as [->|].
  - assert (forall l : list Z, (if use_hybrid_blocks c then map_to_kernel_blocks l 1 else l) = l) as -> by (intros; by case_match).
    rewrite Z.div_1_r, Z.mod_1_r. destruct (ids !! Z.to_nat k); simpl; [|done]. f_equal. lia.
  - destruct (use_hybrid_blocks c) eqn:E; [|by apply (so_plain c Hc) in E].
    apply map_to_kernel_lookup; lia.
Qed.

Lemma kernel_ids_nil c : kernel_ids c [] = [].
Proof. unfold kernel_ids, map_to_kernel_blocks. by repeat case_match. Qed.

Lemma map_to_kernel_app ids ids' ratio :
  map_to_kernel_blocks (ids ++ ids') ratio = map_to_kernel_blocks ids ratio ++ map_to_kernel_blocks ids' ratio.
Proof. unfold map_to_kernel_blocks. case_match; [done|]. apply bind_app. Qed.

Lemma kernel_ids_app c ids ids' : kernel_ids c (ids ++ ids') = kernel_ids c ids ++ kernel_ids c ids'.
Proof. unfold kernel_ids. case_match; [apply map_to_kernel_app|done]. Qed.

Lemma kernel_ids_len c ids : split_ok c -> len (kernel_ids c ids) = len ids * blocks_per_kv_block c.
Proof.
  intros Hc. induction ids as [|b ids IH]; [by rewrite kernel_ids_nil|].
  change (b :: ids) with ([b] ++ ids). rewrite kernel_ids_app, !len_app, IH.
  assert (len (kernel_ids c [b]) = blocks_per_kv_block c) as ->; [|change (len [b]) with 1; lia].
  unfold kernel_ids. destruct (use_hybrid_blocks c) eqn:E.
  - unfold map_to_kernel_blocks. destruct (Z.eqb_spec (blocks_per_kv_block c) 1) as [->|]; [done|].
    simpl. rewrite app_nil_r. unfold len. rewrite length_fmap. fold (len (py_range 0 (blocks_per_kv_block c))).
    rewrite len_py_range. pose proof (so_ratio c Hc). lia.
  - by rewrite (so_plain c Hc E).
Qed.

(** A manager's block holds this many positions. *)
Definition block_span (s : t) : Z := kv_block_size * world s.

Record ranks_ok (s : t) : Prop := {
  ro_world : 0 < world s;
  ro_rank : 0 <= rank s < world s;
  ro_interleave : 0 < interleave s;
  ro_divides : (interleave s | block_size (cfg s));
}.

Lemma span_split s : split_ok (cfg s) -> ranks_ok s ->
  0 < virtual s /\ block_span s = virtual s * blocks_per_kv_block (cfg s) /\ 0 < block_span s.
Proof.
  intros Hc Hr. pose proof (so_size _ Hc). pose proof (so_ratio _ Hc). pose proof (ro_world _ Hr).
  pose proof (so_split _ Hc). unfold block_span, virtual, virtual_block_size in *. nia.
Qed.

(** The slot of position [p] of a request whose blocks are [ids]. *)
Definition stored (s : t) (ids : list Z) (p v : Z) : Prop :=
  exists b o, ids !! Z.to_nat (p / block_span s) = Some b /\ v = b * kv_block_size + o /\ 0 <= o < kv_block_size /\
    o = (p / virtual s) mod blocks_per_kv_block (cfg s) * block_size (cfg s)
        + local_block_offsets (world s) (interleave s) (p mod virtual s).

Lemma slot_of_blocks s (i : nat) ids p :
  split_ok (cfg s) -> ranks_ok s -> rows s !! i = Some (kernel_ids (cfg s) ids) -> 0 <= p < block_span s * len ids ->
  exists v, slot_of s i p = Some v /\
    if is_local (world s) (rank s) (interleave s) (p mod virtual s) then stored s ids p v else v = PAD_SLOT_ID.
Proof.
  intros Hc Hr Hrow Hp. destruct (span_split s Hc Hr) as (HV & HS & HS0).
  pose proof (so_ratio _ Hc) as Hra. pose proof (so_size _ Hc) as Hsz.
  assert (0 <= p / virtual s) as Hq by (apply Z.div_pos; lia).
  assert (p / virtual s / blocks_per_kv_block (cfg s) = p / block_span s) as Ediv.
  { rewrite HS. apply Z.div_div; lia. }
  assert (0 <= p / block_span s < len ids) as Hb.
  { split; [apply Z.div_pos; lia|]. apply Z.div_lt_upper_bound; lia. }
  destruct (lookup_lt_is_Some_2 ids (Z.to_nat (p / block_span s))) as [b Eb]; [unfold len in *; lia|].
  unfold slot_of. rewrite Hrow. cbn [mbind option_bind].
  rewrite (kernel_ids_lookup _ _ _ Hc Hq), Ediv, Eb. cbn [fmap option_fmap option_map mbind option_bind].
  eexists. split; [reflexivity|]. unfold slot_id. fold (virtual s). cbv zeta.
  rewrite (offset_mod (block_size (cfg s)) (world s) Hsz (ro_world s Hr)).
  change (virtual_block_size (block_size (cfg s)) (world s)) with (virtual s).
  destruct (is_local _ _ _ _); [|done]. exists b. eexists.
  destruct (cp_partition (block_size (cfg s)) (world s) (interleave s) Hsz (ro_world s Hr) (ro_interleave s Hr)
              (ro_divides s Hr) p ltac:(lia)) as [Ho _].
  change (virtual_block_size (block_size (cfg s)) (world s)) with (virtual s) in Ho.
  pose proof (Z.mod_pos_bound (p / virtual s) _ Hra).
  split; [done|]. split; [|split; [|reflexivity]]; rewrite (so_split _ Hc) in *; nia.
Qed.

Lemma radix_inj K b o b' o' : b * K + o = b' * K + o' -> 0 <= o < K -> 0 <= o' < K -> b = b' /\ o = o'.
Proof. intros E Ho Ho'. apply (Z.div_mod_unique K); [by left|by left|lia]. Qed.

(** Equal slots are the same place of the same block. *)
Lemma stored_inj s ids ids' p p' v :
  split_ok (cfg s) -> ranks_ok s -> 0 <= p -> 0 <= p' ->
  is_local (world s) (rank s) (interleave s) (p mod virtual s) = true ->
  is_local (world s) (rank s) (interleave s) (p' mod virtual s) = true ->
  stored s ids p v -> stored s ids' p' v ->
  ids !! Z.to_nat (p / block_span s) = ids' !! Z.to_nat (p' / block_span s) /\
  p mod block_span s = p' mod block_span s.
Proof.
  intros Hc Hr Hp Hp' Hl Hl' (b & o & Eb & Ev & Ho & Eo) (b' & o' & Eb' & Ev' & Ho' & Eo').
  destruct (span_split s Hc Hr) as (HV & HS & HS0). pose proof (so_ratio _ Hc) as Hra. pose proof (so_size _ Hc) as Hsz.
  destruct (radix_inj kv_block_size b o b' o') as [-> Eoo]; [lia|done..|].
  split; [by rewrite Eb, Eb'|]. rewrite Eo, Eo' in Eoo. clear Eo Eo' Ev Ev' Ho Ho'.
  destruct (cp_partition (block_size (cfg s)) (world s) (interleave s) Hsz (ro_world s Hr) (ro_interleave s Hr)
              (ro_divides s Hr) p Hp) as [Ho _].
  destruct (cp_partition (block_size (cfg s)) (world s) (interleave s) Hsz (ro_world s Hr) (ro_interleave s Hr)
              (ro_divides s Hr) p' Hp') as [Ho' _].
  change (virtual_block_size (block_size (cfg s)) (world s)) with (virtual s) in Ho, Ho'.
  set (L := local_block_offsets _ _ _) in *. set (L' := local_block_offsets _ _ (p' mod _)) in *.
  assert ((p / virtual s) mod blocks_per_kv_block (cfg s) = (p' / virtual s) mod blocks_per_kv_block (cfg s)
    /\ L = L') as [Eq EL] by (by apply (radix_inj (block_size (cfg s)))).
  pose proof (cp_injective (block_size (cfg s)) (world s) (interleave s) Hsz (ro_world s Hr) (ro_interleave s Hr)
    (ro_divides s Hr) p p' (rank s) Hl Hl' EL) as Em.
  change (virtual_block_size (block_size (cfg s)) (world s)) with (virtual s) in Em.
  rewrite HS, !Z.rem_mul_r by lia. by rewrite Eq, Em.
Qed.

(** The first [n] rows of the tables hold the blocks of [n] requests, with blocks for all
    tokens of the batch. *)
Record batch_of (s : t) (n : nat) (tables : list (list Z)) qsl positions : Prop := {
  bo_requests : Z.of_nat n <= max_num_reqs (cfg s);
  bo_rows i ids : (i < n)%nat -> tables !! i = Some ids -> rows s !! i = Some (kernel_ids (cfg s) ids);
  bo_tables : length tables = n;
  bo_ids : Forall (Forall (fun b => 0 <= b)) tables;
  bo_tokens : token_batch n qsl positions;
  bo_fits : len positions <= max_num_batched_tokens (cfg s);
  bo_covered i j p ids : token_of qsl positions i j p -> tables !! i = Some ids -> p < block_span s * len ids;
}.

Lemma batch_token s n tables qsl positions i j p :
  batch_of s n tables qsl positions -> token_of qsl positions i j p ->
  (i < n)%nat /\ exists ids, tables !! i = Some ids /\ 0 <= p < block_span s * len ids.
Proof.
  intros Hb Ht. assert (i < n)%nat as Hi.
  { destruct Ht as (a & b & _ & Hb1 & _). apply lookup_lt_Some in Hb1.
    rewrite (tb_length _ _ _ (bo_tokens _ _ _ _ _ Hb)) in Hb1. lia. }
  split; [done|]. destruct (lookup_lt_is_Some_2 tables i) as [ids Hids]; [by rewrite (bo_tables _ _ _ _ _ Hb)|].
  exists ids. split; [done|]. split; [|by eapply bo_covered].
  destruct Ht as (_ & _ & _ & _ & _ & Hp).
  apply (Forall_lookup_1 _ _ _ _ (tb_positions _ _ _ (bo_tokens _ _ _ _ _ Hb)) Hp).
Qed.

(** What [commit_block_table] and [compute_slot_mapping] leave. *)
Lemma batch_slots s n tables qsl positions :
  wf s -> split_ok (cfg s) -> ranks_ok s -> batch_of s n tables qsl positions ->
  succeeds (commit_block_table (Z.of_nat n) ;;; compute_slot_mapping (Z.of_nat n) qsl positions) s (fun _ s' =>
    rows s' = rows s /\
    (forall i j p, token_of qsl positions i j p -> exists ids v, tables !! i = Some ids /\
       slot_mapping s' !! j = Some v /\
       if is_local (world s) (rank s) (interleave s) (p mod virtual s) then stored s ids p v else v = PAD_SLOT_ID) /\
    forall j : nat, len positions <= Z.of_nat j < max_num_batched_tokens (cfg s) ->
      slot_mapping s' !! j = Some PAD_SLOT_ID).
Proof.
  intros Hw Hc Hr Hbo. destruct (span_split s Hc Hr) as (HV & _ & _). sstep.
  pose proof Hbo as [Hn Hrows Hlen Hids Hb Hfit Hcov].
  eapply succeeds_mono; [apply (commit_spec s (Z.of_nat n) Hw); lia|].
  intros [] s1 (Hw1 & Ecfg & Erows & Et & _ & _ & Hgpu).
  assert (forall i j p, token_of qsl positions i j p -> exists ids v, tables !! i = Some ids /\ slot_of s i p = Some v /\
    if is_local (world s) (rank s) (interleave s) (p mod virtual s) then stored s ids p v else v = PAD_SLOT_ID) as Hslot.
  { intros i j p Ht. destruct (batch_token _ _ _ _ _ _ _ _ Hbo Ht) as (Hlt & ids & Hi & Hp).
    destruct (slot_of_blocks s i ids p Hc Hr (Hrows i ids Hlt Hi) Hp) as (v & Hv). eauto. }
  assert (covered n qsl positions s1) as Hcov1.
  { split; [intros i Hi; rewrite Hgpu, Et; [done|lia]|]. intros i j p _ Ht.
    destruct (Hslot _ _ _ Ht) as (_ & v & _ & Hv & _). unfold slot_of in Hv. unfold virtual, world. rewrite Erows, Ecfg.
    unfold virtual, world in Hv. destruct (rows s !! i) as [r|]; [|done]. cbn [mbind option_bind] in Hv.
    destruct (r !! _) eqn:E; [|done]. eauto. }
  assert (forall i p, slot_of s1 i p = slot_of s i p) as Esame.
  { intros i p. unfold slot_of, virtual, world, rank, interleave. by rewrite Erows, Ecfg. }
  eapply succeeds_mono.
  { apply (slots_computed n qsl positions s1); rewrite ?Ecfg; try done. unfold virtual, world. rewrite Ecfg. exact HV. }
  intros [] s2 (l & -> & [_ Hdone] & Hpad). split; [exact Erows|]. cbn [set_slots slot_mapping].
  split; [|rewrite <- Ecfg; exact Hpad].
  intros i j p Ht. destruct (Hslot _ _ _ Ht) as (ids & v & Hi & Hv & Hst). exists ids, v.
  split; [done|]. split; [|done]. rewrite <- Hv, <- Esame.
  apply Hdone; [by eapply batch_token|done].
Qed.

(** Equal slots of two tokens are the same place of the same block. *)
Lemma slots_inj s s' n tables qsl positions i j p i' j' p' v :
  split_ok (cfg s) -> ranks_ok s -> batch_of s n tables qsl positions ->
  (forall i j p, token_of qsl positions i j p -> exists ids v, tables !! i = Some ids /\
     slot_mapping s' !! j = Some v /\
     if is_local (world s) (rank s) (interleave s) (p mod virtual s) then stored s ids p v else v = PAD_SLOT_ID) ->
  token_of qsl positions i j p -> token_of qsl positions i' j' p' ->
  slot_mapping s' !! j = Some v -> slot_mapping s' !! j' = Some v -> v <> PAD_SLOT_ID ->
  (tables !! i ≫= fun ids => ids !! Z.to_nat (p / block_span s))
    = (tables !! i' ≫= fun ids => ids !! Z.to_nat (p' / block_span s)) /\
  p mod block_span s = p' mod block_span s.
Proof.
  intros Hc Hr Hbo Hslot Ht Ht' Hj Hj' Hv.
  destruct (Hslot _ _ _ Ht) as (ids & v1 & Hi & Hv1 & Hst). destruct (Hslot _ _ _ Ht') as (ids' & v2 & Hi' & Hv2 & Hst').
  destruct (batch_token _ _ _ _ _ _ _ _ Hbo Ht) as (_ & ? & ? & Hp).
  destruct (batch_token _ _ _ _ _ _ _ _ Hbo Ht') as (_ & ? & ? & Hp').
  rewrite Hj in Hv1. rewrite Hj' in Hv2. injection Hv1 as <-. injection Hv2 as <-.
  destruct (is_local _ _ _ (p mod _)) eqn:El; [|done]. destruct (is_local _ _ _ (p' mod _)) eqn:El'; [|done].
  rewrite Hi, Hi'. cbn [mbind option_bind]. apply (stored_inj s ids ids' p p' v); try done; lia.
Qed.

End mapping.

(** ** Witnesses and an example *)

Lemma common_block_size_best_witness :
  select_common_block_size 96 [[Int 16; Int 64; MultipleOf 48]; [MultipleOf 16]] = inr 96 /\
  select_common_block_size 160 [[Int 16; Int 64; MultipleOf 48]; [MultipleOf 16]] = inr 16 /\
  usable_size 160 [[Int 16; Int 64; MultipleOf 48]; [MultipleOf 16]] 16.
Proof.
  split; [vm_compute; reflexivity|]. split; [vm_compute; reflexivity|].
  pose proof (common_block_size_best 160 [[Int 16; Int 64; MultipleOf 48]; [MultipleOf 16]] ltac:(lia)
    ltac:(repeat constructor)) as Hs.
  change (select_common_block_size 160 _) with (@inr exn Z 16) in Hs. apply Hs.
Defined.


(** Blocks of four tokens split into kernel blocks of two, for two requests. *)
Definition demo_table : BlockTable.t :=
  match BlockTable.init 4 4 3 8 2 1 0 1 0 1 with
  | inr s => match (BlockTable.add_row [3; 5] 0 ;;; BlockTable.add_row [7] 1) s with
             | Ret _ s => s
             | Raise _ s => s
             end
  | inl _ => BlockTable.make 1 1 false 0 0 0 1 0 1 0 1
  end.

Lemma demo_table_wf : wf demo_table.
Proof. split; try reflexivity; apply (bool_decide_unpack _); vm_compute; exact I. Qed.

Lemma demo_token_batch : token_batch 2 [0; 2; 5] [5; 6; 0; 1; 2].
Proof.
  split; try reflexivity; [|apply (bool_decide_unpack _); vm_compute; exact I].
  intros [|[|[|i]]] a b Ha Hb; simpl in *; simplify_eq; lia.
Qed.

Lemma demo_tokens i j p ids :
  token_of [0; 2; 5] [5; 6; 0; 1; 2] i j p -> [[3; 5]; [7]] !! i = Some ids -> p < 4 * len ids.
Proof.
  intros (a & b & Ha & Hb & Hj & Hp) Hi.
  assert (Forall (fun q => q < 8) [5; 6; 0; 1; 2]) as Hall by (apply (bool_decide_unpack _); vm_compute; exact I).
  destruct i as [|[|i]]; simpl in Hi; [| |done]; injection Hi as <-.
  - apply (Forall_lookup_1 _ _ _ _ Hall Hp).
  - simpl in *. simplify_eq.
    destruct j as [|[|[|[|[|j]]]]]; simpl in Hp; try lia; simplify_eq; unfold len; simpl; lia.
Qed.


(** With an interleaving wider than the kernels' blocks, which only the manager's block
    size is checked against, positions of different kernel blocks share a slot. *)
Theorem interleave_wider_than_kernel_block :
  exists s ids p p',
    BlockTable.init 32 1 4 64 16 1 0 2 0 32 = inr s /\ (32 | 32) /\ ids = BlockTable.kernel_ids (BlockTable.cfg s) [5] /\
    p <> p' /\ BlockTable.is_local 2 0 32 (p mod 32) = true /\ BlockTable.is_local 2 0 32 (p' mod 32) = true /\
    (b ← ids !! Z.to_nat (p / 32); Some (BlockTable.slot_id 16 2 0 32 b p))
      = (b ← ids !! Z.to_nat (p' / 32); Some (BlockTable.slot_id 16 2 0 32 b p')).
Proof.
  do 2 eexists. exists 16, 32. split; [vm_compute; reflexivity|]. split; [by exists 1|].
  split; [reflexivity|]. split; [done|]. vm_compute. done.
Qed.
