(* ===== verification/TurboQuant.v ===== *)
(** * TurboQuant: sizes, codec and paged storage

    Models vllm/model_executor/layers/quantization/turboquant/config.py and, of the
    Ascend port, vllm_ascend/quantization/methods/turboquant_ops.py: slot sizes,
    4-bit packing, the byte form of fp16 norms, quantisation to the nearest centroid,
    the scatter into the paged cache and the gather back.  The tensor library is a
    parameter ([TorchOps], [torch_matmul]) with the behaviour its documentation
    states.  A row of a tensor is a list, a byte an integer of 0..255, an fp16 number
    its 16 bits as a signed integer, a float32 number a rational; rounding is not
    modelled. *)

From Stdlib Require Import QArith.QArith QArith.Qabs Lqa.
From Stdlib Require Import Sorting.Sorted.
From stdpp Require Import pretty sorting.
From S2P Require Import Prelude.
From stdpp Require Import options.

#[local] Open Scope Z_scope.

(** ** [TurboQuantConfig] of vLLM *)

Record TurboQuantConfig := {
  head_dim : Z;
  key_quant_bits : Z;
  value_quant_bits : Z;
  norm_correction : bool;
}.

(** [TQ_PRESETS] *)
Definition TQ_PRESETS : list (string * (Z * Z * bool)) :=
  [("turboquant_k8v4", (8, 4, false)); ("turboquant_4bit_nc", (4, 4, true));
   ("turboquant_k3v4_nc", (3, 4, true)); ("turboquant_3bit_nc", (3, 3, true))].

Definition from_cache_dtype (cache_dtype : string) (head_dim : Z) : exn + TurboQuantConfig :=
  match dict_get cache_dtype TQ_PRESETS with
  | None => inl ValueError
  | Some (k, v, nc) =>
      inr {| head_dim := head_dim; key_quant_bits := k; value_quant_bits := v;
             norm_correction := nc |}
  end.

Definition key_fp8 (c : TurboQuantConfig) : bool := key_quant_bits c =? 8.

Definition mse_bits (c : TurboQuantConfig) : Z :=
  if key_fp8 c then value_quant_bits c else key_quant_bits c.

Definition key_mse_bits (c : TurboQuantConfig) : Z := if key_fp8 c then 0 else key_quant_bits c.

Definition n_centroids (c : TurboQuantConfig) : Z := 2 ^ mse_bits c.

(** [math.ceil(n * bits / 8)] *)
Definition packed_bytes (n bits : Z) : Z := cdiv (n * bits) 8.

Definition key_packed_size (c : TurboQuantConfig) : Z :=
  if key_fp8 c then head_dim c else packed_bytes (head_dim c) (key_mse_bits c) + 2.

Definition value_packed_size (c : TurboQuantConfig) : Z :=
  packed_bytes (head_dim c) (value_quant_bits c) + 4.

Definition slot_size (c : TurboQuantConfig) : Z := key_packed_size c + value_packed_size c.

Definition slot_size_aligned (c : TurboQuantConfig) : Z :=
  slot_size c + slot_size c mod 2.

(** [sorted(set(l))] *)
Definition sorted_set (l : list Z) : list Z := merge_sort Z.le (remove_dups l).

Definition get_boundary_skip_layers (num_layers n : Z) : list string :=
  if ((n <=? 0) || (num_layers <=? 0))%bool then []
  else
    let n := Z.min n (num_layers / 2) in
    let first := py_range 0 n in
    let last := py_range (num_layers - n) num_layers in
    pretty <$> sorted_set (first ++ last).

(** ** The codec of the Ascend port *)

Definition MSE_BITS : Z := 4.

Definition compute_paper_slot_size (head_dim : Z) : Z :=
  let mse_bytes := packed_bytes head_dim MSE_BITS in
  let norm_bytes := 2 in
  let per_vector := mse_bytes + norm_bytes in
  let slot := per_vector * 2 in
  slot + slot mod 2.

(** [.to(torch.uint8)] *)
Definition to_u8 (x : Z) : Z := x mod 256.

(** An int16 result. *)
Definition wrap16 (x : Z) : Z := (x + 32768) mod 65536 - 32768.

(** One row: [reshape(..., -1, 2)] fails on an odd number of indices. *)
Fixpoint pack_4bit (indices : list Z) : exn + list Z :=
  match indices with
  | [] => inr []
  | [_] => inl RuntimeError
  | a :: b :: indices =>
      match pack_4bit indices with
      | inl e => inl e
      | inr packed => inr (to_u8 (Z.lor (Z.land a 15) (Z.shiftl (Z.land b 15) 4)) :: packed)
      end
  end.

Definition unpack_4bit (packed : list Z) (D : Z) : exn + list Z :=
  let l := concat ((fun b => [Z.land b 15; Z.land (Z.shiftr b 4) 15]) <$> packed) in
  if len l =? D then inr l else inl RuntimeError.

Definition fp16_to_bytes (i16 : Z) : list Z :=
  [to_u8 (Z.land i16 255); to_u8 (Z.land (Z.shiftr i16 8) 255)].

(** [None]: the row has fewer than two bytes. *)
Definition bytes_to_fp16 (b : list Z) : option Z :=
  b0 ← b !! 0%nat; b1 ← b !! 1%nat; Some (Z.lor b0 (wrap16 (Z.shiftl b1 8))).

(** ** Quantisation *)

(** [tensor.sort()] of a row *)
Fixpoint sort_insert (x : Q) (l : list Q) : list Q :=
  match l with
  | [] => [x]
  | y :: l => if Qle_bool x y then x :: y :: l else y :: sort_insert x l
  end.

Definition sort_values (l : list Q) : list Q := foldr sort_insert [] l.

(** [(c_sorted[:-1] + c_sorted[1:]) / 2] *)
Definition compute_midpoints (centroids : list Q) : list Q :=
  let c_sorted := sort_values centroids in
  zip_with (fun a b => (a + b) * (1 # 2))%Q (removelast c_sorted) (tail c_sorted).

(** What the port takes from PyTorch: the rotated unit vector [x_hat @ Pi.T], the
    fp16 bits of [x.norm()] and [torch.bucketize]. *)
Class TorchOps (vec : Type) := {
  rotated : vec -> list Q;
  norm_f16 : vec -> Z;
  bucketize : Q -> list Q -> Z;
}.

(** [clamp(lo, hi)] *)
Definition clamp (lo hi x : Z) : Z := Z.min hi (Z.max lo x).

Section quantize.
Context {vec : Type} `{TorchOps vec} (centroids midpoints : list Q).

(** The indices [_quantize_single_vector] computes for a vector. *)
Definition quantized (x : vec) : list Z :=
  (fun y => clamp 0 (len centroids - 1) (bucketize y midpoints)) <$> rotated x.

Definition _quantize_single_vector (x : vec) : exn + list Z :=
  match pack_4bit (quantized x) with
  | inl e => inl e
  | inr packed_mse => inr (packed_mse ++ fp16_to_bytes (norm_f16 x))
  end.
End quantize.

(** ** The paged cache *)

(** The uint8 tensor (num_blocks, block_size, Hk, slot_size): a row of bytes per
    block, offset and head. *)
Record tq_cache := {
  tq_blocks : Z;
  tq_block_size : Z;
  tq_heads : Z;
  tq_slot : Z;
  tq_rows : gmap (Z * Z * Z) (list Z);
}.

Definition set_rows (m : gmap (Z * Z * Z) (list Z)) (c : tq_cache) : tq_cache :=
  {| tq_blocks := tq_blocks c; tq_block_size := tq_block_size c; tq_heads := tq_heads c;
     tq_slot := tq_slot c; tq_rows := m |}.

(** [kv_cache[blk, off, hid, :] = data]: the index and the shape check. *)
Definition put_row (key : Z * Z * Z) (data : list Z) : M tq_cache unit :=
  c <- get ;;
  let '(blk, off, hid) := key in
  if negb ((blk <? tq_blocks c) && (off <? tq_block_size c) && (hid <? tq_heads c))%bool
  then raise IndexError
  else if negb (len data =? tq_slot c) then raise RuntimeError
  else put (set_rows (<[key := data]> (tq_rows c)) c).

Section store.
Context {vec : Type} `{TorchOps vec} (centroids midpoints : list Q).

(** The rows of the batch: slot of the token, head, key and value vector. *)
Definition batch_rows (key value : list (list vec)) (slot_mapping : list Z)
  : list (Z * Z * (vec * vec)) :=
  concat (zip_with (fun slot kv =>
            imap (fun h kv => (slot, Z.of_nat h, kv)) (zip kv.1 kv.2))
          slot_mapping (zip key value)).

(** [torch.cat([k_slot, v_slot])] of a row. *)
Definition slot_data (kv : vec * vec) : exn + list Z :=
  match _quantize_single_vector centroids midpoints kv.1 with
  | inl e => inl e
  | inr k_slot =>
      match _quantize_single_vector centroids midpoints kv.2 with
      | inl e => inl e
      | inr v_slot => inr (k_slot ++ v_slot)
      end
  end.

Definition store_turboquant_kv (key value : list (list vec)) (slot_mapping : list Z)
  : M tq_cache unit :=
  c <- get ;;
  let block_size := tq_block_size c in
  rows <- mmapM (fun row => data <- of_result (slot_data row.2) ;; ret (row.1, data))
            (batch_rows key value slot_mapping) ;;
  mfor (filter (fun row => 0 <= row.1.1) rows) (fun row =>
    put_row (row.1.1 / block_size, row.1.1 mod block_size, row.1.2) row.2).
End store.

(** [kv_cache[block_nums, page_off]] for one sequence, position and head. *)
Definition slot_row (c : tq_cache) (block_table : list (list Z)) (b pos hid : Z)
  : option (list Z) :=
  table ← py_index block_table b;
  let page_idx := pos / tq_block_size c in
  let page_off := pos mod tq_block_size c in
  block ← py_index table (Z.min page_idx (len table - 1));
  tq_rows c !! (block, page_off, hid).

(** The indices and the norm of the vector that starts at byte [base] of a slot
    ([dequant_paged_kv]: [base] is 0 for the key, [per_vector] for the value). *)
Definition read_vector (slot_flat : list Z) (D base : Z) : option (list Z * Z) :=
  let mse_bytes := packed_bytes D MSE_BITS in
  match unpack_4bit (py_slice slot_flat base (base + mse_bytes)) D with
  | inl _ => None
  | inr indices =>
      vec_norm ← bytes_to_fp16 (py_slice slot_flat (base + mse_bytes) (base + mse_bytes + 2));
      Some (indices, vec_norm)
  end.

(** Key and value of one sequence, position and head. *)
Definition read_kv (c : tq_cache) (block_table : list (list Z)) (D b pos hid : Z)
  : option ((list Z * Z) * (list Z * Z)) :=
  slot_flat ← slot_row c block_table b pos hid;
  k ← read_vector slot_flat D 0;
  v ← read_vector slot_flat D (packed_bytes D MSE_BITS + 2);
  Some (k, v).

(** ** Sizes *)

Lemma packed_bytes_half D : D mod 2 = 0 -> packed_bytes D 4 = D / 2.
Proof.
  intros HD. unfold packed_bytes. pose proof (cdiv_bounds (D * 4) 8).
  pose proof (Z.div_mod D 2). lia.
Qed.

Lemma paper_slot_even D : compute_paper_slot_size D = 2 * (packed_bytes D 4 + 2).
Proof.
  unfold compute_paper_slot_size, MSE_BITS. rewrite Z.mod_mul by lia. lia.
Qed.

(** Slot sizes.  For every preset and head size a vLLM slot has room for the key
    bits with the norm and for the value bits with scale and zero, its aligned size
    is even and at most one byte larger; the slot of the Ascend port, which replaces
    it, is even too, and no larger where keys and values have four bits or more. *)
Theorem slot_size_spec name D c :
  0 <= D -> from_cache_dtype name D = inr c ->
  head_dim c = D
  /\ (slot_size_aligned c) mod 2 = 0
  /\ key_packed_size c + value_packed_size c <= slot_size_aligned c
       <= key_packed_size c + value_packed_size c + 1
  /\ 8 * key_packed_size c >= D * key_quant_bits c
  /\ 8 * (value_packed_size c - 4) >= D * value_quant_bits c
  /\ (compute_paper_slot_size D) mod 2 = 0
  /\ (value_quant_bits c = 4 -> key_quant_bits c >= 4 -> D mod 2 = 0 ->
      compute_paper_slot_size D <= slot_size_aligned c).
Proof.
  intros HD Hc. unfold from_cache_dtype, TQ_PRESETS in Hc. cbn [dict_get] in Hc.
  assert (exists k v nc, (k = 8 \/ k = 4 \/ k = 3) /\ (v = 4 \/ v = 3) /\
    c = {| head_dim := D; key_quant_bits := k; value_quant_bits := v; norm_correction := nc |})
    as (k & v & nc & Hk & Hv & ->).
  { repeat case_decide; try done; simplify_eq; by do 3 eexists; split_and!; [|..|done]; auto. }
  clear Hc. rewrite paper_slot_even.
  unfold slot_size_aligned, slot_size, key_packed_size, value_packed_size, key_fp8, key_mse_bits.
  simpl. unfold key_fp8. simpl.
  pose proof (cdiv_bounds (D * v) 8 ltac:(lia)). pose proof (cdiv_bounds (D * k) 8 ltac:(lia)).
  pose proof (cdiv_bounds (D * 4) 8 ltac:(lia)).
  unfold packed_bytes.
  assert (forall x, (x + x mod 2) mod 2 = 0 /\ x <= x + x mod 2 <= x + 1) as Heven.
  { intros x. pose proof (Z.mod_pos_bound x 2). pose proof (Z.div_mod x 2).
    pose proof (Z.mod_pos_bound (x + x mod 2) 2). pose proof (Z.div_mod (x + x mod 2) 2). lia. }
  destruct Hk as [-> |[-> | ->]]; simpl; (split; [done|]);
    (split; [apply Heven|]); (split; [apply Heven|]); (split; [lia|]); (split; [lia|]);
    (split; [pose proof (Z.div_mod (2 * (cdiv (D * 4) 8 + 2)) 2);
             pose proof (Z.mod_pos_bound (2 * (cdiv (D * 4) 8 + 2)) 2); lia|]);
    intros -> Hk Heq; try lia.
  all: match goal with |- _ <= ?x + _ => pose proof (Heven x) end; lia.
Qed.

(** ** Layers left unquantised *)

Lemma sorted_range a b : StronglySorted Z.le (py_range a b).
Proof.
  remember (Z.to_nat (b - a)) as k eqn:Hk. revert a Hk.
  induction k as [|k IH]; intros a Hk; [rewrite py_range_nil by lia; constructor|].
  rewrite py_range_cons by lia. constructor; [apply IH; lia|].
  apply Forall_forall. intros x. rewrite elem_of_py_range. lia.
Qed.

Lemma StronglySorted_app_le (l1 l2 : list Z) :
  StronglySorted Z.le l1 -> StronglySorted Z.le l2 ->
  (forall x y, x ∈ l1 -> y ∈ l2 -> x <= y) -> StronglySorted Z.le (l1 ++ l2).
Proof.
  intros H1 H2. induction H1 as [|x l H1 IH Hx]; intros Hle; simpl; [done|].
  constructor; [apply IH; set_solver|]. apply Forall_app. split; [done|].
  apply Forall_forall. intros y Hy. apply Hle; [left|done].
Qed.

Lemma sorted_set_id l : NoDup l -> StronglySorted Z.le l -> sorted_set l = l.
Proof.
  intros Hnd Hs. unfold sorted_set.
  apply (StronglySorted_unique Z.le); [apply Sorted_StronglySorted; [apply _|]|done|].
  - apply Sorted_merge_sort. apply _.
  - rewrite merge_sort_Permutation. apply NoDup_Permutation; [apply NoDup_remove_dups|done|].
    intros x. apply elem_of_remove_dups.
Qed.

(** Boundary protection.  With [m] the smaller of [n] and half the layers, the
    layers left unquantised are the first [m] and the last [m], in order and
    without repetition: [2 * m] layers, so that a model of [2 * n] layers or fewer
    (an even number) is not quantised at all. *)
Theorem boundary_skip_layers_spec num_layers n :
  0 < n -> 0 < num_layers ->
  let m := Z.min n (num_layers / 2) in
  get_boundary_skip_layers num_layers n
    = pretty <$> py_range 0 m ++ py_range (num_layers - m) num_layers
  /\ NoDup (get_boundary_skip_layers num_layers n)
  /\ len (get_boundary_skip_layers num_layers n) = 2 * m
  /\ (num_layers <= 2 * n -> num_layers mod 2 = 0 ->
      len (get_boundary_skip_layers num_layers n) = num_layers).
Proof.
  intros Hn HL m. unfold get_boundary_skip_layers.
  rewrite (proj2 (Z.leb_gt n 0)), (proj2 (Z.leb_gt num_layers 0)) by done. simpl. fold m.
  assert (2 * m <= num_layers /\ 0 <= m) as Hm.
  { unfold m. pose proof (Z.div_mod num_layers 2). pose proof (Z.mod_pos_bound num_layers 2). lia. }
  assert (NoDup (py_range 0 m ++ py_range (num_layers - m) num_layers)) as Hnd.
  { apply NoDup_app. split_and!; [apply NoDup_py_range| |apply NoDup_py_range].
    intros x. rewrite !elem_of_py_range. lia. }
  rewrite sorted_set_id; [|done|].
  2: { apply StronglySorted_app_le; [apply sorted_range..|].
       intros x y. rewrite !elem_of_py_range. lia. }
  assert (len (pretty <$> py_range 0 m ++ py_range (num_layers - m) num_layers) = 2 * m) as Hlen.
  { unfold len. rewrite length_fmap.
    change (Z.of_nat (length ?l)) with (len l). rewrite len_app, !len_py_range. lia. }
  split_and!; [done| |done|].
  - apply NoDup_fmap_2; [apply _|done].
  - rewrite Hlen. intros Hle Heven. unfold m. pose proof (Z.div_mod num_layers 2). lia.
Qed.

Lemma boundary_skip_layers_spec_witness :
  get_boundary_skip_layers 6 2 = ["0"; "1"; "4"; "5"]
  /\ len (get_boundary_skip_layers 4 2) = 4.
Proof.
  destruct (boundary_skip_layers_spec 6 2 eq_refl eq_refl) as [-> _].
  split; [reflexivity|]. by apply (boundary_skip_layers_spec 4 2).
Defined.

Lemma slot_size_spec_witness :
  from_cache_dtype "turboquant_4bit_nc" 128
    = inr {| head_dim := 128; key_quant_bits := 4; value_quant_bits := 4; norm_correction := true |}
  /\ compute_paper_slot_size 128 <= slot_size_aligned
       {| head_dim := 128; key_quant_bits := 4; value_quant_bits := 4; norm_correction := true |}.
Proof.
  split; [reflexivity|].
  eapply (slot_size_spec "turboquant_4bit_nc" 128); [done|reflexivity|done|simpl; lia|done].
Defined.

(** ** The codec *)

Definition is_byte (b : Z) : Prop := 0 <= b < 256.

(** Bits below [k] and bits from [k] on do not meet. *)
Lemma lor_disjoint a b k : 0 <= k -> 0 <= a < 2 ^ k -> Z.lor a (Z.shiftl b k) = a + b * 2 ^ k.
Proof.
  intros Hk Ha. rewrite <- Z.shiftl_mul_pow2 by done.
  assert (Z.land a (Z.shiftl b k) = 0) as Hland.
  { apply Z.bits_inj'. intros n Hn. rewrite Z.land_spec, Z.bits_0.
    destruct (Z.lt_ge_cases n k) as [Hlt|Hge].
    - by rewrite Z.shiftl_spec_low, andb_false_r.
    - assert (Z.testbit a n = false) as ->; [|done].
      destruct (decide (a = 0)) as [->|]; [apply Z.bits_0|].
      apply Z.bits_above_log2; [lia|]. apply Z.log2_lt_pow2; [lia|].
      pose proof (Z.pow_le_mono_r 2 k n). lia. }
  rewrite (Z.add_nocarry_lxor _ _ Hland). symmetry. by apply Z.lxor_lor.
Qed.

Lemma land_15 x : Z.land x 15 = x mod 16.
Proof. change 15 with (Z.ones 4). by rewrite Z.land_ones. Qed.

Lemma land_255 x : Z.land x 255 = x mod 256.
Proof. change 255 with (Z.ones 8). by rewrite Z.land_ones. Qed.

(** Two indices of four bits fit in a byte and come back. *)
Lemma nibbles a b :
  0 <= a < 16 -> 0 <= b < 16 ->
  let byte := to_u8 (Z.lor (Z.land a 15) (Z.shiftl (Z.land b 15) 4)) in
  is_byte byte /\ Z.land byte 15 = a /\ Z.land (Z.shiftr byte 4) 15 = b.
Proof.
  intros Ha Hb. rewrite !land_15, lor_disjoint by (rewrite ?Z.mod_small; lia).
  rewrite (Z.mod_small a), (Z.mod_small b) by lia. unfold to_u8, is_byte.
  rewrite Z.mod_small by lia. change (2 ^ 4) with 16.
  rewrite Z.shiftr_div_pow2 by lia. change (2 ^ 4) with 16. split; [lia|]. split.
  - rewrite land_15, Z.mod_add by lia. apply Z.mod_small. lia.
  - rewrite land_15, Z.div_add, Z.div_small by lia. apply Z.mod_small. lia.
Qed.

Lemma pack_unpack indices :
  Forall (fun i => 0 <= i < 16) indices -> Nat.Even (length indices) ->
  exists packed, pack_4bit indices = inr packed /\ Forall is_byte packed
    /\ 2 * len packed = len indices
    /\ concat ((fun b => [Z.land b 15; Z.land (Z.shiftr b 4) 15]) <$> packed) = indices.
Proof.
  intros Hall [k Hk]. revert indices Hall Hk.
  induction k as [|k IH]; intros indices Hall Hk.
  { destruct indices; [|done]. exists []. by split_and!. }
  destruct indices as [|a [|b l]]; simpl in Hk; [lia|lia|].
  apply Forall_cons in Hall as [Ha [Hb Hl]%Forall_cons].
  destruct (IH l Hl ltac:(lia)) as (packed & Hp & Hbytes & Hlen & Hun).
  destruct (nibbles a b Ha Hb) as (Hbyte & Hlo & Hhi).
  cbn [pack_4bit]. rewrite Hp. eexists. split; [done|]. split_and!.
  - by constructor.
  - rewrite !len_cons. lia.
  - rewrite fmap_cons. cbn [concat app]. by rewrite Hlo, Hhi, Hun.
Qed.

Lemma pack_odd indices : Nat.Odd (length indices) -> pack_4bit indices = inl RuntimeError.
Proof.
  intros [k Hk]. revert indices Hk. induction k as [|k IH]; intros indices Hk.
  { destruct indices as [|a [|b l]]; simpl in Hk; [lia|done|lia]. }
  destruct indices as [|a [|b l]]; simpl in Hk; [lia|lia|].
  simpl. by rewrite IH by lia.
Qed.

(** Every 16-bit pattern survives the way through two bytes. *)
Lemma fp16_roundtrip i16 :
  - 32768 <= i16 < 32768 ->
  bytes_to_fp16 (fp16_to_bytes i16) = Some i16 /\ Forall is_byte (fp16_to_bytes i16).
Proof.
  intros Hi. unfold fp16_to_bytes, bytes_to_fp16. simpl.
  rewrite !land_255, Z.shiftr_div_pow2 by lia. change (2 ^ 8) with 256. unfold to_u8, is_byte.
  rewrite !Z.mod_mod by lia.
  pose proof (Z.mod_pos_bound i16 256). pose proof (Z.mod_pos_bound (i16 / 256) 256).
  split; [|repeat constructor; lia]. f_equal.
  assert (wrap16 (Z.shiftl ((i16 / 256) mod 256) 8) = Z.shiftl (i16 / 256) 8) as ->.
  { rewrite !Z.shiftl_mul_pow2 by lia. change (2 ^ 8) with 256. unfold wrap16.
    Z.to_euclidean_division_equations; lia. }
  rewrite lor_disjoint by lia. change (2 ^ 8) with 256. pose proof (Z.div_mod i16 256). lia.
Qed.

(** ** The nearest centroid *)

(** PyTorch's documentation: [bucketize] with [right=False] returns the index [i]
    with [boundaries[i-1] < y <= boundaries[i]]; [norm_f16] is an fp16 number; a row
    has [D] entries. *)
Class TorchLaws (vec : Type) `{TorchOps vec} (D : Z) := {
  rotated_len : forall x : vec, len (rotated x) = D;
  norm_f16_range : forall x : vec, - 32768 <= norm_f16 x < 32768;
  bucketize_spec : forall y boundaries, StronglySorted Qle boundaries ->
    0 <= bucketize y boundaries <= len boundaries
    /\ forall j b, boundaries !! j = Some b ->
         (Z.of_nat j < bucketize y boundaries -> (b < y)%Q)
         /\ (bucketize y boundaries <= Z.of_nat j -> (y <= b)%Q);
}.

Definition midpoint (a b : Q) : Q := ((a + b) * (1 # 2))%Q.

Lemma sort_values_id l : StronglySorted Qle l -> sort_values l = l.
Proof.
  induction 1 as [|x l Hs IH Hx]; simpl; [done|]. fold (sort_values l). rewrite IH.
  destruct l as [|y l]; simpl; [done|]. apply Forall_inv in Hx.
  by rewrite (proj2 (Qle_bool_iff x y)).
Qed.

Lemma sorted_lookup l i j a b :
  StronglySorted Qle l -> (i <= j)%nat -> l !! i = Some a -> l !! j = Some b -> (a <= b)%Q.
Proof.
  intros Hs. revert i j. induction Hs as [|x l Hs IH Hx]; intros i j Hij Hi Hj; [done|].
  destruct i as [|i], j as [|j]; simplify_eq/=; [apply Qle_refl| |lia|].
  - rewrite Forall_forall in Hx. apply Hx. by eapply list_elem_of_lookup_2.
  - apply (IH i j); [lia|done|done].
Qed.

Lemma midpoints_lookup l j :
  StronglySorted Qle l ->
  compute_midpoints l !! j = (a ← l !! j; b ← l !! S j; Some (midpoint a b)).
Proof.
  intros Hs. unfold compute_midpoints. rewrite sort_values_id by done. clear Hs.
  revert j. induction l as [|x l IH]; intros j; [by destruct j|].
  destruct l as [|y l]; [by destruct j as [|[|j]]|].
  destruct j as [|j]; [done|]. apply (IH j).
Qed.

Lemma midpoints_len l : StronglySorted Qle l -> len (compute_midpoints l) = Z.max 0 (len l - 1).
Proof.
  intros Hs. unfold compute_midpoints. rewrite sort_values_id by done.
  unfold len. rewrite length_zip_with, removelast_firstn_len, length_take.
  destruct l; simpl; lia.
Qed.

Lemma midpoints_sorted l : StronglySorted Qle l -> StronglySorted Qle (compute_midpoints l).
Proof.
  intros Hs. apply Sorted_StronglySorted; [intros x y z; apply Qle_trans|].
  apply Sorted_LocallySorted_iff. pose proof (midpoints_lookup l) as Hl.
  assert (forall j m m', compute_midpoints l !! j = Some m ->
    compute_midpoints l !! S j = Some m' -> (m <= m')%Q) as Hstep.
  { intros j m m'. rewrite !Hl by done.
    destruct (l !! j) as [a|] eqn:Ha, (l !! S j) as [b|] eqn:Hb, (l !! S (S j)) as [c|] eqn:Hc;
      simpl; try done. intros [= <-] [= <-].
    pose proof (sorted_lookup l j (S j) a b Hs ltac:(lia) Ha Hb).
    pose proof (sorted_lookup l (S j) (S (S j)) b c Hs ltac:(lia) Hb Hc). unfold midpoint. lra. }
  clear Hl. induction (compute_midpoints l) as [|m ms IH]; [constructor|].
  assert (LocallySorted Qle ms) as Hms by (apply IH; intros j; apply (Hstep (S j))).
  destruct ms as [|m' ms]; constructor; [done|]. by apply (Hstep 0%nat).
Qed.

(** Between the two midpoints around [c] no other centroid is nearer. *)
Lemma nearest_between y c c' nb :
  ((y <= midpoint c nb)%Q /\ (c <= nb)%Q /\ (nb <= c')%Q)
  \/ ((midpoint nb c < y)%Q /\ (nb <= c)%Q /\ (c' <= nb)%Q) ->
  (Qabs (y - c) <= Qabs (y - c'))%Q.
Proof.
  unfold midpoint. intros Hcase.
  apply Qabs_case; intros H1; apply Qabs_case; intros H2; destruct Hcase as [(?&?&?)|(?&?&?)]; lra.
Qed.

(** Quantisation is to a nearest centroid.  With sorted centroids and the
    boundaries [compute_midpoints] derives from them, the index stored for a
    coordinate is the index of a centroid at the least distance from it. *)
Theorem quantized_nearest {vec : Type} `{TorchOps vec} D `{!TorchLaws vec D} centroids (x : vec) j y :
  StronglySorted Qle centroids -> centroids <> [] ->
  rotated x !! j = Some y ->
  exists i c, quantized centroids (compute_midpoints centroids) x !! j = Some (Z.of_nat i)
    /\ centroids !! i = Some c
    /\ forall k c', centroids !! k = Some c' -> (Qabs (y - c) <= Qabs (y - c'))%Q.
Proof.
  intros Hs Hne Hy. set (ms := compute_midpoints centroids).
  destruct (bucketize_spec y ms (midpoints_sorted _ Hs)) as [Hb Hspec].
  unfold ms in Hb. rewrite midpoints_len in Hb by done.
  assert (0 < len centroids) as Hpos.
  { destruct centroids; [done|]. rewrite len_cons. pose proof (len_nonneg centroids). lia. }
  set (i := Z.to_nat (bucketize y ms)).
  destruct (lookup_lt_is_Some_2 centroids i) as [c Hc].
  { unfold i, len in *. fold ms in Hb. lia. }
  exists i, c. split; [|split; [done|]].
  - unfold quantized. rewrite list_lookup_fmap, Hy. simpl. f_equal. fold ms. unfold clamp, i.
    fold ms in Hb. lia.
  - intros k c' Hk. destruct (Nat.lt_trichotomy k i) as [Hlt|[->|Hgt]].
    + destruct (lookup_lt_is_Some_2 centroids (i - 1)) as [nb Hnb].
      { apply lookup_lt_Some in Hc. lia. }
      destruct (Hspec (i - 1)%nat (midpoint nb c)) as [Hm _].
      { unfold ms. rewrite midpoints_lookup by done. rewrite Hnb. simpl.
        replace (S (i - 1)) with i by lia. by rewrite Hc. }
      apply (nearest_between _ _ _ nb). right. split_and!.
      * apply Hm. unfold i. lia.
      * by eapply (sorted_lookup centroids (i - 1) i); [| |done|]; [done|lia|].
      * by eapply (sorted_lookup centroids k (i - 1)); [| |done|]; [done|lia|].
    + simplify_eq. apply Qle_refl.
    + destruct (lookup_lt_is_Some_2 centroids (S i)) as [nb Hnb].
      { apply lookup_lt_Some in Hk. lia. }
      destruct (Hspec i (midpoint c nb)) as [_ Hm].
      { unfold ms. rewrite midpoints_lookup by done. rewrite Hc. simpl. by rewrite Hnb. }
      apply (nearest_between _ _ _ nb). left. split_and!.
      * apply Hm. unfold i. lia.
      * by eapply (sorted_lookup centroids i (S i)); [| |done|]; [done|lia|].
      * by eapply (sorted_lookup centroids (S i) k); [| |done|]; [done|lia|].
Qed.

(** ** Storing and reading back *)

Section roundtrip.
#[local] Set Default Proof Using "Type*".
Context {vec : Type} `{Hops : TorchOps vec} (D : Z) `{!TorchLaws vec D}.
Context (centroids midpoints : list Q).
Implicit Types (x : vec) (kv : vec * vec) (c : tq_cache).

(** Sixteen centroids, an even head size. *)
Definition codec_ok : Prop := len centroids = 16 /\ 0 < D /\ D mod 2 = 0.

(** What the reader gets for a vector. *)
Definition decoded x : list Z * Z := (quantized centroids midpoints x, norm_f16 x).

Lemma quantized_range x :
  codec_ok -> Forall (fun i => 0 <= i < 16) (quantized centroids midpoints x).
Proof.
  intros (Hc & _). unfold quantized. rewrite Hc. apply Forall_fmap, Forall_forall.
  intros y _. simpl. unfold clamp. lia.
Qed.

Lemma quantized_len x : len (quantized centroids midpoints x) = D.
Proof. unfold quantized, len. rewrite length_fmap. apply rotated_len. Qed.

(** The bytes of a vector: half a byte per coordinate and two for the norm. *)
Lemma encode_spec x :
  codec_ok ->
  exists packed, _quantize_single_vector centroids midpoints x
      = inr (packed ++ fp16_to_bytes (norm_f16 x))
    /\ len packed = packed_bytes D MSE_BITS
    /\ unpack_4bit packed D = inr (quantized centroids midpoints x).
Proof.
  intros Hok. pose proof (quantized_len x) as Hlen. assert (Hok' := Hok).
  destruct Hok' as (_ & HD & Heven). pose proof (Z.div_mod D 2) as Hdiv.
  destruct (pack_unpack (quantized centroids midpoints x)) as (packed & Hp & _ & Hpl & Hun).
  - by apply quantized_range.
  - exists (Z.to_nat (D / 2)). unfold len in Hlen. lia.
  - exists packed. unfold _quantize_single_vector. rewrite Hp. split; [done|]. split.
    + unfold MSE_BITS. rewrite packed_bytes_half by done. lia.
    + unfold unpack_4bit. rewrite Hun, Hlen, Z.eqb_refl. done.
Qed.

Lemma py_slice_middle {A} (pre mid post : list A) a b :
  a = len pre -> b = len pre + len mid -> py_slice (pre ++ mid ++ post) a b = mid.
Proof using Type.
  intros -> ->. pose proof (len_nonneg pre). pose proof (len_nonneg mid).
  rewrite py_slice_nonneg by lia. unfold len. rewrite Nat2Z.id.
  rewrite drop_app_length. replace (Z.to_nat _) with (length mid) by lia. apply take_app_length.
Qed.

Lemma read_encoded pre packed post x base :
  codec_ok -> base = len pre -> len packed = packed_bytes D MSE_BITS ->
  unpack_4bit packed D = inr (quantized centroids midpoints x) ->
  read_vector (pre ++ (packed ++ fp16_to_bytes (norm_f16 x)) ++ post) D base = Some (decoded x).
Proof.
  intros Hok -> Hlen Hun. unfold read_vector. rewrite <- app_assoc.
  rewrite (py_slice_middle pre packed) by lia. rewrite Hun.
  rewrite (app_assoc pre packed), (py_slice_middle (pre ++ packed) (fp16_to_bytes (norm_f16 x)));
    [|rewrite len_app; lia|rewrite len_app; unfold fp16_to_bytes; rewrite !len_cons, len_nil; lia].
  by rewrite (proj1 (fp16_roundtrip (norm_f16 x) (norm_f16_range x))).
Qed.

(** A slot has the size the cache is allocated with, and gives key and value back. *)
Lemma slot_data_spec kv :
  codec_ok ->
  exists data, slot_data centroids midpoints kv = inr data
    /\ len data = compute_paper_slot_size D
    /\ read_vector data D 0 = Some (decoded kv.1)
    /\ read_vector data D (packed_bytes D MSE_BITS + 2) = Some (decoded kv.2).
Proof.
  intros Hok. unfold slot_data.
  destruct (encode_spec kv.1 Hok) as (pk & -> & Hlk & Huk).
  destruct (encode_spec kv.2 Hok) as (pv & -> & Hlv & Huv).
  eexists. split; [done|]. split_and!.
  - rewrite paper_slot_even. unfold MSE_BITS in *. rewrite !len_app, Hlk, Hlv.
    unfold fp16_to_bytes. rewrite !len_cons, len_nil. lia.
  - by apply (read_encoded [] pk _ kv.1).
  - rewrite <- (app_nil_r (pv ++ _)). apply read_encoded; try done.
    rewrite len_app. unfold fp16_to_bytes. rewrite !len_cons, len_nil. lia.
Qed.

(** ** Writing the rows *)

(** Cells outside the list are kept, those in it get the last row written. *)
Lemma put_rows_spec (rows : list (Z * Z * Z * list Z)) c :
  Forall (fun row => row.1.1.1 < tq_blocks c /\ row.1.1.2 < tq_block_size c
                     /\ row.1.2 < tq_heads c /\ len row.2 = tq_slot c) rows ->
  NoDup rows.*1 ->
  exists c', mfor rows (fun row => put_row row.1 row.2) c = Ret tt c'
    /\ tq_blocks c' = tq_blocks c /\ tq_block_size c' = tq_block_size c
    /\ tq_heads c' = tq_heads c /\ tq_slot c' = tq_slot c
    /\ (forall key data, (key, data) ∈ rows -> tq_rows c' !! key = Some data)
    /\ (forall key, key ∉ rows.*1 -> tq_rows c' !! key = tq_rows c !! key).
Proof using Type.
  revert c. induction rows as [|[[[blk off] hid] data] rows IH]; intros c Hok Hnd.
  { exists c. split_and!; try done. intros key data Hin. by apply not_elem_of_nil in Hin. }
  apply Forall_cons in Hok as [(Hb & Ho & Hh & Hl) Hok]. simpl in Hb, Ho, Hh, Hl.
  rewrite fmap_cons in Hnd. apply NoDup_cons in Hnd as [Hnin Hnd]. cbn [fst] in Hnin.
  set (key := (blk, off, hid)) in *.
  destruct (IH (set_rows (<[key := data]> (tq_rows c)) c)) as (c' & Hrun & H1 & H2 & H3 & H4 & Hin & Hout).
  { exact Hok. } { exact Hnd. }
  exists c'. split_and!; try done.
  - cbn [mfor fst snd]. unfold bind at 1, put_row at 1, bind, get. simpl.
    rewrite !(proj2 (Z.ltb_lt _ _)) by done. simpl.
    rewrite (proj2 (Z.eqb_eq _ _)) by done. simpl. exact Hrun.
  - intros k d Hk. apply elem_of_cons in Hk as [[= -> ->]|Hk]; [|by apply Hin].
    rewrite Hout by done. simpl. by rewrite lookup_insert_eq.
  - intros k Hk. rewrite fmap_cons in Hk. apply not_elem_of_cons in Hk as [Hne Hk].
    rewrite Hout by done. simpl. by rewrite lookup_insert_ne.
Qed.

(** ** The rows of a batch *)

(** The page cell of a slot. *)
Definition cell (block_size : Z) (row : Z * Z) : Z * Z * Z :=
  (row.1 / block_size, row.1 mod block_size, row.2).

Lemma batch_rows_elem (key value : list (list vec)) slots s h kv :
  (s, h, kv) ∈ batch_rows key value slots <->
  exists n i kr vr, slots !! n = Some s /\ key !! n = Some kr /\ value !! n = Some vr
    /\ h = Z.of_nat i /\ kr !! i = Some kv.1 /\ vr !! i = Some kv.2.
Proof using Type.
  unfold batch_rows. rewrite list_elem_of_In, in_concat. setoid_rewrite <- list_elem_of_In. split.
  - intros (l & Hl & Hin). apply list_elem_of_lookup in Hl as [n Hn].
    apply lookup_zip_with_Some in Hn as (s' & [kr vr] & -> & Hs & Hz).
    apply lookup_zip_with_Some in Hz as (? & ? & [= <- <-] & Hk & Hv). simpl in Hin.
    apply list_elem_of_lookup in Hin as [i Hi]. rewrite list_lookup_imap in Hi.
    destruct (zip kr vr !! i) as [[k v]|] eqn:Hkv; [|done]. simpl in Hi. simplify_eq.
    apply lookup_zip_with_Some in Hkv as (? & ? & [= <- <-] & ? & ?).
    by exists n, i, kr, vr.
  - intros (n & i & kr & vr & Hs & Hk & Hv & -> & Hki & Hvi). destruct kv as [k v]. simpl in *.
    exists (imap (fun h kv => (s, Z.of_nat h, kv)) (zip kr vr)). split.
    + apply list_elem_of_lookup. exists n. apply lookup_zip_with_Some.
      exists s, (kr, vr). split_and!; [done|done|]. apply lookup_zip_with_Some. by exists kr, vr.
    + apply list_elem_of_lookup. exists i. rewrite list_lookup_imap.
      assert (zip kr vr !! i = Some (k, v)) as ->; [|done].
      apply lookup_zip_with_Some. by exists k, v.
Qed.

(** No slot is written twice for the same head. *)
Lemma batch_rows_NoDup (key value : list (list vec)) slots :
  NoDup (filter (fun s => 0 <= s) slots) ->
  NoDup (filter (fun row => 0 <= row.1.1) (batch_rows key value slots)).*1.
Proof using Type.
  revert key value. induction slots as [|s slots IH]; intros key value Hnd; [constructor|].
  destruct key as [|kr key]; [constructor|]. destruct value as [|vr value]; [constructor|].
  change (batch_rows (kr :: key) (vr :: value) (s :: slots))
    with (imap (fun h kv => (s, Z.of_nat h, kv)) (zip kr vr) ++ batch_rows key value slots).
  rewrite filter_app, fmap_app. rewrite filter_cons in Hnd. destruct (decide (0 <= s)) as [Hs|Hs].
  - apply NoDup_cons in Hnd as [Hsn Hnd]. apply NoDup_app. split_and!; [| |by apply IH].
    + apply (sublist_NoDup _ (imap (fun h kv => (s, Z.of_nat h, kv)) (zip kr vr)).*1);
        [|apply fmap_sublist, sublist_filter].
      apply NoDup_alt. intros i j x Hi Hj. rewrite list_lookup_fmap, list_lookup_imap in Hi, Hj.
      destruct (zip kr vr !! i), (zip kr vr !! j); simplify_eq/=; lia.
    + intros x Hx Hx'. apply list_elem_of_fmap in Hx as (r & -> & Hr).
      apply list_elem_of_fmap in Hx' as (r' & Heq & Hr').
      apply list_elem_of_filter in Hr as [_ Hr]. apply list_elem_of_filter in Hr' as [_ Hr'].
      apply elem_of_lookup_imap in Hr as (i & kv & -> & _). simpl in Heq.
      destruct r' as [[s' h'] kv']. simpl in Heq. simplify_eq.
      apply batch_rows_elem in Hr' as (n & _ & _ & _ & Hn & _). apply Hsn.
      apply list_elem_of_filter. split; [done|]. by eapply list_elem_of_lookup_2.
  - assert (filter (fun row : Z * Z * (vec * vec) => 0 <= row.1.1)
              (imap (fun h kv => (s, Z.of_nat h, kv)) (zip kr vr)) = []) as ->; [|by apply IH].
    match goal with |- ?x = [] => destruct x as [|r l] eqn:E; [done|] end. exfalso.
    assert (r ∈ filter (fun row : Z * Z * (vec * vec) => 0 <= row.1.1)
              (imap (fun h kv => (s, Z.of_nat h, kv)) (zip kr vr))) as Hr by (rewrite E; left).
    apply list_elem_of_filter in Hr as [Hpos Hr].
    apply elem_of_lookup_imap in Hr as (i & kv & -> & _). done.
Qed.

Lemma mmapM_slot_data (rows : list (Z * Z * (vec * vec))) (c : tq_cache) :
  codec_ok ->
  exists datas, mmapM (fun row => data <- of_result (slot_data centroids midpoints row.2) ;;
                                  ret (row.1, data)) rows c = Ret datas c
    /\ Forall2 (fun row d => d.1 = row.1 /\ slot_data centroids midpoints row.2 = inr d.2)
         rows datas.
Proof.
  intros Hok. induction rows as [|row rows (datas & IH & Hall)]; [by exists []|].
  destruct (slot_data_spec row.2 Hok) as (data & Hd & _).
  exists ((row.1, data) :: datas). split; [|by constructor].
  cbn [mmapM]. rewrite (bind_Ret _ _ _ (row.1, data) c) by (by rewrite Hd).
  by rewrite (bind_Ret _ _ _ datas c IH).
Qed.

Lemma mfor_fmap {S A B} (g : A -> B) (f : B -> M S unit) (l : list A) s :
  mfor (g <$> l) f s = mfor l (fun a => f (g a)) s.
Proof using Type.
  revert s. induction l as [|x l IH]; intros s; [done|]. rewrite fmap_cons. cbn [mfor].
  unfold bind. destruct (f (g x) s); [apply IH|done].
Qed.

Lemma Forall2_filter_fst (rows : list (Z * Z * (vec * vec))) (datas : list (Z * Z * list Z)) R :
  Forall2 (fun row d => d.1 = row.1 /\ R row d) rows datas ->
  Forall2 (fun row d => d.1 = row.1 /\ R row d)
    (filter (fun row => 0 <= row.1.1) rows) (filter (fun row => 0 <= row.1.1) datas).
Proof using Type.
  induction 1 as [|row d rows datas [Hd HR] _ IH]; [constructor|].
  rewrite !filter_cons, Hd. case_decide; [by constructor|done].
Qed.

(** Storing a batch never fails when every slot of it is in the cache. *)
Definition batch_fits (key value : list (list vec)) (slots : list Z) (c : tq_cache) : Prop :=
  0 < tq_block_size c /\ tq_slot c = compute_paper_slot_size D
  /\ Forall (fun s => s < tq_blocks c * tq_block_size c) slots
  /\ Forall (fun row => len row <= tq_heads c) key
  /\ NoDup (filter (fun s => 0 <= s) slots).

Lemma store_run key value slots c :
  codec_ok -> batch_fits key value slots c ->
  exists c', store_turboquant_kv centroids midpoints key value slots c = Ret tt c'
    /\ tq_block_size c' = tq_block_size c
    /\ (forall s h kv, (s, h, kv) ∈ batch_rows key value slots -> 0 <= s ->
         exists data, tq_rows c' !! cell (tq_block_size c) (s, h) = Some data
           /\ slot_data centroids midpoints kv = inr data)
    /\ (forall k, (forall s h kv, (s, h, kv) ∈ batch_rows key value slots -> 0 <= s ->
                    k <> cell (tq_block_size c) (s, h)) -> tq_rows c' !! k = tq_rows c !! k).
Proof.
  intros Hok (Hbs & Hslot & Hin & Hheads & Hnd). unfold store_turboquant_kv.
  set (rows := batch_rows key value slots).
  destruct (mmapM_slot_data rows c Hok) as (datas & Hmap & Hall).
  unfold bind at 1. cbn [get]. unfold bind at 1. rewrite Hmap.
  pose proof (Forall2_filter_fst _ _ _ Hall) as Hfil.
  set (fr := filter (fun row : Z * Z * (vec * vec) => 0 <= row.1.1) rows) in *.
  set (fd := filter (fun row : Z * Z * list Z => 0 <= row.1.1) datas) in *.
  set (writes := (fun row : Z * Z * list Z => (cell (tq_block_size c) row.1, row.2)) <$> fd).
  assert (writes.*1 = cell (tq_block_size c) <$> fr.*1) as Hkeys.
  { unfold writes. rewrite <- !list_fmap_compose. clear Hmap Hall. clearbody fr fd.
    induction Hfil as [|r d ?? [Hd _] _ IH]; [done|]. rewrite !fmap_cons. simpl. rewrite Hd.
    f_equal. exact IH. }
  assert (forall d, d ∈ fd -> exists kv, (d.1, kv) ∈ rows /\ 0 <= d.1.1
            /\ slot_data centroids midpoints kv = inr d.2) as Hfd.
  { intros d [i Hi]%list_elem_of_lookup.
    destruct (Forall2_lookup_r _ _ _ _ _ Hfil Hi) as ([sh kv] & Hr & Heq & Hsd).
    apply list_elem_of_lookup_2, list_elem_of_filter in Hr as [Hpos Hr]. simpl in *.
    rewrite Heq. by exists kv. }
  assert (forall s h kv, (s, h, kv) ∈ rows -> 0 <= s -> exists data, (s, h, data) ∈ fd
            /\ slot_data centroids midpoints kv = inr data) as Hrows.
  { intros s h kv Hr Hpos.
    assert ((s, h, kv) ∈ fr) as [i Hi]%list_elem_of_lookup by (by apply list_elem_of_filter).
    destruct (Forall2_lookup_l _ _ _ _ _ Hfil Hi) as ([sh data] & Hd & Heq & Hsd).
    simpl in *. subst sh. exists data. split; [by eapply list_elem_of_lookup_2|done]. }
  destruct (put_rows_spec writes c) as (c' & Hrun & _ & Hbs' & _ & _ & Hwr & Hfr).
  - apply Forall_fmap, Forall_forall. intros d Hd.
    destruct (Hfd d Hd) as (kv & Hr & Hpos & Hsd). destruct d as [[s h] data]. simpl in *.
    destruct (slot_data_spec kv Hok) as (data' & Hsd' & Hlen & _).
    apply batch_rows_elem in Hr as (n & i & kr & vr & Hs & Hk & _ & -> & Hki & _).
    pose proof (Forall_lookup_1 _ _ _ _ Hin Hs) as Hs'.
    pose proof (Forall_lookup_1 _ _ _ _ Hheads Hk) as Hk'. simpl in Hs', Hk'. apply lookup_lt_Some in Hki.
    pose proof (Z.mod_pos_bound s (tq_block_size c) Hbs).
    split_and!; [apply Z.div_lt_upper_bound; lia|lia|unfold len in Hk'; lia|congruence].
  - rewrite Hkeys. apply NoDup_fmap_2; [|by apply batch_rows_NoDup].
    intros [s1 h1] [s2 h2] [= H1 H2 ->]. f_equal.
    rewrite (Z.div_mod s1 (tq_block_size c)), (Z.div_mod s2 (tq_block_size c)) by lia. congruence.
  - exists c'. split; [|split; [done|split]].
    + transitivity (mfor writes (fun w => put_row w.1 w.2) c); [|done]. symmetry. apply mfor_fmap.
    + intros s h kv Hr Hpos. destruct (Hrows s h kv Hr Hpos) as (data & Hd & Hsd).
      exists data. split; [|done]. apply Hwr, list_elem_of_fmap. by exists (s, h, data).
    + intros k Hk. apply Hfr. intros Hin'. rewrite Hkeys in Hin'.
      apply list_elem_of_fmap in Hin' as ([s h] & -> & Hsh).
      apply list_elem_of_fmap in Hsh as ([[s' h'] kv] & [= <- <-] & Hr).
      apply list_elem_of_filter in Hr as [Hpos Hr]. by eapply Hk.
Qed.
End roundtrip.

(** C18. What is stored is read back.  Storing a batch of keys and values whose slots
    are distinct and in the cache never fails; afterwards, for every token with a
    slot (a negative slot is padding), every head, and every sequence whose block
    table maps a position to that slot, the reader finds exactly the indices and the
    norm bits the quantiser computed for the key and for the value; every other cell
    is unchanged. *)
Theorem store_then_read {vec : Type} `{TorchOps vec} D `{!TorchLaws vec D} centroids midpoints
    (key value : list (list vec)) slots c :
  codec_ok D centroids -> batch_fits D key value slots c ->
  exists c', store_turboquant_kv centroids midpoints key value slots c = Ret tt c'
    /\ (forall n h s kr vr k v bt table b pos block,
         slots !! n = Some s -> 0 <= s ->
         key !! n = Some kr -> value !! n = Some vr -> kr !! h = Some k -> vr !! h = Some v ->
         py_index bt b = Some table -> 0 <= pos ->
         table !! Z.to_nat (pos / tq_block_size c) = Some block ->
         s = block * tq_block_size c + pos mod tq_block_size c ->
         read_kv c' bt D b pos (Z.of_nat h)
         = Some ((quantized centroids midpoints k, norm_f16 k),
                 (quantized centroids midpoints v, norm_f16 v)))
    /\ (forall blk off h, 0 <= off < tq_block_size c ->
         blk * tq_block_size c + off ∉ slots ->
         tq_rows c' !! (blk, off, h) = tq_rows c !! (blk, off, h)).
Proof.
  intros Hok Hfits. destruct (store_run D centroids midpoints key value slots c Hok Hfits)
    as (c' & Hrun & Hbs & Hwr & Hfr). destruct Hfits as (Hpos & _).
  exists c'. split; [done|]. split.
  - intros n h s kr vr k v bt table b pos block Hs Hs0 Hk Hv Hkh Hvh Hbt Hp Htab ->.
    destruct (Hwr (block * tq_block_size c + pos mod tq_block_size c) (Z.of_nat h) (k, v))
      as (data & Hdata & Hsd); [|done|].
    { apply batch_rows_elem. by exists n, h, kr, vr. }
    destruct (slot_data_spec D centroids midpoints (k, v) Hok) as (data' & Hsd' & _ & Hrk & Hrv).
    assert (data' = data) as -> by congruence.
    pose proof (Z.mod_pos_bound pos _ Hpos) as Hmod.
    unfold cell in Hdata. simpl in Hdata.
    rewrite Z.div_add_l, (Z.div_small (pos mod _)), Z.add_0_r in Hdata by lia.
    rewrite Z.add_comm, Z.mod_add, Z.mod_mod in Hdata by lia.
    assert (slot_row c' bt b pos (Z.of_nat h) = Some data) as Hrow.
    { unfold slot_row. rewrite Hbt, Hbs. simpl.
      apply lookup_lt_Some in Htab as Hlt.
      assert (0 <= pos / tq_block_size c) by (apply Z.div_pos; lia).
      rewrite Z.min_l by (unfold len; lia). rewrite py_index_nonneg, Htab by lia. exact Hdata. }
    unfold read_kv. rewrite Hrow. simpl. rewrite Hrk. simpl. rewrite Hrv. done.
  - intros blk off h Hoff Hnin. apply Hfr. intros s h' kv Hr _ Heq. apply Hnin.
    unfold cell in Heq. simpl in Heq. injection Heq as -> -> _.
    rewrite Z.mul_comm, <- Z.div_mod by lia.
    apply batch_rows_elem in Hr as (n & _ & _ & _ & Hs & _). by eapply list_elem_of_lookup_2.
Qed.

(** ** The optimised reader *)

(** [t.shape[i]] *)
Definition shape_at (shape : list Z) (i : Z) : exn + Z :=
  match py_index shape i with Some n => inr n | None => inl IndexError end.

(** The shapes along [_ensure_on_device] and the first lines of [dequant_paged_kv]:
    [pi_centroids = centroids @ Pi], then B, Hk, D and the block size.  [torch_matmul]
    gives the shape of a matrix product. *)
Definition compute_pi_centroids (torch_matmul : list Z -> list Z -> exn + list Z)
    (centroids Pi : list Z) : exn + list Z := torch_matmul centroids Pi.

Definition dequant_dims (kv_cache block_table pi_centroids : list Z) : exn + (Z * Z * Z * Z) :=
  match shape_at block_table 0 with
  | inl e => inl e
  | inr B =>
      match shape_at kv_cache 2 with
      | inl e => inl e
      | inr Hk =>
          match shape_at pi_centroids 1 with
          | inl e => inl e
          | inr D =>
              match shape_at kv_cache 1 with
              | inl e => inl e
              | inr block_size => inr (B, Hk, D, block_size)
              end
          end
      end
  end.

(** From the centroids of [create_weights] (a vector of 16) and the rotation of
    [build_random_rotation] to the reader. *)
Definition dequant_entry (torch_matmul : list Z -> list Z -> exn + list Z) (head_dim : Z)
    (kv_cache block_table : list Z) : exn + (Z * Z * Z * Z) :=
  match compute_pi_centroids torch_matmul [2 ^ MSE_BITS] [head_dim; head_dim] with
  | inl e => inl e
  | inr pi_centroids => dequant_dims kv_cache block_table pi_centroids
  end.

(** C39. The optimised reader of the Ascend port cannot run.  [_ensure_on_device]
    multiplies the vector of 16 centroids by the rotation matrix, which PyTorch
    rejects for every head size but 16; for head size 16 the product is a vector,
    and the reader asks for its second dimension.  So the first forward of a layer
    raises, or decoding and chunked prefill do. *)
Theorem dequant_never_runs torch_matmul head_dim kv_cache block_table :
  (forall n m k, torch_matmul [n] [m; k] = if n =? m then inr [k] else inl RuntimeError) ->
  3 <= len kv_cache -> 1 <= len block_table ->
  dequant_entry torch_matmul head_dim kv_cache block_table
  = inl (if head_dim =? 16 then IndexError else RuntimeError).
Proof.
  intros Hmm Hkv Hbt. unfold dequant_entry, compute_pi_centroids. rewrite Hmm.
  change (2 ^ MSE_BITS) with 16. rewrite Z.eqb_sym.
  destruct (Z.eqb_spec head_dim 16); [|done]. unfold dequant_dims, shape_at.
  destruct block_table as [|B bt]; [done|]. destruct kv_cache as [|a [|b [|d kv]]];
    [rewrite ?len_cons, len_nil in Hkv; lia..|].
  rewrite !py_index_nonneg by lia. reflexivity.
Qed.

Lemma dequant_never_runs_witness :
  let torch_matmul (a b : list Z) : exn + list Z :=
    match a, b with
    | [n], [m; k] => if n =? m then inr [k] else inl RuntimeError
    | _, _ => inl RuntimeError
    end in
  dequant_entry torch_matmul 128 [4; 16; 8; 132] [1; 4] = inl RuntimeError.
Proof. intros torch_matmul. by apply (dequant_never_runs torch_matmul 128). Defined.

(** ** A concrete quantiser: two coordinates, sixteen integer centroids *)

Fixpoint demo_bucketize (y : Q) (boundaries : list Q) : Z :=
  match boundaries with
  | [] => 0
  | b :: boundaries => if Qle_bool y b then 0 else 1 + demo_bucketize y boundaries
  end.

Definition demo_ops : TorchOps (Q * Q) :=
  {| rotated x := [x.1; x.2]; norm_f16 _ := 15360; bucketize := demo_bucketize |}.

Lemma demo_laws : TorchLaws (Q * Q) (H := demo_ops) 2.
Proof.
  split; [done|done|]. intros y bs Hs. simpl.
  induction Hs as [|b bs Hs IH Hb]; [split; [done|intros j b Hj; done]|].
  cbn [demo_bucketize]. rewrite len_cons. pose proof (len_nonneg bs).
  destruct (Qle_bool y b) eqn:E.
  - apply Qle_bool_iff in E. split; [lia|]. intros j x Hj. split; [lia|]. intros _.
    destruct j as [|j]; simplify_eq/=; [done|].
    rewrite Forall_forall in Hb. eapply Qle_trans; [exact E|]. apply Hb.
    by eapply list_elem_of_lookup_2.
  - assert (b < y)%Q as Hlt.
    { apply Qnot_le_lt. intros Hle. apply Qle_bool_iff in Hle. congruence. }
    destruct IH as [IH1 IH2]. split; [lia|]. intros j x Hj.
    destruct j as [|j]; simplify_eq/=; [split; [done|lia]|].
    destruct (IH2 j x Hj) as [I1 I2]. split; intros ?; [apply I1; lia|apply I2; lia].
Qed.

Definition demo_centroids : list Q := inject_Z <$> py_range (-8) 8.

Lemma demo_centroids_sorted : StronglySorted Qle demo_centroids.
Proof.
  unfold demo_centroids. induction (sorted_range (-8) 8) as [|x l Hs IH Hx]; [constructor|].
  rewrite fmap_cons. constructor; [done|]. apply Forall_fmap. eapply Forall_impl; [exact Hx|].
  intros y Hy. simpl. by rewrite <- Zle_Qle.
Qed.

Lemma quantized_nearest_witness :
  exists i, quantized (H := demo_ops) demo_centroids (compute_midpoints demo_centroids)
              (7 # 3, 0)%Q !! 0%nat = Some (Z.of_nat i) /\ i = 10%nat.
Proof.
  destruct (quantized_nearest (H := demo_ops) (TorchLaws0 := demo_laws) 2 demo_centroids
    (7 # 3, 0)%Q 0 (7 # 3)%Q demo_centroids_sorted) as (i & c & Hi & _ & _);
    [done|reflexivity|].
  exists i. split; [exact Hi|].
  assert (quantized (H := demo_ops) demo_centroids (compute_midpoints demo_centroids)
            (7 # 3, 0)%Q !! 0%nat = Some 10) as Hc by (vm_compute; reflexivity).
  rewrite Hc in Hi. apply (inj Some) in Hi. lia.
Defined.

Definition demo_tq_cache : tq_cache :=
  {| tq_blocks := 4; tq_block_size := 2; tq_heads := 1; tq_slot := compute_paper_slot_size 2;
     tq_rows := ∅ |}.

(** Three tokens, the second one padding; the third goes to block 3, offset 1. *)
Lemma store_then_read_witness :
  exists c', store_turboquant_kv (H := demo_ops) demo_centroids (compute_midpoints demo_centroids)
               [[(1, 2)%Q]; [(0, 0)%Q]; [(7 # 3, -5)%Q]] [[(3, 4)%Q]; [(0, 0)%Q]; [(1, -8)%Q]]
               [0; -1; 7] demo_tq_cache = Ret tt c'
    /\ read_kv c' [[1; 3]] 2 0 3 0 = Some (([10; 3], 15360), ([9; 0], 15360)).
Proof.
  assert (codec_ok 2 demo_centroids) as Hok by (split_and!; done).
  destruct (store_then_read (H := demo_ops) (TorchLaws0 := demo_laws) 2 demo_centroids
    (compute_midpoints demo_centroids)
    [[(1, 2)%Q]; [(0, 0)%Q]; [(7 # 3, -5)%Q]] [[(3, 4)%Q]; [(0, 0)%Q]; [(1, -8)%Q]]
    [0; -1; 7] demo_tq_cache Hok) as (c' & Hrun & Hread & _).
  - split_and!; [done|done|apply (bool_decide_unpack _); vm_compute; exact I..].
  - exists c'. split; [exact Hrun|].
    refine (eq_trans (Hread 2%nat 0%nat 7 [(7 # 3, -5)%Q] [(1, -8)%Q] (7 # 3, -5)%Q (1, -8)%Q
      [[1; 3]] [1; 3] 0 3 3 _ _ _ _ _ _ _ _ _ _) _); try reflexivity; done.
Defined.
